(** * Kalina chat-turn orchestrator: a shallow embedding of
      [hooks/useChatHandler.ts] and of the retry handler of [App.tsx].

    The React hook keeps the conversation list in state and mutates it only
    through functional updaters ([updateConversationMessages (cid, prev => ...)]).
    The embedding keeps that shape: every updater of the source is a pure
    function on [list Msg.t], the async handler [handleSendMessage] is a
    program in a small state monad over the hook's state, and everything the
    handler awaits (planner, URL reader, chemistry service, model stream,
    timers, the user's cancel button) is read from an explicit environment
    script. *)

From Stdlib Require Import String Ascii List ZArith Bool Lia Arith.
Import ListNotations.
Local Open Scope string_scope.
Local Open Scope list_scope.

Set Implicit Arguments.

(** ** JavaScript strings

    Strings are sequences of code units; the embedding uses [string], i.e. the
    code units below 256.  [is_space] is the white-space class shared by
    [String.prototype.trim] and the regular-expression class [\s] on that
    range: TAB, LF, VT, FF, CR, SPACE and NBSP. *)

Definition is_space (c : ascii) : bool :=
  let n := nat_of_ascii c in
  (Nat.eqb n 9 || Nat.eqb n 10 || Nat.eqb n 11 || Nat.eqb n 12 ||
   Nat.eqb n 13 || Nat.eqb n 32 || Nat.eqb n 160)%bool.

Definition LF : ascii := ascii_of_nat 10.
Definition nl : string := String LF EmptyString.

(** the class [[^\n]] *)
Definition not_newline (c : ascii) : bool := negb (Ascii.eqb c LF).

Definition is_empty (s : string) : bool :=
  match s with EmptyString => true | String _ _ => false end.

(** JS truthiness of a string: [!!s] *)
Definition truthy (s : string) : bool := negb (is_empty s).

Fixpoint trimStart (s : string) : string :=
  match s with
  | EmptyString => EmptyString
  | String c s' => if is_space c then trimStart s' else s
  end.

Fixpoint trimEnd (s : string) : string :=
  match s with
  | EmptyString => EmptyString
  | String c s' =>
      let r := trimEnd s' in
      if (is_space c && is_empty r)%bool then EmptyString else String c r
  end.

(** [s.trim()] *)
Definition trim (s : string) : string := trimEnd (trimStart s).

(** [s.startsWith(p)], returning what follows the prefix *)
Fixpoint strip_prefix (p s : string) : option string :=
  match p, s with
  | EmptyString, _ => Some s
  | String a p', String b s' => if Ascii.eqb a b then strip_prefix p' s' else None
  | String _ _, EmptyString => None
  end.

Definition startsWith (s p : string) : bool :=
  match strip_prefix p s with Some _ => true | None => false end.

(** [s.includes('\n')] *)
Fixpoint includes_newline (s : string) : bool :=
  match s with
  | EmptyString => false
  | String c s' => (Ascii.eqb c LF || includes_newline s')%bool
  end.

(** ** The two regular expressions of the stream loop

    Both patterns are anchored at the start of the text and are sequences of
    literals, greedy repetitions of a character class, and an optional
    character.  [rx_match] is the backtracking matcher for such sequences:
    a greedy repetition first takes as much as it can and gives characters
    back one at a time when the rest of the pattern fails. *)

Inductive rx : Type :=
| RLit (lit : string)                (* literal text *)
| RStar (cls : ascii -> bool)        (* [cls*], greedy *)
| RCapPlus (cls : ascii -> bool)     (* [(cls+)], greedy, capturing *)
| ROpt (c : ascii).                  (* [c?], greedy *)

Section Greedy.
Variable R : Type.
Variable cls : ascii -> bool.
(** continuation: text taken by the repetition, text left *)
Variable K : string -> string -> option R.

Fixpoint greedy (taken s : string) : option R :=
  match s with
  | String c s' =>
      if cls c then
        match greedy (taken ++ String c EmptyString) s' with
        | Some r => Some r
        | None => K taken s
        end
      else K taken s
  | EmptyString => K taken s
  end.
End Greedy.

(** result: the capture group (if the pattern has one and it took part in the
    match) and the text after the match *)
Fixpoint rx_match (p : list rx) (cap : option string) (s : string)
  : option (option string * string) :=
  match p with
  | [] => Some (cap, s)
  | RLit lit :: k =>
      match strip_prefix lit s with
      | Some rest => rx_match k cap rest
      | None => None
      end
  | RStar cls :: k => greedy cls (fun _ rest => rx_match k cap rest) EmptyString s
  | RCapPlus cls :: k =>
      greedy cls
        (fun taken rest =>
           if is_empty taken then None else rx_match k (Some taken) rest)
        EmptyString s
  | ROpt c :: k =>
      match s with
      | String c' s' =>
          if Ascii.eqb c c' then
            match rx_match k cap s' with
            | Some r => Some r
            | None => rx_match k cap s
            end
          else rx_match k cap s
      | EmptyString => rx_match k cap s
      end
  end.

(** [/^\s*TITLE:\s*([^\n]+)/] *)
Definition title_regex : list rx :=
  [RStar is_space; RLit "TITLE:"; RStar is_space; RCapPlus not_newline].

(** [/^\s*TITLE:\s*[^\n]*\n?/] *)
Definition title_line_regex : list rx :=
  [RStar is_space; RLit "TITLE:"; RStar is_space; RStar not_newline; ROpt LF].

(** [text.match(title_regex)]: the first capture group of a match *)
Definition match_title (text : string) : option string :=
  match rx_match title_regex None text with
  | Some (Some g, _) => Some g
  | _ => None
  end.

(** [text.replace(title_line_regex, '')] *)
Definition strip_title_line (text : string) : string :=
  match rx_match title_line_regex None text with
  | Some (_, rest) => rest
  | None => text
  end.

Definition stop_notice : string := "*Response generation stopped.*".

(** ** Data model ([types.ts]) *)

(** [crypto.randomUUID()] values; the hook state carries the supply. *)
Definition Id : Type := nat.

Inductive MessageRole : Type := user | model.

Definition role_eqb (a b : MessageRole) : bool :=
  match a, b with
  | user, user | model, model => true
  | _, _ => false
  end.

Inductive ChatModel : Type :=
| gemini_2_5_flash | gemini_2_5_pro | gemini_2_5_flash_lite
| gemini_2_0_flash | gemini_2_0_flash_lite.

Inductive Tool : Type :=
| smart | webSearch | thinking | translator | urlReader | chemistry.

(** [toolInUse?: 'url'] *)
Inductive ToolInUse : Type := url_tool.

Record Image : Type := { img_base64 : string; img_mimeType : string }.

Record FileAttachment : Type :=
  { file_base64 : string; file_mimeType : string; file_name : string; file_size : Z }.

Record GroundingChunk : Type := { web_uri : string; web_title : string }.

Record ThoughtStep : Type :=
  { phase : string; step : string; concise_step : string }.

(** coordinates are scaled to integers; no property below looks at them *)
Record Atom : Type := { element : string; atom_x : Z; atom_y : Z; atom_z : Z }.
Record Bond : Type := { bond_from : nat; bond_to : nat; bond_order : nat }.

Record MoleculeData : Type := {
  atoms : list Atom;
  bonds : list Bond;
  molecularFormula : option string;
  molecularWeight : option string;
  iupacName : option string
}.

(** [ChatMessage].  An optional property is an [option]: [None] is an absent
    (or [undefined]) property.  [thinkingDuration] counts 0.1 s ticks. *)
Module Msg.

Record t : Type := mk {
  id : Id;
  role : MessageRole;
  content : string;
  timestamp : option Z;
  images : option (list Image);
  file : option FileAttachment;
  url : option string;
  modelUsed : option ChatModel;
  sources : option (list GroundingChunk);
  thoughts : option (list ThoughtStep);
  searchPlan : option (list ThoughtStep);
  thinkingDuration : option nat;
  isAnalyzingImage : option bool;
  isAnalyzingFile : option bool;
  analysisCompleted : option bool;
  isPlanning : option bool;
  toolInUse : option ToolInUse;
  isLongToolUse : option bool;
  memoryUpdated : option bool;
  inputTokens : option Z;
  outputTokens : option Z;
  systemTokens : option Z;
  generationTime : option Z;
  isMoleculeRequest : option bool;
  molecule : option MoleculeData
}.

Definition set_content (v : string) (m : t) : t :=
  mk (id m) (role m) v (timestamp m) (images m) (file m) (url m) (modelUsed m)
    (sources m) (thoughts m) (searchPlan m) (thinkingDuration m)
    (isAnalyzingImage m) (isAnalyzingFile m) (analysisCompleted m)
    (isPlanning m) (toolInUse m) (isLongToolUse m) (memoryUpdated m)
    (inputTokens m) (outputTokens m) (systemTokens m) (generationTime m)
    (isMoleculeRequest m) (molecule m).

Definition set_sources (v : option (list GroundingChunk)) (m : t) : t :=
  mk (id m) (role m) (content m) (timestamp m) (images m) (file m) (url m)
    (modelUsed m) v (thoughts m) (searchPlan m) (thinkingDuration m)
    (isAnalyzingImage m) (isAnalyzingFile m) (analysisCompleted m)
    (isPlanning m) (toolInUse m) (isLongToolUse m) (memoryUpdated m)
    (inputTokens m) (outputTokens m) (systemTokens m) (generationTime m)
    (isMoleculeRequest m) (molecule m).

Definition set_thoughts (v : option (list ThoughtStep)) (m : t) : t :=
  mk (id m) (role m) (content m) (timestamp m) (images m) (file m) (url m)
    (modelUsed m) (sources m) v (searchPlan m) (thinkingDuration m)
    (isAnalyzingImage m) (isAnalyzingFile m) (analysisCompleted m)
    (isPlanning m) (toolInUse m) (isLongToolUse m) (memoryUpdated m)
    (inputTokens m) (outputTokens m) (systemTokens m) (generationTime m)
    (isMoleculeRequest m) (molecule m).

Definition set_searchPlan (v : option (list ThoughtStep)) (m : t) : t :=
  mk (id m) (role m) (content m) (timestamp m) (images m) (file m) (url m)
    (modelUsed m) (sources m) (thoughts m) v (thinkingDuration m)
    (isAnalyzingImage m) (isAnalyzingFile m) (analysisCompleted m)
    (isPlanning m) (toolInUse m) (isLongToolUse m) (memoryUpdated m)
    (inputTokens m) (outputTokens m) (systemTokens m) (generationTime m)
    (isMoleculeRequest m) (molecule m).

Definition set_thinkingDuration (v : option nat) (m : t) : t :=
  mk (id m) (role m) (content m) (timestamp m) (images m) (file m) (url m)
    (modelUsed m) (sources m) (thoughts m) (searchPlan m) v
    (isAnalyzingImage m) (isAnalyzingFile m) (analysisCompleted m)
    (isPlanning m) (toolInUse m) (isLongToolUse m) (memoryUpdated m)
    (inputTokens m) (outputTokens m) (systemTokens m) (generationTime m)
    (isMoleculeRequest m) (molecule m).

Definition set_isAnalyzingImage (v : option bool) (m : t) : t :=
  mk (id m) (role m) (content m) (timestamp m) (images m) (file m) (url m)
    (modelUsed m) (sources m) (thoughts m) (searchPlan m) (thinkingDuration m)
    v (isAnalyzingFile m) (analysisCompleted m) (isPlanning m) (toolInUse m)
    (isLongToolUse m) (memoryUpdated m) (inputTokens m) (outputTokens m)
    (systemTokens m) (generationTime m) (isMoleculeRequest m) (molecule m).

Definition set_isAnalyzingFile (v : option bool) (m : t) : t :=
  mk (id m) (role m) (content m) (timestamp m) (images m) (file m) (url m)
    (modelUsed m) (sources m) (thoughts m) (searchPlan m) (thinkingDuration m)
    (isAnalyzingImage m) v (analysisCompleted m) (isPlanning m) (toolInUse m)
    (isLongToolUse m) (memoryUpdated m) (inputTokens m) (outputTokens m)
    (systemTokens m) (generationTime m) (isMoleculeRequest m) (molecule m).

Definition set_analysisCompleted (v : option bool) (m : t) : t :=
  mk (id m) (role m) (content m) (timestamp m) (images m) (file m) (url m)
    (modelUsed m) (sources m) (thoughts m) (searchPlan m) (thinkingDuration m)
    (isAnalyzingImage m) (isAnalyzingFile m) v (isPlanning m) (toolInUse m)
    (isLongToolUse m) (memoryUpdated m) (inputTokens m) (outputTokens m)
    (systemTokens m) (generationTime m) (isMoleculeRequest m) (molecule m).

Definition set_isPlanning (v : option bool) (m : t) : t :=
  mk (id m) (role m) (content m) (timestamp m) (images m) (file m) (url m)
    (modelUsed m) (sources m) (thoughts m) (searchPlan m) (thinkingDuration m)
    (isAnalyzingImage m) (isAnalyzingFile m) (analysisCompleted m) v
    (toolInUse m) (isLongToolUse m) (memoryUpdated m) (inputTokens m)
    (outputTokens m) (systemTokens m) (generationTime m) (isMoleculeRequest m)
    (molecule m).

Definition set_toolInUse (v : option ToolInUse) (m : t) : t :=
  mk (id m) (role m) (content m) (timestamp m) (images m) (file m) (url m)
    (modelUsed m) (sources m) (thoughts m) (searchPlan m) (thinkingDuration m)
    (isAnalyzingImage m) (isAnalyzingFile m) (analysisCompleted m)
    (isPlanning m) v (isLongToolUse m) (memoryUpdated m) (inputTokens m)
    (outputTokens m) (systemTokens m) (generationTime m) (isMoleculeRequest m)
    (molecule m).

Definition set_isLongToolUse (v : option bool) (m : t) : t :=
  mk (id m) (role m) (content m) (timestamp m) (images m) (file m) (url m)
    (modelUsed m) (sources m) (thoughts m) (searchPlan m) (thinkingDuration m)
    (isAnalyzingImage m) (isAnalyzingFile m) (analysisCompleted m)
    (isPlanning m) (toolInUse m) v (memoryUpdated m) (inputTokens m)
    (outputTokens m) (systemTokens m) (generationTime m) (isMoleculeRequest m)
    (molecule m).

Definition set_memoryUpdated (v : option bool) (m : t) : t :=
  mk (id m) (role m) (content m) (timestamp m) (images m) (file m) (url m)
    (modelUsed m) (sources m) (thoughts m) (searchPlan m) (thinkingDuration m)
    (isAnalyzingImage m) (isAnalyzingFile m) (analysisCompleted m)
    (isPlanning m) (toolInUse m) (isLongToolUse m) v (inputTokens m)
    (outputTokens m) (systemTokens m) (generationTime m) (isMoleculeRequest m)
    (molecule m).

Definition set_inputTokens (v : option Z) (m : t) : t :=
  mk (id m) (role m) (content m) (timestamp m) (images m) (file m) (url m)
    (modelUsed m) (sources m) (thoughts m) (searchPlan m) (thinkingDuration m)
    (isAnalyzingImage m) (isAnalyzingFile m) (analysisCompleted m)
    (isPlanning m) (toolInUse m) (isLongToolUse m) (memoryUpdated m) v
    (outputTokens m) (systemTokens m) (generationTime m) (isMoleculeRequest m)
    (molecule m).

Definition set_outputTokens (v : option Z) (m : t) : t :=
  mk (id m) (role m) (content m) (timestamp m) (images m) (file m) (url m)
    (modelUsed m) (sources m) (thoughts m) (searchPlan m) (thinkingDuration m)
    (isAnalyzingImage m) (isAnalyzingFile m) (analysisCompleted m)
    (isPlanning m) (toolInUse m) (isLongToolUse m) (memoryUpdated m)
    (inputTokens m) v (systemTokens m) (generationTime m)
    (isMoleculeRequest m) (molecule m).

Definition set_systemTokens (v : option Z) (m : t) : t :=
  mk (id m) (role m) (content m) (timestamp m) (images m) (file m) (url m)
    (modelUsed m) (sources m) (thoughts m) (searchPlan m) (thinkingDuration m)
    (isAnalyzingImage m) (isAnalyzingFile m) (analysisCompleted m)
    (isPlanning m) (toolInUse m) (isLongToolUse m) (memoryUpdated m)
    (inputTokens m) (outputTokens m) v (generationTime m)
    (isMoleculeRequest m) (molecule m).

Definition set_generationTime (v : option Z) (m : t) : t :=
  mk (id m) (role m) (content m) (timestamp m) (images m) (file m) (url m)
    (modelUsed m) (sources m) (thoughts m) (searchPlan m) (thinkingDuration m)
    (isAnalyzingImage m) (isAnalyzingFile m) (analysisCompleted m)
    (isPlanning m) (toolInUse m) (isLongToolUse m) (memoryUpdated m)
    (inputTokens m) (outputTokens m) (systemTokens m) v (isMoleculeRequest m)
    (molecule m).

Definition set_isMoleculeRequest (v : option bool) (m : t) : t :=
  mk (id m) (role m) (content m) (timestamp m) (images m) (file m) (url m)
    (modelUsed m) (sources m) (thoughts m) (searchPlan m) (thinkingDuration m)
    (isAnalyzingImage m) (isAnalyzingFile m) (analysisCompleted m)
    (isPlanning m) (toolInUse m) (isLongToolUse m) (memoryUpdated m)
    (inputTokens m) (outputTokens m) (systemTokens m) (generationTime m) v
    (molecule m).

Definition set_molecule (v : option MoleculeData) (m : t) : t :=
  mk (id m) (role m) (content m) (timestamp m) (images m) (file m) (url m)
    (modelUsed m) (sources m) (thoughts m) (searchPlan m) (thinkingDuration m)
    (isAnalyzingImage m) (isAnalyzingFile m) (analysisCompleted m)
    (isPlanning m) (toolInUse m) (isLongToolUse m) (memoryUpdated m)
    (inputTokens m) (outputTokens m) (systemTokens m) (generationTime m)
    (isMoleculeRequest m) v.

(** JS truthiness of an optional boolean property *)
Definition flag (b : option bool) : bool :=
  match b with Some true => true | _ => false end.

Definition has {A : Type} (o : option A) : bool :=
  match o with Some _ => true | None => false end.

End Msg.

Record ConvoSummary : Type := {
  sum_id : string;
  userMessageId : Id;
  modelMessageId : Id;
  serialNumber : nat;
  userSummary : string;
  aiSummary : string
}.

Module Convo.

Record t : Type := mk {
  id : Id;
  title : string;
  messages : list Msg.t;
  createdAt : Z;
  isPinned : option bool;
  isGeneratingTitle : option bool;
  summaries : option (list ConvoSummary)
}.

Definition set_messages (v : list Msg.t) (c : t) : t :=
  mk (id c) (title c) v (createdAt c) (isPinned c) (isGeneratingTitle c) (summaries c).

(** [{ ...c, title: v, isGeneratingTitle: false }] *)
Definition set_title (v : string) (c : t) : t :=
  mk (id c) v (messages c) (createdAt c) (isPinned c) (Some false) (summaries c).

Definition set_isGeneratingTitle (v : option bool) (c : t) : t :=
  mk (id c) (title c) (messages c) (createdAt c) (isPinned c) v (summaries c).

Definition set_summaries (v : option (list ConvoSummary)) (c : t) : t :=
  mk (id c) (title c) (messages c) (createdAt c) (isPinned c) (isGeneratingTitle c) v.

End Convo.

(** [ResponsePlan] ([services/geminiService.ts]) *)
Module Plan.

Record t : Type := mk {
  needsWebSearch : bool;
  isUrlReadRequest : bool;
  isCreatorRequest : bool;
  isCapabilitiesRequest : bool;
  needsThinking : bool;
  needsCodeContext : bool;
  isMoleculeRequest : bool;
  moleculeName : option string;
  thoughts : list ThoughtStep;
  searchPlan : list ThoughtStep
}.

(** the object [JSON.parse] yields under the response schema: the two step
    lists are not required by the schema *)
Record raw : Type := mk_raw {
  r_needsWebSearch : bool;
  r_isUrlReadRequest : bool;
  r_isCreatorRequest : bool;
  r_isCapabilitiesRequest : bool;
  r_needsThinking : bool;
  r_needsCodeContext : bool;
  r_isMoleculeRequest : bool;
  r_moleculeName : option string;
  r_thoughts : option (list ThoughtStep);
  r_searchPlan : option (list ThoughtStep)
}.

Definition set_isUrlReadRequest (v : bool) (p : t) : t :=
  mk (needsWebSearch p) v (isCreatorRequest p) (isCapabilitiesRequest p)
    (needsThinking p) (needsCodeContext p) (isMoleculeRequest p)
    (moleculeName p) (thoughts p) (searchPlan p).

Definition set_isMoleculeRequest (v : bool) (p : t) : t :=
  mk (needsWebSearch p) (isUrlReadRequest p) (isCreatorRequest p)
    (isCapabilitiesRequest p) (needsThinking p) (needsCodeContext p) v
    (moleculeName p) (thoughts p) (searchPlan p).

Definition set_thoughts (v : list ThoughtStep) (p : t) : t :=
  mk (needsWebSearch p) (isUrlReadRequest p) (isCreatorRequest p)
    (isCapabilitiesRequest p) (needsThinking p) (needsCodeContext p)
    (isMoleculeRequest p) (moleculeName p) v (searchPlan p).

End Plan.

(** [planResponse]: what the function returns for each outcome of the
    classification request.  [None] is any failure inside its [try] (network
    error, malformed JSON): the fallback plan. *)
Definition planResponse (outcome : option Plan.raw) : Plan.t :=
  match outcome with
  | Some r =>
      let tool :=
        (Plan.r_needsWebSearch r || Plan.r_isUrlReadRequest r ||
         Plan.r_isMoleculeRequest r)%bool in
      let needsThinking := if tool then false else Plan.r_needsThinking r in
      let thoughts := if tool then Some [] else Plan.r_thoughts r in
      Plan.mk (Plan.r_needsWebSearch r) (Plan.r_isUrlReadRequest r)
        (Plan.r_isCreatorRequest r) (Plan.r_isCapabilitiesRequest r)
        needsThinking (Plan.r_needsCodeContext r) (Plan.r_isMoleculeRequest r)
        (Plan.r_moleculeName r)
        (match thoughts with Some t => t | None => [] end)
        (match Plan.r_searchPlan r with Some t => t | None => [] end)
  | None =>
      let needsWebSearch := true in
      Plan.mk needsWebSearch false false false (negb needsWebSearch) false false
        None [] []
  end.

(** ** History builder and token estimate *)

Inductive Part : Type :=
| PText (text : string)
| PInlineData (data mimeType : string).

Record Content : Type := { c_role : MessageRole; c_parts : list Part }.

Definition image_part (i : Image) : Part :=
  PInlineData (img_base64 i) (img_mimeType i).

Definition message_parts (msg : Msg.t) : list Part :=
  (if truthy (Msg.content msg) then [PText (Msg.content msg)] else []) ++
  (match Msg.images msg with Some imgs => map image_part imgs | None => [] end) ++
  (match Msg.file msg with
   | Some f => [PInlineData (file_base64 f) (file_mimeType f)]
   | None => []
   end).

(** the first filter: [!(m.role === 'model' && !m.content?.trim() && !m.images)] *)
Definition valid_message (m : Msg.t) : bool :=
  negb (role_eqb (Msg.role m) model &&
        negb (truthy (trim (Msg.content m))) &&
        negb (Msg.has (Msg.images m))).

Definition transformMessagesToHistory (msgs : list Msg.t) : list Content :=
  let validMessages := filter valid_message msgs in
  filter (fun c => Nat.ltb 0 (length (c_parts c)))
    (map (fun msg => {| c_role := Msg.role msg; c_parts := message_parts msg |})
       validMessages).

(** [Math.ceil(text.length / 4)] *)
Definition estimateTokens (text : string) : Z :=
  if is_empty text then 0%Z
  else ((Z.of_nat (String.length text) + 3) / 4)%Z.

(** ** Hook state

    One record for what the hooks [useConversations], [useMemory] and
    [useChatHandler] keep between renders ([useState] values and [useRef]
    cells), the props [App] passes in, and what the embedding observes of the
    outside: the wall clock, the id supply, the requests issued so far
    ([events], newest first) and every value the conversation list has taken
    ([trace], newest first). *)

Record CodeSnippet : Type :=
  { cs_id : Id; cs_description : string; cs_language : string; cs_code : string }.

Record UserProfile : Type := { profile_name : option string }.

(** requests that leave the hook *)
Inductive Event : Type :=
| EvPlanResponse (prompt : string) (images : option (list Image))
    (file : option FileAttachment) (modelToUse : ChatModel)
| EvFetchUrl (url : string)
| EvGetMoleculeData (moleculeName : string)
| EvFindRelevantCode (prompt : string) (ids : list Id)
| EvGenerateContentStream (modelToUse : ChatModel) (isFirstTurn : bool)
    (contents : list Content)
| EvSendMessageStream (modelToUse : ChatModel) (isThinkingEnabled : bool)
    (isFirstTurn : bool) (history : list Content) (message : list Part)
| EvThinkingTickerStarted
| EvGenerateConvoSummaries (pairs : list (Msg.t * Msg.t)) (startSerial : nat)
| EvUpdateMemory (userText modelText : string)
| EvLogError (e : string).

Record World : Type := mkWorld {
  conversations : list Convo.t;
  activeConversationId : option Id;
  apiKey : option string;
  selectedTool : Tool;
  selectedChatModel : ChatModel;
  ltm : list string;
  codeMemory : list CodeSnippet;
  userProfile : UserProfile;
  activeSuggestion : option string;
  isLoading : bool;
  isThinking : bool;
  isSearchingWeb : bool;
  isLongToolUse : bool;
  error : option string;
  elapsedTime : Z;
  thinkingTimerRef : option Id;
  thinkingTimeRef : nat;
  isCancelledRef : bool;
  responseTimerRef : bool;
  responseStartTimeRef : Z;
  longToolUseTimer : option Id;
  clock : Z;
  nextId : Id;
  events : list Event;
  trace : list (list Convo.t)
}.

Definition set_conversations (v : list Convo.t) (w : World) : World :=
  mkWorld v (activeConversationId w) (apiKey w) (selectedTool w)
    (selectedChatModel w) (ltm w) (codeMemory w) (userProfile w)
    (activeSuggestion w) (isLoading w) (isThinking w) (isSearchingWeb w)
    (isLongToolUse w) (error w) (elapsedTime w) (thinkingTimerRef w)
    (thinkingTimeRef w) (isCancelledRef w) (responseTimerRef w)
    (responseStartTimeRef w) (longToolUseTimer w) (clock w) (nextId w)
    (events w) (trace w).

Definition set_activeConversationId (v : option Id) (w : World) : World :=
  mkWorld (conversations w) v (apiKey w) (selectedTool w)
    (selectedChatModel w) (ltm w) (codeMemory w) (userProfile w)
    (activeSuggestion w) (isLoading w) (isThinking w) (isSearchingWeb w)
    (isLongToolUse w) (error w) (elapsedTime w) (thinkingTimerRef w)
    (thinkingTimeRef w) (isCancelledRef w) (responseTimerRef w)
    (responseStartTimeRef w) (longToolUseTimer w) (clock w) (nextId w)
    (events w) (trace w).

Definition set_ltm (v : list string) (w : World) : World :=
  mkWorld (conversations w) (activeConversationId w) (apiKey w)
    (selectedTool w) (selectedChatModel w) v (codeMemory w) (userProfile w)
    (activeSuggestion w) (isLoading w) (isThinking w) (isSearchingWeb w)
    (isLongToolUse w) (error w) (elapsedTime w) (thinkingTimerRef w)
    (thinkingTimeRef w) (isCancelledRef w) (responseTimerRef w)
    (responseStartTimeRef w) (longToolUseTimer w) (clock w) (nextId w)
    (events w) (trace w).

Definition set_codeMemory (v : list CodeSnippet) (w : World) : World :=
  mkWorld (conversations w) (activeConversationId w) (apiKey w)
    (selectedTool w) (selectedChatModel w) (ltm w) v (userProfile w)
    (activeSuggestion w) (isLoading w) (isThinking w) (isSearchingWeb w)
    (isLongToolUse w) (error w) (elapsedTime w) (thinkingTimerRef w)
    (thinkingTimeRef w) (isCancelledRef w) (responseTimerRef w)
    (responseStartTimeRef w) (longToolUseTimer w) (clock w) (nextId w)
    (events w) (trace w).

Definition set_userProfile (v : UserProfile) (w : World) : World :=
  mkWorld (conversations w) (activeConversationId w) (apiKey w)
    (selectedTool w) (selectedChatModel w) (ltm w) (codeMemory w) v
    (activeSuggestion w) (isLoading w) (isThinking w) (isSearchingWeb w)
    (isLongToolUse w) (error w) (elapsedTime w) (thinkingTimerRef w)
    (thinkingTimeRef w) (isCancelledRef w) (responseTimerRef w)
    (responseStartTimeRef w) (longToolUseTimer w) (clock w) (nextId w)
    (events w) (trace w).

Definition set_activeSuggestion (v : option string) (w : World) : World :=
  mkWorld (conversations w) (activeConversationId w) (apiKey w)
    (selectedTool w) (selectedChatModel w) (ltm w) (codeMemory w)
    (userProfile w) v (isLoading w) (isThinking w) (isSearchingWeb w)
    (isLongToolUse w) (error w) (elapsedTime w) (thinkingTimerRef w)
    (thinkingTimeRef w) (isCancelledRef w) (responseTimerRef w)
    (responseStartTimeRef w) (longToolUseTimer w) (clock w) (nextId w)
    (events w) (trace w).

Definition set_isLoading (v : bool) (w : World) : World :=
  mkWorld (conversations w) (activeConversationId w) (apiKey w)
    (selectedTool w) (selectedChatModel w) (ltm w) (codeMemory w)
    (userProfile w) (activeSuggestion w) v (isThinking w) (isSearchingWeb w)
    (isLongToolUse w) (error w) (elapsedTime w) (thinkingTimerRef w)
    (thinkingTimeRef w) (isCancelledRef w) (responseTimerRef w)
    (responseStartTimeRef w) (longToolUseTimer w) (clock w) (nextId w)
    (events w) (trace w).

Definition set_isThinking (v : bool) (w : World) : World :=
  mkWorld (conversations w) (activeConversationId w) (apiKey w)
    (selectedTool w) (selectedChatModel w) (ltm w) (codeMemory w)
    (userProfile w) (activeSuggestion w) (isLoading w) v (isSearchingWeb w)
    (isLongToolUse w) (error w) (elapsedTime w) (thinkingTimerRef w)
    (thinkingTimeRef w) (isCancelledRef w) (responseTimerRef w)
    (responseStartTimeRef w) (longToolUseTimer w) (clock w) (nextId w)
    (events w) (trace w).

Definition set_isSearchingWeb (v : bool) (w : World) : World :=
  mkWorld (conversations w) (activeConversationId w) (apiKey w)
    (selectedTool w) (selectedChatModel w) (ltm w) (codeMemory w)
    (userProfile w) (activeSuggestion w) (isLoading w) (isThinking w) v
    (isLongToolUse w) (error w) (elapsedTime w) (thinkingTimerRef w)
    (thinkingTimeRef w) (isCancelledRef w) (responseTimerRef w)
    (responseStartTimeRef w) (longToolUseTimer w) (clock w) (nextId w)
    (events w) (trace w).

Definition set_isLongToolUse (v : bool) (w : World) : World :=
  mkWorld (conversations w) (activeConversationId w) (apiKey w)
    (selectedTool w) (selectedChatModel w) (ltm w) (codeMemory w)
    (userProfile w) (activeSuggestion w) (isLoading w) (isThinking w)
    (isSearchingWeb w) v (error w) (elapsedTime w) (thinkingTimerRef w)
    (thinkingTimeRef w) (isCancelledRef w) (responseTimerRef w)
    (responseStartTimeRef w) (longToolUseTimer w) (clock w) (nextId w)
    (events w) (trace w).

Definition set_error (v : option string) (w : World) : World :=
  mkWorld (conversations w) (activeConversationId w) (apiKey w)
    (selectedTool w) (selectedChatModel w) (ltm w) (codeMemory w)
    (userProfile w) (activeSuggestion w) (isLoading w) (isThinking w)
    (isSearchingWeb w) (isLongToolUse w) v (elapsedTime w)
    (thinkingTimerRef w) (thinkingTimeRef w) (isCancelledRef w)
    (responseTimerRef w) (responseStartTimeRef w) (longToolUseTimer w)
    (clock w) (nextId w) (events w) (trace w).

Definition set_elapsedTime (v : Z) (w : World) : World :=
  mkWorld (conversations w) (activeConversationId w) (apiKey w)
    (selectedTool w) (selectedChatModel w) (ltm w) (codeMemory w)
    (userProfile w) (activeSuggestion w) (isLoading w) (isThinking w)
    (isSearchingWeb w) (isLongToolUse w) (error w) v (thinkingTimerRef w)
    (thinkingTimeRef w) (isCancelledRef w) (responseTimerRef w)
    (responseStartTimeRef w) (longToolUseTimer w) (clock w) (nextId w)
    (events w) (trace w).

Definition set_thinkingTimerRef (v : option Id) (w : World) : World :=
  mkWorld (conversations w) (activeConversationId w) (apiKey w)
    (selectedTool w) (selectedChatModel w) (ltm w) (codeMemory w)
    (userProfile w) (activeSuggestion w) (isLoading w) (isThinking w)
    (isSearchingWeb w) (isLongToolUse w) (error w) (elapsedTime w) v
    (thinkingTimeRef w) (isCancelledRef w) (responseTimerRef w)
    (responseStartTimeRef w) (longToolUseTimer w) (clock w) (nextId w)
    (events w) (trace w).

Definition set_thinkingTimeRef (v : nat) (w : World) : World :=
  mkWorld (conversations w) (activeConversationId w) (apiKey w)
    (selectedTool w) (selectedChatModel w) (ltm w) (codeMemory w)
    (userProfile w) (activeSuggestion w) (isLoading w) (isThinking w)
    (isSearchingWeb w) (isLongToolUse w) (error w) (elapsedTime w)
    (thinkingTimerRef w) v (isCancelledRef w) (responseTimerRef w)
    (responseStartTimeRef w) (longToolUseTimer w) (clock w) (nextId w)
    (events w) (trace w).

Definition set_isCancelledRef (v : bool) (w : World) : World :=
  mkWorld (conversations w) (activeConversationId w) (apiKey w)
    (selectedTool w) (selectedChatModel w) (ltm w) (codeMemory w)
    (userProfile w) (activeSuggestion w) (isLoading w) (isThinking w)
    (isSearchingWeb w) (isLongToolUse w) (error w) (elapsedTime w)
    (thinkingTimerRef w) (thinkingTimeRef w) v (responseTimerRef w)
    (responseStartTimeRef w) (longToolUseTimer w) (clock w) (nextId w)
    (events w) (trace w).

Definition set_responseTimerRef (v : bool) (w : World) : World :=
  mkWorld (conversations w) (activeConversationId w) (apiKey w)
    (selectedTool w) (selectedChatModel w) (ltm w) (codeMemory w)
    (userProfile w) (activeSuggestion w) (isLoading w) (isThinking w)
    (isSearchingWeb w) (isLongToolUse w) (error w) (elapsedTime w)
    (thinkingTimerRef w) (thinkingTimeRef w) (isCancelledRef w) v
    (responseStartTimeRef w) (longToolUseTimer w) (clock w) (nextId w)
    (events w) (trace w).

Definition set_responseStartTimeRef (v : Z) (w : World) : World :=
  mkWorld (conversations w) (activeConversationId w) (apiKey w)
    (selectedTool w) (selectedChatModel w) (ltm w) (codeMemory w)
    (userProfile w) (activeSuggestion w) (isLoading w) (isThinking w)
    (isSearchingWeb w) (isLongToolUse w) (error w) (elapsedTime w)
    (thinkingTimerRef w) (thinkingTimeRef w) (isCancelledRef w)
    (responseTimerRef w) v (longToolUseTimer w) (clock w) (nextId w)
    (events w) (trace w).

Definition set_longToolUseTimer (v : option Id) (w : World) : World :=
  mkWorld (conversations w) (activeConversationId w) (apiKey w)
    (selectedTool w) (selectedChatModel w) (ltm w) (codeMemory w)
    (userProfile w) (activeSuggestion w) (isLoading w) (isThinking w)
    (isSearchingWeb w) (isLongToolUse w) (error w) (elapsedTime w)
    (thinkingTimerRef w) (thinkingTimeRef w) (isCancelledRef w)
    (responseTimerRef w) (responseStartTimeRef w) v (clock w) (nextId w)
    (events w) (trace w).

Definition set_clock (v : Z) (w : World) : World :=
  mkWorld (conversations w) (activeConversationId w) (apiKey w)
    (selectedTool w) (selectedChatModel w) (ltm w) (codeMemory w)
    (userProfile w) (activeSuggestion w) (isLoading w) (isThinking w)
    (isSearchingWeb w) (isLongToolUse w) (error w) (elapsedTime w)
    (thinkingTimerRef w) (thinkingTimeRef w) (isCancelledRef w)
    (responseTimerRef w) (responseStartTimeRef w) (longToolUseTimer w) v
    (nextId w) (events w) (trace w).

Definition set_nextId (v : Id) (w : World) : World :=
  mkWorld (conversations w) (activeConversationId w) (apiKey w)
    (selectedTool w) (selectedChatModel w) (ltm w) (codeMemory w)
    (userProfile w) (activeSuggestion w) (isLoading w) (isThinking w)
    (isSearchingWeb w) (isLongToolUse w) (error w) (elapsedTime w)
    (thinkingTimerRef w) (thinkingTimeRef w) (isCancelledRef w)
    (responseTimerRef w) (responseStartTimeRef w) (longToolUseTimer w)
    (clock w) v (events w) (trace w).

Definition set_events (v : list Event) (w : World) : World :=
  mkWorld (conversations w) (activeConversationId w) (apiKey w)
    (selectedTool w) (selectedChatModel w) (ltm w) (codeMemory w)
    (userProfile w) (activeSuggestion w) (isLoading w) (isThinking w)
    (isSearchingWeb w) (isLongToolUse w) (error w) (elapsedTime w)
    (thinkingTimerRef w) (thinkingTimeRef w) (isCancelledRef w)
    (responseTimerRef w) (responseStartTimeRef w) (longToolUseTimer w)
    (clock w) (nextId w) v (trace w).

Definition set_trace (v : list (list Convo.t)) (w : World) : World :=
  mkWorld (conversations w) (activeConversationId w) (apiKey w)
    (selectedTool w) (selectedChatModel w) (ltm w) (codeMemory w)
    (userProfile w) (activeSuggestion w) (isLoading w) (isThinking w)
    (isSearchingWeb w) (isLongToolUse w) (error w) (elapsedTime w)
    (thinkingTimerRef w) (thinkingTimeRef w) (isCancelledRef w)
    (responseTimerRef w) (responseStartTimeRef w) (longToolUseTimer w)
    (clock w) (nextId w) (events w) v.

(** ** Small list helpers for the array idioms of the source *)

(** [l[l.length - 1]] *)
Fixpoint last_opt {A : Type} (l : list A) : option A :=
  match l with
  | [] => None
  | [x] => Some x
  | _ :: t => last_opt t
  end.

(** replace the last element by its image: [l[l.length - 1] = f(last)],
    [l.map((m, i) => i === l.length - 1 ? f(m) : m)] and
    [[...l.slice(0, -1), f(last)]]; nothing happens to an empty array *)
Fixpoint map_last {A : Type} (f : A -> A) (l : list A) : list A :=
  match l with
  | [] => []
  | [x] => [f x]
  | x :: t => x :: map_last f t
  end.

(** [l[l.length - 2]] *)
Definition second_last {A : Type} (l : list A) : option A :=
  if Nat.ltb (length l) 2 then None else nth_error l (length l - 2).

(** ** The completion monad of an async function body

    A statement of the handler either completes normally, executes [return],
    or throws. *)

Inductive completion (A : Type) : Type :=
| Normal (a : A)
| Returned
| Thrown (e : string).
Arguments Returned {A}.
Arguments Thrown {A} e.

Definition M (A : Type) : Type := World -> completion A * World.

Definition ret {A : Type} (a : A) : M A := fun w => (Normal a, w).

Definition bind {A B : Type} (c : M A) (k : A -> M B) : M B :=
  fun w =>
    match c w with
    | (Normal a, w') => k a w'
    | (Returned, w') => (Returned, w')
    | (Thrown e, w') => (Thrown e, w')
    end.

Declare Scope js_scope.
Delimit Scope js_scope with js.
Notation "x <- c ;; k" := (bind c (fun x => k))
  (at level 61, c at next level, right associativity) : js_scope.
Notation "c ;; k" := (bind c (fun _ => k))
  (at level 61, right associativity) : js_scope.
Local Open Scope js_scope.

Definition js_return {A : Type} : M A := fun w => (Returned, w).
Definition throw {A : Type} (e : string) : M A := fun w => (Thrown e, w).
Definition modify (f : World -> World) : M unit := fun w => (Normal tt, f w).
Definition gets {A : Type} (f : World -> A) : M A := fun w => (Normal (f w), w).
Definition when (b : bool) (c : M unit) : M unit := if b then c else ret tt.

(** [try { body } catch (e) { handler(e) }] *)
Definition try_catch {A : Type} (body : M A) (handler : string -> M A) : M A :=
  fun w =>
    match body w with
    | (Thrown e, w') => handler e w'
    | r => r
    end.

(** [try { body } finally { fin }]: [fin] runs on every exit of [body] *)
Definition try_finally {A : Type} (body : M A) (fin : M unit) : M A :=
  fun w =>
    match body w with
    | (r, w') =>
        match fin w' with
        | (Normal _, w'') => (r, w'')
        | (Returned, w'') => (Returned, w'')
        | (Thrown e, w'') => (Thrown e, w'')
        end
    end.

Definition emit (ev : Event) : M unit :=
  modify (fun w => set_events (ev :: events w) w).

(** [crypto.randomUUID()] *)
Definition randomUUID : M Id :=
  fun w => (Normal (nextId w), set_nextId (S (nextId w)) w).

(** [Date.now()] / [new Date().toISOString()] *)
Definition now : M Z := gets clock.

(** ** [useConversations] *)

Definition updateConversation (conversationId : Id) (updater : Convo.t -> Convo.t)
  : M unit :=
  modify (fun w =>
    let cs := map (fun c => if Nat.eqb (Convo.id c) conversationId
                            then updater c else c) (conversations w) in
    set_trace (cs :: trace w) (set_conversations cs w)).

Definition updateConversationMessages (conversationId : Id)
  (updater : list Msg.t -> list Msg.t) : M unit :=
  updateConversation conversationId
    (fun c => Convo.set_messages (updater (Convo.messages c)) c).

(** [setConversations(prev => [c, ...prev])] *)
Definition prependConversation (c : Convo.t) : M unit :=
  modify (fun w =>
    let cs := c :: conversations w in
    set_trace (cs :: trace w) (set_conversations cs w)).

(** [conversations.find(c => c.id === cid)] *)
Definition find_conversation (cs : list Convo.t) (cid : Id) : option Convo.t :=
  find (fun c => Nat.eqb (Convo.id c) cid) cs.

(** ** Timers and cancellation *)

Definition clearThinkingIntervals : M unit :=
  modify (fun w => set_isThinking false (set_thinkingTimerRef None w)).

Definition stopResponseTimer : M unit :=
  modify (fun w => set_elapsedTime 0%Z (set_responseTimerRef false w)).

(** the object rest pattern of [handleCancelStream]: every listed property is
    left out of the copy *)
Definition strip_transient (m : Msg.t) : Msg.t :=
  Msg.set_isAnalyzingImage None
    (Msg.set_isAnalyzingFile None
       (Msg.set_isPlanning None
          (Msg.set_toolInUse None
             (Msg.set_isLongToolUse None
                (Msg.set_thoughts None (Msg.set_searchPlan None m)))))).

Definition new_model_message (newId : Id) (text : string) (ts : Z) : Msg.t :=
  Msg.mk newId model text (Some ts) None None None None None None None None
    None None None None None None None None None None None None None.

(** the updater [handleCancelStream] passes to [updateConversationMessages] *)
Definition cancel_updater (newId : Id) (ts : Z) (prev : list Msg.t) : list Msg.t :=
  let cleanedMessages := map strip_transient prev in
  match last_opt cleanedMessages with
  | Some lastMessage =>
      match Msg.role lastMessage with
      | model =>
          let newContent :=
            if truthy (trim (Msg.content lastMessage))
            then (trim (Msg.content lastMessage) ++ nl ++ nl ++ stop_notice)%string
            else stop_notice in
          map_last (Msg.set_content newContent) cleanedMessages
      | user => cleanedMessages ++ [new_model_message newId stop_notice ts]
      end
  | None => cleanedMessages ++ [new_model_message newId stop_notice ts]
  end.

Definition handleCancelStream : M unit :=
  modify (set_isCancelledRef true) ;;
  clearThinkingIntervals ;;
  stopResponseTimer ;;
  modify (set_isLoading false) ;;
  modify (set_isSearchingWeb false) ;;
  modify (set_isLongToolUse false) ;;
  active <- gets activeConversationId ;;
  match active with
  | Some cid =>
      newId <- randomUUID ;;
      ts <- now ;;
      updateConversationMessages cid (cancel_updater newId ts)
  | None => ret tt
  end.

(** ** What the handler awaits

    Between the start of an [await] and its continuation other callbacks of the
    hook can run: the two interval timers, the 20 s watchdog, and the cancel
    button.  An environment script lists, for every [await] of the handler,
    the callbacks that ran meanwhile and the value the awaited promise
    settled with. *)

Inductive Interrupt : Type :=
| Elapse (dt : Z)        (* wall-clock time passes *)
| ResponseTick           (* the 53 ms [responseTimerRef] interval fires *)
| ThinkingTick           (* the 100 ms [thinkingTimerRef] interval fires *)
| WatchdogFire           (* the 20 s [longToolUseTimer] timeout fires *)
| CancelClicked.         (* the user confirms "stop": [handleCancelStream] *)

Record Usage : Type :=
  { promptTokenCount : option Z; candidatesTokenCount : option Z }.

Record Chunk : Type := {
  chunk_text : string;
  usageMetadata : option Usage;
  groundingChunks : option (list GroundingChunk)
}.

Record Env : Type := {
  planOutcome : option Plan.raw;          (* [None]: the planner call failed *)
  duringPlan : list Interrupt;
  urlOutcome : string + string;           (* cleaned content, or the error message *)
  duringUrl : list Interrupt;
  moleculeOutcome : string + MoleculeData;(* the error, or the molecule *)
  duringMolecule : list Interrupt;
  relevantIds : list Id;
  duringFindCode : list Interrupt;
  streamOpenError : option string;        (* the stream request itself throws *)
  duringOpen : list Interrupt;
  chunks : list (list Interrupt * Chunk); (* callbacks that ran before each chunk *)
  duringEnd : list Interrupt;
  streamError : option string;            (* the stream throws after its chunks *)
  friendlyMessage : string -> string      (* [getFriendlyErrorMessage(e).message] *)
}.

(** the callback of the thinking interval *)
Definition thinking_tick_updater (duration : nat) (prev : list Msg.t) : list Msg.t :=
  match last_opt prev with
  | Some last =>
      match Msg.role last with
      | model => map_last (Msg.set_thinkingDuration (Some duration)) prev
      | user => prev
      end
  | None => prev
  end.

(** the callback of the watchdog *)
Definition watchdog_updater (prev : list Msg.t) : list Msg.t :=
  match last_opt prev with
  | Some last =>
      match Msg.role last with
      | model => map_last (Msg.set_isLongToolUse (Some true)) prev
      | user => prev
      end
  | None => prev
  end.

Definition interrupt (i : Interrupt) : M unit :=
  match i with
  | Elapse dt => modify (fun w => set_clock (clock w + dt)%Z w)
  | ResponseTick =>
      modify (fun w =>
        if responseTimerRef w
        then set_elapsedTime (clock w - responseStartTimeRef w)%Z w else w)
  | ThinkingTick =>
      armed <- gets thinkingTimerRef ;;
      match armed with
      | Some cid =>
          modify (fun w => set_thinkingTimeRef (S (thinkingTimeRef w)) w) ;;
          t <- gets thinkingTimeRef ;;
          updateConversationMessages cid (thinking_tick_updater t)
      | None => ret tt
      end
  | WatchdogFire =>
      armed <- gets longToolUseTimer ;;
      match armed with
      | Some cid =>
          modify (set_longToolUseTimer None) ;;
          modify (set_isLongToolUse true) ;;
          updateConversationMessages cid watchdog_updater
      | None => ret tt
      end
  | CancelClicked => handleCancelStream
  end.

Fixpoint await (ints : list Interrupt) : M unit :=
  match ints with
  | [] => ret tt
  | i :: rest => interrupt i ;; await rest
  end.

(** [if (isCancelledRef.current) return;] *)
Definition return_if_cancelled : M unit :=
  cancelled <- gets isCancelledRef ;;
  if cancelled then js_return else ret tt.

(** ** [handleSendMessage]: updaters *)

Definition dq : string := String (ascii_of_nat 34) EmptyString.

(** [!!url], [!!apiKey] *)
Definition truthy_opt (o : option string) : bool :=
  match o with Some s => truthy s | None => false end.

(** the entry guard of line 156:
    [(!fullPrompt.trim() && !images && !file && !url) || isLoading || !apiKey] *)
Definition send_rejected (r : World) (fullPrompt : string)
  (images : option (list Image)) (file : option FileAttachment)
  (url : option string) : bool :=
  ((negb (truthy (trim fullPrompt)) && negb (Msg.has images) &&
    negb (Msg.has file) && negb (truthy_opt url))
   || isLoading r || negb (truthy_opt (apiKey r)))%bool.

Definition planningMessage (newId : Id) (modelToUse : ChatModel) (ts : Z) : Msg.t :=
  Msg.mk newId model "" (Some ts) None None None (Some modelToUse) None None None
    None None None None (Some true) None None None None None None None None None.

Definition newUserMessage (newId : Id) (fullPrompt : string)
  (images : option (list Image)) (file : option FileAttachment)
  (url : option string) (modelToUse : ChatModel) (ts : Z) : Msg.t :=
  Msg.mk newId user fullPrompt (Some ts) images file url (Some modelToUse) None
    None None None None None None None None None None None None None None None
    None.

(** the manual tool selection overrides the planner (lines 231-240); the
    result is the plan, [isThinkingEnabled] and [isWebSearchEnabled] *)
Definition toolOverrides (selectedTool : Tool) (plan : Plan.t)
  (isThinkingEnabled isWebSearchEnabled : bool) : Plan.t * bool * bool :=
  match selectedTool with
  | urlReader => (Plan.set_isUrlReadRequest true plan, false, false)
  | thinking => (Plan.set_isUrlReadRequest false plan, true, false)
  | webSearch => (Plan.set_isUrlReadRequest false plan, false, true)
  | chemistry => (Plan.set_isMoleculeRequest true plan, false, false)
  | smart | translator => (plan, isThinkingEnabled, isWebSearchEnabled)
  end.

(** [prev.map(m => m.id === prev[prev.length - 2]?.id ? f(m) : m)] *)
Definition mark_second_last (f : Msg.t -> Msg.t) (prev : list Msg.t) : list Msg.t :=
  map (fun m =>
         match second_last prev with
         | Some target => if Nat.eqb (Msg.id m) (Msg.id target) then f m else m
         | None => m
         end) prev.

Definition tool_error_updater (errorMessage : string) : list Msg.t -> list Msg.t :=
  map_last (fun lastMsg =>
    Msg.set_content ("Sorry, I couldn't use that tool. Error: " ++ errorMessage)
      (Msg.set_isPlanning (Some false) (Msg.set_toolInUse None lastMsg))).

Definition handleToolError (cid : Id) (errorMessage : string) : M unit :=
  modify (set_longToolUseTimer None) ;;
  modify (set_isLongToolUse false) ;;
  updateConversationMessages cid (tool_error_updater errorMessage) ;;
  modify (set_isLoading false) ;;
  stopResponseTimer.

Definition url_prompt (url cleanedContent fullPrompt : string) : string :=
  "[URL: " ++ url ++ "]" ++ nl ++ nl ++ "[EXTRACTED WEBPAGE CONTENT]:" ++ nl ++
  cleanedContent ++ nl ++ nl ++ "[USER QUESTION]:" ++ nl ++ fullPrompt.

Definition molecule_prompt (moleculeName : string) : string :=
  "I have successfully found and displayed the 3D model and key properties for "
  ++ moleculeName ++
  ". Now, please provide a brief, helpful description focusing on its common uses or significance.".

Definition molecule_error_updater (moleculeName : string) : list Msg.t -> list Msg.t :=
  map_last (fun lastMsg =>
    Msg.set_content
      ("Sorry, I couldn't find a 3D model for " ++ dq ++ moleculeName ++ dq ++
       ". Please check the spelling or try a different compound.")
      (Msg.set_isPlanning (Some false)
         (Msg.set_isMoleculeRequest (Some false) lastMsg))).

(** lines 335-341 *)
Definition clear_planning_updater (thoughts : list ThoughtStep)
  (prev : list Msg.t) : list Msg.t :=
  match last_opt prev with
  | Some last =>
      if (Msg.flag (Msg.isPlanning last) || Msg.has (Msg.toolInUse last))%bool
      then map_last (fun m =>
             Msg.set_thoughts (Some thoughts)
               (Msg.set_toolInUse None (Msg.set_isPlanning (Some false) m))) prev
      else prev
  | None => prev
  end.

Definition search_plan_updater (searchPlan : list ThoughtStep)
  (prev : list Msg.t) : list Msg.t :=
  match last_opt prev with
  | Some last =>
      match Msg.role last with
      | model => map_last (Msg.set_searchPlan (Some searchPlan)) prev
      | user => prev
      end
  | None => prev
  end.

(** lines 425-432 *)
Definition image_analysis_done (m : Msg.t) : Msg.t :=
  if (role_eqb (Msg.role m) user && Msg.flag (Msg.isAnalyzingImage m))%bool
  then Msg.set_analysisCompleted (Some true) (Msg.set_isAnalyzingImage (Some false) m)
  else m.

Definition file_analysis_done (m : Msg.t) : Msg.t :=
  if Msg.flag (Msg.isAnalyzingFile m)
  then Msg.set_isAnalyzingFile (Some false) m else m.

(** lines 468-477 *)
Definition stream_updater (displayContent : string)
  (sources : option (list GroundingChunk)) (newId : Id) (ts : Z)
  (prevMessages : list Msg.t) : list Msg.t :=
  let appended :=
    prevMessages ++
    [Msg.set_sources sources (new_model_message newId displayContent ts)] in
  match last_opt prevMessages with
  | Some lastMessage =>
      match Msg.role lastMessage with
      | model =>
          map_last (fun m =>
            Msg.set_isPlanning (Some false)
              (Msg.set_sources sources (Msg.set_content displayContent m)))
            prevMessages
      | user => appended
      end
  | None => appended
  end.

(** lines 480-503: the token accountant *)
Definition usage_updater (usage : Usage) (fullPrompt : string) (toolUsed : bool)
  (prev : list Msg.t) : list Msg.t :=
  match last_opt prev with
  | Some lastMessage =>
      match Msg.role lastMessage with
      | model =>
          let totalPromptTokens :=
            match promptTokenCount usage with Some n => n | None => 0%Z end in
          let outputTokens := candidatesTokenCount usage in
          let userTextTokens := estimateTokens fullPrompt in
          let displayInputTokens :=
            if toolUsed then totalPromptTokens else userTextTokens in
          let systemTokens :=
            if toolUsed then 0%Z else (totalPromptTokens - userTextTokens)%Z in
          map_last (fun m =>
            Msg.set_systemTokens
              (if Z.ltb 0 systemTokens then Some systemTokens else None)
              (Msg.set_outputTokens outputTokens
                 (Msg.set_inputTokens (Some displayInputTokens) m))) prev
      | user => prev
      end
  | None => prev
  end.

(** lines 509-516: [slice(-20)] and the pairing loop *)
Definition slice_last (n : nat) {A : Type} (l : list A) : list A :=
  skipn (length l - n) l.

Fixpoint pair_up (recentMessages : list Msg.t) : list (Msg.t * Msg.t) :=
  match recentMessages with
  | a :: b :: rest =>
      (if (role_eqb (Msg.role a) user && role_eqb (Msg.role b) model)%bool
       then [(a, b)] else []) ++ pair_up rest
  | _ => []
  end.

(** the [.then] of [generateConvoSummaries] *)
Definition appendSummaries (cid : Id) (newSummaries : list ConvoSummary) : M unit :=
  updateConversation cid (fun c =>
    Convo.set_summaries
      (Some (match Convo.summaries c with Some s => s | None => [] end
             ++ newSummaries)) c).

Definition error_text (friendly : string) : string :=
  "Sorry, I encountered an error: " ++ friendly.

(** the updater of the [catch] block *)
Definition error_updater (friendly : string) (newId : Id) (ts : Z)
  (prev : list Msg.t) : list Msg.t :=
  match last_opt prev with
  | None => prev
  | Some lastMessage =>
      match Msg.role lastMessage with
      | user => prev ++ [new_model_message newId (error_text friendly) ts]
      | model =>
          map_last (fun m =>
            Msg.set_content (error_text friendly)
              (Msg.set_toolInUse None (Msg.set_isPlanning (Some false) m))) prev
      end
  end.

(** the two updaters of the [finally] block *)
Definition clear_analysis (m : Msg.t) : Msg.t :=
  let rest := Msg.set_isAnalyzingFile None (Msg.set_isAnalyzingImage None m) in
  if Msg.flag (Msg.analysisCompleted m)
  then Msg.set_analysisCompleted (Some true) rest else rest.

Definition generation_time_updater (finalElapsedTime : Z)
  (prev : list Msg.t) : list Msg.t :=
  match last_opt prev with
  | Some lastMessage =>
      match Msg.role lastMessage with
      | model =>
          if startsWith (Msg.content lastMessage) "Sorry, I encountered an error:"
          then prev
          else map_last (Msg.set_generationTime (Some finalElapsedTime)) prev
      | user => prev
      end
  | None => prev
  end.

(** ** [handleSendMessage]: the turn

    [r] is the render the callback was created in: [useCallback] closes over
    [apiKey], [isLoading], [activeConversationId], [conversations],
    [selectedChatModel], [selectedTool] and [codeMemory] of that render, and
    the async body keeps reading those values while the live state moves on
    through the updaters. *)

Notation "' pat <- c ;; k" :=
  (bind c (fun x => match x with pat => k end))
  (at level 61, pat pattern, c at next level, right associativity) : js_scope.

(** lines 287-300: the URL reader.  Result: [finalPromptForModel] *)
Definition url_phase (env : Env) (cid : Id) (fullPrompt : string)
  (url : option string) : M string :=
  match url with
  | Some u =>
      if truthy u then
        updateConversationMessages cid
          (map_last (fun m =>
             Msg.set_toolInUse (Some url_tool) (Msg.set_isPlanning (Some false) m))) ;;
        emit (EvFetchUrl u) ;;
        await (duringUrl env) ;;
        match urlOutcome env with
        | inl cleanedContent =>
            return_if_cancelled ;;
            ret (url_prompt u cleanedContent fullPrompt)
        | inr message => handleToolError cid message ;; js_return
        end
      else
        handleToolError cid "No valid URL was provided for the URL Reader tool." ;;
        js_return
  | None =>
      handleToolError cid "No valid URL was provided for the URL Reader tool." ;;
      js_return
  end.

(** lines 302-332: the molecule lookup.  Result: [finalPromptForModel] *)
Definition molecule_phase (env : Env) (cid : Id) (fullPrompt : string)
  (plan : Plan.t) : M string :=
  let moleculeName :=
    match Plan.moleculeName plan with
    | Some n => if truthy n then n else fullPrompt
    | None => fullPrompt
    end in
  updateConversationMessages cid
    (map_last (fun m =>
       Msg.set_isMoleculeRequest (Some true) (Msg.set_isPlanning (Some false) m))) ;;
  emit (EvGetMoleculeData moleculeName) ;;
  await (duringMolecule env) ;;
  match moleculeOutcome env with
  | inr moleculeData =>
      return_if_cancelled ;;
      updateConversationMessages cid
        (map_last (fun m =>
           Msg.set_molecule (Some moleculeData)
             (Msg.set_isMoleculeRequest (Some false) m))) ;;
      ret (molecule_prompt moleculeName)
  | inl chemError =>
      emit (EvLogError chemError) ;;
      updateConversationMessages cid (molecule_error_updater moleculeName) ;;
      modify (set_isLoading false) ;;
      stopResponseTimer ;;
      js_return
  end.

(** lines 447-464: title extraction on the accumulated text.  Result: the
    new [titleExtracted] and [displayContent] *)
Definition title_step (cid : Id) (isFirstTurnInConversation titleExtracted : bool)
  (accumulated : string) : M (bool * string) :=
  if isFirstTurnInConversation then
    extracted <-
      (if titleExtracted then ret true
       else
         match match_title accumulated with
         | Some g =>
             updateConversation cid (Convo.set_title (trim g)) ;;
             ret (includes_newline accumulated)
         | None =>
             if (Nat.ltb 50 (String.length accumulated) &&
                 negb (startsWith accumulated "TITLE:"))%bool
             then
               updateConversation cid (Convo.set_isGeneratingTitle (Some false)) ;;
               ret true
             else ret false
         end) ;;
    ret (extracted, strip_title_line accumulated)
  else ret (titleExtracted, accumulated).

(** lines 443-477: the body of the stream loop for one chunk.  Result: the
    new [finalModelResponse], [titleExtracted] and [usageMetadata] *)
Definition chunk_step (cid : Id) (isFirstTurnInConversation : bool)
  (chunk : Chunk) (finalModelResponse : string) (titleExtracted : bool)
  (usage : option Usage) : M (string * bool * option Usage) :=
  let usage' :=
    match usageMetadata chunk with Some u => Some u | None => usage end in
  let finalModelResponse' := (finalModelResponse ++ chunk_text chunk)%string in
  ' (titleExtracted', displayContent) <-
    title_step cid isFirstTurnInConversation titleExtracted finalModelResponse' ;;
  newId <- randomUUID ;;
  ts <- now ;;
  updateConversationMessages cid
    (stream_updater displayContent (groundingChunks chunk) newId ts) ;;
  ret (finalModelResponse', titleExtracted', usage').

(** lines 438-478: [for await (const chunk of stream)].  Result:
    [finalModelResponse] and [usageMetadata] *)
Fixpoint stream_loop (env : Env) (cid : Id) (isFirstTurnInConversation : bool)
  (stream : list (list Interrupt * Chunk)) (finalModelResponse : string)
  (titleExtracted : bool) (usage : option Usage) : M (string * option Usage) :=
  match stream with
  | [] =>
      await (duringEnd env) ;;
      match streamError env with
      | Some e => throw e
      | None => ret (finalModelResponse, usage)
      end
  | (ints, chunk) :: rest =>
      await ints ;;
      cancelled <- gets isCancelledRef ;;
      if cancelled then ret (finalModelResponse, usage)
      else
        ' (finalModelResponse', titleExtracted', usage') <-
          chunk_step cid isFirstTurnInConversation chunk finalModelResponse
            titleExtracted usage ;;
        stream_loop env cid isFirstTurnInConversation rest finalModelResponse'
          titleExtracted' usage'
  end.

(** lines 505-579: the background writers.  [finalConversationState] is looked
    up in the [conversations] of the closure.  The code extractor and the
    [.then] of the memory update do not take part in any property below and
    are left out. *)
Definition background_writers (r : World) (cid : Id) (fullPrompt : string)
  (finalModelResponse : string) : M unit :=
  let finalCleanedResponse := strip_title_line finalModelResponse in
  cancelled <- gets isCancelledRef ;;
  match find_conversation (conversations r) cid with
  | Some finalConversationState =>
      if cancelled then ret tt
      else
        let n := length (Convo.messages finalConversationState) in
        when (Nat.ltb 0 n && Nat.eqb (n mod 20) 0)%bool
          (let recentMessages := slice_last 20 (Convo.messages finalConversationState) in
           let convosToSummarize := pair_up recentMessages in
           when (Nat.ltb 0 (length convosToSummarize))
             (emit (EvGenerateConvoSummaries convosToSummarize
                      (match Convo.summaries finalConversationState with
                       | Some s => length s
                       | None => 0
                       end)))) ;;
        when (truthy (trim finalCleanedResponse))
          (emit (EvUpdateMemory fullPrompt finalCleanedResponse))
  | None => ret tt
  end.

(** lines 480-503: [if (usageMetadata && !isCancelledRef.current)] *)
Definition usage_phase (cid : Id) (usage : option Usage) (fullPrompt : string)
  (toolInUse : option ToolInUse)
  (isImageAnalysisRequest isFileAnalysisRequest isWebSearchEnabled : bool)
  : M unit :=
  cancelled <- gets isCancelledRef ;;
  match usage with
  | Some u =>
      when (negb cancelled)
        (let toolUsed :=
           (Msg.has toolInUse || isImageAnalysisRequest ||
            isFileAnalysisRequest || isWebSearchEnabled)%bool in
         updateConversationMessages cid (usage_updater u fullPrompt toolUsed))
  | None => ret tt
  end.

Definition userMessageParts (images : option (list Image))
  (file : option FileAttachment) (finalPromptForModel : string) : list Part :=
  (match images with Some imgs => map image_part imgs | None => [] end) ++
  (match file with
   | Some f => [PInlineData (file_base64 f) (file_mimeType f)]
   | None => []
   end) ++
  (if truthy finalPromptForModel then [PText finalPromptForModel] else []).

(** the body of the [try] block, lines 209-579 *)
Definition turn_body (r : World) (env : Env) (cid : Id)
  (isFirstTurnInConversation : bool) (conversationForThisTurn : Convo.t)
  (modelToUse : ChatModel) (fullPrompt : string) (images : option (list Image))
  (file : option FileAttachment) (url : option string) : M unit :=
  emit (EvPlanResponse fullPrompt images file modelToUse) ;;
  await (duringPlan env) ;;
  let plan := planResponse (planOutcome env) in
  return_if_cancelled ;;
  let '(plan, isThinkingEnabled, isWebSearchEnabled) :=
    toolOverrides (selectedTool r) plan (Plan.needsThinking plan)
      (Plan.needsWebSearch plan) in
  let isImageAnalysisRequest :=
    match images with Some imgs => Nat.ltb 0 (length imgs) | None => false end in
  let isFileAnalysisRequest := Msg.has file in
  let isThinkingEnabled := if isImageAnalysisRequest then false else isThinkingEnabled in
  let plan := if isImageAnalysisRequest then Plan.set_thoughts [] plan else plan in
  when isImageAnalysisRequest
    (updateConversationMessages cid
       (mark_second_last (Msg.set_isAnalyzingImage (Some true)))) ;;
  when isFileAnalysisRequest
    (updateConversationMessages cid
       (mark_second_last (Msg.set_isAnalyzingFile (Some true)))) ;;
  modify (set_longToolUseTimer (Some cid)) ;;
  let toolInUse := if Plan.isUrlReadRequest plan then Some url_tool else None in
  finalPromptForModel <-
    (if Plan.isUrlReadRequest plan then url_phase env cid fullPrompt url
     else ret fullPrompt) ;;
  ' (finalPromptForModel, isWebSearchEnabled, isThinkingEnabled) <-
    (if Plan.isMoleculeRequest plan then
       p <- molecule_phase env cid fullPrompt plan ;;
       ret (p, false, false)
     else ret (finalPromptForModel, isWebSearchEnabled, isThinkingEnabled)) ;;
  updateConversationMessages cid (clear_planning_updater (Plan.thoughts plan)) ;;
  when (isThinkingEnabled && Nat.ltb 0 (length (Plan.thoughts plan)))%bool
    (modify (set_isThinking true) ;;
     modify (set_thinkingTimeRef 0) ;;
     modify (set_thinkingTimerRef (Some cid)) ;;
     emit EvThinkingTickerStarted) ;;
  when isWebSearchEnabled
    (modify (set_isSearchingWeb true) ;;
     when (Nat.ltb 0 (length (Plan.searchPlan plan)))
       (updateConversationMessages cid
          (search_plan_updater (Plan.searchPlan plan)))) ;;
  let historyMessages := Convo.messages conversationForThisTurn in
  when (Plan.needsCodeContext plan && Nat.ltb 0 (length (codeMemory r)))%bool
    (emit (EvFindRelevantCode fullPrompt (map cs_id (codeMemory r))) ;;
     await (duringFindCode env) ;;
     return_if_cancelled) ;;
  let parts := userMessageParts images file finalPromptForModel in
  (if Nat.eqb (length parts) 0 then throw "Cannot send an empty message."
   else ret tt) ;;
  (if isWebSearchEnabled then
     emit (EvGenerateContentStream modelToUse isFirstTurnInConversation
             (transformMessagesToHistory historyMessages ++
              [{| c_role := user; c_parts := parts |}]))
   else
     emit (EvSendMessageStream modelToUse isThinkingEnabled
             isFirstTurnInConversation
             (transformMessagesToHistory historyMessages) parts)) ;;
  await (duringOpen env) ;;
  match streamOpenError env with Some e => throw e | None => ret tt end ;;
  modify (set_longToolUseTimer None) ;;
  modify (set_isLongToolUse false) ;;
  when isThinkingEnabled clearThinkingIntervals ;;
  when isWebSearchEnabled (modify (set_isSearchingWeb false)) ;;
  when isImageAnalysisRequest
    (updateConversationMessages cid (map image_analysis_done)) ;;
  when isFileAnalysisRequest
    (updateConversationMessages cid (map file_analysis_done)) ;;
  ' (finalModelResponse, usage) <-
    stream_loop env cid isFirstTurnInConversation (chunks env) "" false None ;;
  usage_phase cid usage fullPrompt toolInUse isImageAnalysisRequest
    isFileAnalysisRequest isWebSearchEnabled ;;
  background_writers r cid fullPrompt finalModelResponse.

(** the [catch] block, lines 580-595 *)
Definition turn_catch (env : Env) (cid : Id) (e : string) : M unit :=
  return_if_cancelled ;;
  emit (EvLogError e) ;;
  let friendlyError := friendlyMessage env e in
  modify (set_error (Some friendlyError)) ;;
  newId <- randomUUID ;;
  ts <- now ;;
  updateConversationMessages cid (error_updater friendlyError newId ts).

(** the [finally] block, lines 596-635 *)
Definition turn_finally (cid : Id) : M unit :=
  modify (set_longToolUseTimer None) ;;
  cancelled <- gets isCancelledRef ;;
  when (negb cancelled)
    (t <- now ;;
     start <- gets responseStartTimeRef ;;
     let finalElapsedTime := (t - start)%Z in
     updateConversationMessages cid (map clear_analysis) ;;
     updateConversationMessages cid (generation_time_updater finalElapsedTime)) ;;
  stopResponseTimer ;;
  modify (set_isLoading false) ;;
  clearThinkingIntervals ;;
  modify (set_isSearchingWeb false) ;;
  modify (set_isLongToolUse false) ;;
  modify (set_activeSuggestion None) ;;
  modify (set_isCancelledRef false).

(** [String(n)] for a non-negative integer; an id is interpolated into a
    template literal as its decimal numeral *)
Fixpoint digits (fuel n : nat) (acc : string) : string :=
  match fuel with
  | 0 => acc
  | S fuel' =>
      let acc' := String (ascii_of_nat (48 + n mod 10)) acc in
      if Nat.eqb (n / 10) 0 then acc' else digits fuel' (n / 10) acc'
  end.

Definition string_of_nat (n : nat) : string := digits (S n) n EmptyString.

(** lines 160-182: the conversation of the turn.  Result:
    [currentConversationId], [isFirstTurnInConversation],
    [conversationForThisTurn] *)
Definition resolve_conversation (r : World) : M (Id * bool * Convo.t) :=
  match activeConversationId r with
  | None =>
      newId <- randomUUID ;;
      ts <- now ;;
      let conversationForThisTurn :=
        Convo.mk newId "New Chat" [] ts None None (Some []) in
      prependConversation conversationForThisTurn ;;
      modify (set_activeConversationId (Some newId)) ;;
      ret (newId, true, conversationForThisTurn)
  | Some currentConversationId =>
      match find_conversation (conversations r) currentConversationId with
      | None =>
          emit (EvLogError
                  ("useChatHandler: Could not find active conversation with ID " ++
                   string_of_nat currentConversationId)%string) ;;
          modify (set_isLoading false) ;;
          stopResponseTimer ;;
          js_return
      | Some foundConvo =>
          ret (currentConversationId,
               Nat.eqb (length (Convo.messages foundConvo)) 0, foundConvo)
      end
  end.

(** lines 184-202: loading state, response timer, the two new messages *)
Definition start_turn (cid : Id) (modelToUse : ChatModel) (fullPrompt : string)
  (images : option (list Image)) (file : option FileAttachment)
  (url : option string) (isRetry : bool) : M unit :=
  modify (set_error None) ;;
  modify (set_isLoading true) ;;
  modify (set_isCancelledRef false) ;;
  t <- now ;;
  modify (set_responseStartTimeRef t) ;;
  modify (set_elapsedTime 0%Z) ;;
  modify (set_responseTimerRef true) ;;
  planningId <- randomUUID ;;
  ts <- now ;;
  let planning := planningMessage planningId modelToUse ts in
  if negb isRetry then
    userId <- randomUUID ;;
    ts' <- now ;;
    let newUser := newUserMessage userId fullPrompt images file url modelToUse ts' in
    updateConversationMessages cid (fun prev => prev ++ [newUser; planning])
  else
    updateConversationMessages cid (fun prev => prev ++ [planning]).

Definition handleSendMessage (r : World) (env : Env) (prompt : string)
  (images : option (list Image)) (file : option FileAttachment)
  (url : option string) (overrideModel : option ChatModel) (isRetry : bool)
  : M unit :=
  let fullPrompt := prompt in
  if send_rejected r fullPrompt images file url then js_return
  else
    let modelToUse :=
      match overrideModel with Some m => m | None => selectedChatModel r end in
    ' (currentConversationId, isFirstTurnInConversation, conversationForThisTurn) <-
      resolve_conversation r ;;
    start_turn currentConversationId modelToUse fullPrompt images file url isRetry ;;
    try_finally
      (try_catch
         (turn_body r env currentConversationId isFirstTurnInConversation
            conversationForThisTurn modelToUse fullPrompt images file url)
         (turn_catch env currentConversationId))
      (turn_finally currentConversationId).

(** a call of the handler of the current render; the value is the hook state
    once the promise has settled *)
Definition send (env : Env) (prompt : string) (images : option (list Image))
  (file : option FileAttachment) (url : option string)
  (overrideModel : option ChatModel) (isRetry : bool) (w : World) : World :=
  snd (handleSendMessage w env prompt images file url overrideModel isRetry w).

(** ** Retry ([App.tsx]) *)

(** the backwards scan of [handleRetry]: the largest index holding a model
    message; [i] is the index of the head of [l] *)
Fixpoint lastModelMessageIndex_from (i : nat) (l : list Msg.t) : option nat :=
  match l with
  | [] => None
  | m :: t =>
      match lastModelMessageIndex_from (S i) t with
      | Some j => Some j
      | None => if role_eqb (Msg.role m) model then Some i else None
      end
  end.

Definition lastModelMessageIndex (l : list Msg.t) : option nat :=
  lastModelMessageIndex_from 0 l.

Definition chat_model_eqb (a b : ChatModel) : bool :=
  match a, b with
  | gemini_2_5_flash, gemini_2_5_flash
  | gemini_2_5_pro, gemini_2_5_pro
  | gemini_2_5_flash_lite, gemini_2_5_flash_lite
  | gemini_2_0_flash, gemini_2_0_flash
  | gemini_2_0_flash_lite, gemini_2_0_flash_lite => true
  | _, _ => false
  end.

Section App.
(** [isCodeRelated]: a keyword test over [utils/codeKeywords] *)
Variable isCodeRelated : string -> bool.

(** [handleSendMessageWrapper]; the model-switch dialog keeps the prompt
    pending in state local to [App] and sends nothing *)
Definition handleSendMessageWrapper (r : World) (env : Env) (prompt : string)
  (images : option (list Image)) (file : option FileAttachment)
  (url : option string) (isRetry : bool) : M unit :=
  if (negb (chat_model_eqb (selectedChatModel r) gemini_2_5_pro) &&
      isCodeRelated prompt && negb isRetry)%bool
  then ret tt
  else handleSendMessage r env prompt images file url None isRetry.

Definition handleRetry (r : World) (env : Env) : M unit :=
  match activeConversationId r with
  | None => ret tt
  | Some active =>
      match find_conversation (conversations r) active with
      | None => ret tt
      | Some activeConversation =>
          let msgs := Convo.messages activeConversation in
          match lastModelMessageIndex msgs with
          | None => ret tt
          | Some i =>
              match (if Nat.eqb i 0 then None else nth_error msgs (i - 1)) with
              | Some lastUserMessage =>
                  match Msg.role lastUserMessage with
                  | user =>
                      updateConversationMessages (Convo.id activeConversation)
                        (fun prev => firstn i prev) ;;
                      handleSendMessageWrapper r env
                        (Msg.content lastUserMessage) (Msg.images lastUserMessage)
                        (Msg.file lastUserMessage) (Msg.url lastUserMessage) true
                  | model => ret tt
                  end
              | None => ret tt
              end
          end
      end
  end.

(** a click on "retry" in the current render *)
Definition retry (env : Env) (w : World) : World := snd (handleRetry w env w).
End App.

(** ** [handleUpdateMessageContent] (lines 642-649) *)

Definition handleUpdateMessageContent (r : World) (messageId : Id)
  (newContent : string) : M unit :=
  match activeConversationId r with
  | None => js_return
  | Some active =>
      updateConversationMessages active
        (map (fun msg =>
                if Nat.eqb (Msg.id msg) messageId
                then Msg.set_content newContent msg else msg))
  end.

(** ** The memory writer: the [.then] of [updateMemory] (lines 539-577)

    [updateMemory] ([services/memoryService.ts]) always returns the two arrays;
    [userProfileUpdates.name] may be absent. *)

Record MemoryUpdate : Type := { old_memory : string; new_memory : string }.

Record MemoryUpdateResult : Type := {
  newMemories : list string;
  updatedMemories : list MemoryUpdate;
  userProfileUpdates_name : option string
}.

(** [index = l.findIndex(mem => mem === old)] and, when [index !== -1],
    [l[index] = v]; [None]: no element equals [old] *)
Fixpoint replace_first (old v : string) (l : list string) : option (list string) :=
  match l with
  | [] => None
  | mem :: rest =>
      if String.eqb mem old then Some (v :: rest)
      else
        match replace_first old v rest with
        | Some rest' => Some (mem :: rest')
        | None => None
        end
  end.

(** one round of [updatedMemories.forEach]; the state is
    [ltmAfterUpdates] and [memoryWasModified] *)
Definition apply_memory_update (st : list string * bool) (update : MemoryUpdate)
  : list string * bool :=
  match replace_first (old_memory update) (new_memory update) (fst st) with
  | Some l => (l, true)
  | None => st
  end.

(** [l.includes(mem)] *)
Definition includes (mem : string) (l : list string) : bool :=
  existsb (String.eqb mem) l.

(** [ltmAfterUpdates] and [memoryWasModified] once the updates and the
    additions have been processed *)
Definition memory_after (ltm : list string) (memoryResult : MemoryUpdateResult)
  : list string * bool :=
  let '(ltmAfterUpdates, memoryWasModified) :=
    fold_left apply_memory_update (updatedMemories memoryResult) (ltm, false) in
  let uniqueNewMemories :=
    filter (fun mem => negb (includes mem ltmAfterUpdates))
      (newMemories memoryResult) in
  if Nat.ltb 0 (length uniqueNewMemories)
  then (ltmAfterUpdates ++ uniqueNewMemories, true)
  else (ltmAfterUpdates, memoryWasModified).

Definition memory_flag_updater (prev : list Msg.t) : list Msg.t :=
  match last_opt prev with
  | Some last =>
      match Msg.role last with
      | model => map_last (Msg.set_memoryUpdated (Some true)) prev
      | user => prev
      end
  | None => prev
  end.

Definition option_string_eqb (a b : option string) : bool :=
  match a, b with
  | Some x, Some y => String.eqb x y
  | None, None => true
  | _, _ => false
  end.

(** the callback; [ltm] and [userProfile] are those of the render [r] *)
Definition memory_then (r : World) (cid : Id) (memoryResult : MemoryUpdateResult)
  : M unit :=
  let '(ltmAfterUpdates, memoryWasModified) := memory_after (ltm r) memoryResult in
  when memoryWasModified
    (modify (set_ltm ltmAfterUpdates) ;;
     updateConversationMessages cid memory_flag_updater) ;;
  match userProfileUpdates_name memoryResult with
  | Some name =>
      when (truthy name &&
            negb (option_string_eqb (Some name) (profile_name (userProfile r))))%bool
        (modify (set_userProfile {| profile_name := Some name |}))
  | None => ret tt
  end.

(** ** [useConversations]: the remaining handlers *)

(** [setConversations(prev => f(prev))] *)
Definition setConversations (f : list Convo.t -> list Convo.t) : M unit :=
  modify (fun w =>
    let cs := f (conversations w) in
    set_trace (cs :: trace w) (set_conversations cs w)).

Definition handleNewChat : M unit :=
  newConversationId <- randomUUID ;;
  ts <- now ;;
  let newConversation := Convo.mk newConversationId "New Chat" [] ts None None None in
  setConversations (fun prev => newConversation :: prev) ;;
  modify (set_activeConversationId (Some newConversationId)).

Definition handleRenameConversation (id : Id) (newTitle : string) : M unit :=
  updateConversation id (fun c =>
    Convo.mk (Convo.id c) newTitle (Convo.messages c) (Convo.createdAt c)
      (Convo.isPinned c) (Convo.isGeneratingTitle c) (Convo.summaries c)).

Definition handlePinConversation (id : Id) : M unit :=
  updateConversation id (fun c =>
    Convo.mk (Convo.id c) (Convo.title c) (Convo.messages c) (Convo.createdAt c)
      (Some (negb (Msg.flag (Convo.isPinned c)))) (Convo.isGeneratingTitle c)
      (Convo.summaries c)).

(** the comparator of [sortedConversations]: pinned first, then newest first.
    [createdAt] is the time value of the stored ISO string; the initial state
    and [handleNewChat] give every conversation one. *)
Definition compareConversations (a b : Convo.t) : Z :=
  if (Msg.flag (Convo.isPinned a) && negb (Msg.flag (Convo.isPinned b)))%bool
  then (-1)%Z
  else if (negb (Msg.flag (Convo.isPinned a)) && Msg.flag (Convo.isPinned b))%bool
  then 1%Z
  else (Convo.createdAt b - Convo.createdAt a)%Z.

(** [[...l].sort(compare)]: [Array.prototype.sort] is a stable sort *)
Fixpoint sort_insert {A : Type} (compare : A -> A -> Z) (x : A) (l : list A)
  : list A :=
  match l with
  | [] => [x]
  | y :: rest =>
      if Z.leb (compare x y) 0 then x :: y :: rest
      else y :: sort_insert compare x rest
  end.

Definition js_sort {A : Type} (compare : A -> A -> Z) (l : list A) : list A :=
  fold_right (sort_insert compare) [] l.

Definition sortedConversations (cs : list Convo.t) : list Convo.t :=
  js_sort compareConversations cs.

Definition option_id_eqb (a b : option Id) : bool :=
  match a, b with
  | Some x, Some y => Nat.eqb x y
  | None, None => true
  | _, _ => false
  end.

(** [activeConversationId], [conversations.length] and [sortedConversations]
    are those of the render [r] *)
Definition handleDeleteConversation (r : World) (id : Id) : M unit :=
  setConversations (filter (fun c => negb (Nat.eqb (Convo.id c) id))) ;;
  when (option_id_eqb (activeConversationId r) (Some id))
    (modify (set_activeConversationId
       (if Nat.ltb 1 (length (conversations r))
        then option_map Convo.id
               (find (fun c => negb (Nat.eqb (Convo.id c) id))
                  (sortedConversations (conversations r)))
        else None))).

(** [ids.includes(id)] *)
Definition includes_id (id : Id) (ids : list Id) : bool := existsb (Nat.eqb id) ids.

Definition handleDeleteMultipleConversations (r : World) (ids : list Id) : M unit :=
  setConversations (filter (fun c => negb (includes_id (Convo.id c) ids))) ;;
  match activeConversationId r with
  | Some active =>
      when (includes_id active ids)
        (let remainingConversations :=
           filter (fun c => negb (includes_id (Convo.id c) ids)) (conversations r) in
         let newActiveId :=
           match remainingConversations with
           | c :: _ => Some (Convo.id c)
           | [] => None
           end in
         modify (set_activeConversationId newActiveId))
  | None => ret tt
  end.

Definition handleDeleteMultipleMessages (conversationId : Id) (messageIds : list Id)
  : M unit :=
  updateConversationMessages conversationId
    (filter (fun msg => negb (includes_id (Msg.id msg) messageIds))).

(** ** [App.tsx]: message selection and editing *)

(** the updater of [handleToggleMessageSelection] *)
Definition handleToggleMessageSelection (messageId : Id)
  (prevSelectedIds : list Id) : list Id :=
  if includes_id messageId prevSelectedIds
  then filter (fun id => negb (Nat.eqb id messageId)) prevSelectedIds
  else prevSelectedIds ++ [messageId].

(** [handleConfirmDeleteMessages]; the value is the new [selectedMessageIds] *)
Definition handleConfirmDeleteMessages (r : World) (selectedMessageIds : list Id)
  : M (list Id) :=
  let idsToDelete := selectedMessageIds in
  match activeConversationId r with
  | Some active =>
      if Nat.ltb 0 (length idsToDelete) then
        handleDeleteMultipleMessages active idsToDelete ;;
        ret []
      else ret selectedMessageIds
  | None => ret selectedMessageIds
  end.

Section AppEdit.
Variable isCodeRelated : string -> bool.

(** [handleEditMessage]; reading [role] of a message that is not there throws *)
Definition handleEditMessage (r : World) (env : Env) (index : nat)
  (newContent : string) : M unit :=
  match activeConversationId r with
  | None => js_return
  | Some active =>
      match find_conversation (conversations r) active with
      | None => js_return
      | Some activeConversation =>
          match nth_error (Convo.messages activeConversation) index with
          | None => throw "TypeError"
          | Some messageToEdit =>
              match Msg.role messageToEdit with
              | model => js_return
              | user =>
                  updateConversationMessages (Convo.id activeConversation)
                    (fun prev => firstn index prev) ;;
                  handleSendMessageWrapper isCodeRelated r env newContent
                    (Msg.images messageToEdit) (Msg.file messageToEdit)
                    (Msg.url messageToEdit) false
              end
          end
      end
  end.

(** a click on "save" of the message editor in the current render *)
Definition edit (env : Env) (index : nat) (newContent : string) (w : World) : World :=
  snd (handleEditMessage w env index newContent w).
End AppEdit.

(** ** [ChatInput.tsx]: [handleSend]

    [None]: the click does nothing; otherwise the arguments of
    [onSendMessage]. *)
Definition handleSend (input urlInput : string) (images : list Image)
  (file : option FileAttachment) (selectedTool : Tool) (isLoading : bool)
  : option (string * option (list Image) * option FileAttachment * option string) :=
  let messageToSend := trim input in
  let urlToSend :=
    match selectedTool with urlReader => Some (trim urlInput) | _ => None end in
  if ((truthy messageToSend || Nat.ltb 0 (length images) || Msg.has file ||
       truthy_opt urlToSend) && negb isLoading)%bool
  then Some (messageToSend,
             if Nat.ltb 0 (length images) then Some images else None,
             file, urlToSend)
  else None.

(** ** [services/chatService.ts] *)

(** [l.join(sep)] *)
Fixpoint join (sep : string) (l : list string) : string :=
  match l with
  | [] => ""
  | [x] => x
  | x :: rest => x ++ sep ++ join sep rest
  end.

Local Open Scope string_scope.

Definition summary_context (s : ConvoSummary) : string :=
  "Turn " ++ string_of_nat (serialNumber s) ++ ":" ++ nl ++
  "User: " ++ dq ++ userSummary s ++ dq ++ nl ++
  "Summary of your response: " ++ aiSummary s.

Definition code_context (s : CodeSnippet) : string :=
  "Language: " ++ cs_language s ++ nl ++
  "Description: " ++ cs_description s ++ nl ++
  "Code:" ++ nl ++ "```" ++ cs_language s ++ nl ++ cs_code s ++ nl ++ "```".

Definition buildSystemInstruction (isFirstMessage : bool)
  (modelName : option string) (ltm : option (list string))
  (userProfile : option UserProfile) (summaries : option (list ConvoSummary))
  (codeSnippets : option (list CodeSnippet))
  (developerContext personaContext capabilitiesContext : option string) : string :=
  let systemInstruction : string :=
    "You are " ++ match modelName with Some n => n | None => "Kalina AI" end ++
    ", a helpful AI assistant." in
  let systemInstruction : string :=
    match personaContext with
    | Some persona =>
        if truthy persona then
          systemInstruction ++ nl ++ nl ++ "---" ++ nl ++
          "[AI Persona & Directives]" ++ nl ++
          "This is your detailed persona. Embody it in your responses." ++ nl ++
          persona ++ nl ++ "---"
        else systemInstruction
    | None => systemInstruction
    end in
  let systemInstruction : string :=
    if isFirstMessage then
      systemInstruction ++ nl ++ nl ++ "---" ++ nl ++
      "[Conversation Title Directive]" ++ nl ++
      "For the first message in a new chat, your response MUST start with " ++
      dq ++ "TITLE: <3-5 word, professional title summarizing the prompt>" ++ dq ++
      " on its own line, followed by your main response. Omit the title in all subsequent messages." ++
      nl ++ "---"
    else systemInstruction in
  let memoryInstruction : string :=
    match match userProfile with Some p => profile_name p | None => None end with
    | Some name =>
        if truthy name then
          nl ++ "- User's name is " ++ name ++ ". Use it to personalize responses."
        else nl ++ "- User's name is unknown."
    | None => nl ++ "- User's name is unknown."
    end in
  let memoryInstruction : string :=
    match ltm with
    | Some facts =>
        if Nat.ltb 0 (length facts) then
          memoryInstruction ++ nl ++ "- Remember these facts about the user:" ++ nl ++
          join nl (map (fun fact => "  - " ++ fact) facts)
        else memoryInstruction
    | None => memoryInstruction
    end in
  let systemInstruction : string :=
    if truthy (trim memoryInstruction) then
      systemInstruction ++ nl ++ nl ++ "---" ++ nl ++
      "[Long Term Memory & User Profile]" ++ memoryInstruction ++ nl ++ "---"
    else systemInstruction in
  let contextInstruction : string :=
    match summaries with
    | Some sums =>
        if Nat.ltb 0 (length sums) then
          let recentSummaries := slice_last 10 sums in
          let summaryContext : string :=
            join (nl ++ "---" ++ nl) (map summary_context recentSummaries) in
          nl ++ nl ++ "---" ++ nl ++ "[Conversation History Summaries]" ++ nl ++
          "Use these summaries for context. Do not mention them unless asked." ++ nl ++
          "---" ++ nl ++ summaryContext ++ nl ++ "---"
        else ""
    | None => ""
    end in
  let contextInstruction : string :=
    match codeSnippets with
    | Some snippets =>
        if Nat.ltb 0 (length snippets) then
          let codeContext : string :=
            join (nl ++ "---" ++ nl) (map code_context snippets) in
          contextInstruction ++ nl ++ nl ++ "---" ++ nl ++
          "[Retrieved Code Snippets]" ++ nl ++
          "Use these code snippets for context. Do not mention them unless asked." ++ nl ++
          "---" ++ nl ++ codeContext ++ nl ++ "---"
        else contextInstruction
    | None => contextInstruction
    end in
  let systemInstruction : string := systemInstruction ++ contextInstruction in
  let systemInstruction : string :=
    match developerContext with
    | Some developer =>
        if truthy developer then
          systemInstruction ++ nl ++ nl ++ "---" ++ nl ++
          "[Creator Information]" ++ nl ++
          "This is confidential information about your creator. Use it ONLY when asked about who created you." ++ nl ++
          developer ++ nl ++ "---"
        else systemInstruction
    | None => systemInstruction
    end in
  match capabilitiesContext with
  | Some capabilities =>
      if truthy capabilities then
        systemInstruction ++ nl ++ nl ++ "---" ++ nl ++
        "[Capabilities & Tools Information]" ++ nl ++
        "This is confidential information about your abilities. Use it ONLY when asked about what you can do." ++ nl ++
        "---"
      else systemInstruction
  | None => systemInstruction
  end.

Local Open Scope list_scope.

(** * Properties *)

Unset Implicit Arguments.

(** ** Lists and strings *)

Example match_title_trip :
  match_title ("TITLE: Trip Planning" ++ nl ++ "Here is...") = Some "Trip Planning".
Proof. reflexivity. Qed.

Example strip_title_trip :
  strip_title_line ("TITLE: Trip Planning" ++ nl ++ "Here is...") = "Here is...".
Proof. reflexivity. Qed.

Example trim_example : trim ("  Hello " ++ nl) = "Hello".
Proof. reflexivity. Qed.

(** the greedy [\s*] gives a space back to the capture group *)
Example match_title_backtracks : match_title "TITLE: " = Some " ".
Proof. reflexivity. Qed.

(** [\s*] runs across a newline: an empty title line takes the next line *)
Example strip_title_empty_line :
  match_title ("TITLE:" ++ nl ++ "Here is...") = Some "Here is..." /\
  strip_title_line ("TITLE:" ++ nl ++ "Here is...") = "".
Proof. split; reflexivity. Qed.

Lemma last_opt_app {A : Type} (l : list A) (x : A) : last_opt (l ++ [x]) = Some x.
Proof.
  induction l as [|a l IH]; [reflexivity|].
  simpl. rewrite IH. destruct (l ++ [x]) eqn:E; [|reflexivity].
  destruct l; discriminate.
Qed.

Lemma map_last_app {A : Type} (f : A -> A) (l : list A) (x : A) :
  map_last f (l ++ [x]) = l ++ [f x].
Proof.
  induction l as [|a l IH]; [reflexivity|].
  simpl. rewrite IH. destruct (l ++ [x]) eqn:E; [|reflexivity].
  destruct l; discriminate.
Qed.

Lemma last_opt_None {A : Type} (l : list A) : last_opt l = None -> l = [].
Proof.
  induction l as [|a l IH]; [reflexivity|].
  simpl. destruct l; [discriminate|]. intro H. specialize (IH H). discriminate.
Qed.

Lemma last_opt_Some {A : Type} (l : list A) (x : A) :
  last_opt l = Some x -> exists pre, l = pre ++ [x].
Proof.
  induction l as [|a l IH]; [discriminate|].
  simpl. destruct l as [|b l].
  - intros [= ->]. exists []. reflexivity.
  - intro H. destruct (IH H) as [pre ->]. exists (a :: pre). reflexivity.
Qed.

Lemma map_last_length {A : Type} (f : A -> A) (l : list A) :
  length (map_last f l) = length l.
Proof.
  induction l as [|a [|b l] IH]; simpl in *; auto.
Qed.

Lemma is_empty_true (s : string) : is_empty s = true <-> s = "".
Proof. destruct s; simpl; split; congruence. Qed.

Lemma truthy_false (s : string) : truthy s = false <-> s = "".
Proof. destruct s; cbn; split; congruence. Qed.

Lemma truthy_true (s : string) : truthy s = true <-> s <> "".
Proof. destruct s; cbn; split; congruence. Qed.

(** [estimateTokens] is the ceiling of a quarter of the length. *)
Lemma estimateTokens_ceil (text : string) :
  let n := Z.of_nat (String.length text) in
  (4 * (estimateTokens text - 1) < n <= 4 * estimateTokens text)%Z.
Proof.
  unfold estimateTokens. destruct text as [|c t]; simpl is_empty; cbv iota.
  - simpl. lia.
  - set (n := Z.of_nat (String.length (String c t))).
    assert (0 <= n)%Z by (unfold n; lia).
    pose proof (Z.div_mod (n + 3) 4 ltac:(lia)).
    pose proof (Z.mod_pos_bound (n + 3) 4 ltac:(lia)).
    lia.
Qed.

(** ** C10: the history builder *)

(** the messages the claim calls dropped: model messages with blank content
    and no [images] property *)
Definition blank_model_message (m : Msg.t) : Prop :=
  Msg.role m = model /\ trim (Msg.content m) = "" /\ Msg.images m = None.

(** one part per present content text, image and file *)
Definition part_count (m : Msg.t) : nat :=
  (if is_empty (Msg.content m) then 0 else 1) +
  match Msg.images m with Some imgs => length imgs | None => 0 end +
  match Msg.file m with Some _ => 1 | None => 0 end.

Lemma message_parts_length (m : Msg.t) : length (message_parts m) = part_count m.
Proof.
  unfold message_parts, part_count, truthy.
  rewrite !length_app.
  destruct (is_empty (Msg.content m)), (Msg.images m), (Msg.file m);
    simpl; rewrite ?length_map; lia.
Qed.

Lemma valid_message_false (m : Msg.t) :
  valid_message m = false <-> blank_model_message m.
Proof.
  unfold valid_message, blank_model_message.
  rewrite negb_false_iff, !andb_true_iff, !negb_true_iff, truthy_false.
  destruct (Msg.role m), (Msg.images m); simpl;
    intuition (try discriminate; auto).
Qed.

Lemma in_transformMessagesToHistory (msgs : list Msg.t) (e : Content) :
  In e (transformMessagesToHistory msgs) <->
  exists m, In m msgs /\ ~ blank_model_message m /\ 0 < part_count m /\
            e = {| c_role := Msg.role m; c_parts := message_parts m |}.
Proof.
  unfold transformMessagesToHistory.
  rewrite filter_In, in_map_iff. split.
  - intros [(m & <- & Hm) Hlen]. apply filter_In in Hm as [Hin Hv].
    exists m. simpl in Hlen. apply Nat.ltb_lt in Hlen.
    rewrite message_parts_length in Hlen.
    repeat split; auto.
    intro Hb. apply valid_message_false in Hb. congruence.
  - intros (m & Hin & Hb & Hpos & ->). split.
    + exists m. split; [reflexivity|]. apply filter_In. split; [assumption|].
      destruct (valid_message m) eqn:E; [reflexivity|].
      apply valid_message_false in E. contradiction.
    + simpl. apply Nat.ltb_lt. rewrite message_parts_length. assumption.
Qed.

(** C10.  For every list of messages the history builder emits no entry with
    zero parts.  Its entries are, in order, those of the messages that are
    kept and have a part, where exactly the model messages with empty or
    white-space content and no images are not kept; each entry keeps the
    role of its message and has exactly one part per present content text,
    image and file. *)
Theorem C10_history_entries (msgs : list Msg.t) :
  Forall (fun e => c_parts e <> []) (transformMessagesToHistory msgs) /\
  transformMessagesToHistory msgs =
    map (fun m => {| c_role := Msg.role m; c_parts := message_parts m |})
      (filter (fun m => valid_message m && Nat.ltb 0 (part_count m))%bool msgs) /\
  (forall m, valid_message m = false <-> blank_model_message m) /\
  (forall m, length (message_parts m) = part_count m).
Proof.
  split; [|split; [|split]].
  - apply Forall_forall. intros e He.
    apply in_transformMessagesToHistory in He as (m & _ & _ & Hpos & ->).
    simpl. rewrite <- message_parts_length in Hpos.
    destruct (message_parts m); simpl in *; [lia|discriminate].
  - unfold transformMessagesToHistory.
    induction msgs as [|m msgs IH]; [reflexivity|].
    simpl. destruct (valid_message m) eqn:Hv; simpl.
    + rewrite message_parts_length.
      destruct (Nat.ltb 0 (part_count m)); simpl; rewrite IH; reflexivity.
    + exact IH.
  - exact valid_message_false.
  - exact message_parts_length.
Qed.

(** ** The conversation store *)

(** the messages of conversation [cid] in the live state *)
Definition messages_of (w : World) (cid : Id) : option (list Msg.t) :=
  option_map Convo.messages (find_conversation (conversations w) cid).

Definition title_of (w : World) (cid : Id) : option string :=
  option_map Convo.title (find_conversation (conversations w) cid).

Arguments find_conversation : simpl never.

Lemma find_conversation_map (cs : list Convo.t) (cid : Id)
  (u : Convo.t -> Convo.t) :
  (forall c, Convo.id (u c) = Convo.id c) ->
  find_conversation
    (map (fun c => if Nat.eqb (Convo.id c) cid then u c else c) cs) cid =
  option_map u (find_conversation cs cid).
Proof.
  intro Hid. unfold find_conversation.
  induction cs as [|c cs IH]; [reflexivity|].
  simpl. destruct (Nat.eqb (Convo.id c) cid) eqn:E.
  - rewrite Hid, E. reflexivity.
  - rewrite E. exact IH.
Qed.

Lemma messages_of_update (w : World) (cid : Id) (f : list Msg.t -> list Msg.t) :
  messages_of (snd (updateConversationMessages cid f w)) cid =
  option_map f (messages_of w cid).
Proof.
  unfold messages_of, updateConversationMessages, updateConversation, modify.
  simpl. rewrite find_conversation_map by reflexivity.
  destruct (find_conversation (conversations w) cid); reflexivity.
Qed.

(** ** C4: the token accountant *)

(** The usage update of lines 480-503, run uncancelled with usage metadata
    on a list that ends with a model message: [inputTokens] is the total
    prompt token count if [toolUsed] and the estimate [ceil(len(prompt)/4)]
    otherwise; [outputTokens] is [candidatesTokenCount]; [systemTokens] is the
    total minus the estimate when [toolUsed] is false and the difference is
    positive, and absent otherwise. *)
Lemma usage_phase_accounting (w : World) (cid : Id) (u : Usage)
  (fullPrompt : string) (toolInUse : option ToolInUse)
  (isImageAnalysisRequest isFileAnalysisRequest isWebSearchEnabled : bool)
  (pre : list Msg.t) (m : Msg.t) :
  isCancelledRef w = false ->
  messages_of w cid = Some (pre ++ [m]) ->
  Msg.role m = model ->
  let w' := snd (usage_phase cid (Some u) fullPrompt toolInUse
                   isImageAnalysisRequest isFileAnalysisRequest
                   isWebSearchEnabled w) in
  let toolUsed := (Msg.has toolInUse || isImageAnalysisRequest ||
                   isFileAnalysisRequest || isWebSearchEnabled)%bool in
  let totalPromptTokens :=
    match promptTokenCount u with Some n => n | None => 0%Z end in
  let estimate := estimateTokens fullPrompt in
  exists m',
    messages_of w' cid = Some (pre ++ [m']) /\
    Msg.content m' = Msg.content m /\
    Msg.inputTokens m' = Some (if toolUsed then totalPromptTokens else estimate) /\
    Msg.outputTokens m' = candidatesTokenCount u /\
    Msg.systemTokens m' =
      (if (negb toolUsed && Z.ltb 0 (totalPromptTokens - estimate))%bool
       then Some (totalPromptTokens - estimate)%Z else None) /\
    (4 * (estimate - 1) < Z.of_nat (String.length fullPrompt) <= 4 * estimate)%Z /\
    (toolUsed = false -> String.length fullPrompt = 400 ->
     promptTokenCount u = Some 300%Z ->
     Msg.inputTokens m' = Some 100%Z /\ Msg.systemTokens m' = Some 200%Z).
Proof.
  intros Hc Hm Hrole w' toolUsed total estimate.
  assert (Hw' : messages_of w' cid =
                Some (usage_updater u fullPrompt toolUsed (pre ++ [m]))).
  { unfold w', usage_phase, bind, gets, when. cbn [fst snd negb].
    rewrite Hc. cbn [negb]. rewrite messages_of_update, Hm. reflexivity. }
  unfold usage_updater in Hw'. rewrite last_opt_app, Hrole, map_last_app in Hw'.
  fold total estimate in Hw'.
  eexists. split; [exact Hw'|]. cbn [Msg.content Msg.inputTokens
    Msg.outputTokens Msg.systemTokens Msg.set_systemTokens
    Msg.set_outputTokens Msg.set_inputTokens].
  pose proof (estimateTokens_ceil fullPrompt) as Hceil. cbv zeta in Hceil.
  fold estimate in Hceil.
  split; [reflexivity|]. split; [reflexivity|]. split; [reflexivity|].
  split; [destruct toolUsed; reflexivity|]. split; [exact Hceil|].
  intros Ht Hlen Hp. subst total. rewrite Hp, Ht. rewrite Hlen in Hceil.
  assert (estimate = 100%Z) as -> by lia. split; reflexivity.
Qed.

Fixpoint replicate (n : nat) (c : ascii) : string :=
  match n with O => EmptyString | S k => String c (replicate k c) end.

Definition idle_world (cs : list Convo.t) (active : option Id) (next : Id) : World :=
  mkWorld cs active (Some "key") smart gemini_2_5_flash [] []
    (Build_UserProfile None) None
    false false false false None 0%Z None 0 false false 0%Z None 0%Z next [] [].

Definition long_prompt_chat : World :=
  idle_world
    [Convo.mk 0 "Chat"
       [newUserMessage 1 (replicate 400 "a") None None None gemini_2_5_flash 0;
        new_model_message 2 "answer" 0] 0 None None None]
    (Some 0) 3.

Example usage_phase_accounting_example :
  exists m',
    messages_of
      (snd (usage_phase 0 (Some (Build_Usage (Some 300%Z) (Some 7%Z)))
              (replicate 400 "a") None false false false long_prompt_chat)) 0 =
      Some ([newUserMessage 1 (replicate 400 "a") None None None
               gemini_2_5_flash 0] ++ [m']) /\
    Msg.inputTokens m' = Some 100%Z /\
    Msg.outputTokens m' = Some 7%Z /\
    Msg.systemTokens m' = Some 200%Z.
Proof.
  destruct (usage_phase_accounting long_prompt_chat 0
              (Build_Usage (Some 300%Z) (Some 7%Z)) (replicate 400 "a")
              None false false false
              [newUserMessage 1 (replicate 400 "a") None None None
                 gemini_2_5_flash 0]
              (new_model_message 2 "answer" 0)
              eq_refl eq_refl eq_refl)
    as (m' & Hm & _ & _ & Hout & _ & _ & Hex).
  exists m'. destruct (Hex eq_refl eq_refl eq_refl) as [Hin Hsys].
  repeat split; assumption.
Qed.

(** ** C2: cancellation *)

(** the seven transient properties are absent *)
Definition no_transient (m : Msg.t) : Prop :=
  Msg.isPlanning m = None /\ Msg.toolInUse m = None /\ Msg.thoughts m = None /\
  Msg.searchPlan m = None /\ Msg.isAnalyzingImage m = None /\
  Msg.isAnalyzingFile m = None /\ Msg.isLongToolUse m = None.

Lemma strip_transient_no_transient (m : Msg.t) : no_transient (strip_transient m).
Proof. repeat split. Qed.

Lemma handleCancelStream_messages (w : World) (cid : Id) :
  activeConversationId w = Some cid ->
  messages_of (snd (handleCancelStream w)) cid =
  option_map (cancel_updater (nextId w) (clock w)) (messages_of w cid).
Proof.
  intro Ha.
  unfold handleCancelStream, clearThinkingIntervals, stopResponseTimer,
    updateConversationMessages, updateConversation, randomUUID, now, bind,
    modify, gets.
  cbn. rewrite Ha. cbn.
  unfold messages_of. cbn. rewrite find_conversation_map by reflexivity.
  destruct (find_conversation (conversations w) cid); reflexivity.
Qed.

Lemma handleCancelStream_state (w : World) :
  let w' := snd (handleCancelStream w) in
  isCancelledRef w' = true /\ isLoading w' = false /\
  thinkingTimerRef w' = None /\ responseTimerRef w' = false /\
  isThinking w' = false /\ isSearchingWeb w' = false /\ isLongToolUse w' = false /\
  events w' = events w.
Proof.
  unfold handleCancelStream, clearThinkingIntervals, stopResponseTimer,
    updateConversationMessages, updateConversation, randomUUID, now, bind,
    modify, gets.
  cbn. destruct (activeConversationId w); cbn; repeat split.
Qed.

Lemma cancel_updater_model (newId : Id) (ts : Z) (pre : list Msg.t) (m : Msg.t) :
  Msg.role m = model ->
  cancel_updater newId ts (pre ++ [m]) =
  map strip_transient pre ++
  [Msg.set_content
     (if truthy (trim (Msg.content m))
      then trim (Msg.content m) ++ nl ++ nl ++ stop_notice
      else stop_notice) (strip_transient m)].
Proof.
  intro Hr. unfold cancel_updater.
  rewrite map_app. cbn [map]. rewrite last_opt_app.
  cbn [Msg.role strip_transient Msg.set_isAnalyzingImage Msg.set_isAnalyzingFile
         Msg.set_isPlanning Msg.set_toolInUse Msg.set_isLongToolUse
         Msg.set_thoughts Msg.set_searchPlan Msg.content].
  rewrite Hr, map_last_app. reflexivity.
Qed.

(** What [handleCancelStream] leaves when the last message of the active
    conversation is the in-flight model message with text [T]: if [T] is not
    blank the content is [trim T] followed by a blank line and the stop
    notice (for "Hello": "Hello\n\n*Response generation stopped.*"); if [T]
    is empty or white space only, the content is exactly the stop notice.  In
    both cases every transient property is stripped from every message,
    loading is switched off and the tickers are stopped. *)
Lemma handleCancelStream_settles (w : World) (cid : Id) (pre : list Msg.t) (m : Msg.t) :
  activeConversationId w = Some cid ->
  messages_of w cid = Some (pre ++ [m]) ->
  Msg.role m = model ->
  let w' := snd (handleCancelStream w) in
  exists settled m',
    messages_of w' cid = Some (settled ++ [m']) /\
    length settled = length pre /\
    (trim (Msg.content m) <> "" ->
     Msg.content m' = (trim (Msg.content m) ++ nl ++ nl ++ stop_notice)%string) /\
    (trim (Msg.content m) = "" -> Msg.content m' = stop_notice) /\
    (Msg.content m = "Hello" ->
     Msg.content m' = ("Hello" ++ nl ++ nl ++ "*Response generation stopped.*")%string) /\
    (Msg.content m = "" -> Msg.content m' = "*Response generation stopped.*") /\
    Forall no_transient (settled ++ [m']) /\
    isLoading w' = false /\ isCancelledRef w' = true /\
    thinkingTimerRef w' = None /\ responseTimerRef w' = false.
Proof.
  intros Ha Hm Hr w'.
  exists (map strip_transient pre).
  eexists. split.
  { unfold w'. rewrite (handleCancelStream_messages _ _ Ha), Hm. cbn [option_map].
    rewrite (cancel_updater_model _ _ _ _ Hr). reflexivity. }
  cbn [Msg.content Msg.set_content].
  pose proof (handleCancelStream_state w) as (Hc & Hl & Ht & Hrt & _).
  split; [apply length_map|].
  split. { intro Hne. apply truthy_true in Hne. rewrite Hne. reflexivity. }
  split. { intro He. apply truthy_false in He. rewrite He. reflexivity. }
  split. { intro He. rewrite He. reflexivity. }
  split. { intro He. rewrite He. reflexivity. }
  split.
  { apply Forall_app. split.
    - apply Forall_forall. intros x Hx. apply in_map_iff in Hx as (y & <- & _).
      apply strip_transient_no_transient.
    - constructor; [|constructor]. repeat split. }
  repeat split; assumption.
Qed.

Definition streaming_chat (text : string) : World :=
  idle_world
    [Convo.mk 0 "Chat"
       [newUserMessage 1 "hi" None None None gemini_2_5_flash 0;
        Msg.set_content text (planningMessage 2 gemini_2_5_flash 0)]
       0 None None None]
    (Some 0) 3.

Example handleCancelStream_settles_example :
  exists settled m',
    messages_of (snd (handleCancelStream (streaming_chat "Hello"))) 0 =
      Some (settled ++ [m']) /\
    Msg.content m' = ("Hello" ++ nl ++ nl ++ "*Response generation stopped.*")%string /\
    Forall no_transient (settled ++ [m']).
Proof.
  destruct (handleCancelStream_settles (streaming_chat "Hello") 0
              [newUserMessage 1 "hi" None None None gemini_2_5_flash 0]
              (Msg.set_content "Hello" (planningMessage 2 gemini_2_5_flash 0))
              eq_refl eq_refl eq_refl)
    as (settled & m' & Hm & _ & _ & _ & Hh & _ & Hall & _).
  exists settled, m'. repeat split; [exact Hm | exact (Hh eq_refl) | exact Hall].
Qed.

(** C2 as stated fails on text that is not empty but blank: cancelling when the
    in-flight message holds a single space settles on the bare stop notice,
    not on the trimmed text followed by the blank line and the notice. *)
Lemma C2_counterexample :
  let T := " " in
  T <> "" /\
  option_map (map Msg.content)
    (messages_of (snd (handleCancelStream (streaming_chat T))) 0) =
    Some ["hi"; "*Response generation stopped.*"] /\
  "*Response generation stopped.*" <>
    (trim T ++ nl ++ nl ++ "*Response generation stopped.*")%string.
Proof.
  split; [discriminate|]. split; [reflexivity|]. discriminate.
Qed.

(** ** C3: the entry guard *)

(** C3.  A call of Send while a turn is in flight, or with a blank prompt and
    no image, file or URL, or without an API key, returns at once and leaves
    the whole hook state as it was: no message appended, no timer started, no
    request logged. *)
Theorem C3_send_guard (r w : World) (env : Env) (prompt : string)
  (images : option (list Image)) (file : option FileAttachment)
  (url : option string) (overrideModel : option ChatModel) (isRetry : bool) :
  isLoading r = true \/
  (trim prompt = "" /\ images = None /\ file = None /\
   (url = None \/ url = Some "")) \/
  (apiKey r = None \/ apiKey r = Some "") ->
  handleSendMessage r env prompt images file url overrideModel isRetry w =
    (Returned, w) /\
  send env prompt images file url overrideModel isRetry r = r.
Proof.
  intro H.
  assert (Hrej : send_rejected r prompt images file url = true).
  { unfold send_rejected.
    destruct H as [H | [(Hp & Hi & Hf & Hu) | H]].
    - rewrite H. apply orb_true_iff. left. apply orb_true_iff. right. reflexivity.
    - rewrite Hp, Hi, Hf. destruct Hu as [-> | ->]; reflexivity.
    - apply orb_true_iff. right. destruct H as [-> | ->]; reflexivity. }
  unfold send, handleSendMessage. rewrite Hrej. split; reflexivity.
Qed.

Lemma C3_send_guard_witness :
  let busy := set_isLoading true (streaming_chat "Hel") in
  let env := Build_Env None [] (inl "") [] (inl "") [] [] [] None [] [] [] None
               (fun e => e) in
  send env "next question" None None None None false busy = busy.
Proof.
  intros busy env.
  exact (proj2 (C3_send_guard busy busy env "next question" None None None None
                  false (or_introl eq_refl))).
Defined.

(** ** Invariants of the turn

    [keeps I c Q]: running [c] from a state that satisfies [I] ends, however
    [c] completes, in a state that satisfies [I], and a value it completes
    normally with satisfies [Q]. *)

Section Keeps.
Variable I : World -> Prop.

Definition keeps {A : Type} (c : M A) (Q : A -> Prop) : Prop :=
  forall w, I w -> I (snd (c w)) /\ (forall a, fst (c w) = Normal a -> Q a).

Lemma keeps_ret {A : Type} (a : A) (Q : A -> Prop) : Q a -> keeps (ret a) Q.
Proof. intros HQ w Hw. split; [exact Hw|]. intros a' [= <-]. exact HQ. Qed.

Lemma keeps_bind {A B : Type} (c : M A) (k : A -> M B) (Q : A -> Prop)
  (Q' : B -> Prop) :
  keeps c Q -> (forall a, Q a -> keeps (k a) Q') -> keeps (bind c k) Q'.
Proof.
  intros Hc Hk w Hw. unfold bind.
  destruct (Hc w Hw) as [Hi Hq].
  destruct (c w) as [[a| |e] w']; simpl in *.
  - exact (Hk a (Hq a eq_refl) w' Hi).
  - split; [exact Hi|discriminate].
  - split; [exact Hi|discriminate].
Qed.

Lemma keeps_weaken {A : Type} (c : M A) (Q Q' : A -> Prop) :
  keeps c Q -> (forall a, Q a -> Q' a) -> keeps c Q'.
Proof.
  intros Hc HQ w Hw. destruct (Hc w Hw) as [Hi Hq]. split; [exact Hi|].
  intros a Ha. apply HQ, Hq, Ha.
Qed.

Lemma keeps_return {A : Type} (Q : A -> Prop) : keeps js_return Q.
Proof. intros w Hw. split; [exact Hw|discriminate]. Qed.

Lemma keeps_throw {A : Type} (e : string) (Q : A -> Prop) : keeps (throw e) Q.
Proof. intros w Hw. split; [exact Hw|discriminate]. Qed.

Lemma keeps_modify (f : World -> World) :
  (forall w, I w -> I (f w)) -> keeps (modify f) (fun _ => True).
Proof. intros Hf w Hw. split; [exact (Hf w Hw)|trivial]. Qed.

Lemma keeps_gets {A : Type} (f : World -> A) : keeps (gets f) (fun _ => True).
Proof. intros w Hw. split; [exact Hw|trivial]. Qed.

Lemma keeps_when (b : bool) (c : M unit) :
  (b = true -> keeps c (fun _ => True)) -> keeps (when b c) (fun _ => True).
Proof.
  intro Hc. destruct b; [exact (Hc eq_refl)|]. apply keeps_ret. exact Logic.I.
Qed.

Lemma keeps_seq {A B : Type} (c : M A) (k : M B) (Q' : B -> Prop) :
  keeps c (fun _ => True) -> keeps k Q' -> keeps (bind c (fun _ => k)) Q'.
Proof. intros Hc Hk. apply keeps_bind with (Q := fun _ => True); auto. Qed.

Lemma keeps_try_catch {A : Type} (body : M A) (handler : string -> M A)
  (Q : A -> Prop) :
  keeps body Q -> (forall e, keeps (handler e) Q) ->
  keeps (try_catch body handler) Q.
Proof.
  intros Hb Hh w Hw. unfold try_catch.
  destruct (Hb w Hw) as [Hi Hq].
  destruct (body w) as [[a| |e] w']; simpl in *.
  - split; [exact Hi|exact Hq].
  - split; [exact Hi|discriminate].
  - exact (Hh e w' Hi).
Qed.

Lemma keeps_try_finally {A : Type} (body : M A) (fin : M unit) :
  keeps body (fun _ => True) -> keeps fin (fun _ => True) ->
  keeps (try_finally body fin) (fun _ => True).
Proof.
  intros Hb Hf w Hw. unfold try_finally.
  destruct (Hb w Hw) as [Hi _].
  destruct (body w) as [r w']; simpl in *.
  destruct (Hf w' Hi) as [Hi' _].
  destruct (fin w') as [[a| |e] w'']; simpl in *; split; trivial.
Qed.

End Keeps.

(** ** Requests issued by a turn

    An invariant on the request log: every logged request is either one of
    [base] (logged before the turn) or satisfies [ok]. *)

Section Requests.
Variable ok : Event -> Prop.
Variable base : list Event.

Definition requests_ok (w : World) : Prop :=
  forall ev, In ev (events w) -> In ev base \/ ok ev.

(** [c] logs nothing *)
Definition quiet {A : Type} (c : M A) : Prop :=
  forall w, events (snd (c w)) = events w.

Lemma keeps_quiet {A : Type} (c : M A) :
  quiet c -> keeps requests_ok c (fun _ => True).
Proof.
  intros Hq w Hw. split; [|trivial]. unfold requests_ok. rewrite Hq. exact Hw.
Qed.

Lemma keeps_emit (ev : Event) :
  ok ev -> keeps requests_ok (emit ev) (fun _ => True).
Proof.
  intros Hok w Hw. split; [|trivial].
  intros ev' [<- | Hin]; [right; exact Hok | exact (Hw ev' Hin)].
Qed.

End Requests.

Lemma quiet_bind {A B : Type} (c : M A) (k : A -> M B) :
  quiet c -> (forall a, quiet (k a)) -> quiet (bind c k).
Proof.
  intros Hc Hk w. unfold bind. specialize (Hc w).
  destruct (c w) as [[a| |e] w']; simpl in *; [|assumption..].
  rewrite Hk. exact Hc.
Qed.

Lemma quiet_ret {A : Type} (a : A) : quiet (ret a).
Proof. intro w. reflexivity. Qed.

Lemma quiet_return {A : Type} : quiet (@js_return A).
Proof. intro w. reflexivity. Qed.

Lemma quiet_gets {A : Type} (f : World -> A) : quiet (gets f).
Proof. intro w. reflexivity. Qed.

Lemma quiet_modify (f : World -> World) :
  (forall w, events (f w) = events w) -> quiet (modify f).
Proof. intros H w. apply H. Qed.

Lemma quiet_updateConversation (cid : Id) (u : Convo.t -> Convo.t) :
  quiet (updateConversation cid u).
Proof. intro w. reflexivity. Qed.

Lemma quiet_updateConversationMessages (cid : Id) (f : list Msg.t -> list Msg.t) :
  quiet (updateConversationMessages cid f).
Proof. intro w. reflexivity. Qed.

Lemma quiet_when (b : bool) (c : M unit) : quiet c -> quiet (when b c).
Proof. intro H. destruct b; [exact H|apply quiet_ret]. Qed.

Ltac quiet_step :=
  first
    [ apply quiet_ret | apply quiet_return | apply quiet_gets
    | apply quiet_updateConversationMessages | apply quiet_updateConversation
    | apply quiet_modify; intro; reflexivity
    | intro; reflexivity
    | apply quiet_when
    | apply quiet_bind; [|intros] ].

Ltac quiet_auto := repeat quiet_step.

Lemma quiet_handleCancelStream : quiet handleCancelStream.
Proof. intro w. apply (handleCancelStream_state w). Qed.

Lemma quiet_interrupt (i : Interrupt) : quiet (interrupt i).
Proof.
  destruct i; simpl.
  - quiet_auto.
  - intro w. unfold modify. simpl. destruct (responseTimerRef w); reflexivity.
  - apply quiet_bind; [quiet_auto|]. intros [cid|]; quiet_auto.
  - apply quiet_bind; [quiet_auto|]. intros [cid|]; quiet_auto.
  - apply quiet_handleCancelStream.
Qed.

Lemma quiet_await (ints : list Interrupt) : quiet (await ints).
Proof.
  induction ints as [|i ints IH]; simpl; [apply quiet_ret|].
  apply quiet_bind; [apply quiet_interrupt|]. intros _. exact IH.
Qed.

Lemma quiet_return_if_cancelled : quiet return_if_cancelled.
Proof.
  unfold return_if_cancelled. apply quiet_bind; [quiet_auto|].
  intros []; quiet_auto.
Qed.

Lemma quiet_handleToolError (cid : Id) (msg : string) :
  quiet (handleToolError cid msg).
Proof. unfold handleToolError, stopResponseTimer. quiet_auto. Qed.

Lemma quiet_title_step (cid : Id) (isFirst titleExtracted : bool) (acc : string) :
  quiet (title_step cid isFirst titleExtracted acc).
Proof.
  unfold title_step. destruct isFirst; [|quiet_auto].
  apply quiet_bind; [|intros; quiet_auto].
  destruct titleExtracted; [quiet_auto|].
  destruct (match_title acc); [quiet_auto|].
  match goal with |- quiet (if ?b then _ else _) => destruct b end; quiet_auto.
Qed.

Lemma quiet_chunk_step (cid : Id) (isFirst : bool) (chunk : Chunk)
  (acc : string) (titleExtracted : bool) (usage : option Usage) :
  quiet (chunk_step cid isFirst chunk acc titleExtracted usage).
Proof.
  unfold chunk_step.
  apply quiet_bind; [apply quiet_title_step|]. intros [te' display].
  apply quiet_bind; [intro; reflexivity|]. intros newId.
  apply quiet_bind; [quiet_auto|]. intros ts.
  apply quiet_bind; [quiet_auto|]. intros _. apply quiet_ret.
Qed.

Lemma quiet_stream_loop (env : Env) (cid : Id) (isFirst : bool)
  (stream : list (list Interrupt * Chunk)) :
  forall acc titleExtracted usage,
    quiet (stream_loop env cid isFirst stream acc titleExtracted usage).
Proof.
  induction stream as [|[ints chunk] rest IH]; intros acc te usage; simpl.
  - apply quiet_bind; [apply quiet_await|]. intros _.
    destruct (streamError env); intro w; reflexivity.
  - apply quiet_bind; [apply quiet_await|]. intros _.
    apply quiet_bind; [quiet_auto|]. intros [|]; [quiet_auto|].
    apply quiet_bind; [apply quiet_chunk_step|]. intros [[acc' te'] usage'].
    apply IH.
Qed.

Lemma quiet_usage_phase (cid : Id) (usage : option Usage) (p : string)
  (t : option ToolInUse) (a b c : bool) :
  quiet (usage_phase cid usage p t a b c).
Proof.
  unfold usage_phase. apply quiet_bind; [quiet_auto|]. intros cancelled.
  destruct usage; quiet_auto.
Qed.

Lemma quiet_turn_finally (cid : Id) : quiet (turn_finally cid).
Proof.
  unfold turn_finally, stopResponseTimer, clearThinkingIntervals, now.
  quiet_auto.
Qed.

Lemma quiet_start_turn (cid : Id) (modelToUse : ChatModel) (p : string)
  (images : option (list Image)) (file : option FileAttachment)
  (url : option string) (isRetry : bool) :
  quiet (start_turn cid modelToUse p images file url isRetry).
Proof.
  unfold start_turn, now, randomUUID.
  repeat (apply quiet_bind; [quiet_auto|intros]).
  destruct isRetry; simpl; quiet_auto.
Qed.

(** ** The model call of a turn

    What a turn may log, given the plan, [isThinkingEnabled] and
    [isWebSearchEnabled] left by the manual override: the model is called
    with the thinking flag, the search flag and the prompt that the image
    check, the URL reader and the molecule lookup leave behind. *)

Section ModelCall.
Variable env : Env.
Variable plan : Plan.t.
Variables think web : bool.
Variable fullPrompt : string.
Variable images : option (list Image).
Variable file : option FileAttachment.
Variable url : option string.

Definition isImageAnalysisRequest : bool :=
  match images with Some imgs => Nat.ltb 0 (length imgs) | None => false end.

(** [finalPromptForModel] after the URL reader; [None]: the turn has ended *)
Definition prompt_after_url : option string :=
  if Plan.isUrlReadRequest plan then
    match url, urlOutcome env with
    | Some u, inl cleanedContent =>
        if truthy u then Some (url_prompt u cleanedContent fullPrompt) else None
    | _, _ => None
    end
  else Some fullPrompt.

Definition moleculeName_of : string :=
  match Plan.moleculeName plan with
  | Some n => if truthy n then n else fullPrompt
  | None => fullPrompt
  end.

Definition prompt_after_molecule : option string :=
  if Plan.isMoleculeRequest plan then
    match prompt_after_url, moleculeOutcome env with
    | Some _, inr _ => Some (molecule_prompt moleculeName_of)
    | _, _ => None
    end
  else prompt_after_url.

Definition thinking_at_call : bool :=
  if Plan.isMoleculeRequest plan then false
  else if isImageAnalysisRequest then false else think.

Definition web_at_call : bool :=
  if Plan.isMoleculeRequest plan then false else web.

Definition turn_request_ok (ev : Event) : Prop :=
  match ev with
  | EvSendMessageStream _ isThinkingEnabled _ _ message =>
      isThinkingEnabled = thinking_at_call /\ web_at_call = false /\
      exists p, prompt_after_molecule = Some p /\
                message = userMessageParts images file p
  | EvGenerateContentStream _ _ contents =>
      web_at_call = true /\
      exists p history,
        prompt_after_molecule = Some p /\
        contents = history ++
                   [{| c_role := user; c_parts := userMessageParts images file p |}]
  | EvThinkingTickerStarted => thinking_at_call = true
  | _ => True
  end.

Variable base : list Event.
Let inv := requests_ok turn_request_ok base.

Lemma keeps_url_phase (cid : Id) :
  Plan.isUrlReadRequest plan = true ->
  keeps inv (url_phase env cid fullPrompt url)
    (fun p => prompt_after_url = Some p).
Proof.
  intro Hu. unfold url_phase, prompt_after_url. rewrite Hu.
  destruct url as [u|].
  - destruct (truthy u).
    + apply keeps_seq; [apply keeps_quiet, quiet_updateConversationMessages|].
      apply keeps_seq; [apply keeps_emit; exact Logic.I|].
      apply keeps_seq; [apply keeps_quiet, quiet_await|].
      destruct (urlOutcome env) as [c|e].
      * apply keeps_seq; [apply keeps_quiet, quiet_return_if_cancelled|].
        apply keeps_ret. reflexivity.
      * apply keeps_seq; [apply keeps_quiet, quiet_handleToolError|].
        apply keeps_return.
    + apply keeps_seq; [apply keeps_quiet, quiet_handleToolError|].
      apply keeps_return.
  - apply keeps_seq; [apply keeps_quiet, quiet_handleToolError|].
    apply keeps_return.
Qed.

Lemma keeps_molecule_phase (cid : Id) (p0 : string) :
  Plan.isMoleculeRequest plan = true ->
  prompt_after_url = Some p0 ->
  keeps inv (molecule_phase env cid fullPrompt plan)
    (fun p => prompt_after_molecule = Some p).
Proof.
  intros Hm Hp0. unfold molecule_phase, prompt_after_molecule.
  rewrite Hm, Hp0. fold moleculeName_of.
  apply keeps_seq; [apply keeps_quiet, quiet_updateConversationMessages|].
  apply keeps_seq; [apply keeps_emit; exact Logic.I|].
  apply keeps_seq; [apply keeps_quiet, quiet_await|].
  destruct (moleculeOutcome env) as [e|d].
  - apply keeps_seq; [apply keeps_emit; exact Logic.I|].
    apply keeps_seq; [apply keeps_quiet, quiet_updateConversationMessages|].
    apply keeps_seq; [apply keeps_quiet; quiet_auto|].
    apply keeps_seq; [apply keeps_quiet; unfold stopResponseTimer; quiet_auto|].
    apply keeps_return.
  - apply keeps_seq; [apply keeps_quiet, quiet_return_if_cancelled|].
    apply keeps_seq; [apply keeps_quiet, quiet_updateConversationMessages|].
    apply keeps_ret. reflexivity.
Qed.

Lemma keeps_background_writers (r : World) (cid : Id) (response : string) :
  keeps inv (background_writers r cid fullPrompt response) (fun _ => True).
Proof.
  unfold background_writers.
  apply keeps_bind with (Q := fun _ => True); [apply keeps_gets|].
  intros cancelled _.
  destruct (find_conversation (conversations r) cid) as [c|];
    [|apply keeps_ret; exact Logic.I].
  destruct cancelled; [apply keeps_ret; exact Logic.I|].
  apply keeps_seq.
  - apply keeps_when. intros _. apply keeps_when. intros _.
    apply keeps_emit. exact Logic.I.
  - apply keeps_when. intros _. apply keeps_emit. exact Logic.I.
Qed.

Lemma keeps_turn_body (r : World) (cid : Id) (isFirst : bool)
  (convo : Convo.t) (modelToUse : ChatModel) :
  toolOverrides (selectedTool r) (planResponse (planOutcome env))
    (Plan.needsThinking (planResponse (planOutcome env)))
    (Plan.needsWebSearch (planResponse (planOutcome env))) = (plan, think, web) ->
  keeps inv
    (turn_body r env cid isFirst convo modelToUse fullPrompt images file url)
    (fun _ => True).
Proof.
  intro Hov. unfold turn_body.
  apply keeps_seq; [apply keeps_emit; exact Logic.I|].
  apply keeps_seq; [apply keeps_quiet, quiet_await|].
  apply keeps_seq; [apply keeps_quiet, quiet_return_if_cancelled|].
  rewrite Hov. fold isImageAnalysisRequest.
  apply keeps_seq; [apply keeps_quiet; quiet_auto|].
  apply keeps_seq; [apply keeps_quiet; quiet_auto|].
  apply keeps_seq; [apply keeps_quiet; quiet_auto|].
  assert (Hurl_eq : forall b : bool,
            Plan.isUrlReadRequest (if b then Plan.set_thoughts [] plan else plan)
            = Plan.isUrlReadRequest plan) by (intros []; reflexivity).
  assert (Hmol_eq : forall b : bool,
            Plan.isMoleculeRequest (if b then Plan.set_thoughts [] plan else plan)
            = Plan.isMoleculeRequest plan) by (intros []; reflexivity).
  rewrite Hurl_eq, Hmol_eq.
  apply keeps_bind with (Q := fun p => prompt_after_url = Some p).
  { destruct (Plan.isUrlReadRequest plan) eqn:Hu.
    - apply keeps_url_phase. exact Hu.
    - apply keeps_ret. unfold prompt_after_url. rewrite Hu. reflexivity. }
  intros p0 Hp0.
  apply keeps_bind with
    (Q := fun x => match x with
                   | (p, w', t') =>
                       prompt_after_molecule = Some p /\ w' = web_at_call /\
                       t' = thinking_at_call
                   end).
  { destruct (Plan.isMoleculeRequest plan) eqn:Hm.
    - apply keeps_bind with (Q := fun p => prompt_after_molecule = Some p).
      + assert (Hname : forall b : bool,
                  molecule_phase env cid fullPrompt
                    (if b then Plan.set_thoughts [] plan else plan) =
                  molecule_phase env cid fullPrompt plan)
          by (intros []; reflexivity).
        rewrite Hname. apply keeps_molecule_phase with (p0 := p0); assumption.
      + intros p Hp. apply keeps_ret.
        unfold web_at_call, thinking_at_call. rewrite Hm. auto.
    - apply keeps_ret. unfold prompt_after_molecule, web_at_call, thinking_at_call.
      rewrite Hm. auto. }
  intros [[p web'] think'] (Hp & -> & ->).
  apply keeps_seq; [apply keeps_quiet, quiet_updateConversationMessages|].
  apply keeps_seq.
  { apply keeps_when. intro Hb. apply andb_true_iff in Hb as [Ht _].
    apply keeps_seq; [apply keeps_quiet; quiet_auto|].
    apply keeps_seq; [apply keeps_quiet; quiet_auto|].
    apply keeps_seq; [apply keeps_quiet; quiet_auto|].
    apply keeps_emit. exact Ht. }
  apply keeps_seq; [apply keeps_quiet; quiet_auto|].
  apply keeps_seq.
  { apply keeps_when. intros _.
    apply keeps_seq; [apply keeps_emit; exact Logic.I|].
    apply keeps_seq; [apply keeps_quiet, quiet_await|].
    apply keeps_quiet, quiet_return_if_cancelled. }
  apply keeps_seq.
  { match goal with |- keeps _ (if ?b then _ else _) _ => destruct b end;
      [apply keeps_throw | apply keeps_ret; exact Logic.I]. }
  apply keeps_seq.
  { destruct web_at_call eqn:Hw.
    - apply keeps_emit. simpl. eauto.
    - apply keeps_emit. simpl. eauto. }
  apply keeps_seq; [apply keeps_quiet, quiet_await|].
  apply keeps_seq.
  { destruct (streamOpenError env); [apply keeps_throw|apply keeps_ret; exact Logic.I]. }
  apply keeps_seq; [apply keeps_quiet; quiet_auto|].
  apply keeps_seq; [apply keeps_quiet; quiet_auto|].
  apply keeps_seq;
    [apply keeps_quiet; unfold clearThinkingIntervals; quiet_auto|].
  apply keeps_seq; [apply keeps_quiet; quiet_auto|].
  apply keeps_seq; [apply keeps_quiet; quiet_auto|].
  apply keeps_seq; [apply keeps_quiet; quiet_auto|].
  apply keeps_bind with (Q := fun _ => True);
    [apply keeps_quiet, quiet_stream_loop|].
  intros [response usage] _.
  apply keeps_seq; [apply keeps_quiet, quiet_usage_phase|].
  apply keeps_background_writers.
Qed.

End ModelCall.

Lemma send_requests (w : World) (env : Env) (prompt : string)
  (images : option (list Image)) (file : option FileAttachment)
  (url : option string) (overrideModel : option ChatModel) (isRetry : bool)
  (plan : Plan.t) (think web : bool) :
  toolOverrides (selectedTool w) (planResponse (planOutcome env))
    (Plan.needsThinking (planResponse (planOutcome env)))
    (Plan.needsWebSearch (planResponse (planOutcome env))) = (plan, think, web) ->
  forall ev,
    In ev (events (send env prompt images file url overrideModel isRetry w)) ->
    In ev (events w) \/
    turn_request_ok env plan think web prompt images file url ev.
Proof.
  intros Hov.
  set (ok := turn_request_ok env plan think web prompt images file url).
  assert (H : keeps (requests_ok ok (events w))
                (handleSendMessage w env prompt images file url overrideModel
                   isRetry) (fun _ => True)).
  { unfold handleSendMessage.
    destruct (send_rejected w prompt images file url); [apply keeps_return|].
    apply keeps_bind with (Q := fun _ => True).
    - unfold resolve_conversation.
      destruct (activeConversationId w) as [cid|] eqn:Ha.
      + destruct (find_conversation (conversations w) cid).
        * apply keeps_ret. exact Logic.I.
        * apply keeps_seq; [apply keeps_emit; exact Logic.I|].
          apply keeps_seq; [apply keeps_quiet; quiet_auto|].
          apply keeps_seq;
            [apply keeps_quiet; unfold stopResponseTimer; quiet_auto|].
          apply keeps_return.
      + apply keeps_quiet. unfold prependConversation, randomUUID, now.
        quiet_auto.
    - intros [[cid isFirst] convo] _.
      apply keeps_seq; [apply keeps_quiet, quiet_start_turn|].
      apply keeps_try_finally.
      + apply keeps_try_catch.
        * apply keeps_turn_body. exact Hov.
        * intro e. unfold turn_catch.
          apply keeps_seq; [apply keeps_quiet, quiet_return_if_cancelled|].
          apply keeps_seq; [apply keeps_emit; exact Logic.I|].
          apply keeps_quiet. unfold randomUUID, now. quiet_auto.
      + apply keeps_quiet, quiet_turn_finally. }
  intros ev Hev. unfold send in Hev.
  destruct (H w) as [Hinv _]; [intros ev' Hin; left; exact Hin|].
  exact (Hinv ev Hev).
Qed.

(** ** C7: the prompt of the URL reader *)

Definition attachment_parts (images : option (list Image))
  (file : option FileAttachment) : list Part :=
  (match images with Some imgs => map image_part imgs | None => [] end) ++
  (match file with
   | Some f => [PInlineData (file_base64 f) (file_mimeType f)]
   | None => []
   end).

Lemma userMessageParts_text (images : option (list Image))
  (file : option FileAttachment) (p : string) :
  p <> "" ->
  userMessageParts images file p = attachment_parts images file ++ [PText p].
Proof.
  intro Hp. unfold userMessageParts, attachment_parts.
  apply truthy_true in Hp. rewrite Hp, app_assoc. reflexivity.
Qed.

(** C7 (as amended).  When [isUrlReadRequest] is in effect after the manual
    override, no molecule request is, a URL [u] was supplied and its content
    was fetched, every model call of the turn carries, after the attachments,
    the single text part
    "[URL: u]\n\n[EXTRACTED WEBPAGE CONTENT]:\ncontent\n\n[USER QUESTION]:\nprompt". *)
Theorem C7_url_prompt (w : World) (env : Env) (prompt : string)
  (images : option (list Image)) (file : option FileAttachment) (u content : string)
  (overrideModel : option ChatModel) (isRetry : bool)
  (plan : Plan.t) (think web : bool) :
  toolOverrides (selectedTool w) (planResponse (planOutcome env))
    (Plan.needsThinking (planResponse (planOutcome env)))
    (Plan.needsWebSearch (planResponse (planOutcome env))) = (plan, think, web) ->
  Plan.isUrlReadRequest plan = true ->
  Plan.isMoleculeRequest plan = false ->
  u <> "" ->
  urlOutcome env = inl content ->
  let effectivePrompt :=
    ("[URL: " ++ u ++ "]" ++ nl ++ nl ++ "[EXTRACTED WEBPAGE CONTENT]:" ++ nl ++
     content ++ nl ++ nl ++ "[USER QUESTION]:" ++ nl ++ prompt)%string in
  forall ev,
    In ev (events (send env prompt images file (Some u) overrideModel isRetry w)) ->
    In ev (events w) \/
    match ev with
    | EvSendMessageStream _ _ _ _ message =>
        message = attachment_parts images file ++ [PText effectivePrompt]
    | EvGenerateContentStream _ _ contents =>
        exists history,
          contents = history ++
            [{| c_role := user;
                c_parts := attachment_parts images file ++ [PText effectivePrompt] |}]
    | _ => True
    end.
Proof.
  intros Hov Hu Hm Hne Hc effectivePrompt ev Hev.
  destruct (send_requests _ _ _ _ _ _ _ _ _ _ _ Hov ev Hev) as [Hin | Hok];
    [left; exact Hin | right].
  assert (Hp : prompt_after_molecule env plan prompt (Some u) = Some effectivePrompt).
  { unfold prompt_after_molecule, prompt_after_url. rewrite Hm, Hu, Hc.
    apply truthy_true in Hne. rewrite Hne. reflexivity. }
  assert (Hne' : effectivePrompt <> "") by discriminate.
  destruct ev; try exact Logic.I; simpl in Hok.
  - destruct Hok as (_ & p & history & Hp' & ->).
    rewrite Hp in Hp'. injection Hp' as <-.
    exists history. rewrite userMessageParts_text by exact Hne'. reflexivity.
  - destruct Hok as (_ & _ & p & Hp' & ->).
    rewrite Hp in Hp'. injection Hp' as <-.
    apply userMessageParts_text. exact Hne'.
Qed.

Definition plain_plan : Plan.raw :=
  Plan.mk_raw false false false false false false false None None None.

Definition text_chunk (t : string) : Chunk := Build_Chunk t None None.

(** a script without callbacks between the awaits *)
Definition calm_env (raw : option Plan.raw) (urlResult : string + string)
  (stream : list Chunk) : Env :=
  Build_Env raw [] urlResult [] (inl "not found") [] [] [] None []
    (map (fun c => ([], c)) stream) [] None (fun e => e).

Definition with_tool (t : Tool) (w : World) : World :=
  mkWorld (conversations w) (activeConversationId w) (apiKey w) t
    (selectedChatModel w) (ltm w) (codeMemory w) (userProfile w)
    (activeSuggestion w) (isLoading w) (isThinking w) (isSearchingWeb w)
    (isLongToolUse w) (error w) (elapsedTime w) (thinkingTimerRef w)
    (thinkingTimeRef w) (isCancelledRef w) (responseTimerRef w)
    (responseStartTimeRef w) (longToolUseTimer w) (clock w) (nextId w)
    (events w) (trace w).

Definition settled_chat : World :=
  idle_world
    [Convo.mk 0 "Chat"
       [newUserMessage 1 "hi" None None None gemini_2_5_flash 0;
        new_model_message 2 "hello" 0] 0 None None (Some [])]
    (Some 0) 3.

Definition url_env : Env :=
  calm_env (Some plain_plan) (inl "page text") [text_chunk "It says..."].

Definition url_request : Event :=
  EvSendMessageStream gemini_2_5_flash false false
    [{| c_role := user; c_parts := [PText "hi"] |};
     {| c_role := model; c_parts := [PText "hello"] |}]
    [PText ("[URL: https://example.org]" ++ nl ++ nl ++
            "[EXTRACTED WEBPAGE CONTENT]:" ++ nl ++ "page text" ++ nl ++ nl ++
            "[USER QUESTION]:" ++ nl ++ "summarize")].

Lemma C7_url_prompt_witness :
  In url_request
    (events (send url_env "summarize" None None (Some "https://example.org")
               None false (with_tool urlReader settled_chat))) /\
  (In url_request (events (with_tool urlReader settled_chat)) \/
   match url_request with
   | EvSendMessageStream _ _ _ _ message =>
       message =
       attachment_parts None None ++
       [PText ("[URL: https://example.org]" ++ nl ++ nl ++
               "[EXTRACTED WEBPAGE CONTENT]:" ++ nl ++ "page text" ++ nl ++ nl ++
               "[USER QUESTION]:" ++ nl ++ "summarize")]
   | _ => True
   end).
Proof.
  assert (Hin : In url_request
                  (events (send url_env "summarize" None None
                             (Some "https://example.org") None false
                             (with_tool urlReader settled_chat)))).
  { vm_compute. right. left. reflexivity. }
  split; [exact Hin|].
  exact (C7_url_prompt (with_tool urlReader settled_chat) url_env "summarize"
           None None "https://example.org" "page text" None false
           _ _ _ eq_refl eq_refl eq_refl ltac:(discriminate) eq_refl
           url_request Hin).
Defined.

(** C7 as stated fails: the labels of the prompt the code builds are
    "[EXTRACTED WEBPAGE CONTENT]:" and "[USER QUESTION]:". *)
Lemma C7_counterexample :
  let u := "https://example.org" in
  let content := "page text" in
  let userPrompt := "summarize" in
  let claimed :=
    ("[URL: " ++ u ++ "]" ++ nl ++ nl ++ "[EXTRACTED CONTENT]:" ++ nl ++ content ++
     nl ++ nl ++ "[QUESTION]:" ++ nl ++ userPrompt)%string in
  exists isThinkingEnabled history message,
    events (send url_env userPrompt None None (Some u) None false
              (with_tool urlReader settled_chat)) =
      [EvUpdateMemory userPrompt "It says...";
       EvSendMessageStream gemini_2_5_flash isThinkingEnabled false history message;
       EvFetchUrl u;
       EvPlanResponse userPrompt None None gemini_2_5_flash] /\
    message <> [PText claimed] /\
    message = [PText (url_prompt u content userPrompt)].
Proof.
  do 3 eexists. split; [vm_compute; reflexivity|]. split; [|reflexivity].
  vm_compute. discriminate.
Qed.

(** ** C6: tools and thinking *)

(** what the planner and the manual override leave: a tool flag in effect
    comes with thinking off *)
Lemma toolOverrides_thinking_off (tool : Tool) (outcome : option Plan.raw)
  (plan : Plan.t) (think web : bool) :
  toolOverrides tool (planResponse outcome)
    (Plan.needsThinking (planResponse outcome))
    (Plan.needsWebSearch (planResponse outcome)) = (plan, think, web) ->
  Plan.isUrlReadRequest plan = true \/ Plan.isMoleculeRequest plan = true \/
  web = true ->
  Plan.isMoleculeRequest plan = true \/ think = false.
Proof.
  intros Hov H.
  destruct tool; simpl in Hov; injection Hov as <- <- <-; simpl in *.
  - (* smart *)
    destruct outcome as [raw|]; simpl in *.
    + destruct (Plan.r_needsWebSearch raw), (Plan.r_isUrlReadRequest raw),
        (Plan.r_isMoleculeRequest raw); simpl in *; auto;
        destruct H as [H | [H | H]]; discriminate.
    + auto.
  - auto.
  - destruct H as [H | [H | H]]; [discriminate | auto | discriminate].
  - (* translator *)
    destruct outcome as [raw|]; simpl in *.
    + destruct (Plan.r_needsWebSearch raw), (Plan.r_isUrlReadRequest raw),
        (Plan.r_isMoleculeRequest raw); simpl in *; auto;
        destruct H as [H | [H | H]]; discriminate.
    + auto.
  - auto.
  - auto.
Qed.

(** C6 (as amended).  If, once the manual override has been applied,
    [isUrlReadRequest], [isMoleculeRequest] or web search is in effect, or
    if an image is attached, then thinking is off for the turn: every chat
    request of the turn is made with [isThinkingEnabled = false] and the
    thinking ticker is never started.  (A file attachment is not among the
    conditions.) *)
Theorem C6_tools_disable_thinking (w : World) (env : Env) (prompt : string)
  (images : option (list Image)) (file : option FileAttachment)
  (url : option string) (overrideModel : option ChatModel) (isRetry : bool)
  (plan : Plan.t) (think web : bool) :
  toolOverrides (selectedTool w) (planResponse (planOutcome env))
    (Plan.needsThinking (planResponse (planOutcome env)))
    (Plan.needsWebSearch (planResponse (planOutcome env))) = (plan, think, web) ->
  Plan.isUrlReadRequest plan = true \/ Plan.isMoleculeRequest plan = true \/
  web = true \/ (exists i rest, images = Some (i :: rest)) ->
  forall ev,
    In ev (events (send env prompt images file url overrideModel isRetry w)) ->
    In ev (events w) \/
    match ev with
    | EvSendMessageStream _ isThinkingEnabled _ _ _ => isThinkingEnabled = false
    | EvThinkingTickerStarted => False
    | _ => True
    end.
Proof.
  intros Hov H ev Hev.
  destruct (send_requests _ _ _ _ _ _ _ _ _ _ _ Hov ev Hev) as [Hin | Hok];
    [left; exact Hin | right].
  assert (Hoff : thinking_at_call plan think images = false).
  { unfold thinking_at_call, isImageAnalysisRequest.
    destruct (Plan.isMoleculeRequest plan) eqn:Hm; [reflexivity|].
    destruct H as [H | [H | [H | (i & rest & ->)]]].
    - destruct (toolOverrides_thinking_off _ _ _ _ _ Hov (or_introl H))
        as [Hm' | ->]; [congruence|].
      destruct images as [[|]|]; reflexivity.
    - discriminate.
    - destruct (toolOverrides_thinking_off _ _ _ _ _ Hov
                  (or_intror (or_intror H))) as [Hm' | ->]; [congruence|].
      destruct images as [[|]|]; reflexivity.
    - reflexivity. }
  destruct ev; try exact Logic.I; simpl in Hok.
  - destruct Hok as (-> & _). exact Hoff.
  - congruence.
Qed.

Definition thinking_plan : Plan.raw :=
  Plan.mk_raw false false false false true false false None
    (Some [Build_ThoughtStep "Analysis" "Read the file" "Reading file..."]) None.

Definition sample_image : Image := Build_Image "AAAA" "image/png".
Definition sample_file : FileAttachment :=
  Build_FileAttachment "BBBB" "application/pdf" "notes.pdf" 4.

Definition thinking_env : Env :=
  calm_env (Some thinking_plan) (inl "") [text_chunk "The picture shows..."].

Definition image_request : Event :=
  EvSendMessageStream gemini_2_5_flash false false
    [{| c_role := user; c_parts := [PText "hi"] |};
     {| c_role := model; c_parts := [PText "hello"] |}]
    [PInlineData "AAAA" "image/png"; PText "what is this?"].

Lemma C6_tools_disable_thinking_witness :
  In image_request
    (events (send thinking_env "what is this?" (Some [sample_image]) None None None
               false settled_chat)) /\
  (In image_request (events settled_chat) \/
   match image_request with
   | EvSendMessageStream _ isThinkingEnabled _ _ _ => isThinkingEnabled = false
   | EvThinkingTickerStarted => False
   | _ => True
   end).
Proof.
  assert (Hin : In image_request
                  (events (send thinking_env "what is this?" (Some [sample_image])
                             None None None false settled_chat))).
  { vm_compute. right. left. reflexivity. }
  split; [exact Hin|].
  exact (C6_tools_disable_thinking settled_chat thinking_env "what is this?"
           (Some [sample_image]) None None None false _ _ _ eq_refl
           (or_intror (or_intror (or_intror
              (ex_intro _ sample_image (ex_intro _ [] eq_refl)))))
           image_request Hin).
Defined.

(** C6 as stated fails for a file attachment: with a file attached and a plan
    that asks for thinking, the chat request is made with thinking enabled
    and the thinking ticker is started. *)
Lemma C6_counterexample :
  let w' := send thinking_env "summarise the notes" None (Some sample_file) None None
              false settled_chat in
  In (EvSendMessageStream gemini_2_5_flash true false
        [{| c_role := user; c_parts := [PText "hi"] |};
         {| c_role := model; c_parts := [PText "hello"] |}]
        [PInlineData "BBBB" "application/pdf"; PText "summarise the notes"])
     (events w') /\
  In EvThinkingTickerStarted (events w').
Proof.
  vm_compute. split; [right; left; reflexivity | right; right; left; reflexivity].
Qed.

(** ** C9: retry *)

Lemma lastModelMessageIndex_from_users (i : nat) (l : list Msg.t) :
  Forall (fun m => Msg.role m = user) l -> lastModelMessageIndex_from i l = None.
Proof.
  intro H. revert i. induction H as [|m l Hm _ IH]; intro i; [reflexivity|].
  simpl. rewrite IH, Hm. reflexivity.
Qed.

Lemma lastModelMessageIndex_from_app (i : nat) (a post : list Msg.t) (m : Msg.t) :
  Msg.role m = model ->
  Forall (fun x => Msg.role x = user) post ->
  lastModelMessageIndex_from i (a ++ m :: post) = Some (i + length a).
Proof.
  intros Hm Hpost. revert i.
  induction a as [|x a IH]; intro i; simpl.
  - rewrite lastModelMessageIndex_from_users by exact Hpost.
    rewrite Hm. simpl. f_equal. lia.
  - rewrite IH. f_equal. lia.
Qed.

Lemma bind_ret {A B : Type} (a : A) (k : A -> M B) : bind (ret a) k = k a.
Proof. reflexivity. Qed.

Lemma start_turn_retry (cid : Id) (modelToUse : ChatModel) (p : string)
  (images : option (list Image)) (file : option FileAttachment)
  (url : option string) (w : World) :
  fst (start_turn cid modelToUse p images file url true w) = Normal tt /\
  messages_of (snd (start_turn cid modelToUse p images file url true w)) cid =
    option_map
      (fun prev => prev ++ [planningMessage (nextId w) modelToUse (clock w)])
      (messages_of w cid).
Proof.
  unfold start_turn, updateConversationMessages, updateConversation, randomUUID,
    now, bind, modify, gets.
  cbn. split; [reflexivity|].
  unfold messages_of. cbn. rewrite find_conversation_map by reflexivity.
  destruct (find_conversation (conversations w) cid); reflexivity.
Qed.

(** C9.  When the most recent model message of the active conversation is
    preceded by a user message, retry cuts the list back to end with that
    user message (the model message and everything after it are dropped) and
    calls the send handler with that message's content, images, file and url
    and [isRetry = true]; if the call is not rejected by the entry guard the
    turn starts by appending the planning stub alone, so the list then is the
    kept messages followed by the stub, and the turn runs on the user
    message's content and attachments. *)
Theorem C9_retry (isCodeRelated : string -> bool) (w : World) (env : Env)
  (cid : Id) (convo : Convo.t) (pre post : list Msg.t) (userMsg modelMsg : Msg.t) :
  activeConversationId w = Some cid ->
  find_conversation (conversations w) cid = Some convo ->
  Convo.messages convo = pre ++ userMsg :: modelMsg :: post ->
  Msg.role userMsg = user ->
  Msg.role modelMsg = model ->
  Forall (fun m => Msg.role m = user) post ->
  let truncated :=
    snd (updateConversationMessages cid (firstn (length pre + 1)) w) in
  let started :=
    snd (start_turn cid (selectedChatModel w) (Msg.content userMsg)
           (Msg.images userMsg) (Msg.file userMsg) (Msg.url userMsg) true
           truncated) in
  handleRetry isCodeRelated w env w =
    handleSendMessage w env (Msg.content userMsg) (Msg.images userMsg)
      (Msg.file userMsg) (Msg.url userMsg) None true truncated /\
  messages_of truncated cid = Some (pre ++ [userMsg]) /\
  (send_rejected w (Msg.content userMsg) (Msg.images userMsg) (Msg.file userMsg)
     (Msg.url userMsg) = true ->
   retry isCodeRelated env w = truncated) /\
  (send_rejected w (Msg.content userMsg) (Msg.images userMsg) (Msg.file userMsg)
     (Msg.url userMsg) = false ->
   messages_of started cid =
     Some (pre ++ [userMsg;
                   planningMessage (nextId w) (selectedChatModel w) (clock w)]) /\
   retry isCodeRelated env w =
     snd (try_finally
            (try_catch
               (turn_body w env cid false convo (selectedChatModel w)
                  (Msg.content userMsg) (Msg.images userMsg) (Msg.file userMsg)
                  (Msg.url userMsg))
               (turn_catch env cid))
            (turn_finally cid) started)).
Proof.
  intros Ha Hf Hmsgs Hu Hm Hpost truncated started.
  assert (Hidx : lastModelMessageIndex (Convo.messages convo) =
                 Some (length pre + 1)).
  { unfold lastModelMessageIndex. rewrite Hmsgs.
    change (pre ++ userMsg :: modelMsg :: post)
      with (pre ++ [userMsg] ++ modelMsg :: post).
    rewrite app_assoc, lastModelMessageIndex_from_app by assumption.
    rewrite length_app. reflexivity. }
  assert (Hnth : nth_error (Convo.messages convo) (length pre + 1 - 1) =
                 Some userMsg).
  { rewrite Hmsgs. replace (length pre + 1 - 1) with (length pre) by lia.
    rewrite nth_error_app2 by lia. rewrite Nat.sub_diag. reflexivity. }
  assert (Hcid : Convo.id convo = cid).
  { unfold find_conversation in Hf. apply find_some in Hf as [_ Hf].
    apply Nat.eqb_eq in Hf. exact Hf. }
  assert (Hretry : handleRetry isCodeRelated w env w =
                   handleSendMessage w env (Msg.content userMsg)
                     (Msg.images userMsg) (Msg.file userMsg) (Msg.url userMsg)
                     None true truncated).
  { unfold handleRetry. rewrite Ha, Hf, Hidx.
    replace (Nat.eqb (length pre + 1) 0) with false
      by (symmetry; apply Nat.eqb_neq; lia).
    rewrite Hnth, Hu, Hcid. unfold handleSendMessageWrapper.
    rewrite andb_false_r. reflexivity. }
  assert (Htr : messages_of truncated cid = Some (pre ++ [userMsg])).
  { unfold truncated. rewrite messages_of_update. unfold messages_of.
    rewrite Hf. cbn [option_map]. rewrite Hmsgs. f_equal.
    replace (length pre + 1) with (length (pre ++ [userMsg]))
      by (rewrite length_app; reflexivity).
    change (pre ++ userMsg :: modelMsg :: post)
      with (pre ++ [userMsg] ++ modelMsg :: post).
    rewrite app_assoc, firstn_app, firstn_all, Nat.sub_diag.
    simpl. apply app_nil_r. }
  split; [exact Hretry|]. split; [exact Htr|]. split.
  - intro Hrej. unfold retry. rewrite Hretry. unfold handleSendMessage.
    rewrite Hrej. reflexivity.
  - intro Hacc.
    destruct (start_turn_retry cid (selectedChatModel w) (Msg.content userMsg)
                (Msg.images userMsg) (Msg.file userMsg) (Msg.url userMsg)
                truncated) as [Hn Hs].
    split.
    + unfold started. rewrite Hs, Htr. cbn [option_map].
      rewrite <- app_assoc. reflexivity.
    + unfold retry. rewrite Hretry. unfold handleSendMessage.
      rewrite Hacc. unfold resolve_conversation. rewrite Ha, Hf.
      rewrite bind_ret. cbn beta iota. unfold bind at 1. unfold started.
      destruct (start_turn cid (selectedChatModel w) (Msg.content userMsg)
                  (Msg.images userMsg) (Msg.file userMsg) (Msg.url userMsg)
                  true truncated) as [c w2] eqn:Est.
      simpl in Hn. subst c. cbn [snd].
      rewrite Hmsgs, length_app. simpl.
      replace (Nat.eqb (length pre + S (S (length post))) 0) with false
        by (symmetry; apply Nat.eqb_neq; lia).
      reflexivity.
Qed.

Lemma C9_retry_witness :
  messages_of
    (snd (start_turn 0 gemini_2_5_flash "hi" None None None true
            (snd (updateConversationMessages 0 (firstn (length (@nil Msg.t) + 1))
                    settled_chat))))
    0 =
  Some ([] ++ [newUserMessage 1 "hi" None None None gemini_2_5_flash 0;
               planningMessage 3 gemini_2_5_flash 0]).
Proof.
  destruct (C9_retry (fun _ => false) settled_chat url_env 0
              (Convo.mk 0 "Chat"
                 [newUserMessage 1 "hi" None None None gemini_2_5_flash 0;
                  new_model_message 2 "hello" 0] 0 None None (Some []))
              [] []
              (newUserMessage 1 "hi" None None None gemini_2_5_flash 0)
              (new_model_message 2 "hello" 0)
              eq_refl eq_refl eq_refl eq_refl eq_refl (Forall_nil _))
    as (_ & _ & _ & H).
  exact (proj1 (H eq_refl)).
Defined.

(** a whole retry: the answer is replaced, the user message is not repeated *)
Example retry_run :
  option_map (map (fun m => (Msg.id m, Msg.role m, Msg.content m)))
    (messages_of (retry (fun _ => false) url_env settled_chat) 0) =
  Some [(1, user, "hi"); (3, model, "It says...")].
Proof. vm_compute. reflexivity. Qed.

(** ** C8: title extraction *)

Fixpoint string_forall (p : ascii -> bool) (s : string) : bool :=
  match s with
  | EmptyString => true
  | String c s' => (p c && string_forall p s')%bool
  end.

(** [s] is empty or starts with a character outside the class *)
Definition stops (p : ascii -> bool) (s : string) : bool :=
  match s with
  | EmptyString => true
  | String c _ => negb (p c)
  end.

Lemma append_assoc (a b c : string) : ((a ++ b) ++ c = a ++ (b ++ c))%string.
Proof. induction a as [|x a IH]; simpl; [reflexivity|]. rewrite IH. reflexivity. Qed.

Lemma greedy_takes_all (R : Type) (cls : ascii -> bool)
  (K : string -> string -> option R) (a b : string) (r : R) :
  string_forall cls a = true ->
  stops cls b = true ->
  forall taken,
    K (taken ++ a)%string b = Some r ->
    greedy cls K taken (a ++ b) = Some r.
Proof.
  intros Ha Hb. induction a as [|c a IH]; intros taken HK.
  - simpl. replace (taken ++ "")%string with taken in HK
      by (clear; induction taken as [|x t IHt]; simpl; [|rewrite <- IHt]; reflexivity).
    destruct b as [|c b]; simpl; [exact HK|].
    simpl in Hb. apply negb_true_iff in Hb. rewrite Hb. exact HK.
  - simpl in Ha. apply andb_true_iff in Ha as [Hc Ha].
    simpl. rewrite Hc. rewrite (IH Ha (taken ++ String c "")%string).
    + reflexivity.
    + rewrite append_assoc. exact HK.
Qed.

Lemma strip_prefix_append (p s : string) : strip_prefix p (p ++ s) = Some s.
Proof.
  induction p as [|c p IH]; cbn [strip_prefix append]; [reflexivity|].
  rewrite Ascii.eqb_refl. exact IH.
Qed.

(** The shape of a first answer: white space, the directive, white space, a
    title that starts with a visible character, and possibly a newline and
    the body. *)
Section TitleLine.
Variables lead gap title : string.
Hypothesis lead_space : string_forall is_space lead = true.
Hypothesis gap_space : string_forall is_space gap = true.
Hypothesis title_line : string_forall not_newline title = true.
Hypothesis title_visible : stops is_space title = true.
Hypothesis title_nonempty : title <> "".

Lemma match_title_line (tail : string) :
  stops not_newline tail = true ->
  match_title (lead ++ "TITLE:" ++ gap ++ title ++ tail) = Some title.
Proof.
  intro Htail. unfold match_title, title_regex. cbn [rx_match].
  rewrite (greedy_takes_all _ _ _ lead _ (Some title, tail));
    [reflexivity | exact lead_space | reflexivity |].
  change ("TITLE:" ++ gap ++ title ++ tail)%string
    with ("TITLE:" ++ (gap ++ title ++ tail))%string.
  rewrite strip_prefix_append.
  apply greedy_takes_all; [exact gap_space | |].
  - destruct title as [|c t]; [contradiction|]. exact title_visible.
  - apply greedy_takes_all; [exact title_line | exact Htail |].
    simpl. destruct title; [contradiction|reflexivity].
Qed.

Lemma strip_title_line_complete (body : string) :
  strip_title_line (lead ++ "TITLE:" ++ gap ++ title ++ nl ++ body) = body.
Proof.
  unfold strip_title_line, title_line_regex. cbn [rx_match].
  rewrite (greedy_takes_all _ _ _ lead _ (None, body));
    [reflexivity | exact lead_space | reflexivity |].
  change ("TITLE:" ++ gap ++ title ++ nl ++ body)%string
    with ("TITLE:" ++ (gap ++ title ++ nl ++ body))%string.
  rewrite strip_prefix_append.
  apply greedy_takes_all; [exact gap_space | |].
  - destruct title as [|c t]; [contradiction|]. exact title_visible.
  - apply greedy_takes_all; [exact title_line | reflexivity |].
    reflexivity.
Qed.

Lemma strip_title_line_partial :
  strip_title_line (lead ++ "TITLE:" ++ gap ++ title) = "".
Proof.
  unfold strip_title_line, title_line_regex. cbn [rx_match].
  rewrite (greedy_takes_all _ _ _ lead _ (None, ""));
    [reflexivity | exact lead_space | reflexivity |].
  change ("TITLE:" ++ gap ++ title)%string
    with ("TITLE:" ++ (gap ++ title))%string.
  rewrite strip_prefix_append.
  replace (gap ++ title)%string with (gap ++ title ++ "")%string.
  2:{ f_equal. clear. induction title as [|c t IH]; simpl; [|rewrite IH]; reflexivity. }
  apply greedy_takes_all; [exact gap_space | |].
  - destruct title as [|c t]; [contradiction|]. exact title_visible.
  - apply greedy_takes_all; [exact title_line | reflexivity |]. reflexivity.
Qed.

End TitleLine.

Lemma messages_of_set_title (w : World) (cid : Id) (u : Convo.t -> Convo.t) :
  (forall c, Convo.id (u c) = Convo.id c) ->
  (forall c, Convo.messages (u c) = Convo.messages c) ->
  messages_of (snd (updateConversation cid u w)) cid = messages_of w cid.
Proof.
  intros Hid Hm. unfold messages_of, updateConversation, modify. cbn.
  rewrite find_conversation_map by exact Hid.
  destruct (find_conversation (conversations w) cid); cbn; [rewrite Hm|]; reflexivity.
Qed.

Lemma title_of_update_messages (w : World) (cid : Id)
  (f : list Msg.t -> list Msg.t) :
  title_of (snd (updateConversationMessages cid f w)) cid = title_of w cid.
Proof.
  unfold title_of, updateConversationMessages, updateConversation, modify. cbn.
  rewrite find_conversation_map by reflexivity.
  destruct (find_conversation (conversations w) cid); reflexivity.
Qed.

Lemma title_of_set_title (w : World) (cid : Id) (t : string) :
  title_of (snd (updateConversation cid (Convo.set_title t) w)) cid =
  option_map (fun _ => t) (title_of w cid).
Proof.
  unfold title_of, updateConversation, modify. cbn.
  rewrite find_conversation_map by reflexivity.
  destruct (find_conversation (conversations w) cid); reflexivity.
Qed.

Lemma title_of_set_isGeneratingTitle (w : World) (cid : Id) (v : option bool) :
  title_of (snd (updateConversation cid (Convo.set_isGeneratingTitle v) w)) cid =
  title_of w cid.
Proof.
  unfold title_of, updateConversation, modify. cbn.
  rewrite find_conversation_map by reflexivity.
  destruct (find_conversation (conversations w) cid); reflexivity.
Qed.

Lemma updateConversationMessages_run (cid : Id) (f : list Msg.t -> list Msg.t)
  (w : World) :
  updateConversationMessages cid f w =
  (Normal tt, snd (updateConversationMessages cid f w)).
Proof. reflexivity. Qed.

Lemma stream_updater_model (display : string)
  (sources : option (list GroundingChunk)) (newId : Id) (ts : Z)
  (pre : list Msg.t) (m : Msg.t) :
  Msg.role m = model ->
  stream_updater display sources newId ts (pre ++ [m]) =
  pre ++ [Msg.set_isPlanning (Some false)
            (Msg.set_sources sources (Msg.set_content display m))].
Proof.
  intro Hr. unfold stream_updater. rewrite last_opt_app, Hr, map_last_app.
  reflexivity.
Qed.

(** what one chunk does on a first turn, in terms of what [title_step] did *)
Lemma chunk_step_first (w : World) (cid : Id) (chunk : Chunk) (acc : string)
  (titleExtracted : bool) (usage : option Usage) (pre : list Msg.t) (m : Msg.t) :
  messages_of w cid = Some (pre ++ [m]) ->
  Msg.role m = model ->
  let text := (acc ++ chunk_text chunk)%string in
  let r := chunk_step cid true chunk acc titleExtracted usage w in
  let ts := title_step cid true titleExtracted text w in
  (exists extracted u',
     fst ts = Normal (extracted, strip_title_line text) /\
     fst r = Normal (text, extracted, u')) /\
  title_of (snd r) cid = title_of (snd ts) cid /\
  messages_of (snd r) cid =
    Some (pre ++ [Msg.set_isPlanning (Some false)
                    (Msg.set_sources (groundingChunks chunk)
                       (Msg.set_content (strip_title_line text) m))]).
Proof.
  intros Hm Hr text r ts.
  assert (Hts : exists extracted w1,
            title_step cid true titleExtracted text w =
              (Normal (extracted, strip_title_line text), w1) /\
            messages_of w1 cid = messages_of w cid).
  { unfold title_step. destruct titleExtracted.
    - exists true, w. split; reflexivity.
    - destruct (match_title text) as [g|].
      + eexists _, _. split; [reflexivity|].
        apply (messages_of_set_title w cid (Convo.set_title (trim g)));
          reflexivity.
      + destruct (Nat.ltb 50 (String.length text) &&
                  negb (startsWith text "TITLE:"))%bool.
        * eexists _, _. split; [reflexivity|].
          apply (messages_of_set_title w cid
                   (Convo.set_isGeneratingTitle (Some false))); reflexivity.
        * exists false, w. split; reflexivity. }
  destruct Hts as (extracted & w1 & Hts & Hm1).
  unfold r, chunk_step. fold text.
  unfold bind, randomUUID, now, gets, ret. unfold ts. rewrite Hts.
  rewrite updateConversationMessages_run. cbn [fst snd].
  split; [eexists _, _; split; reflexivity|]. split.
  - rewrite title_of_update_messages. reflexivity.
  - rewrite messages_of_update.
    change (messages_of (set_nextId (S (nextId w1)) w1) cid)
      with (messages_of w1 cid).
    rewrite Hm1, Hm. cbn [option_map].
    rewrite stream_updater_model by exact Hr. reflexivity.
Qed.

(** One chunk of a first turn.  While the title has not been extracted, a
    chunk whose accumulated text matches the [TITLE:] prefix commits the
    trimmed title to the conversation in that very step; extraction is marked
    done exactly when the accumulated text contains a newline, and once it is
    done a chunk leaves the title alone; in either case the content shown on
    the in-flight message is the accumulated text without its [TITLE:] line. *)
Lemma chunk_step_title (w : World) (cid : Id) (chunk : Chunk) (acc : string)
  (usage : option Usage) (pre : list Msg.t) (m : Msg.t) :
  messages_of w cid = Some (pre ++ [m]) ->
  Msg.role m = model ->
  let text := (acc ++ chunk_text chunk)%string in
  let fresh := chunk_step cid true chunk acc false usage w in
  let later := chunk_step cid true chunk acc true usage w in
  (forall g, match_title text = Some g ->
     title_of (snd fresh) cid = Some (trim g) /\
     exists u', fst fresh = Normal (text, includes_newline text, u')) /\
  (title_of (snd later) cid = title_of w cid /\
   exists u', fst later = Normal (text, true, u')) /\
  (exists m1, messages_of (snd fresh) cid = Some (pre ++ [m1]) /\
              Msg.content m1 = strip_title_line text) /\
  (exists m2, messages_of (snd later) cid = Some (pre ++ [m2]) /\
              Msg.content m2 = strip_title_line text) /\
  (forall lead gap title body,
     string_forall is_space lead = true ->
     string_forall is_space gap = true ->
     string_forall not_newline title = true ->
     stops is_space title = true -> title <> "" ->
     text = (lead ++ "TITLE:" ++ gap ++ title ++ nl ++ body)%string ->
     title_of (snd fresh) cid = Some (trim title) /\
     strip_title_line text = body) /\
  (text = ("TITLE: Trip Planning" ++ nl ++ "Here is...")%string ->
   title_of (snd fresh) cid = Some "Trip Planning" /\
   strip_title_line text = "Here is...").
Proof.
  intros Hm Hr text fresh later.
  destruct (chunk_step_first w cid chunk acc false usage pre m Hm Hr)
    as ((ex1 & u1 & Hts1 & Hf1) & Ht1 & Hm1).
  destruct (chunk_step_first w cid chunk acc true usage pre m Hm Hr)
    as ((ex2 & u2 & Hts2 & Hf2) & Ht2 & Hm2).
  fold text in Hts1, Hf1, Ht1, Hm1, Hts2, Hf2, Ht2, Hm2.
  fold fresh in Hf1, Ht1, Hm1. fold later in Hf2, Ht2, Hm2.
  assert (Hhas : exists t0, title_of w cid = Some t0).
  { unfold title_of, messages_of in *.
    destruct (find_conversation (conversations w) cid);
      [eexists; reflexivity | discriminate]. }
  destruct Hhas as [t0 Ht0].
  assert (Hcommit : forall g, match_title text = Some g ->
            title_of (snd fresh) cid = Some (trim g) /\
            exists u', fst fresh = Normal (text, includes_newline text, u')).
  { intros g Hg. unfold title_step in Hts1, Ht1. rewrite Hg in Hts1, Ht1.
    split.
    - rewrite Ht1. unfold bind, ret. cbn.
      change (title_of (snd (updateConversation cid (Convo.set_title (trim g)) w))
                cid = Some (trim g)).
      rewrite title_of_set_title, Ht0. reflexivity.
    - unfold bind, ret in Hts1. cbn in Hts1. injection Hts1 as <-.
      exists u1. exact Hf1. }
  split; [exact Hcommit|]. split.
  { split.
    - rewrite Ht2. reflexivity.
    - unfold title_step, bind, ret in Hts2. cbn in Hts2. injection Hts2 as <-.
      exists u2. exact Hf2. }
  split; [eexists; split; [exact Hm1|reflexivity]|].
  split; [eexists; split; [exact Hm2|reflexivity]|].
  split.
  - intros lead gap title body Hl Hg Ht Hv Hn Htext.
    split.
    + apply Hcommit. rewrite Htext.
      apply (match_title_line lead gap title Hl Hg Ht Hv Hn (nl ++ body)).
      reflexivity.
    + rewrite Htext.
      apply (strip_title_line_complete lead gap title Hl Hg Ht Hv Hn).
  - intro Htext. split.
    + destruct (Hcommit "Trip Planning") as [H _];
        [rewrite Htext; reflexivity | exact H].
    + rewrite Htext. reflexivity.
Qed.

Definition first_turn_chat : World :=
  idle_world
    [Convo.mk 0 "New Chat"
       [newUserMessage 2 "plan a trip" None None None gemini_2_5_flash 0;
        planningMessage 1 gemini_2_5_flash 0] 0 None None (Some [])]
    (Some 0) 3.

Example chunk_step_title_example :
  title_of
    (snd (chunk_step 0 true
            (text_chunk ("TITLE: Trip Planning" ++ nl ++ "Here is..."))
            "" false None first_turn_chat)) 0 = Some "Trip Planning" /\
  strip_title_line ("" ++ "TITLE: Trip Planning" ++ nl ++ "Here is...") =
    "Here is...".
Proof.
  destruct (chunk_step_title first_turn_chat 0
              (text_chunk ("TITLE: Trip Planning" ++ nl ++ "Here is..."))
              "" None
              [newUserMessage 2 "plan a trip" None None None gemini_2_5_flash 0]
              (planningMessage 1 gemini_2_5_flash 0) eq_refl eq_refl)
    as (_ & _ & _ & _ & _ & H).
  exact (H eq_refl).
Qed.

(** a whole first turn streamed in three chunks: the title is committed and
    the shown content never carries the title line *)
Example first_turn_run :
  let env := calm_env (Some plain_plan) (inl "")
               [text_chunk "TITLE: Trip";
                text_chunk (" Planning" ++ nl ++ "Here");
                text_chunk " is..."] in
  let w' := send env "plan a trip" None None None None false
              (idle_world [] None 0) in
  title_of w' 0 = Some "Trip Planning" /\
  option_map (map Msg.content) (messages_of w' 0) =
    Some ["plan a trip"; "Here is..."] /\
  map (fun cs => option_map (fun c => (Convo.title c,
                                        map Msg.content (Convo.messages c)))
                   (find_conversation cs 0))
    (firstn 7 (skipn 2 (trace w'))) =
    [Some ("Trip Planning", ["plan a trip"; "Here is..."]);
     Some ("Trip Planning", ["plan a trip"; "Here"]);
     Some ("Trip Planning", ["plan a trip"; ""]);
     Some ("Trip", ["plan a trip"; ""]);
     Some ("Trip", ["plan a trip"; ""]);
     Some ("New Chat", ["plan a trip"; ""]);
     Some ("New Chat", ["plan a trip"; ""])].
Proof. vm_compute. repeat split. Qed.

(** ** C5: the summarizer *)

(** a settled conversation of [n] user/model exchanges *)
Fixpoint exchanges (n : nat) (firstId : Id) : list Msg.t :=
  match n with
  | O => []
  | S k =>
      newUserMessage firstId "question" None None None gemini_2_5_flash 0 ::
      new_model_message (S firstId) "answer" 0 ::
      exchanges k (S (S firstId))
  end.

Definition chat_of (n : nat) : World :=
  idle_world [Convo.mk 0 "Chat" (exchanges n 1) 0 None None (Some [])]
    (Some 0) (S (2 * n)).

Definition is_summary_request (ev : Event) : bool :=
  match ev with EvGenerateConvoSummaries _ _ => true | _ => false end.

(** the requests of the background writers *)
Definition summary_events (r : World) (cid : Id) : list Event :=
  match find_conversation (conversations r) cid with
  | Some c =>
      let n := length (Convo.messages c) in
      let pairs := pair_up (slice_last 20 (Convo.messages c)) in
      if (Nat.ltb 0 n && Nat.eqb (n mod 20) 0 && Nat.ltb 0 (length pairs))%bool
      then [EvGenerateConvoSummaries pairs
              (match Convo.summaries c with Some s => length s | None => 0 end)]
      else []
  | None => []
  end.

Definition memory_events (r : World) (cid : Id) (fullPrompt response : string)
  : list Event :=
  match find_conversation (conversations r) cid with
  | Some _ =>
      if truthy (trim (strip_title_line response))
      then [EvUpdateMemory fullPrompt (strip_title_line response)] else []
  | None => []
  end.

Lemma background_writers_events (r w : World) (cid : Id)
  (fullPrompt response : string) :
  isCancelledRef w = false ->
  events (snd (background_writers r cid fullPrompt response w)) =
  memory_events r cid fullPrompt response ++ summary_events r cid ++ events w.
Proof.
  intro Hc.
  unfold background_writers, summary_events, memory_events, bind, gets, when,
    emit, modify, ret.
  cbn [fst snd]. rewrite Hc.
  destruct (find_conversation (conversations r) cid) as [c|]; [|reflexivity].
  cbv zeta.
  destruct (Nat.ltb 0 (length (Convo.messages c)));
    destruct (Nat.eqb (length (Convo.messages c) mod 20) 0);
    cbn [andb];
    try destruct (Nat.ltb 0
                    (length (pair_up (slice_last 20 (Convo.messages c)))));
    destruct (truthy (trim (strip_title_line response))); reflexivity.
Qed.

(** The summarizer is driven by the message count of the conversation as
    the closure of the handler holds it, which is the count before the
    turn's own messages were appended. *)
Lemma summary_request_condition (r w : World) (cid : Id)
  (fullPrompt response : string) (pairs : list (Msg.t * Msg.t))
  (startSerial : nat) :
  isCancelledRef w = false ->
  (In (EvGenerateConvoSummaries pairs startSerial)
      (events (snd (background_writers r cid fullPrompt response w))) <->
   In (EvGenerateConvoSummaries pairs startSerial) (events w) \/
   exists c,
     find_conversation (conversations r) cid = Some c /\
     0 < length (Convo.messages c) /\
     length (Convo.messages c) mod 20 = 0 /\
     pairs = pair_up (slice_last 20 (Convo.messages c)) /\
     pairs <> [] /\
     startSerial = match Convo.summaries c with Some s => length s | None => 0 end).
Proof.
  intro Hc. rewrite background_writers_events by exact Hc.
  rewrite !in_app_iff. unfold memory_events, summary_events.
  destruct (find_conversation (conversations r) cid) as [c|].
  2:{ simpl. split; [tauto|]. intros [H | (c & Hf & _)]; [tauto|discriminate]. }
  cbv zeta.
  set (n := length (Convo.messages c)).
  set (ps := pair_up (slice_last 20 (Convo.messages c))).
  assert (Hmem : ~ In (EvGenerateConvoSummaries pairs startSerial)
                     (if truthy (trim (strip_title_line response))
                      then [EvUpdateMemory fullPrompt (strip_title_line response)]
                      else [])).
  { destruct (truthy _); simpl; [intros [H | []]; discriminate | intros []]. }
  destruct (Nat.ltb 0 n && Nat.eqb (n mod 20) 0 && Nat.ltb 0 (length ps))%bool
    eqn:Hcond.
  - apply andb_true_iff in Hcond as [Hcond Hne].
    apply andb_true_iff in Hcond as [Hpos Hmod].
    apply Nat.ltb_lt in Hpos, Hne. apply Nat.eqb_eq in Hmod.
    cbn [In]. split.
    + intros [H | [[H | []] | H]]; [contradiction | | left; exact H].
      injection H as <- <-. right. exists c.
      repeat split; auto. intro E. rewrite E in Hne. simpl in Hne. lia.
    + intros [H | (c' & Hf & _ & _ & -> & _ & ->)]; [tauto|].
      injection Hf as <-. right. left. left. reflexivity.
  - cbn [In]. split.
    + intros [H | [[] | H]]; [contradiction | left; exact H].
    + intros [H | (c' & Hf & Hp & Hm & Hps & Hn & _)]; [tauto|].
      injection Hf as <-. exfalso.
      apply andb_false_iff in Hcond as [Hcond | Hcond].
      * apply andb_false_iff in Hcond as [Hcond | Hcond].
        -- apply Nat.ltb_ge in Hcond. fold n in Hp. lia.
        -- apply Nat.eqb_neq in Hcond. fold n in Hm. contradiction.
      * apply Nat.ltb_ge in Hcond. fold ps in Hps. subst pairs.
        destruct ps; [contradiction|simpl in Hcond; lia].
Qed.

(** C5 evaluated.  From a settled conversation of 18 messages a turn that
    completes normally leaves 20 messages and requests no summaries; from one
    of 20 messages it leaves 22 and requests the summaries of its 10 pairs,
    numbered from the prior summary count. *)
Theorem C5_summary_trigger_evaluated :
  let env := calm_env (Some plain_plan) (inl "") [text_chunk "Sure."] in
  let after18 := send env "next" None None None None false (chat_of 9) in
  let after20 := send env "next" None None None None false (chat_of 10) in
  option_map (@length Msg.t) (messages_of after18 0) = Some 20 /\
  isCancelledRef after18 = false /\
  filter is_summary_request (events after18) = [] /\
  option_map (@length Msg.t) (messages_of after20 0) = Some 22 /\
  exists pairs,
    filter is_summary_request (events after20) =
      [EvGenerateConvoSummaries pairs 0] /\
    length pairs = 10 /\
    map (fun p => (Msg.id (fst p), Msg.id (snd p))) pairs =
      [(1, 2); (3, 4); (5, 6); (7, 8); (9, 10); (11, 12); (13, 14); (15, 16);
       (17, 18); (19, 20)].
Proof.
  vm_compute. repeat split. eexists. repeat split.
Qed.

(** ** C1: where the transient flags can be *)

(** the message carries [isPlanning] or [toolInUse] *)
Definition flagP (m : Msg.t) : bool :=
  (Msg.flag (Msg.isPlanning m) || Msg.has (Msg.toolInUse m))%bool.

(** the message carries [isAnalyzingImage] or [isAnalyzingFile] *)
Definition flagA (m : Msg.t) : bool :=
  (Msg.flag (Msg.isAnalyzingImage m) || Msg.flag (Msg.isAnalyzingFile m))%bool.

(** none of the four flags *)
Definition clean (m : Msg.t) : Prop := flagP m = false /\ flagA m = false.

(** Only the last two messages can carry a flag: the last one only
    [isPlanning]/[toolInUse], the one before it only
    [isAnalyzingImage]/[isAnalyzingFile]. *)
Definition flags_confined (l : list Msg.t) : Prop :=
  exists settled tail,
    l = settled ++ tail /\ Forall clean settled /\
    (tail = [] \/
     (exists m, tail = [m] /\ flagA m = false) \/
     (exists a m, tail = [a; m] /\ flagP a = false /\ flagA m = false)).

(** the list while a turn is in flight: moreover the last message is a model
    message and the ids are distinct *)
Definition in_flight (l : list Msg.t) : Prop :=
  NoDup (map Msg.id l) /\
  exists settled tail,
    l = settled ++ tail /\ Forall clean settled /\
    ((exists m, tail = [m] /\ Msg.role m = model /\ flagA m = false) \/
     (exists a m, tail = [a; m] /\ flagP a = false /\
                  Msg.role m = model /\ flagA m = false)).

Lemma in_flight_confined (l : list Msg.t) : in_flight l -> flags_confined l.
Proof.
  intros (_ & settled & tail & -> & Hs &
          [(m & -> & _ & Hm) | (a & m & -> & Ha & _ & Hm)]).
  - exists settled, [m]. split; [reflexivity|]. split; [exact Hs|].
    right. left. exists m. auto.
  - exists settled, [a; m]. split; [reflexivity|]. split; [exact Hs|].
    right. right. exists a, m. auto.
Qed.

Lemma clean_confined (l : list Msg.t) : Forall clean l -> flags_confined l.
Proof.
  intro H. exists l, []. rewrite app_nil_r. auto.
Qed.

Lemma in_flight_last (l : list Msg.t) :
  in_flight l -> exists pre m, l = pre ++ [m] /\ Msg.role m = model.
Proof.
  intros (_ & settled & tail & -> & _ & [(m & -> & Hr & _) | (a & m & -> & _ & Hr & _)]).
  - eauto.
  - exists (settled ++ [a]), m. rewrite <- app_assoc. auto.
Qed.

Lemma map_id_map_last (f : Msg.t -> Msg.t) (l : list Msg.t) :
  (forall x, Msg.id (f x) = Msg.id x) ->
  map Msg.id (map_last f l) = map Msg.id l.
Proof.
  intro Hf. induction l as [|a [|b l] IH]; simpl in *; [reflexivity| |].
  - rewrite Hf. reflexivity.
  - f_equal. exact IH.
Qed.

(** a pointwise update that sets no flag *)
Lemma in_flight_map (h : Msg.t -> Msg.t) (l : list Msg.t) :
  (forall x, Msg.id (h x) = Msg.id x) ->
  (forall x, Msg.role (h x) = Msg.role x) ->
  (forall x, flagP x = false -> flagP (h x) = false) ->
  (forall x, flagA x = false -> flagA (h x) = false) ->
  in_flight l -> in_flight (map h l).
Proof.
  intros Hid Hrole HP HA (Hnd & settled & tail & -> & Hs & Ht). split.
  - rewrite map_map. erewrite map_ext; [exact Hnd|]. intro x. apply Hid.
  - exists (map h settled), (map h tail). rewrite map_app.
    split; [reflexivity|]. split.
    + apply Forall_forall. intros y Hy. apply in_map_iff in Hy as (x & <- & Hx).
      rewrite Forall_forall in Hs. destruct (Hs x Hx). split; auto.
    + destruct Ht as [(m & -> & Hr & Hm) | (a & m & -> & Ha & Hr & Hm)].
      * left. exists (h m). rewrite Hrole. auto.
      * right. exists (h a), (h m). rewrite Hrole. auto.
Qed.

(** an update of the last message that leaves its analysis flags alone *)
Lemma in_flight_map_last (f : Msg.t -> Msg.t) (l : list Msg.t) :
  (forall x, Msg.id (f x) = Msg.id x) ->
  (forall x, Msg.role (f x) = Msg.role x) ->
  (forall x, flagA x = false -> flagA (f x) = false) ->
  in_flight l -> in_flight (map_last f l).
Proof.
  intros Hid Hrole HA (Hnd & settled & tail & -> & Hs & Ht). split.
  - rewrite map_id_map_last by exact Hid. exact Hnd.
  - exists settled.
    destruct Ht as [(m & -> & Hr & Hm) | (a & m & -> & Ha & Hr & Hm)].
    + exists [f m]. rewrite map_last_app. split; [reflexivity|].
      split; [exact Hs|]. left. exists (f m). rewrite Hrole. auto.
    + exists [a; f m].
      change (settled ++ [a; m]) with (settled ++ [a] ++ [m]).
      rewrite app_assoc, map_last_app, <- app_assoc.
      split; [reflexivity|]. split; [exact Hs|].
      right. exists a, (f m). rewrite Hrole. auto.
Qed.

Lemma second_last_app2 {A : Type} (s : list A) (a m : A) :
  second_last (s ++ [a; m]) = Some a.
Proof.
  unfold second_last. rewrite length_app. simpl.
  replace (Nat.ltb (length s + 2) 2) with false
    by (symmetry; apply Nat.ltb_ge; lia).
  replace (length s + 2 - 2) with (length s) by lia.
  rewrite nth_error_app2 by lia. rewrite Nat.sub_diag. reflexivity.
Qed.

Lemma second_last_singleton {A : Type} (m : A) : second_last [m] = None.
Proof. reflexivity. Qed.

Lemma mark_second_last_app2 (g : Msg.t -> Msg.t) (s : list Msg.t) (a m : Msg.t) :
  NoDup (map Msg.id (s ++ [a; m])) ->
  mark_second_last g (s ++ [a; m]) = s ++ [g a; m].
Proof.
  intro Hnd. unfold mark_second_last. rewrite second_last_app2.
  rewrite map_app in Hnd. apply NoDup_remove in Hnd as [Hnd Hnotin].
  simpl in Hnd, Hnotin. rewrite in_app_iff in Hnotin.
  rewrite map_app. f_equal.
  - rewrite <- (map_id s) at 2. apply map_ext_in. intros x Hx.
    destruct (Nat.eqb (Msg.id x) (Msg.id a)) eqn:E; [|reflexivity].
    apply Nat.eqb_eq in E. exfalso. apply Hnotin. left.
    rewrite <- E. apply in_map. exact Hx.
  - simpl. rewrite Nat.eqb_refl.
    destruct (Nat.eqb (Msg.id m) (Msg.id a)) eqn:E; [|reflexivity].
    apply Nat.eqb_eq in E. exfalso. apply Hnotin. right. left. exact E.
Qed.

(** the update of lines 251-259: the message before the last gets an
    analysis flag *)
Lemma in_flight_mark (g : Msg.t -> Msg.t) (l : list Msg.t) :
  (forall x, Msg.id (g x) = Msg.id x) ->
  (forall x, flagP (g x) = flagP x) ->
  in_flight l -> in_flight (mark_second_last g l).
Proof.
  intros Hid HP (Hnd & settled & tail & -> & Hs & Ht).
  destruct Ht as [(m & -> & Hr & Hm) | (a & m & -> & Ha & Hr & Hm)].
  - destruct settled as [|x settled'] using rev_ind.
    + unfold mark_second_last. simpl.
      split; [exact Hnd|]. exists [], [m]. repeat split; eauto.
    + clear IHsettled'. rewrite <- app_assoc in *. simpl in *.
      rewrite mark_second_last_app2 by exact Hnd.
      apply Forall_app in Hs as [Hs Hx]. inversion Hx as [|? ? [HxP HxA] _]; subst.
      split.
      * rewrite map_app in *. simpl in *. rewrite Hid. exact Hnd.
      * exists settled', [g x; m]. split; [reflexivity|]. split; [exact Hs|].
        right. exists (g x), m. rewrite HP. auto.
  - rewrite mark_second_last_app2 by exact Hnd. split.
    + rewrite map_app in *. simpl in *. rewrite Hid. exact Hnd.
    + exists settled, [g a; m]. split; [reflexivity|]. split; [exact Hs|].
      right. exists (g a), m. rewrite HP. auto.
Qed.

(** every updater the turn applies keeps the list in flight *)

Ltac rewrite_fields :=
  repeat match goal with
         | E : Msg.isPlanning _ = _ |- _ => rewrite E
         | E : Msg.toolInUse _ = _ |- _ => rewrite E
         | E : Msg.isAnalyzingImage _ = _ |- _ => rewrite E
         | E : Msg.isAnalyzingFile _ = _ |- _ => rewrite E
         end.

Ltac setter_side :=
  let x := fresh "x" in
  intro x;
  destruct (Msg.isPlanning x) as [[|]|] eqn:?;
  destruct (Msg.toolInUse x) eqn:?;
  destruct (Msg.isAnalyzingImage x) as [[|]|] eqn:?;
  destruct (Msg.isAnalyzingFile x) as [[|]|] eqn:?;
  unfold flagP, flagA; cbn; rewrite_fields; cbn;
  repeat match goal with
         | |- context [if ?b then _ else _] =>
             destruct b; cbn; rewrite_fields; cbn
         end;
  intros; try reflexivity; try assumption; try congruence.

Ltac use_last H :=
  let pre := fresh "pre" in
  let m := fresh "m" in
  let E := fresh "E" in
  let Hr := fresh "Hr" in
  destruct (in_flight_last _ H) as (pre & m & E & Hr);
  rewrite E in *; rewrite ?last_opt_app, ?Hr.

Lemma in_flight_thinking_tick (t : nat) (l : list Msg.t) :
  in_flight l -> in_flight (thinking_tick_updater t l).
Proof.
  intro H. unfold thinking_tick_updater. use_last H.
  apply in_flight_map_last; [setter_side..|exact H].
Qed.

Lemma in_flight_watchdog (l : list Msg.t) :
  in_flight l -> in_flight (watchdog_updater l).
Proof.
  intro H. unfold watchdog_updater. use_last H.
  apply in_flight_map_last; [setter_side..|exact H].
Qed.

Lemma in_flight_search_plan (sp : list ThoughtStep) (l : list Msg.t) :
  in_flight l -> in_flight (search_plan_updater sp l).
Proof.
  intro H. unfold search_plan_updater. use_last H.
  apply in_flight_map_last; [setter_side..|exact H].
Qed.

Lemma in_flight_clear_planning (th : list ThoughtStep) (l : list Msg.t) :
  in_flight l -> in_flight (clear_planning_updater th l).
Proof.
  intro H. unfold clear_planning_updater. use_last H.
  match goal with |- in_flight (if ?b then _ else _) => destruct b end;
    [|exact H].
  apply in_flight_map_last; [setter_side..|exact H].
Qed.

Lemma in_flight_stream (d : string) (s : option (list GroundingChunk))
  (newId : Id) (ts : Z) (l : list Msg.t) :
  in_flight l -> in_flight (stream_updater d s newId ts l).
Proof.
  intro H. unfold stream_updater. use_last H.
  apply in_flight_map_last; [setter_side..|exact H].
Qed.

Lemma in_flight_usage (u : Usage) (p : string) (toolUsed : bool) (l : list Msg.t) :
  in_flight l -> in_flight (usage_updater u p toolUsed l).
Proof.
  intro H. unfold usage_updater. use_last H.
  apply in_flight_map_last; [setter_side..|exact H].
Qed.

Lemma in_flight_generation_time (t : Z) (l : list Msg.t) :
  in_flight l -> in_flight (generation_time_updater t l).
Proof.
  intro H. unfold generation_time_updater. use_last H.
  match goal with |- in_flight (if ?b then _ else _) => destruct b end;
    [exact H|].
  apply in_flight_map_last; [setter_side..|exact H].
Qed.

Lemma in_flight_error (friendly : string) (newId : Id) (ts : Z) (l : list Msg.t) :
  in_flight l -> in_flight (error_updater friendly newId ts l).
Proof.
  intro H. unfold error_updater. use_last H.
  apply in_flight_map_last; [setter_side..|exact H].
Qed.

Lemma in_flight_tool_error (msg : string) (l : list Msg.t) :
  in_flight l -> in_flight (tool_error_updater msg l).
Proof.
  intro H. unfold tool_error_updater.
  apply in_flight_map_last; [setter_side..|exact H].
Qed.

Lemma in_flight_molecule_error (name : string) (l : list Msg.t) :
  in_flight l -> in_flight (molecule_error_updater name l).
Proof.
  intro H. unfold molecule_error_updater.
  apply in_flight_map_last; [setter_side..|exact H].
Qed.

Lemma in_flight_image_done (l : list Msg.t) :
  in_flight l -> in_flight (map image_analysis_done l).
Proof.
  intro H. apply in_flight_map; [..|exact H]; unfold image_analysis_done;
    setter_side.
Qed.

Lemma in_flight_file_done (l : list Msg.t) :
  in_flight l -> in_flight (map file_analysis_done l).
Proof.
  intro H. apply in_flight_map; [..|exact H]; unfold file_analysis_done;
    setter_side.
Qed.

Lemma in_flight_clear_analysis (l : list Msg.t) :
  in_flight l -> in_flight (map clear_analysis l).
Proof.
  intro H. apply in_flight_map; [..|exact H]; unfold clear_analysis;
    setter_side.
Qed.

Lemma in_flight_cancel (newId : Id) (ts : Z) (l : list Msg.t) :
  in_flight l -> in_flight (cancel_updater newId ts l).
Proof.
  intro H. unfold cancel_updater.
  assert (Hs : in_flight (map strip_transient l)).
  { apply in_flight_map; [..|exact H]; unfold strip_transient; setter_side. }
  destruct (in_flight_last _ Hs) as (pre & m & E & Hr).
  rewrite E in *. rewrite last_opt_app, Hr.
  apply in_flight_map_last; [setter_side..|exact Hs].
Qed.

Create HintDb in_flight_db.
#[local] Hint Resolve in_flight_thinking_tick in_flight_watchdog
  in_flight_search_plan in_flight_clear_planning in_flight_stream
  in_flight_usage in_flight_generation_time in_flight_error
  in_flight_tool_error in_flight_molecule_error in_flight_image_done
  in_flight_file_done in_flight_clear_analysis in_flight_cancel : in_flight_db.

(** *** The invariant of a turn on conversation [cid] *)

Arguments updateConversationMessages : simpl never.

Definition snapshot_ok (cs : list Convo.t) : Prop :=
  forall c, In c cs -> flags_confined (Convo.messages c).

Section TurnInvariant.
Variable cid : Id.
Variable trace0 : list (list Convo.t).

Definition store_in_flight (cs : list Convo.t) : Prop :=
  forall c, In c cs ->
    (Convo.id c = cid -> in_flight (Convo.messages c)) /\
    (Convo.id c <> cid -> Forall clean (Convo.messages c)).

Definition timer_ok (t : option Id) : Prop := t = None \/ t = Some cid.

Definition turn_inv (w : World) : Prop :=
  activeConversationId w = Some cid /\
  timer_ok (thinkingTimerRef w) /\
  timer_ok (longToolUseTimer w) /\
  store_in_flight (conversations w) /\
  exists new, trace w = new ++ trace0 /\ Forall snapshot_ok new.

Lemma store_in_flight_snapshot (cs : list Convo.t) :
  store_in_flight cs -> snapshot_ok cs.
Proof.
  intros H c Hc. destruct (H c Hc) as [Hin Hout].
  destruct (Nat.eq_dec (Convo.id c) cid) as [E | E].
  - apply in_flight_confined, Hin, E.
  - apply clean_confined, Hout, E.
Qed.

Lemma turn_inv_updateConversation (u : Convo.t -> Convo.t) (w : World) :
  (forall c, Convo.id (u c) = Convo.id c) ->
  (forall c, in_flight (Convo.messages c) -> in_flight (Convo.messages (u c))) ->
  turn_inv w -> turn_inv (snd (updateConversation cid u w)).
Proof.
  intros Hid Hu (Ha & Ht & Hl & Hs & new & Htr & Hnew).
  assert (Hs' : store_in_flight
                  (map (fun c => if Nat.eqb (Convo.id c) cid then u c else c)
                     (conversations w))).
  { intros c' Hc'. apply in_map_iff in Hc' as (c & <- & Hc).
    destruct (Hs c Hc) as [Hin Hout].
    destruct (Nat.eqb (Convo.id c) cid) eqn:E.
    - apply Nat.eqb_eq in E. rewrite Hid. split; [|congruence].
      intros _. apply Hu, Hin, E.
    - apply Nat.eqb_neq in E. split; [congruence|exact Hout]. }
  unfold updateConversation, modify. cbn.
  split; [exact Ha|]. split; [exact Ht|]. split; [exact Hl|].
  split; [exact Hs'|].
  eexists (_ :: new). split; [cbn; rewrite Htr; reflexivity|].
  constructor; [|exact Hnew]. apply store_in_flight_snapshot, Hs'.
Qed.

Lemma keeps_update (f : list Msg.t -> list Msg.t) :
  (forall l, in_flight l -> in_flight (f l)) ->
  keeps turn_inv (updateConversationMessages cid f) (fun _ => True).
Proof.
  intros Hf w Hw. split; [|trivial].
  apply turn_inv_updateConversation; [reflexivity | | exact Hw].
  intros c Hc. apply Hf, Hc.
Qed.

Lemma keeps_update_meta (u : Convo.t -> Convo.t) :
  (forall c, Convo.id (u c) = Convo.id c) ->
  (forall c, Convo.messages (u c) = Convo.messages c) ->
  keeps turn_inv (updateConversation cid u) (fun _ => True).
Proof.
  intros Hid Hm w Hw. split; [|trivial].
  apply turn_inv_updateConversation; [exact Hid | | exact Hw].
  intros c Hc. rewrite Hm. exact Hc.
Qed.

Lemma keeps_set_longToolUseTimer (t : option Id) :
  timer_ok t -> keeps turn_inv (modify (set_longToolUseTimer t)) (fun _ => True).
Proof.
  intros Ht w (Ha & Hth & Hl & Hs & Hn). split; [|trivial].
  unfold turn_inv, modify. cbn. auto.
Qed.

Lemma keeps_set_thinkingTimerRef (t : option Id) :
  timer_ok t -> keeps turn_inv (modify (set_thinkingTimerRef t)) (fun _ => True).
Proof.
  intros Ht w (Ha & Hth & Hl & Hs & Hn). split; [|trivial].
  unfold turn_inv, modify. cbn. auto.
Qed.

Lemma keeps_clearThinkingIntervals :
  keeps turn_inv clearThinkingIntervals (fun _ => True).
Proof.
  intros w (Ha & Hth & Hl & Hs & Hn). split; [|trivial].
  unfold turn_inv, clearThinkingIntervals, modify, timer_ok. cbn. auto.
Qed.

(** a state change outside the conversation list, the timers and the active
    conversation *)
Lemma keeps_modify_other (f : World -> World) :
  (forall w, activeConversationId (f w) = activeConversationId w) ->
  (forall w, thinkingTimerRef (f w) = thinkingTimerRef w) ->
  (forall w, longToolUseTimer (f w) = longToolUseTimer w) ->
  (forall w, conversations (f w) = conversations w) ->
  (forall w, trace (f w) = trace w) ->
  keeps turn_inv (modify f) (fun _ => True).
Proof.
  intros H1 H2 H3 H4 H5 w Hw. split; [|trivial].
  unfold turn_inv, modify. cbn. rewrite H1, H2, H3, H4, H5. exact Hw.
Qed.

Lemma keeps_handleCancelStream : keeps turn_inv handleCancelStream (fun _ => True).
Proof.
  intros w Hw. split; [|trivial].
  destruct Hw as (Ha & Hth & Hl & Hs & Hn).
  unfold handleCancelStream, clearThinkingIntervals, stopResponseTimer,
    randomUUID, now, bind, modify, gets.
  cbn. rewrite Ha. cbn. rewrite updateConversationMessages_run. cbn [fst snd].
  match goal with
  | |- turn_inv (snd (updateConversationMessages _ ?f ?w0)) =>
      apply (keeps_update f); [intros l Hl'; apply in_flight_cancel, Hl'|]
  end.
  unfold turn_inv, timer_ok. cbn. auto.
Qed.

Lemma keeps_interrupt (i : Interrupt) : keeps turn_inv (interrupt i) (fun _ => True).
Proof.
  destruct i; simpl.
  - apply keeps_modify_other; reflexivity.
  - apply keeps_modify_other; intro w; destruct (responseTimerRef w); reflexivity.
  - intros w Hw. split; [|trivial].
    pose proof Hw as (Ha & Hth & Hl & Hs & Hn).
    unfold bind, gets, modify. cbn.
    destruct Hth as [E | E]; rewrite E; cbn; [exact Hw|].
    rewrite updateConversationMessages_run. cbn [fst snd].
    match goal with
    | |- turn_inv (snd (updateConversationMessages _ ?f ?w0)) =>
        apply (keeps_update f);
          [intros l Hl'; apply in_flight_thinking_tick, Hl'|]
    end.
    unfold turn_inv, timer_ok. cbn. auto.
  - intros w Hw. split; [|trivial].
    pose proof Hw as (Ha & Hth & Hl & Hs & Hn).
    unfold bind, gets, modify. cbn.
    destruct Hl as [E | E]; rewrite E; cbn; [exact Hw|].
    rewrite updateConversationMessages_run. cbn [fst snd].
    match goal with
    | |- turn_inv (snd (updateConversationMessages _ ?f ?w0)) =>
        apply (keeps_update f);
          [intros l Hl'; apply in_flight_watchdog, Hl'|]
    end.
    unfold turn_inv, timer_ok. cbn. auto.
  - apply keeps_handleCancelStream.
Qed.

Lemma keeps_await (ints : list Interrupt) : keeps turn_inv (await ints) (fun _ => True).
Proof.
  induction ints as [|i ints IH]; simpl; [apply keeps_ret; exact Logic.I|].
  apply keeps_seq; [apply keeps_interrupt|exact IH].
Qed.

Lemma keeps_return_if_cancelled :
  keeps turn_inv return_if_cancelled (fun _ => True).
Proof.
  unfold return_if_cancelled.
  apply keeps_bind with (Q := fun _ => True); [apply keeps_gets|].
  intros [|] _; [apply keeps_return|apply keeps_ret; exact Logic.I].
Qed.

Ltac walk_step :=
  first
    [ apply keeps_ret; exact Logic.I
    | apply keeps_return
    | apply keeps_throw
    | apply keeps_gets
    | apply keeps_await
    | apply keeps_return_if_cancelled
    | apply keeps_clearThinkingIntervals
    | apply keeps_update; solve [auto with in_flight_db]
    | apply keeps_update; intros ? ?;
      solve [ apply in_flight_map_last; [setter_side..|assumption]
            | apply in_flight_mark; [setter_side..|assumption] ]
    | apply keeps_update_meta; reflexivity
    | apply keeps_set_longToolUseTimer; solve [left; reflexivity | right; reflexivity]
    | apply keeps_set_thinkingTimerRef; solve [left; reflexivity | right; reflexivity]
    | apply keeps_modify_other; reflexivity
    | apply keeps_when; intros _
    | apply keeps_bind with (Q := fun _ => True); [|intros ? _]
    | match goal with
      | |- keeps _ (let _ := _ in _) _ => cbv zeta
      | |- keeps _ (if ?b then _ else _) _ => destruct b
      | |- keeps _ (match ?x with _ => _ end) _ => destruct x
      end ].

Ltac walk := repeat walk_step.

Lemma keeps_handleToolError (msg : string) :
  keeps turn_inv (handleToolError cid msg) (fun _ => True).
Proof. unfold handleToolError, stopResponseTimer. walk. Qed.

Lemma keeps_url_phase_inv (env : Env) (p : string) (url : option string) :
  keeps turn_inv (url_phase env cid p url) (fun _ => True).
Proof.
  unfold url_phase, emit.
  destruct url as [u|]; [destruct (truthy u)|];
    repeat first [apply keeps_handleToolError | walk_step].
Qed.

Lemma keeps_molecule_phase_inv (env : Env) (p : string) (plan : Plan.t) :
  keeps turn_inv (molecule_phase env cid p plan) (fun _ => True).
Proof. unfold molecule_phase, emit, stopResponseTimer. walk. Qed.

Lemma keeps_title_step_inv (isFirst te : bool) (acc : string) :
  keeps turn_inv (title_step cid isFirst te acc) (fun _ => True).
Proof. unfold title_step. walk. Qed.

Lemma keeps_chunk_step_inv (isFirst : bool) (chunk : Chunk) (acc : string)
  (te : bool) (usage : option Usage) :
  keeps turn_inv (chunk_step cid isFirst chunk acc te usage) (fun _ => True).
Proof.
  unfold chunk_step, randomUUID, now. cbv zeta.
  apply keeps_bind with (Q := fun _ => True); [apply keeps_title_step_inv|].
  intros [te' display] _.
  apply keeps_bind with (Q := fun _ => True).
  { intros w Hw. split; [exact Hw|trivial]. }
  intros newId _. walk.
Qed.

Lemma keeps_stream_loop_inv (env : Env) (isFirst : bool)
  (stream : list (list Interrupt * Chunk)) :
  forall acc te usage,
    keeps turn_inv (stream_loop env cid isFirst stream acc te usage)
      (fun _ => True).
Proof.
  induction stream as [|[ints chunk] rest IH]; intros acc te usage; simpl.
  - walk.
  - apply keeps_seq; [apply keeps_await|].
    apply keeps_bind with (Q := fun _ => True); [apply keeps_gets|].
    intros [|] _; [walk|].
    apply keeps_bind with (Q := fun _ => True); [apply keeps_chunk_step_inv|].
    intros [[acc' te'] usage'] _. apply IH.
Qed.

Lemma keeps_turn_body_inv (r : World) (env : Env) (isFirst : bool)
  (convo : Convo.t) (modelToUse : ChatModel) (p : string)
  (images : option (list Image)) (file : option FileAttachment)
  (url : option string) :
  keeps turn_inv
    (turn_body r env cid isFirst convo modelToUse p images file url)
    (fun _ => True).
Proof.
  unfold turn_body, usage_phase, background_writers, emit.
  repeat first
    [ apply keeps_url_phase_inv
    | apply keeps_molecule_phase_inv
    | apply keeps_stream_loop_inv
    | walk_step ].
Qed.

Lemma keeps_turn_catch_inv (env : Env) (e : string) :
  keeps turn_inv (turn_catch env cid e) (fun _ => True).
Proof.
  unfold turn_catch, emit, randomUUID, now. cbv zeta.
  apply keeps_seq; [apply keeps_return_if_cancelled|].
  apply keeps_seq; [walk|]. apply keeps_seq; [walk|].
  apply keeps_bind with (Q := fun _ => True).
  { intros w Hw. split; [exact Hw|trivial]. }
  intros newId _. walk.
Qed.

Lemma keeps_turn_finally_inv : keeps turn_inv (turn_finally cid) (fun _ => True).
Proof. unfold turn_finally, stopResponseTimer, now. walk. Qed.

End TurnInvariant.

(** *** From a settled store to the invariant *)

(** between turns: no timer of the handler is armed, no message carries one
    of the four flags, and the ids of a conversation's messages are distinct
    values the supply has already handed out *)
Definition settled_conversations (next : Id) (cs : list Convo.t) : Prop :=
  forall c, In c cs ->
    Forall clean (Convo.messages c) /\
    NoDup (map Msg.id (Convo.messages c)) /\
    Forall (fun m => Msg.id m < next) (Convo.messages c).

Definition settled_store (w : World) : Prop :=
  thinkingTimerRef w = None /\ longToolUseTimer w = None /\
  settled_conversations (nextId w) (conversations w).

Lemma NoDup_app_fresh (ids extra : list Id) :
  NoDup ids -> NoDup extra ->
  (forall x, In x ids -> ~ In x extra) ->
  NoDup (ids ++ extra).
Proof.
  intros Hi He Hd. induction ids as [|a ids IH]; [exact He|].
  simpl. inversion Hi as [|? ? Hna Hnd]; subst. constructor.
  - rewrite in_app_iff. intros [H | H]; [contradiction|].
    apply (Hd a (or_introl eq_refl) H).
  - apply IH; [exact Hnd|]. intros x Hx. apply Hd. right. exact Hx.
Qed.

Lemma in_flight_appended (n : Id) (l : list Msg.t) (modelToUse : ChatModel)
  (p : string) (images : option (list Image)) (file : option FileAttachment)
  (url : option string) (ts ts' : Z) :
  Forall clean l -> NoDup (map Msg.id l) -> Forall (fun m => Msg.id m < n) l ->
  in_flight (l ++ [newUserMessage (S n) p images file url modelToUse ts';
                   planningMessage n modelToUse ts]) /\
  in_flight (l ++ [planningMessage n modelToUse ts]).
Proof.
  intros Hc Hnd Hb.
  assert (Hfresh : forall x, In x (map Msg.id l) -> x < n).
  { intros x Hx. apply in_map_iff in Hx as (m & <- & Hm).
    rewrite Forall_forall in Hb. apply Hb, Hm. }
  split; split.
  - rewrite map_app. apply NoDup_app_fresh; [exact Hnd| |].
    + simpl. constructor; [simpl; intros [H | []]; lia|].
      constructor; [intros []|constructor].
    + intros x Hx [H | [H | []]]; simpl in H; apply Hfresh in Hx; lia.
  - exists l. eexists. split; [reflexivity|]. split; [exact Hc|].
    right. do 2 eexists. split; [reflexivity|]. repeat split.
  - rewrite map_app. apply NoDup_app_fresh; [exact Hnd| |].
    + simpl. constructor; [intros []|constructor].
    + intros x Hx [H | []]; simpl in H; apply Hfresh in Hx; lia.
  - exists l. eexists. split; [reflexivity|]. split; [exact Hc|].
    left. eexists. split; [reflexivity|]. repeat split.
Qed.

Lemma start_turn_establishes (cid : Id) (trace0 : list (list Convo.t))
  (modelToUse : ChatModel) (p : string) (images : option (list Image))
  (file : option FileAttachment) (url : option string) (isRetry : bool)
  (w : World) :
  activeConversationId w = Some cid ->
  thinkingTimerRef w = None -> longToolUseTimer w = None ->
  settled_conversations (nextId w) (conversations w) ->
  (exists new, trace w = new ++ trace0 /\ Forall snapshot_ok new) ->
  fst (start_turn cid modelToUse p images file url isRetry w) = Normal tt /\
  turn_inv cid trace0 (snd (start_turn cid modelToUse p images file url isRetry w)).
Proof.
  intros Ha Hth Hl Hs (new & Htr & Hnew).
  assert (Hstore : forall f : list Msg.t -> list Msg.t,
            (forall l, Forall clean l -> NoDup (map Msg.id l) ->
                       Forall (fun m => Msg.id m < nextId w) l ->
                       in_flight (f l)) ->
            store_in_flight cid
              (map (fun c => if Nat.eqb (Convo.id c) cid
                             then Convo.set_messages (f (Convo.messages c)) c
                             else c) (conversations w))).
  { intros f Hf c' Hc'. apply in_map_iff in Hc' as (c & <- & Hc).
    destruct (Hs c Hc) as (Hcl & Hnd & Hb).
    destruct (Nat.eqb (Convo.id c) cid) eqn:E.
    - apply Nat.eqb_eq in E. split; [|simpl; congruence].
      intros _. simpl. apply Hf; assumption.
    - apply Nat.eqb_neq in E. split; [congruence|intros _; exact Hcl]. }
  unfold start_turn, updateConversationMessages, updateConversation, randomUUID,
    now, bind, modify, gets.
  destruct isRetry; cbn.
  - split; [reflexivity|]. unfold turn_inv, timer_ok. cbn.
    split; [exact Ha|]. split; [auto|]. split; [auto|].
    assert (Hst := Hstore
                     (fun prev => prev ++
                        [planningMessage (nextId w) modelToUse (clock w)])
                     (fun l Hc Hn Hb =>
                        proj2 (in_flight_appended (nextId w) l modelToUse p
                                 images file url (clock w) (clock w) Hc Hn Hb))).
    split; [exact Hst|].
    eexists (_ :: new). split; [rewrite Htr; reflexivity|].
    constructor; [|exact Hnew]. apply (store_in_flight_snapshot cid), Hst.
  - split; [reflexivity|]. unfold turn_inv, timer_ok. cbn.
    split; [exact Ha|]. split; [auto|]. split; [auto|].
    assert (Hst := Hstore
                     (fun prev => prev ++
                        [newUserMessage (S (nextId w)) p images file url
                           modelToUse (clock w);
                         planningMessage (nextId w) modelToUse (clock w)])
                     (fun l Hc Hn Hb =>
                        proj1 (in_flight_appended (nextId w) l modelToUse p
                                 images file url (clock w) (clock w) Hc Hn Hb))).
    split; [exact Hst|].
    eexists (_ :: new). split; [rewrite Htr; reflexivity|].
    constructor; [|exact Hnew]. apply (store_in_flight_snapshot cid), Hst.
Qed.

Lemma resolve_conversation_new (r w : World) :
  activeConversationId r = None ->
  let c := Convo.mk (nextId w) "New Chat" [] (clock w) None None (Some []) in
  resolve_conversation r w =
  (Normal (nextId w, true, c),
   set_activeConversationId (Some (nextId w))
     (set_trace ((c :: conversations w) :: trace w)
        (set_conversations (c :: conversations w)
           (set_nextId (S (nextId w)) w)))).
Proof. intro H. unfold resolve_conversation. rewrite H. reflexivity. Qed.

Lemma settled_snapshot (next : Id) (cs : list Convo.t) :
  settled_conversations next cs -> snapshot_ok cs.
Proof. intros H c Hc. apply clean_confined, (H c Hc). Qed.

(** a call of the handler created in render [r], on the live state [w] *)
Lemma handleSendMessage_confined (r w : World) (env : Env) (prompt : string)
  (images : option (list Image)) (file : option FileAttachment)
  (url : option string) (overrideModel : option ChatModel) (isRetry : bool) :
  settled_store w ->
  activeConversationId r = activeConversationId w ->
  exists during,
    trace (snd (handleSendMessage r env prompt images file url overrideModel
                  isRetry w)) = during ++ trace w /\
    Forall snapshot_ok during.
Proof.
  intros (Hth & Hl & Hs) Hact.
  unfold handleSendMessage.
  destruct (send_rejected r prompt images file url).
  { exists []. split; [reflexivity|constructor]. }
  set (modelToUse := match overrideModel with
                     | Some m => m
                     | None => selectedChatModel r
                     end).
  assert (Hrun : forall cid isFirst convo w1,
            activeConversationId w1 = Some cid ->
            thinkingTimerRef w1 = None -> longToolUseTimer w1 = None ->
            settled_conversations (nextId w1) (conversations w1) ->
            (exists new, trace w1 = new ++ trace w /\ Forall snapshot_ok new) ->
            exists during,
              trace (snd ((start_turn cid modelToUse prompt images file url
                             isRetry ;;
                           try_finally
                             (try_catch
                                (turn_body r env cid isFirst convo modelToUse
                                   prompt images file url)
                                (turn_catch env cid))
                             (turn_finally cid)) w1)) = during ++ trace w /\
              Forall snapshot_ok during).
  { intros cid isFirst convo w1 Ha1 Hth1 Hl1 Hs1 Htr1.
    destruct (start_turn_establishes cid (trace w) modelToUse prompt images
                file url isRetry w1 Ha1 Hth1 Hl1 Hs1 Htr1) as [Hn Hinv].
    unfold bind at 1.
    destruct (start_turn cid modelToUse prompt images file url isRetry w1)
      as [c w2]. simpl in Hn, Hinv. subst c.
    assert (Hk : keeps (turn_inv cid (trace w))
                   (try_finally
                      (try_catch
                         (turn_body r env cid isFirst convo modelToUse prompt
                            images file url)
                         (turn_catch env cid))
                      (turn_finally cid)) (fun _ => True)).
    { apply keeps_try_finally; [apply keeps_try_catch|].
      - apply keeps_turn_body_inv.
      - intro e. apply keeps_turn_catch_inv.
      - apply keeps_turn_finally_inv. }
    destruct (Hk w2 Hinv) as [(_ & _ & _ & _ & during & Hd & Hok) _].
    exists during. split; assumption. }
  destruct (activeConversationId r) as [cid|] eqn:Ha0.
  - unfold resolve_conversation. rewrite Ha0.
    destruct (find_conversation (conversations r) cid) as [convo|].
    + rewrite bind_ret. cbn beta iota.
      apply Hrun; try assumption; [symmetry; exact Hact|].
      exists []. split; [reflexivity|constructor].
    + exists []. split; [reflexivity|constructor].
  - unfold bind at 1. rewrite (resolve_conversation_new r w Ha0). cbn beta iota.
    apply Hrun; cbn; try assumption; try reflexivity.
    + intros c [<- | Hc].
      * cbn. repeat split; constructor.
      * destruct (Hs c Hc) as (Hc1 & Hc2 & Hc3). repeat split; try assumption.
        eapply Forall_impl; [|exact Hc3]. cbn. intros m Hm. lia.
    + eexists [_]. split; [reflexivity|]. constructor; [|constructor].
      intros c [<- | Hc]; [apply clean_confined; constructor|].
      apply clean_confined, (Hs c Hc).
Qed.

Lemma Forall_firstn {A : Type} (P : A -> Prop) (n : nat) (l : list A) :
  Forall P l -> Forall P (firstn n l).
Proof.
  intro H. revert n. induction H as [|x l Hx _ IH]; intros [|n]; simpl;
    constructor; auto.
Qed.

Lemma NoDup_firstn {A : Type} (n : nat) (l : list A) :
  NoDup l -> NoDup (firstn n l).
Proof.
  intro H. rewrite <- (firstn_skipn n l) in H.
  exact (NoDup_app_remove_r _ _ H).
Qed.

(** the truncation of [handleRetry] leaves a settled store settled *)
Lemma truncation_settled (cid : Id) (i : nat) (w : World) :
  settled_store w ->
  let truncated :=
    snd (updateConversationMessages cid (fun prev => firstn i prev) w) in
  settled_store truncated /\ snapshot_ok (conversations truncated).
Proof.
  intros (Hth & Hl & Hs) truncated.
  assert (H : settled_conversations (nextId w) (conversations truncated)).
  { unfold truncated, updateConversationMessages, updateConversation, modify.
    cbn. intros c' Hc'. apply in_map_iff in Hc' as (c & <- & Hc).
    destruct (Hs c Hc) as (Hc1 & Hc2 & Hc3).
    destruct (Nat.eqb (Convo.id c) cid); [|auto]. cbn.
    split; [apply Forall_firstn, Hc1|]. split.
    - rewrite <- firstn_map. apply NoDup_firstn, Hc2.
    - apply Forall_firstn, Hc3. }
  split; [|exact (settled_snapshot _ _ H)].
  split; [exact Hth|]. split; [exact Hl|exact H].
Qed.



(** the message carries one of the four flags *)
Definition carries_flag (m : Msg.t) : bool := (flagP m || flagA m)%bool.


(** ** Whole turns *)

(** the token accountant at the end of a plain turn on a 400-character prompt *)
Example turn_token_accounting :
  let env := calm_env (Some plain_plan) (inl "")
               [Build_Chunk "Sure." (Some (Build_Usage (Some 300%Z) (Some 7%Z))) None] in
  let w' := send env (replicate 400 "a") None None None None false settled_chat in
  option_map (fun l => map (fun m => (Msg.inputTokens m, Msg.outputTokens m,
                                       Msg.systemTokens m)) (skipn 3 l))
    (messages_of w' 0) =
  Some [(Some 100%Z, Some 7%Z, Some 200%Z)].
Proof. vm_compute. reflexivity. Qed.

(** the same turn with web search planned: the total is shown, no system
    tokens *)
Example turn_token_accounting_tool :
  let raw := Plan.mk_raw true false false false false false false None None None in
  let env := calm_env (Some raw) (inl "")
               [Build_Chunk "Sure." (Some (Build_Usage (Some 500%Z) (Some 7%Z))) None] in
  let w' := send env (replicate 400 "a") None None None None false settled_chat in
  option_map (fun l => map (fun m => (Msg.inputTokens m, Msg.outputTokens m,
                                       Msg.systemTokens m)) (skipn 3 l))
    (messages_of w' 0) =
  Some [(Some 500%Z, Some 7%Z, None)].
Proof. vm_compute. reflexivity. Qed.

Definition cancel_after (first second : string) : Env :=
  Build_Env (Some plain_plan) [] (inl "") [] (inl "not found") [] [] [] None []
    [([], text_chunk first); ([CancelClicked], text_chunk second)] [] None
    (fun e => e).

(** a turn cancelled after "Hello" has streamed, and one cancelled after a
    single space has streamed *)
Example turn_cancelled :
  option_map (map Msg.content)
    (messages_of (send (cancel_after "Hello" " world") "hey" None None None None
                    false settled_chat) 0) =
    Some ["hi"; "hello"; "hey";
          "Hello" ++ nl ++ nl ++ "*Response generation stopped.*"]%string /\
  option_map (map Msg.content)
    (messages_of (send (cancel_after " " "Hello") "hey" None None None None
                    false settled_chat) 0) =
    Some ["hi"; "hello"; "hey"; "*Response generation stopped.*"].
Proof. vm_compute. split; reflexivity. Qed.

(** a turn cancelled while the planner is still running *)
Example turn_cancelled_while_planning :
  let env := Build_Env (Some plain_plan) [CancelClicked] (inl "") []
               (inl "not found") [] [] [] None [] [([], text_chunk "late")] []
               None (fun e => e) in
  let w' := send env "hey" None None None None false settled_chat in
  option_map (map Msg.content) (messages_of w' 0) =
    Some ["hi"; "hello"; "hey"; "*Response generation stopped.*"] /\
  events w' = [EvPlanResponse "hey" None None gemini_2_5_flash] /\
  isLoading w' = false.
Proof. vm_compute. repeat split. Qed.

(** * Further properties of the handlers *)

(** ** The planner *)

Definition plan_uses_tool (p : Plan.t) : bool :=
  (Plan.needsWebSearch p || Plan.isUrlReadRequest p || Plan.isMoleculeRequest p)%bool.

(** X1.  Whatever the classification request returns, and also when
    it fails, a plan of [planResponse] that asks for web search, for the URL
    reader or for a molecule asks for no thinking and carries no thoughts. *)
Theorem planResponse_tool_disables_thinking (outcome : option Plan.raw) :
  plan_uses_tool (planResponse outcome) = true ->
  Plan.needsThinking (planResponse outcome) = false /\
  Plan.thoughts (planResponse outcome) = [].
Proof.
  unfold plan_uses_tool. destruct outcome as [raw|]; simpl.
  - intro H. rewrite H. split; reflexivity.
  - intros _. split; reflexivity.
Qed.

Definition eager_plan : Plan.raw :=
  Plan.mk_raw true false false false true false false None
    (Some [Build_ThoughtStep "Plan" "search the web" "search"]) None.

Lemma planResponse_tool_disables_thinking_witness :
  plan_uses_tool (planResponse (Some eager_plan)) = true /\
  Plan.needsThinking (planResponse (Some eager_plan)) = false /\
  Plan.thoughts (planResponse (Some eager_plan)) = [].
Proof.
  split; [reflexivity|].
  apply (planResponse_tool_disables_thinking (Some eager_plan)). reflexivity.
Defined.

(** ** The error message and the generation time *)

Lemma last_opt_map_last {A : Type} (f : A -> A) (l : list A) :
  last_opt (map_last f l) = option_map f (last_opt l).
Proof.
  induction l as [|a [|b l] IH]; [reflexivity..|].
  change (map_last f (a :: b :: l)) with (a :: map_last f (b :: l)).
  change (last_opt (a :: b :: l)) with (last_opt (b :: l)).
  rewrite <- IH. simpl. destruct (map_last f l), l; reflexivity.
Qed.

(** X2.  The message the [catch] block writes is never stamped
    with a generation time by the [finally] block: on the list left by
    [error_updater] the updater of [generationTime] changes nothing. *)
Theorem error_message_not_stamped (friendly : string) (newId : Id) (ts t : Z)
  (prev : list Msg.t) :
  generation_time_updater t (error_updater friendly newId ts prev) =
  error_updater friendly newId ts prev.
Proof.
  unfold error_updater.
  destruct (last_opt prev) as [lastMessage|] eqn:Hl.
  - destruct (Msg.role lastMessage) eqn:Hr.
    + unfold generation_time_updater. rewrite last_opt_app. reflexivity.
    + unfold generation_time_updater. rewrite last_opt_map_last, Hl. simpl.
      rewrite Hr. reflexivity.
  - apply last_opt_None in Hl. subst prev. reflexivity.
Qed.

(** ** The pairs sent to the summarizer *)

Lemma list_pair_ind {A : Type} (P : list A -> Prop) :
  P [] -> (forall a, P [a]) -> (forall a b l, P l -> P (a :: b :: l)) ->
  forall l, P l.
Proof.
  intros H0 H1 H2. fix IH 1.
  intros [|a [|b l]]; [exact H0 | apply H1 | apply H2, IH].
Qed.

Lemma pair_up_adjacent (l : list Msg.t) :
  forall u m, In (u, m) (pair_up l) ->
  Msg.role u = user /\ Msg.role m = model /\
  exists before after, l = before ++ u :: m :: after.
Proof.
  induction l as [|a|a b rest IH] using list_pair_ind;
    intros u m Hin; [contradiction..|].
  simpl in Hin. apply in_app_or in Hin as [Hin | Hin].
  - destruct (role_eqb (Msg.role a) user && role_eqb (Msg.role b) model)%bool eqn:E;
      [|contradiction].
    destruct Hin as [[= <- <-] | []].
    apply andb_true_iff in E as [Ea Eb].
    split; [destruct (Msg.role a); [reflexivity|discriminate]|].
    split; [destruct (Msg.role b); [discriminate|reflexivity]|].
    exists [], rest. reflexivity.
  - destruct (IH u m Hin) as (Hu & Hm & before & after & ->).
    split; [exact Hu|]. split; [exact Hm|].
    exists (a :: b :: before), after. reflexivity.
Qed.

Lemma pair_up_length (l : list Msg.t) : 2 * length (pair_up l) <= length l.
Proof.
  induction l as [|a|a b rest IH] using list_pair_ind; simpl; [lia..|].
  rewrite length_app.
  destruct (role_eqb (Msg.role a) user && role_eqb (Msg.role b) model)%bool;
    simpl; lia.
Qed.

Lemma slice_last_length {A : Type} (n : nat) (l : list A) :
  length (slice_last n l) = Nat.min n (length l).
Proof. unfold slice_last. rewrite length_skipn. lia. Qed.

Lemma slice_last_suffix {A : Type} (n : nat) (l : list A) :
  exists before, l = before ++ slice_last n l.
Proof.
  exists (firstn (length l - n) l). unfold slice_last.
  symmetry. apply firstn_skipn.
Qed.

(** X3.  The pairing loop over the last 20 messages yields at
    most 10 pairs, and every pair is a user message immediately followed, in
    the conversation, by a model message. *)
Theorem summary_pairs_adjacent (messages : list Msg.t) (u m : Msg.t) :
  In (u, m) (pair_up (slice_last 20 messages)) ->
  length (pair_up (slice_last 20 messages)) <= 10 /\
  Msg.role u = user /\ Msg.role m = model /\
  exists before after, messages = before ++ u :: m :: after.
Proof.
  intro Hin. split.
  - pose proof (pair_up_length (slice_last 20 messages)) as H.
    rewrite slice_last_length in H. lia.
  - destruct (pair_up_adjacent _ _ _ Hin) as (Hu & Hm & before & after & E).
    split; [exact Hu|]. split; [exact Hm|].
    destruct (slice_last_suffix 20 messages) as [pre Hpre].
    exists (pre ++ before), after. rewrite <- app_assoc, <- E. exact Hpre.
Qed.

Lemma summary_pairs_adjacent_witness :
  length (pair_up (slice_last 20 (exchanges 12 1))) <= 10 /\
  Msg.role (newUserMessage 5 "question" None None None gemini_2_5_flash 0) = user /\
  Msg.role (new_model_message 6 "answer" 0) = model /\
  exists before after,
    exchanges 12 1 =
    before ++ newUserMessage 5 "question" None None None gemini_2_5_flash 0
           :: new_model_message 6 "answer" 0 :: after.
Proof.
  apply (summary_pairs_adjacent (exchanges 12 1)).
  vm_compute. auto.
Defined.

(** ** The memory writer *)

Lemma includes_In (mem : string) (l : list string) :
  includes mem l = true <-> In mem l.
Proof.
  unfold includes. rewrite existsb_exists. split.
  - intros (x & Hin & E). apply String.eqb_eq in E. subst. exact Hin.
  - intro Hin. exists mem. split; [exact Hin|apply String.eqb_refl].
Qed.

Lemma replace_first_length (old v : string) (l l' : list string) :
  replace_first old v l = Some l' -> length l' = length l.
Proof.
  revert l'. induction l as [|mem rest IH]; intros l' H; [discriminate|].
  simpl in H. destruct (String.eqb mem old).
  - injection H as <-. reflexivity.
  - destruct (replace_first old v rest) as [rest'|]; [|discriminate].
    injection H as <-. simpl. rewrite (IH rest' eq_refl). reflexivity.
Qed.

Lemma replace_first_keeps (old v x : string) (l l' : list string) :
  replace_first old v l = Some l' -> x <> old -> In x l -> In x l'.
Proof.
  revert l'. induction l as [|mem rest IH]; intros l' H Hx Hin; [contradiction|].
  simpl in H. destruct (String.eqb mem old) eqn:E.
  - injection H as <-. apply String.eqb_eq in E. subst mem.
    destruct Hin as [-> | Hin]; [contradiction|right; exact Hin].
  - destruct (replace_first old v rest) as [rest'|]; [|discriminate].
    injection H as <-. destruct Hin as [-> | Hin]; [left; reflexivity|].
    right. apply IH; auto.
Qed.

(** what the [forEach] over the updates keeps true of
    [(ltmAfterUpdates, memoryWasModified)] *)
Lemma fold_updates_flag (updates : list MemoryUpdate) (st : list string * bool) :
  snd st = true -> snd (fold_left apply_memory_update updates st) = true.
Proof.
  revert st. induction updates as [|u updates IH]; intros st H; [exact H|].
  simpl. apply IH. unfold apply_memory_update.
  destruct (replace_first _ _ _); [reflexivity|exact H].
Qed.

Lemma fold_updates_unmodified (updates : list MemoryUpdate) (st : list string * bool) :
  snd (fold_left apply_memory_update updates st) = false ->
  fold_left apply_memory_update updates st = st.
Proof.
  revert st. induction updates as [|u updates IH]; intros st H; [reflexivity|].
  simpl in *. unfold apply_memory_update in *.
  destruct (replace_first (old_memory u) (new_memory u) (fst st)) as [l|].
  - rewrite fold_updates_flag in H by reflexivity. discriminate.
  - apply IH, H.
Qed.

Lemma fold_updates_length (updates : list MemoryUpdate) (st : list string * bool) :
  length (fst (fold_left apply_memory_update updates st)) = length (fst st).
Proof.
  revert st. induction updates as [|u updates IH]; intros st; [reflexivity|].
  simpl. rewrite IH. unfold apply_memory_update.
  destruct (replace_first _ _ _) as [l|] eqn:E; [|reflexivity].
  simpl. apply (replace_first_length _ _ _ _ E).
Qed.

Lemma fold_updates_keeps (updates : list MemoryUpdate) (st : list string * bool)
  (x : string) :
  (forall u, In u updates -> old_memory u <> x) ->
  In x (fst st) -> In x (fst (fold_left apply_memory_update updates st)).
Proof.
  revert st. induction updates as [|u updates IH]; intros st Hold Hin; [exact Hin|].
  simpl. apply IH; [intros u' Hu'; apply Hold; right; exact Hu'|].
  unfold apply_memory_update.
  destruct (replace_first _ _ _) as [l|] eqn:E; [|exact Hin].
  simpl. apply (replace_first_keeps _ _ _ _ _ E); [|exact Hin].
  intro Hx. apply (Hold u); [left; reflexivity|symmetry; exact Hx].
Qed.

(** X4.  The long-term memory the writer computes contains
    every new fact of the result and keeps every stored fact that no update
    names as its [old_memory]; whatever the result holds, its length lies
    between the length of the stored list and that length plus the number of
    new facts. *)
Theorem memory_after_facts (ltm : list string) (memoryResult : MemoryUpdateResult) :
  (forall fact,
     In fact (newMemories memoryResult) \/
     (In fact ltm /\
      forall u, In u (updatedMemories memoryResult) -> old_memory u <> fact) ->
     In fact (fst (memory_after ltm memoryResult))) /\
  length ltm <= length (fst (memory_after ltm memoryResult)) <=
    length ltm + length (newMemories memoryResult).
Proof.
  unfold memory_after.
  pose proof (fold_updates_length (updatedMemories memoryResult) (ltm, false)) as Hlen.
  pose proof (fold_updates_keeps (updatedMemories memoryResult) (ltm, false))
    as Hkeep.
  destruct (fold_left apply_memory_update (updatedMemories memoryResult) (ltm, false))
    as [ltmAfterUpdates memoryWasModified].
  simpl in Hlen, Hkeep.
  set (unique := filter (fun mem => negb (includes mem ltmAfterUpdates))
                   (newMemories memoryResult)).
  assert (Hu : length unique <= length (newMemories memoryResult))
    by apply filter_length_le.
  assert (Hfact : forall fact,
            In fact (newMemories memoryResult) \/
            (In fact ltm /\
             forall u, In u (updatedMemories memoryResult) -> old_memory u <> fact) ->
            In fact ltmAfterUpdates \/ In fact unique).
  { intros fact [Hnew | [Hold Hno]].
    - destruct (includes fact ltmAfterUpdates) eqn:E.
      + left. apply includes_In, E.
      + right. apply filter_In. split; [exact Hnew|]. rewrite E. reflexivity.
    - left. apply Hkeep; assumption. }
  destruct (Nat.ltb 0 (length unique)) eqn:E; simpl.
  - split; [|rewrite length_app; lia].
    intros fact H. apply in_or_app, Hfact, H.
  - apply Nat.ltb_ge in E. destruct unique; [|simpl in E; lia].
    split; [|lia]. intros fact H. destruct (Hfact fact H) as [Hf | []]. exact Hf.
Qed.

Definition sample_memory_result : MemoryUpdateResult :=
  {| newMemories := ["has a dog"; "lives in Oslo"];
     updatedMemories := [Build_MemoryUpdate "lives in Bergen" "lives in Oslo"];
     userProfileUpdates_name := Some "Ann" |}.

(** one fact replaced and none added: the bounds hold though no stored fact
    is kept and no fact is new *)
Lemma memory_after_facts_witness :
  In "has a dog"
    (fst (memory_after ["likes tea"; "lives in Bergen"] sample_memory_result)) /\
  1 <= length (fst (memory_after ["lives in Bergen"]
                      {| newMemories := [];
                         updatedMemories :=
                           [Build_MemoryUpdate "lives in Bergen" "lives in Oslo"];
                         userProfileUpdates_name := None |})) <= 1 + 0.
Proof.
  split.
  - apply (memory_after_facts ["likes tea"; "lives in Bergen"] sample_memory_result).
    left. simpl. auto.
  - apply (memory_after_facts ["lives in Bergen"]).
Defined.

(** X5.  When the writer finds nothing to change (no update
    matches a stored fact and every new fact is already stored) the callback
    writes neither the long-term memory nor any conversation: the
    [memoryUpdated] mark is only set on a change. *)
Theorem memory_then_unmodified (r w : World) (cid : Id)
  (memoryResult : MemoryUpdateResult) :
  snd (memory_after (ltm r) memoryResult) = false ->
  fst (memory_after (ltm r) memoryResult) = ltm r /\
  ltm (snd (memory_then r cid memoryResult w)) = ltm w /\
  conversations (snd (memory_then r cid memoryResult w)) = conversations w /\
  trace (snd (memory_then r cid memoryResult w)) = trace w.
Proof.
  intro H. split.
  - unfold memory_after in *.
    pose proof (fold_updates_unmodified (updatedMemories memoryResult) (ltm r, false))
      as Hf.
    destruct (fold_left apply_memory_update (updatedMemories memoryResult)
                (ltm r, false)) as [l m].
    destruct (Nat.ltb 0 _); [discriminate|].
    simpl in *. specialize (Hf H). congruence.
  - unfold memory_then.
    destruct (memory_after (ltm r) memoryResult) as [l m]. simpl in H. subst m.
    simpl. unfold bind, ret.
    destruct (userProfileUpdates_name memoryResult) as [name|];
      [|repeat split; reflexivity].
    match goal with |- context [when ?b _] => destruct b end;
      repeat split; reflexivity.
Qed.

Lemma memory_then_unmodified_witness :
  fst (memory_after ["likes tea"]
         {| newMemories := ["likes tea"]; updatedMemories := [];
            userProfileUpdates_name := None |}) = ["likes tea"] /\
  ltm (snd (memory_then (idle_world [] None 0) 0
              {| newMemories := []; updatedMemories := [];
                 userProfileUpdates_name := Some "Ann" |} (idle_world [] None 0)))
  = ltm (idle_world [] None 0).
Proof.
  split.
  - apply (memory_then_unmodified
             (set_ltm ["likes tea"] (idle_world [] None 0)) (idle_world [] None 0) 0
             {| newMemories := ["likes tea"]; updatedMemories := [];
                userProfileUpdates_name := None |}).
    reflexivity.
  - apply (memory_then_unmodified (idle_world [] None 0) (idle_world [] None 0) 0
             {| newMemories := []; updatedMemories := [];
                userProfileUpdates_name := Some "Ann" |}).
    reflexivity.
Defined.

(** ** Message selection *)

Lemma includes_id_In (id : Id) (ids : list Id) : includes_id id ids = true <-> In id ids.
Proof.
  unfold includes_id. rewrite existsb_exists. split.
  - intros (x & Hin & E). apply Nat.eqb_eq in E. subst. exact Hin.
  - intro Hin. exists id. split; [exact Hin|apply Nat.eqb_refl].
Qed.

(** X6.  Toggling a message id in a selection without repetitions
    flips the membership of that id, leaves every other id as it was and
    introduces no repetition. *)
Theorem toggle_selection (messageId : Id) (prevSelectedIds : list Id) :
  NoDup prevSelectedIds ->
  NoDup (handleToggleMessageSelection messageId prevSelectedIds) /\
  (In messageId (handleToggleMessageSelection messageId prevSelectedIds) <->
   ~ In messageId prevSelectedIds) /\
  forall id, id <> messageId ->
    (In id (handleToggleMessageSelection messageId prevSelectedIds) <->
     In id prevSelectedIds).
Proof.
  intro Hnd. unfold handleToggleMessageSelection.
  destruct (includes_id messageId prevSelectedIds) eqn:E.
  - apply includes_id_In in E. split; [apply NoDup_filter, Hnd|]. split.
    + rewrite filter_In, Nat.eqb_refl. simpl. intuition discriminate.
    + intros id Hid. rewrite filter_In.
      apply Nat.eqb_neq in Hid. rewrite Hid. simpl. tauto.
  - assert (Hn : ~ In messageId prevSelectedIds).
    { intro Hin. apply includes_id_In in Hin. congruence. }
    split; [|split].
    + apply NoDup_app_fresh; [exact Hnd|repeat constructor; simpl; tauto|].
      intros x Hx [<- | []]. contradiction.
    + rewrite in_app_iff. simpl. tauto.
    + intros id Hid. rewrite in_app_iff. simpl. intuition congruence.
Qed.

Lemma toggle_selection_witness :
  NoDup (handleToggleMessageSelection 3 [1; 3; 2]) /\
  (In 3 (handleToggleMessageSelection 3 [1; 3; 2]) <-> ~ In 3 [1; 3; 2]) /\
  forall id, id <> 3 ->
    (In id (handleToggleMessageSelection 3 [1; 3; 2]) <-> In id [1; 3; 2]).
Proof.
  apply (toggle_selection 3 [1; 3; 2]).
  repeat constructor; simpl; intuition lia.
Defined.

(** ** The conversation list *)

From Stdlib Require Import Permutation Sorted.

Definition pinned (c : Convo.t) : bool := Msg.flag (Convo.isPinned c).

(** [a] may be listed before [b]: pinned before unpinned, and among
    conversations pinned alike the newer one first *)
Definition listed_before (a b : Convo.t) : Prop :=
  (pinned a = true /\ pinned b = false) \/
  (pinned a = pinned b /\ (Convo.createdAt b <= Convo.createdAt a)%Z).

Lemma compareConversations_le (a b : Convo.t) :
  (compareConversations a b <= 0)%Z <-> listed_before a b.
Proof.
  unfold compareConversations, listed_before, pinned.
  destruct (Msg.flag (Convo.isPinned a)), (Msg.flag (Convo.isPinned b)); simpl;
    split; intro H; try lia; intuition (try discriminate; try lia).
Qed.

Lemma listed_before_total (a b : Convo.t) : listed_before a b \/ listed_before b a.
Proof.
  unfold listed_before.
  destruct (pinned a), (pinned b); try (left; left; split; reflexivity);
    try (right; left; split; reflexivity);
    destruct (Z_le_gt_dec (Convo.createdAt b) (Convo.createdAt a));
    [left|right|left|right]; right; split; try reflexivity; lia.
Qed.

Lemma listed_before_trans (a b c : Convo.t) :
  listed_before a b -> listed_before b c -> listed_before a c.
Proof.
  unfold listed_before.
  destruct (pinned a), (pinned b), (pinned c);
    intros [[H1 H2] | [H1 H2]] [[H3 H4] | [H3 H4]]; try discriminate;
    try (left; split; reflexivity); right; split; try reflexivity; lia.
Qed.

Lemma sort_insert_perm {A : Type} (compare : A -> A -> Z) (x : A) (l : list A) :
  Permutation (x :: l) (sort_insert compare x l).
Proof.
  induction l as [|y rest IH]; simpl; [reflexivity|].
  destruct (Z.leb (compare x y) 0); [reflexivity|].
  rewrite perm_swap. apply perm_skip, IH.
Qed.

Lemma js_sort_perm {A : Type} (compare : A -> A -> Z) (l : list A) :
  Permutation l (js_sort compare l).
Proof.
  induction l as [|x l IH]; simpl; [reflexivity|].
  rewrite <- sort_insert_perm. apply perm_skip, IH.
Qed.

Lemma sort_insert_sorted (x : Convo.t) (l : list Convo.t) :
  StronglySorted listed_before l ->
  StronglySorted listed_before (sort_insert compareConversations x l).
Proof.
  induction l as [|y rest IH]; intro Hs; simpl.
  - constructor; constructor.
  - inversion Hs as [|? ? Hrest Hall]; subst.
    destruct (Z.leb (compareConversations x y) 0) eqn:E.
    + apply Z.leb_le, compareConversations_le in E.
      constructor; [exact Hs|]. constructor; [exact E|].
      eapply Forall_impl; [|exact Hall].
      intros z Hz. exact (listed_before_trans _ _ _ E Hz).
    + apply Z.leb_gt in E.
      assert (Hyx : listed_before y x).
      { destruct (listed_before_total x y) as [H | H]; [|exact H].
        apply compareConversations_le in H. lia. }
      constructor; [apply IH, Hrest|].
      apply (Permutation_Forall (sort_insert_perm compareConversations x rest)).
      constructor; assumption.
Qed.

(** X7.  The comparator of [sortedConversations] is a consistent
    order ([compare a b <= 0] exactly when [a] is pinned and [b] is not, or
    both are pinned alike and [a] is not older), so the sorted list is a
    rearrangement of the conversations in which no conversation comes after
    one it should precede: pinned ones first, newest first among equals. *)
Theorem sortedConversations_order (cs : list Convo.t) :
  Permutation cs (sortedConversations cs) /\
  StronglySorted listed_before (sortedConversations cs) /\
  (forall a b, (compareConversations a b <= 0)%Z <-> listed_before a b) /\
  (forall a b, listed_before a b \/ listed_before b a) /\
  (forall a b c, listed_before a b -> listed_before b c -> listed_before a c).
Proof.
  split; [apply js_sort_perm|]. split.
  - unfold sortedConversations. induction cs as [|c cs IH]; simpl.
    + constructor.
    + apply sort_insert_sorted, IH.
  - split; [exact compareConversations_le|].
    split; [exact listed_before_total|exact listed_before_trans].
Qed.

(** the active id names a conversation of the list *)
Definition active_valid (w : World) : Prop :=
  match activeConversationId w with
  | Some active => exists c, In c (conversations w) /\ Convo.id c = active
  | None => True
  end.

(** X8.  Deleting one conversation, deleting several and
    opening a new chat keep the active id valid: afterwards it is null or the
    id of a conversation that is still in the list. *)
Theorem active_stays_valid (w : World) (id : Id) (ids : list Id) :
  active_valid w ->
  active_valid (snd (handleDeleteConversation w id w)) /\
  active_valid (snd (handleDeleteMultipleConversations w ids w)) /\
  active_valid (snd (handleNewChat w)).
Proof.
  intro Hv. unfold active_valid in *. split; [|split].
  - unfold handleDeleteConversation, setConversations, bind, modify, when.
    destruct (activeConversationId w) as [active|] eqn:Ha; simpl.
    + destruct (Nat.eqb active id) eqn:E; unfold ret, modify; simpl.
      * destruct (Nat.ltb 1 (length (conversations w))); [|exact I].
        destruct (find _ (sortedConversations (conversations w))) as [c|] eqn:Hf;
          [|exact I].
        simpl. apply find_some in Hf as [Hin Hne].
        exists c. split; [|reflexivity].
        apply filter_In. split; [|exact Hne].
        apply (Permutation_in _ (Permutation_sym (js_sort_perm _ _)) Hin).
      * rewrite Ha. destruct Hv as (c & Hin & Hid). exists c.
        split; [|exact Hid]. apply filter_In. split; [exact Hin|].
        rewrite Hid, E. reflexivity.
    + rewrite Ha. exact I.
  - unfold handleDeleteMultipleConversations, setConversations, bind, modify, when.
    destruct (activeConversationId w) as [active|] eqn:Ha; simpl; [|rewrite Ha; exact I].
    destruct (includes_id active ids) eqn:E; unfold ret, modify; simpl.
    + destruct (filter _ (conversations w)) as [|c rest] eqn:Hf; [exact I|].
      simpl. exists c. split; [left; reflexivity|reflexivity].
    + rewrite Ha. destruct Hv as (c & Hin & Hid). exists c.
      split; [|exact Hid]. apply filter_In. split; [exact Hin|].
      rewrite Hid, E. reflexivity.
  - unfold handleNewChat, setConversations, randomUUID, now, bind, modify, gets.
    simpl. eexists. split; [left; reflexivity|reflexivity].
Qed.

Lemma active_stays_valid_witness :
  active_valid (snd (handleDeleteConversation settled_chat 0 settled_chat)) /\
  active_valid (snd (handleDeleteMultipleConversations settled_chat [0; 7] settled_chat)) /\
  active_valid (snd (handleNewChat settled_chat)).
Proof.
  apply (active_stays_valid settled_chat 0 [0; 7]).
  simpl. eexists. split; [left; reflexivity|reflexivity].
Defined.

(** ** The system instruction *)

Lemma slice_last_idem {A : Type} (n : nat) (l : list A) :
  slice_last n (slice_last n l) = slice_last n l.
Proof.
  unfold slice_last at 1. rewrite slice_last_length.
  replace (Nat.min n (length l) - n) with 0 by lia. reflexivity.
Qed.

(** X9.  Only the last 10 summaries of a conversation
    reach the system instruction: the instruction built from a list of
    summaries is the one built from its last 10. *)
Theorem buildSystemInstruction_recent_summaries (isFirstMessage : bool)
  (modelName : option string) (ltm : option (list string))
  (userProfile : option UserProfile) (summaries : list ConvoSummary)
  (codeSnippets : option (list CodeSnippet))
  (developerContext personaContext capabilitiesContext : option string) :
  buildSystemInstruction isFirstMessage modelName ltm userProfile (Some summaries)
    codeSnippets developerContext personaContext capabilitiesContext =
  buildSystemInstruction isFirstMessage modelName ltm userProfile
    (Some (slice_last 10 summaries))
    codeSnippets developerContext personaContext capabilitiesContext.
Proof.
  unfold buildSystemInstruction. cbv zeta.
  rewrite slice_last_idem, slice_last_length.
  replace (Nat.ltb 0 (Nat.min 10 (length summaries)))
    with (Nat.ltb 0 (length summaries)); [reflexivity|].
  destruct summaries; [reflexivity|].
  simpl length. destruct (length summaries) as [|[|[|[|[|[|[|[|[|[|k]]]]]]]]]];
    reflexivity.
Qed.

(** X10.  The text of [capabilitiesContext] never reaches the
    system instruction: two instructions that differ only in a non-empty
    capabilities text are equal. *)
Theorem buildSystemInstruction_capabilities_unused (isFirstMessage : bool)
  (modelName : option string) (ltm : option (list string))
  (userProfile : option UserProfile) (summaries : option (list ConvoSummary))
  (codeSnippets : option (list CodeSnippet))
  (developerContext personaContext : option string) (text text' : string) :
  text <> "" -> text' <> "" ->
  buildSystemInstruction isFirstMessage modelName ltm userProfile summaries
    codeSnippets developerContext personaContext (Some text) =
  buildSystemInstruction isFirstMessage modelName ltm userProfile summaries
    codeSnippets developerContext personaContext (Some text').
Proof.
  intros H H'. apply truthy_true in H, H'.
  unfold buildSystemInstruction. cbv zeta. rewrite H, H'. reflexivity.
Qed.

Lemma buildSystemInstruction_capabilities_unused_witness :
  buildSystemInstruction true None None None None None None None
    (Some "You can search the web.") =
  buildSystemInstruction true None None None None None None None
    (Some "You can read URLs.").
Proof.
  apply (buildSystemInstruction_capabilities_unused true None None None None None
           None None "You can search the web." "You can read URLs.");
    discriminate.
Defined.

(** ** The send button *)

Lemma trimEnd_idem (s : string) : trimEnd (trimEnd s) = trimEnd s.
Proof.
  induction s as [|c s IH]; [reflexivity|].
  simpl. destruct (is_space c && is_empty (trimEnd s))%bool eqn:E; [reflexivity|].
  simpl. rewrite IH, E. reflexivity.
Qed.

Lemma trimStart_head (s : string) :
  trimStart s = "" \/ exists c r, trimStart s = String c r /\ is_space c = false.
Proof.
  induction s as [|c s IH]; [left; reflexivity|].
  simpl. destruct (is_space c) eqn:E; [exact IH|].
  right. exists c, s. split; [reflexivity|exact E].
Qed.

Lemma trim_idem (s : string) : trim (trim s) = trim s.
Proof.
  unfold trim. destruct (trimStart_head s) as [-> | (c & r & -> & Hc)];
    [reflexivity|].
  simpl trimEnd at 2. rewrite Hc. simpl andb. cbv iota.
  simpl trimStart. rewrite Hc.
  simpl. rewrite Hc. simpl. rewrite trimEnd_idem. reflexivity.
Qed.

(** X11.  Whatever the send button of the chat input passes to
    [onSendMessage] gets past the entry guard of [handleSendMessage] in the
    same render when an API key is set.  The prompt it passes is trimmed, and
    the images it passes are absent or a non-empty list. *)
Theorem handleSend_passes_guard (r : World) (input urlInput : string)
  (images : list Image) (file : option FileAttachment)
  (prompt : string) (imgs : option (list Image)) (f : option FileAttachment)
  (u : option string) :
  handleSend input urlInput images file (selectedTool r) (isLoading r) =
    Some (prompt, imgs, f, u) ->
  truthy_opt (apiKey r) = true ->
  send_rejected r prompt imgs f u = false /\
  prompt = trim input /\ imgs <> Some [].
Proof.
  unfold handleSend, send_rejected. intros H Hkey.
  destruct ((truthy (trim input) || Nat.ltb 0 (length images) || Msg.has file ||
             truthy_opt _) && negb (isLoading r))%bool eqn:E; [|discriminate].
  injection H as <- <- <- <-.
  apply andb_true_iff in E as [E El]. apply negb_true_iff in El.
  rewrite El, Hkey, trim_idem.
  assert (Hi : Msg.has (if Nat.ltb 0 (length images) then Some images else None)
               = Nat.ltb 0 (length images))
    by (destruct (Nat.ltb 0 (length images)); reflexivity).
  rewrite Hi. split; [|split; [reflexivity|]].
  - rewrite !orb_false_r.
    rewrite <- !negb_orb, E. reflexivity.
  - destruct images; simpl; discriminate.
Qed.

Lemma handleSend_passes_guard_witness :
  send_rejected settled_chat "hello" None None None = false /\
  "hello" = trim "  hello " /\ @None (list Image) <> Some [].
Proof.
  apply (handleSend_passes_guard settled_chat "  hello " "" [] None);
    reflexivity.
Defined.

(** ** What the stream loop hands on

    [stream_text] is the text of a whole stream and [stream_usage] the usage
    metadata of its last chunk that carries one. *)

Fixpoint stream_text (stream : list (list Interrupt * Chunk)) : string :=
  match stream with
  | [] => ""
  | (_, chunk) :: rest => (chunk_text chunk ++ stream_text rest)%string
  end.

Fixpoint stream_usage (stream : list (list Interrupt * Chunk))
  (usage : option Usage) : option Usage :=
  match stream with
  | [] => usage
  | (_, chunk) :: rest =>
      stream_usage rest
        (match usageMetadata chunk with Some u => Some u | None => usage end)
  end.

Lemma append_empty (a : string) : (a ++ "")%string = a.
Proof. induction a as [|x a IH]; simpl; [reflexivity|]. rewrite IH. reflexivity. Qed.

Lemma title_step_run (cid : Id) (isFirst te : bool) (acc : string) (w : World) :
  exists t w',
    title_step cid isFirst te acc w =
    (Normal (t, if isFirst then strip_title_line acc else acc), w').
Proof.
  unfold title_step. destruct isFirst; [|eexists _, _; reflexivity].
  destruct te; [eexists _, _; reflexivity|].
  destruct (match_title acc); [eexists _, _; reflexivity|].
  match goal with |- context [if ?b then _ else _] => destruct b end;
    eexists _, _; reflexivity.
Qed.

Lemma chunk_step_run (cid : Id) (isFirst : bool) (chunk : Chunk) (acc : string)
  (te : bool) (usage : option Usage) (w : World) :
  exists t w',
    chunk_step cid isFirst chunk acc te usage w =
    (Normal ((acc ++ chunk_text chunk)%string, t,
             match usageMetadata chunk with Some u => Some u | None => usage end),
     w').
Proof.
  unfold chunk_step.
  destruct (title_step_run cid isFirst te (acc ++ chunk_text chunk) w)
    as (t & w1 & E).
  unfold bind at 1. rewrite E. eexists _, _. reflexivity.
Qed.

(** the loop leaves early only when it finds the turn cancelled: a stream
    that was read with the cancel flag still clear at the end was read whole *)
Lemma stream_loop_result (env : Env) (cid : Id) (isFirst : bool)
  (stream : list (list Interrupt * Chunk)) :
  forall acc te usage w response usage' w',
    stream_loop env cid isFirst stream acc te usage w =
      (Normal (response, usage'), w') ->
    isCancelledRef w' = false ->
    response = (acc ++ stream_text stream)%string /\
    usage' = stream_usage stream usage.
Proof.
  induction stream as [|[ints chunk] rest IH];
    intros acc te usage w response usage' w' Hrun Hflag; simpl in Hrun.
  - unfold bind in Hrun. destruct (await (duringEnd env) w) as [[[]| |e] w1];
      [|discriminate..].
    destruct (streamError env); [discriminate|].
    injection Hrun as <- <- _. simpl. rewrite append_empty. auto.
  - unfold bind at 1 in Hrun. destruct (await ints w) as [[[]| |e] w1];
      [|discriminate..].
    unfold bind at 1, gets in Hrun.
    destruct (isCancelledRef w1) eqn:Hc.
    + injection Hrun as _ _ <-. congruence.
    + destruct (chunk_step_run cid isFirst chunk acc te usage w1) as (t & w2 & E).
      unfold bind at 1 in Hrun. rewrite E in Hrun.
      destruct (IH _ _ _ _ _ _ _ Hrun Hflag) as [-> ->].
      simpl. rewrite append_assoc. auto.
Qed.

(** ** The requests of a turn, one by one

    [turn_request] lists, for a turn of conversation [cid] whose render holds
    the conversation [convo], what each kind of request can be.  A request
    that comes after the tools needs [prompt_after_molecule] to be a prompt:
    when the URL reader or the molecule lookup ends the turn it is [None]. *)

Section TurnRequests.
Variable env : Env.
Variable r : World.
Variable cid : Id.
Variable isFirst : bool.
Variable convo : Convo.t.
Variable modelToUse : ChatModel.
Variable plan : Plan.t.
Variables think web : bool.
Variable fullPrompt : string.
Variable images : option (list Image).
Variable file : option FileAttachment.
Variable url : option string.

Definition turn_request (ev : Event) : Prop :=
  match ev with
  | EvPlanResponse p i f m =>
      p = fullPrompt /\ i = images /\ f = file /\ m = modelToUse
  | EvFetchUrl u =>
      Plan.isUrlReadRequest plan = true /\ url = Some u /\ truthy u = true
  | EvGetMoleculeData name =>
      Plan.isMoleculeRequest plan = true /\ name = moleculeName_of plan fullPrompt /\
      prompt_after_url env plan fullPrompt url <> None
  | EvFindRelevantCode p ids =>
      prompt_after_molecule env plan fullPrompt url <> None /\
      Plan.needsCodeContext plan = true /\ p = fullPrompt /\
      ids = map cs_id (codeMemory r) /\ ids <> []
  | EvThinkingTickerStarted =>
      prompt_after_molecule env plan fullPrompt url <> None /\
      thinking_at_call plan think images = true /\
      (if isImageAnalysisRequest images then [] else Plan.thoughts plan) <> []
  | EvGenerateContentStream m first contents =>
      web_at_call plan web = true /\ m = modelToUse /\ first = isFirst /\
      exists p,
        prompt_after_molecule env plan fullPrompt url = Some p /\
        contents = transformMessagesToHistory (Convo.messages convo) ++
                   [{| c_role := user; c_parts := userMessageParts images file p |}]
  | EvSendMessageStream m t first history message =>
      web_at_call plan web = false /\ m = modelToUse /\
      t = thinking_at_call plan think images /\ first = isFirst /\
      history = transformMessagesToHistory (Convo.messages convo) /\
      exists p,
        prompt_after_molecule env plan fullPrompt url = Some p /\
        message = userMessageParts images file p
  | EvGenerateConvoSummaries pairs startSerial =>
      prompt_after_molecule env plan fullPrompt url <> None /\
      streamOpenError env = None /\
      exists c,
        find_conversation (conversations r) cid = Some c /\
        length (Convo.messages c) mod 20 = 0 /\
        pairs = pair_up (slice_last 20 (Convo.messages c)) /\ pairs <> [] /\
        startSerial = match Convo.summaries c with Some s => length s | None => 0 end
  | EvUpdateMemory userText modelText =>
      prompt_after_molecule env plan fullPrompt url <> None /\
      streamOpenError env = None /\
      userText = fullPrompt /\ trim modelText <> "" /\
      modelText = strip_title_line (stream_text (chunks env))
  | EvLogError e => True
  end.

Variable base : list Event.
Let inv := requests_ok turn_request base.

Lemma keeps_url_phase_script :
  Plan.isUrlReadRequest plan = true ->
  keeps inv (url_phase env cid fullPrompt url)
    (fun p => prompt_after_url env plan fullPrompt url = Some p).
Proof.
  intro Hu. unfold url_phase, prompt_after_url. rewrite Hu.
  destruct url as [u|] eqn:Hurl.
  - destruct (truthy u) eqn:Ht.
    + apply keeps_seq; [apply keeps_quiet, quiet_updateConversationMessages|].
      apply keeps_seq;
        [apply keeps_emit; simpl; repeat split; first [assumption|reflexivity]|].
      apply keeps_seq; [apply keeps_quiet, quiet_await|].
      destruct (urlOutcome env) as [c|e].
      * apply keeps_seq; [apply keeps_quiet, quiet_return_if_cancelled|].
        apply keeps_ret. reflexivity.
      * apply keeps_seq; [apply keeps_quiet, quiet_handleToolError|].
        apply keeps_return.
    + apply keeps_seq; [apply keeps_quiet, quiet_handleToolError|].
      apply keeps_return.
  - apply keeps_seq; [apply keeps_quiet, quiet_handleToolError|].
    apply keeps_return.
Qed.

Lemma keeps_molecule_phase_script (p0 : string) :
  Plan.isMoleculeRequest plan = true ->
  prompt_after_url env plan fullPrompt url = Some p0 ->
  keeps inv (molecule_phase env cid fullPrompt plan)
    (fun p => prompt_after_molecule env plan fullPrompt url = Some p).
Proof.
  intros Hm Hp0. unfold molecule_phase, prompt_after_molecule.
  rewrite Hm, Hp0. fold (moleculeName_of plan fullPrompt).
  apply keeps_seq; [apply keeps_quiet, quiet_updateConversationMessages|].
  apply keeps_seq.
  { apply keeps_emit. simpl. split; [exact Hm|]. split; [reflexivity|].
    rewrite Hp0. discriminate. }
  apply keeps_seq; [apply keeps_quiet, quiet_await|].
  destruct (moleculeOutcome env) as [e|d] eqn:Ho.
  - apply keeps_seq; [apply keeps_emit; exact Logic.I|].
    apply keeps_seq; [apply keeps_quiet, quiet_updateConversationMessages|].
    apply keeps_seq; [apply keeps_quiet; quiet_auto|].
    apply keeps_seq; [apply keeps_quiet; unfold stopResponseTimer; quiet_auto|].
    apply keeps_return.
  - apply keeps_seq; [apply keeps_quiet, quiet_return_if_cancelled|].
    apply keeps_seq; [apply keeps_quiet, quiet_updateConversationMessages|].
    apply keeps_ret. reflexivity.
Qed.

Lemma keeps_background_writers_script :
  prompt_after_molecule env plan fullPrompt url <> None ->
  streamOpenError env = None ->
  keeps inv (background_writers r cid fullPrompt (stream_text (chunks env)))
    (fun _ => True).
Proof.
  intros Hp Ho. unfold background_writers.
  apply keeps_bind with (Q := fun _ => True); [apply keeps_gets|].
  intros cancelled _.
  destruct (find_conversation (conversations r) cid) as [c|] eqn:Hc;
    [|apply keeps_ret; exact Logic.I].
  destruct cancelled; [apply keeps_ret; exact Logic.I|].
  apply keeps_seq.
  - apply keeps_when. intro Hn. apply andb_true_iff in Hn as [_ Hn].
    apply keeps_when. intro Hl.
    apply keeps_emit. simpl. split; [exact Hp|]. split; [exact Ho|].
    exists c. split; [exact Hc|]. split; [apply Nat.eqb_eq, Hn|].
    split; [reflexivity|]. split; [|reflexivity].
    intro E. rewrite E in Hl. discriminate.
  - apply keeps_when. intro Ht.
    apply keeps_emit. simpl. split; [exact Hp|]. split; [exact Ho|].
    split; [reflexivity|]. split; [apply truthy_true, Ht|reflexivity].
Qed.

(** the end of the [try] block, on the result of the stream loop *)
Lemma tail_script (response : string) (usage : option Usage)
  (t : option ToolInUse) (a b c : bool) (w : World) :
  prompt_after_molecule env plan fullPrompt url <> None ->
  streamOpenError env = None ->
  (isCancelledRef w = false -> response = stream_text (chunks env)) ->
  inv w ->
  inv (snd ((usage_phase cid usage fullPrompt t a b c ;;
             background_writers r cid fullPrompt response) w)).
Proof.
  intros Hp Ho Hresp Hw. destruct (isCancelledRef w) eqn:Hc.
  - assert (E : snd ((usage_phase cid usage fullPrompt t a b c ;;
                      background_writers r cid fullPrompt response) w) = w).
    { unfold usage_phase, background_writers, bind, gets. rewrite Hc.
      destruct usage; simpl; rewrite Hc;
        destruct (find_conversation (conversations r) cid); reflexivity. }
    rewrite E. exact Hw.
  - rewrite (Hresp eq_refl).
    refine (proj1 (keeps_seq _ _ _ _ _ _ w Hw)).
    + apply keeps_quiet, quiet_usage_phase.
    + apply keeps_background_writers_script; assumption.
Qed.

Hypothesis Hov :
  toolOverrides (selectedTool r) (planResponse (planOutcome env))
    (Plan.needsThinking (planResponse (planOutcome env)))
    (Plan.needsWebSearch (planResponse (planOutcome env))) = (plan, think, web).

Lemma keeps_turn_body_script :
  keeps inv
    (turn_body r env cid isFirst convo modelToUse fullPrompt images file url)
    (fun _ => True).
Proof.
  unfold turn_body.
  apply keeps_seq; [apply keeps_emit; simpl; repeat split|].
  apply keeps_seq; [apply keeps_quiet, quiet_await|].
  apply keeps_seq; [apply keeps_quiet, quiet_return_if_cancelled|].
  rewrite Hov. fold (isImageAnalysisRequest images).
  apply keeps_seq; [apply keeps_quiet; quiet_auto|].
  apply keeps_seq; [apply keeps_quiet; quiet_auto|].
  apply keeps_seq; [apply keeps_quiet; quiet_auto|].
  set (plan' := if isImageAnalysisRequest images
                then Plan.set_thoughts [] plan else plan).
  assert (Hurl_eq : Plan.isUrlReadRequest plan' = Plan.isUrlReadRequest plan)
    by (unfold plan'; destruct (isImageAnalysisRequest images); reflexivity).
  assert (Hmol_eq : Plan.isMoleculeRequest plan' = Plan.isMoleculeRequest plan)
    by (unfold plan'; destruct (isImageAnalysisRequest images); reflexivity).
  assert (Hcode_eq : Plan.needsCodeContext plan' = Plan.needsCodeContext plan)
    by (unfold plan'; destruct (isImageAnalysisRequest images); reflexivity).
  assert (Hth_eq : Plan.thoughts plan' =
                   if isImageAnalysisRequest images then [] else Plan.thoughts plan)
    by (unfold plan'; destruct (isImageAnalysisRequest images); reflexivity).
  assert (Hname : molecule_phase env cid fullPrompt plan' =
                  molecule_phase env cid fullPrompt plan)
    by (unfold plan'; destruct (isImageAnalysisRequest images); reflexivity).
  rewrite Hurl_eq, Hmol_eq, Hcode_eq, Hth_eq, Hname.
  apply keeps_bind with
    (Q := fun p => prompt_after_url env plan fullPrompt url = Some p).
  { destruct (Plan.isUrlReadRequest plan) eqn:Hu.
    - apply keeps_url_phase_script. exact Hu.
    - apply keeps_ret. unfold prompt_after_url. rewrite Hu. reflexivity. }
  intros p0 Hp0.
  apply keeps_bind with
    (Q := fun x => match x with
                   | (p, w', t') =>
                       prompt_after_molecule env plan fullPrompt url = Some p /\
                       w' = web_at_call plan web /\
                       t' = thinking_at_call plan think images
                   end).
  { destruct (Plan.isMoleculeRequest plan) eqn:Hm.
    - apply keeps_bind with
        (Q := fun p => prompt_after_molecule env plan fullPrompt url = Some p).
      + apply keeps_molecule_phase_script with (p0 := p0); assumption.
      + intros p Hp. apply keeps_ret.
        unfold web_at_call, thinking_at_call. rewrite Hm. auto.
    - apply keeps_ret. unfold prompt_after_molecule, web_at_call, thinking_at_call.
      rewrite Hm. auto. }
  intros [[p web'] think'] (Hp & -> & ->).
  assert (Hsome : prompt_after_molecule env plan fullPrompt url <> None)
    by (rewrite Hp; discriminate).
  apply keeps_seq; [apply keeps_quiet, quiet_updateConversationMessages|].
  apply keeps_seq.
  { apply keeps_when. intro Hb. apply andb_true_iff in Hb as [Ht Hl].
    apply keeps_seq; [apply keeps_quiet; quiet_auto|].
    apply keeps_seq; [apply keeps_quiet; quiet_auto|].
    apply keeps_seq; [apply keeps_quiet; quiet_auto|].
    apply keeps_emit. simpl. split; [exact Hsome|]. split; [exact Ht|].
    intro E. rewrite E in Hl. discriminate. }
  apply keeps_seq; [apply keeps_quiet; quiet_auto|].
  apply keeps_seq.
  { apply keeps_when. intro Hb. apply andb_true_iff in Hb as [Hc Hl].
    apply keeps_seq.
    - apply keeps_emit. simpl. split; [exact Hsome|]. split; [exact Hc|].
      split; [reflexivity|]. split; [reflexivity|].
      intro E. apply (f_equal (@length Id)) in E. rewrite length_map in E.
      rewrite E in Hl. discriminate.
    - apply keeps_seq; [apply keeps_quiet, quiet_await|].
      apply keeps_quiet, quiet_return_if_cancelled. }
  apply keeps_seq.
  { match goal with |- keeps _ (if ?b then _ else _) _ => destruct b end;
      [apply keeps_throw | apply keeps_ret; exact Logic.I]. }
  apply keeps_seq.
  { destruct (web_at_call plan web) eqn:Hw.
    - apply keeps_emit. simpl. split; [exact Hw|]. split; [reflexivity|].
      split; [reflexivity|]. exists p. split; [exact Hp|reflexivity].
    - apply keeps_emit. simpl. split; [exact Hw|]. split; [reflexivity|].
      split; [reflexivity|]. split; [reflexivity|]. split; [reflexivity|].
      exists p. split; [exact Hp|reflexivity]. }
  apply keeps_seq; [apply keeps_quiet, quiet_await|].
  apply keeps_bind with (Q := fun _ => streamOpenError env = None).
  { destruct (streamOpenError env); [apply keeps_throw|apply keeps_ret; reflexivity]. }
  intros _ Hopen.
  apply keeps_seq; [apply keeps_quiet; quiet_auto|].
  apply keeps_seq; [apply keeps_quiet; quiet_auto|].
  apply keeps_seq;
    [apply keeps_quiet; unfold clearThinkingIntervals; quiet_auto|].
  apply keeps_seq; [apply keeps_quiet; quiet_auto|].
  apply keeps_seq; [apply keeps_quiet; quiet_auto|].
  apply keeps_seq; [apply keeps_quiet; quiet_auto|].
  intros w Hw. split; [|trivial].
  unfold bind at 1.
  pose proof (quiet_stream_loop env cid isFirst (chunks env) "" false None w) as Hq.
  pose proof (stream_loop_result env cid isFirst (chunks env) "" false None w) as Hres.
  destruct (stream_loop env cid isFirst (chunks env) "" false None w)
    as [[[response usage]| |e] w1]; cbn [fst snd] in *;
    [|unfold inv, requests_ok; rewrite Hq; exact Hw..].
  apply tail_script; [assumption..| |unfold inv, requests_ok; rewrite Hq; exact Hw].
  intro Hc. exact (proj1 (Hres _ _ _ eq_refl Hc)).
Qed.

End TurnRequests.

(** the conversation a turn runs in: its id, [isFirstTurnInConversation] and
    [conversationForThisTurn]; [r] is the render, [w] the live state *)
Definition turn_conversation (r w : World) : option (Id * bool * Convo.t) :=
  match activeConversationId r with
  | None =>
      Some (nextId w, true, Convo.mk (nextId w) "New Chat" [] (clock w) None None (Some []))
  | Some currentConversationId =>
      match find_conversation (conversations r) currentConversationId with
      | Some foundConvo =>
          Some (currentConversationId,
                Nat.eqb (length (Convo.messages foundConvo)) 0, foundConvo)
      | None => None
      end
  end.

Definition modelToUse_of (r : World) (overrideModel : option ChatModel) : ChatModel :=
  match overrideModel with Some m => m | None => selectedChatModel r end.

Lemma keeps_turn_script (r : World) (env : Env) (cid : Id) (isFirst : bool)
  (convo : Convo.t) (modelToUse : ChatModel) (prompt : string)
  (images : option (list Image)) (file : option FileAttachment)
  (url : option string) (isRetry : bool) (plan : Plan.t) (think web : bool)
  (base : list Event) :
  toolOverrides (selectedTool r) (planResponse (planOutcome env))
    (Plan.needsThinking (planResponse (planOutcome env)))
    (Plan.needsWebSearch (planResponse (planOutcome env))) = (plan, think, web) ->
  keeps
    (requests_ok
       (turn_request env r cid isFirst convo modelToUse plan think web prompt
          images file url) base)
    (start_turn cid modelToUse prompt images file url isRetry ;;
     try_finally
       (try_catch
          (turn_body r env cid isFirst convo modelToUse prompt images file url)
          (turn_catch env cid))
       (turn_finally cid))
    (fun _ => True).
Proof.
  intro Hov.
  apply keeps_seq; [apply keeps_quiet, quiet_start_turn|].
  apply keeps_try_finally.
  - apply keeps_try_catch.
    + apply keeps_turn_body_script. exact Hov.
    + intro e. unfold turn_catch.
      apply keeps_seq; [apply keeps_quiet, quiet_return_if_cancelled|].
      apply keeps_seq; [apply keeps_emit; exact Logic.I|].
      apply keeps_quiet. unfold randomUUID, now. quiet_auto.
  - apply keeps_quiet, quiet_turn_finally.
Qed.

(** every request a call of the handler logs is one of the script *)
Lemma handleSendMessage_script (r w : World) (env : Env) (prompt : string)
  (images : option (list Image)) (file : option FileAttachment)
  (url : option string) (overrideModel : option ChatModel) (isRetry : bool)
  (plan : Plan.t) (think web : bool) :
  toolOverrides (selectedTool r) (planResponse (planOutcome env))
    (Plan.needsThinking (planResponse (planOutcome env)))
    (Plan.needsWebSearch (planResponse (planOutcome env))) = (plan, think, web) ->
  forall ev,
    In ev (events (snd (handleSendMessage r env prompt images file url
                          overrideModel isRetry w))) ->
    In ev (events w) \/
    match turn_conversation r w with
    | Some (cid, isFirst, convo) =>
        turn_request env r cid isFirst convo (modelToUse_of r overrideModel)
          plan think web prompt images file url ev
    | None => exists e, ev = EvLogError e
    end.
Proof.
  intros Hov ev. unfold handleSendMessage.
  destruct (send_rejected r prompt images file url); [intro H; left; exact H|].
  fold (modelToUse_of r overrideModel).
  unfold turn_conversation.
  destruct (activeConversationId r) as [cid|] eqn:Ha.
  - unfold resolve_conversation. rewrite Ha.
    destruct (find_conversation (conversations r) cid) as [c|] eqn:Hf.
    + rewrite bind_ret. intro Hev.
      destruct (keeps_turn_script r env cid
                  (Nat.eqb (length (Convo.messages c)) 0) c
                  (modelToUse_of r overrideModel) prompt images file url isRetry
                  plan think web (events w) Hov w) as [Hinv _];
        [intros ev' Hin; left; exact Hin|].
      exact (Hinv ev Hev).
    + simpl. intros [<- | Hin]; [right; eexists; reflexivity|left; exact Hin].
  - unfold bind at 1. rewrite (resolve_conversation_new r w Ha). intro Hev.
    match type of Hev with
    | In _ (events (snd (_ ?w1))) =>
        destruct (keeps_turn_script r env (nextId w) true
                    (Convo.mk (nextId w) "New Chat" [] (clock w) None None (Some []))
                    (modelToUse_of r overrideModel) prompt images file url isRetry
                    plan think web (events w) Hov w1) as [Hinv _];
          [intros ev' Hin; left; exact Hin|]
    end.
    exact (Hinv ev Hev).
Qed.

(** ** When a tool ends the turn *)

(** the requests of the planning and tool phase *)
Definition is_tool_phase_request (ev : Event) : bool :=
  match ev with
  | EvPlanResponse _ _ _ _ | EvFetchUrl _ | EvGetMoleculeData _ | EvLogError _ => true
  | _ => false
  end.

(** X12.  When the URL reader or the molecule lookup ends the
    turn (no URL, a failed fetch, a failed lookup: [prompt_after_molecule] is
    [None]) the turn issues no model request, starts no thinking ticker, looks
    up no code and dispatches no summary or memory request: all it logs are
    the planner request, the tool requests and errors. *)
Theorem tool_failure_ends_turn (w : World) (env : Env) (prompt : string)
  (images : option (list Image)) (file : option FileAttachment)
  (url : option string) (overrideModel : option ChatModel) (isRetry : bool)
  (plan : Plan.t) (think web : bool) (ev : Event) :
  toolOverrides (selectedTool w) (planResponse (planOutcome env))
    (Plan.needsThinking (planResponse (planOutcome env)))
    (Plan.needsWebSearch (planResponse (planOutcome env))) = (plan, think, web) ->
  prompt_after_molecule env plan prompt url = None ->
  In ev (events (send env prompt images file url overrideModel isRetry w)) ->
  In ev (events w) \/ is_tool_phase_request ev = true.
Proof.
  intros Hov Hnone Hev.
  destruct (handleSendMessage_script w w env prompt images file url overrideModel
              isRetry plan think web Hov ev Hev) as [H | H]; [left; exact H|].
  right. destruct (turn_conversation w w) as [[[cid isFirst] convo]|].
  - destruct ev; simpl in *; try reflexivity;
      try (destruct H as [H _]; contradiction);
      try (destruct H as (_ & _ & _ & p & H & _); congruence).
    destruct H as (_ & _ & _ & _ & _ & p & H & _). congruence.
  - destruct H as [e ->]. reflexivity.
Qed.

Definition failing_url_env : Env :=
  calm_env (Some plain_plan) (inr "404") [text_chunk "unused"].

Lemma tool_failure_ends_turn_witness :
  In (EvFetchUrl "https://example.org")
    (events settled_chat) \/
  is_tool_phase_request (EvFetchUrl "https://example.org") = true.
Proof.
  apply (tool_failure_ends_turn (with_tool urlReader settled_chat) failing_url_env
           "summarise" None None (Some "https://example.org") None false
           (Plan.set_isUrlReadRequest true (planResponse (Some plain_plan)))
           false false (EvFetchUrl "https://example.org")).
  - reflexivity.
  - reflexivity.
  - vm_compute. auto.
Defined.

(** X13.  With the URL reader selected and no URL given (absent or
    empty), the turn issues no network request besides the planner's: no
    fetch, no lookup, no model call, no background request. *)
Theorem url_reader_without_url (w : World) (env : Env) (prompt : string)
  (images : option (list Image)) (file : option FileAttachment)
  (url : option string) (overrideModel : option ChatModel) (isRetry : bool)
  (ev : Event) :
  selectedTool w = urlReader ->
  truthy_opt url = false ->
  In ev (events (send env prompt images file url overrideModel isRetry w)) ->
  In ev (events w) \/
  ev = EvPlanResponse prompt images file (modelToUse_of w overrideModel) \/
  exists e, ev = EvLogError e.
Proof.
  intros Htool Hurl Hev.
  set (p0 := planResponse (planOutcome env)).
  assert (Hov : toolOverrides (selectedTool w) p0 (Plan.needsThinking p0)
                  (Plan.needsWebSearch p0) =
                (Plan.set_isUrlReadRequest true p0, false, false))
    by (rewrite Htool; reflexivity).
  assert (Hu : prompt_after_url env (Plan.set_isUrlReadRequest true p0) prompt url
               = None).
  { unfold prompt_after_url. simpl.
    destruct url as [u|]; [|reflexivity]. simpl in Hurl. rewrite Hurl.
    destruct (urlOutcome env); reflexivity. }
  assert (Hm : prompt_after_molecule env (Plan.set_isUrlReadRequest true p0) prompt
                 url = None).
  { unfold prompt_after_molecule. rewrite Hu.
    destruct (Plan.isMoleculeRequest _); reflexivity. }
  destruct (handleSendMessage_script w w env prompt images file url overrideModel
              isRetry _ _ _ Hov ev Hev) as [H | H]; [left; exact H|].
  right. destruct (turn_conversation w w) as [[[cid isFirst] convo]|].
  - destruct ev; simpl in H.
    + left. destruct H as (-> & -> & -> & ->). reflexivity.
    + destruct H as (_ & -> & Ht). simpl in Hurl. congruence.
    + destruct H as (_ & _ & H). contradiction.
    + destruct H as [H _]. contradiction.
    + destruct H as (_ & _ & _ & p & H & _). congruence.
    + destruct H as (_ & _ & _ & _ & _ & p & H & _). congruence.
    + destruct H as [H _]. contradiction.
    + destruct H as [H _]. contradiction.
    + destruct H as [H _]. contradiction.
    + right. eexists. reflexivity.
  - right. exact H.
Qed.

Lemma url_reader_without_url_witness :
  In (EvPlanResponse "summarise" None None gemini_2_5_flash) (events settled_chat) \/
  EvPlanResponse "summarise" None None gemini_2_5_flash =
    EvPlanResponse "summarise" None None
      (modelToUse_of (with_tool urlReader settled_chat) None) \/
  exists e, EvPlanResponse "summarise" None None gemini_2_5_flash = EvLogError e.
Proof.
  apply (url_reader_without_url (with_tool urlReader settled_chat) url_env
           "summarise" None None (Some "") None false).
  - reflexivity.
  - reflexivity.
  - vm_compute. auto.
Defined.

(** ** The history of a model call *)

(** the history and the flags a model request carries *)
Definition call_context (ev : Event) : option (ChatModel * bool * list Content) :=
  match ev with
  | EvSendMessageStream m _ first history _ => Some (m, first, history)
  | EvGenerateContentStream m first contents => Some (m, first, removelast contents)
  | _ => None
  end.

Lemma turn_request_call_context (env : Env) (r : World) (cid : Id) (isFirst : bool)
  (convo : Convo.t) (modelToUse : ChatModel) (plan : Plan.t) (think web : bool)
  (prompt : string) (images : option (list Image)) (file : option FileAttachment)
  (url : option string) (ev : Event) (ctx : ChatModel * bool * list Content) :
  turn_request env r cid isFirst convo modelToUse plan think web prompt images
    file url ev ->
  call_context ev = Some ctx ->
  ctx = (modelToUse, isFirst, transformMessagesToHistory (Convo.messages convo)).
Proof.
  intros H Hc. destruct ev; try discriminate; simpl in *.
  - destruct H as (_ & -> & -> & p & _ & ->). injection Hc as <-.
    rewrite removelast_last. reflexivity.
  - destruct H as (_ & -> & _ & -> & -> & _). injection Hc as <-. reflexivity.
Qed.

(** X14.  Every model request of a turn, by chat or with web search,
    carries the chosen model, the first-turn mark of the conversation as the
    render holds it (true only if it has no message) and, as history, the
    messages of that conversation passed through the history builder: the
    history does not contain the message being sent. *)
Theorem model_call_history (w : World) (env : Env) (prompt : string)
  (images : option (list Image)) (file : option FileAttachment)
  (url : option string) (overrideModel : option ChatModel) (isRetry : bool)
  (cid : Id) (isFirst : bool) (convo : Convo.t) (ev : Event)
  (ctx : ChatModel * bool * list Content) :
  turn_conversation w w = Some (cid, isFirst, convo) ->
  In ev (events (send env prompt images file url overrideModel isRetry w)) ->
  call_context ev = Some ctx ->
  In ev (events w) \/
  ctx = (modelToUse_of w overrideModel, isFirst,
         transformMessagesToHistory (Convo.messages convo)).
Proof.
  intros Hc Hev Hctx.
  destruct (toolOverrides (selectedTool w) (planResponse (planOutcome env))
              (Plan.needsThinking (planResponse (planOutcome env)))
              (Plan.needsWebSearch (planResponse (planOutcome env))))
    as [[plan think] web] eqn:Hov.
  destruct (handleSendMessage_script w w env prompt images file url overrideModel
              isRetry plan think web Hov ev Hev) as [H | H]; [left; exact H|].
  right. rewrite Hc in H. exact (turn_request_call_context _ _ _ _ _ _ _ _ _ _ _ _ _ _ _ H Hctx).
Qed.

Definition plain_env : Env :=
  calm_env (Some plain_plan) (inl "") [text_chunk "Sure."].

Definition plain_call : Event :=
  EvSendMessageStream gemini_2_5_flash false false
    [{| c_role := user; c_parts := [PText "hi"] |};
     {| c_role := model; c_parts := [PText "hello"] |}]
    [PText "next"].

Lemma model_call_history_witness :
  In plain_call (events settled_chat) \/
  (gemini_2_5_flash, false,
   [{| c_role := user; c_parts := [PText "hi"] |};
    {| c_role := model; c_parts := [PText "hello"] |}]) =
  (modelToUse_of settled_chat None, false,
   transformMessagesToHistory
     [newUserMessage 1 "hi" None None None gemini_2_5_flash 0;
      new_model_message 2 "hello" 0]).
Proof.
  apply (model_call_history settled_chat plain_env "next" None None None None false
           0 false
           (Convo.mk 0 "Chat"
              [newUserMessage 1 "hi" None None None gemini_2_5_flash 0;
               new_model_message 2 "hello" 0] 0 None None (Some []))
           plain_call).
  - reflexivity.
  - vm_compute. auto.
  - reflexivity.
Defined.

(** ** The history of a retry and of an edit *)

Lemma wrapper_after_truncation (isCodeRelated : string -> bool) (w : World)
  (env : Env) (cid : Id) (c : Convo.t) (f : list Msg.t -> list Msg.t)
  (prompt : string) (images : option (list Image)) (file : option FileAttachment)
  (url : option string) (isRetry : bool) (ev : Event)
  (ctx : ChatModel * bool * list Content) :
  activeConversationId w = Some cid ->
  find_conversation (conversations w) cid = Some c ->
  In ev (events (snd ((updateConversationMessages (Convo.id c) f ;;
                       handleSendMessageWrapper isCodeRelated w env prompt images
                         file url isRetry) w))) ->
  call_context ev = Some ctx ->
  In ev (events w) \/
  snd ctx = transformMessagesToHistory (Convo.messages c).
Proof.
  intros Ha Hf Hev Hctx. unfold bind in Hev.
  rewrite updateConversationMessages_run in Hev.
  set (w1 := snd (updateConversationMessages (Convo.id c) f w)) in *.
  assert (Hw1 : events w1 = events w)
    by apply quiet_updateConversationMessages.
  unfold handleSendMessageWrapper in Hev.
  match type of Hev with
  | context [if ?b then _ else _] => destruct b
  end; [left; rewrite <- Hw1; exact Hev|].
  destruct (toolOverrides (selectedTool w) (planResponse (planOutcome env))
              (Plan.needsThinking (planResponse (planOutcome env)))
              (Plan.needsWebSearch (planResponse (planOutcome env))))
    as [[plan think] web] eqn:Hov.
  destruct (handleSendMessage_script w w1 env prompt images file url None
              isRetry plan think web Hov ev Hev) as [H | H];
    [left; rewrite <- Hw1; exact H|].
  right. unfold turn_conversation in H. rewrite Ha, Hf in H.
  rewrite (turn_request_call_context _ _ _ _ _ _ _ _ _ _ _ _ _ _ _ H Hctx).
  reflexivity.
Qed.

(** X15.  A retry and an edit cut the conversation back before
    they send, but the history of the model request they cause is built from
    the conversation of the render, as it was before the cut: it still holds
    the messages that were dropped. *)
Theorem retry_and_edit_history (isCodeRelated : string -> bool) (w : World)
  (env : Env) (cid : Id) (c : Convo.t) (index : nat) (newContent : string)
  (ev : Event) (ctx : ChatModel * bool * list Content) :
  activeConversationId w = Some cid ->
  find_conversation (conversations w) cid = Some c ->
  In ev (events (retry isCodeRelated env w)) \/
  In ev (events (edit isCodeRelated env index newContent w)) ->
  call_context ev = Some ctx ->
  In ev (events w) \/
  snd ctx = transformMessagesToHistory (Convo.messages c).
Proof.
  intros Ha Hf [Hev | Hev] Hctx.
  - unfold retry, handleRetry in Hev. rewrite Ha, Hf in Hev.
    destruct (lastModelMessageIndex (Convo.messages c)) as [i|];
      [|left; exact Hev].
    destruct (if Nat.eqb i 0 then None else nth_error (Convo.messages c) (i - 1))
      as [lastUserMessage|]; [|left; exact Hev].
    destruct (Msg.role lastUserMessage); [|left; exact Hev].
    exact (wrapper_after_truncation _ _ _ _ _ _ _ _ _ _ _ _ _ Ha Hf Hev Hctx).
  - unfold edit, handleEditMessage in Hev. rewrite Ha, Hf in Hev.
    destruct (nth_error (Convo.messages c) index) as [messageToEdit|];
      [|left; exact Hev].
    destruct (Msg.role messageToEdit); [|left; exact Hev].
    exact (wrapper_after_truncation _ _ _ _ _ _ _ _ _ _ _ _ _ Ha Hf Hev Hctx).
Qed.

Definition retried_call : Event :=
  EvSendMessageStream gemini_2_5_flash false false
    [{| c_role := user; c_parts := [PText "hi"] |};
     {| c_role := model; c_parts := [PText "hello"] |}]
    [PText "hi"].

Lemma retry_and_edit_history_witness :
  In retried_call (events settled_chat) \/
  [{| c_role := user; c_parts := [PText "hi"] |};
   {| c_role := model; c_parts := [PText "hello"] |}] =
  transformMessagesToHistory
    [newUserMessage 1 "hi" None None None gemini_2_5_flash 0;
     new_model_message 2 "hello" 0].
Proof.
  apply (retry_and_edit_history (fun _ => false) settled_chat plain_env 0
           (Convo.mk 0 "Chat"
              [newUserMessage 1 "hi" None None None gemini_2_5_flash 0;
               new_model_message 2 "hello" 0] 0 None None (Some []))
           0 "hi" retried_call
           (gemini_2_5_flash, false,
            [{| c_role := user; c_parts := [PText "hi"] |};
             {| c_role := model; c_parts := [PText "hello"] |}])).
  - reflexivity.
  - reflexivity.
  - left. vm_compute. auto.
  - reflexivity.
Defined.

(** ** The request of the memory writer *)

(** X16.  A memory update is requested only after the stream
    has opened; it carries the prompt as the user typed it (not the prompt the
    URL reader or the molecule lookup built) and the response, that is the
    text of all the chunks of the stream, with its title line removed, which
    is not blank. *)
Theorem memory_request_content (w : World) (env : Env) (prompt : string)
  (images : option (list Image)) (file : option FileAttachment)
  (url : option string) (overrideModel : option ChatModel) (isRetry : bool)
  (userText modelText : string) :
  In (EvUpdateMemory userText modelText)
    (events (send env prompt images file url overrideModel isRetry w)) ->
  In (EvUpdateMemory userText modelText) (events w) \/
  (userText = prompt /\ trim modelText <> "" /\ streamOpenError env = None /\
   modelText = strip_title_line (stream_text (chunks env))).
Proof.
  intro Hev.
  destruct (toolOverrides (selectedTool w) (planResponse (planOutcome env))
              (Plan.needsThinking (planResponse (planOutcome env)))
              (Plan.needsWebSearch (planResponse (planOutcome env))))
    as [[plan think] web] eqn:Hov.
  destruct (handleSendMessage_script w w env prompt images file url overrideModel
              isRetry plan think web Hov _ Hev) as [H | H]; [left; exact H|].
  right. destruct (turn_conversation w w) as [[[cid isFirst] convo]|].
  - simpl in H. destruct H as (_ & Ho & Hu & Ht & Hr). auto.
  - destruct H as [e H]. discriminate.
Qed.

Lemma memory_request_content_witness :
  In (EvUpdateMemory "next" "Sure.") (events settled_chat) \/
  ("next" = "next" /\ trim "Sure." <> "" /\ streamOpenError plain_env = None /\
   "Sure." = strip_title_line (stream_text (chunks plain_env))).
Proof.
  apply (memory_request_content settled_chat plain_env "next" None None None None
           false "next" "Sure.").
  vm_compute. auto.
Defined.

(** ** How a turn ends *)

(** the hook state at rest: nothing loading, every timer cleared *)
Definition at_rest (w : World) : Prop :=
  isLoading w = false /\ responseTimerRef w = false /\ elapsedTime w = 0%Z /\
  thinkingTimerRef w = None /\ isThinking w = false /\
  longToolUseTimer w = None /\ isLongToolUse w = false /\
  isSearchingWeb w = false /\ isCancelledRef w = false /\
  activeSuggestion w = None.

Lemma turn_finally_at_rest (cid : Id) (w : World) :
  fst (turn_finally cid w) = Normal tt /\ at_rest (snd (turn_finally cid w)).
Proof.
  unfold turn_finally, stopResponseTimer, clearThinkingIntervals, now, when,
    updateConversationMessages, updateConversation, bind, modify, gets, ret, at_rest.
  cbn. destruct (isCancelledRef w); cbn; repeat split.
Qed.

Lemma try_finally_state {A : Type} (body : M A) (fin : M unit) (w : World) :
  snd (try_finally body fin w) = snd (fin (snd (body w))).
Proof.
  unfold try_finally. destruct (body w) as [res w1]. simpl.
  destruct (fin w1) as [[u| |e] w2]; reflexivity.
Qed.

Lemma start_turn_run (cid : Id) (modelToUse : ChatModel) (p : string)
  (images : option (list Image)) (file : option FileAttachment)
  (url : option string) (isRetry : bool) (w : World) :
  fst (start_turn cid modelToUse p images file url isRetry w) = Normal tt.
Proof.
  unfold start_turn, randomUUID, now, updateConversationMessages,
    updateConversation, bind, modify, gets. cbn.
  destruct isRetry; reflexivity.
Qed.

(** X17.  Every turn that gets past the entry guard and finds its
    conversation ends, on every path (completion, tool failure, error,
    cancellation), with the hook at rest: not loading, the response timer, the
    thinking ticker and the watchdog cleared, the search and long-tool marks
    off, the cancel flag reset. *)
Theorem turn_teardown (w : World) (env : Env) (prompt : string)
  (images : option (list Image)) (file : option FileAttachment)
  (url : option string) (overrideModel : option ChatModel) (isRetry : bool) :
  send_rejected w prompt images file url = false ->
  turn_conversation w w <> None ->
  at_rest (send env prompt images file url overrideModel isRetry w).
Proof.
  intros Hg Hc. unfold send, handleSendMessage. rewrite Hg.
  assert (Hrest : forall cid isFirst convo w1,
            at_rest
              (snd ((start_turn cid (modelToUse_of w overrideModel) prompt images
                       file url isRetry ;;
                     try_finally
                       (try_catch
                          (turn_body w env cid isFirst convo
                             (modelToUse_of w overrideModel) prompt images file url)
                          (turn_catch env cid))
                       (turn_finally cid)) w1))).
  { intros cid isFirst convo w1. unfold bind.
    pose proof (start_turn_run cid (modelToUse_of w overrideModel) prompt images
                  file url isRetry w1) as Hs.
    destruct (start_turn _ _ _ _ _ _ _ w1) as [res w2]. simpl in Hs. subst res.
    rewrite try_finally_state. apply turn_finally_at_rest. }
  unfold turn_conversation in Hc. fold (modelToUse_of w overrideModel).
  destruct (activeConversationId w) as [cid|] eqn:Ha.
  - unfold resolve_conversation. rewrite Ha.
    destruct (find_conversation (conversations w) cid) as [c|]; [|contradiction].
    rewrite bind_ret. apply Hrest.
  - unfold bind at 1. rewrite (resolve_conversation_new w w Ha). apply Hrest.
Qed.

Lemma turn_teardown_witness :
  at_rest (send failing_url_env "summarise" None None (Some "https://example.org")
             None false (with_tool urlReader settled_chat)).
Proof.
  apply (turn_teardown (with_tool urlReader settled_chat) failing_url_env
           "summarise" None None (Some "https://example.org") None false).
  - reflexivity.
  - discriminate.
Defined.

(** ** Cancelling *)

Lemma interrupt_run (i : Interrupt) (w : World) : fst (interrupt i w) = Normal tt.
Proof.
  destruct i; simpl; try reflexivity.
  - unfold bind, gets, modify, updateConversationMessages, updateConversation.
    destruct (thinkingTimerRef w); reflexivity.
  - unfold bind, gets, modify, updateConversationMessages, updateConversation.
    destruct (longToolUseTimer w); reflexivity.
  - unfold handleCancelStream, clearThinkingIntervals, stopResponseTimer,
      updateConversationMessages, updateConversation, randomUUID, now, bind,
      modify, gets.
    cbn. destruct (activeConversationId w); reflexivity.
Qed.

Lemma await_cons (i : Interrupt) (ints : list Interrupt) (w : World) :
  await (i :: ints) w = await ints (snd (interrupt i w)).
Proof.
  change (await (i :: ints) w) with (bind (interrupt i) (fun _ => await ints) w).
  unfold bind. pose proof (interrupt_run i w) as H.
  destruct (interrupt i w) as [res w1]. simpl in H. subst res. reflexivity.
Qed.

Lemma await_run (ints : list Interrupt) (w : World) : fst (await ints w) = Normal tt.
Proof.
  revert w. induction ints as [|i ints IH]; intro w; [reflexivity|].
  rewrite await_cons. apply IH.
Qed.

(** no callback resets the cancel flag, and the cancel button sets it *)
Lemma interrupt_cancelled (i : Interrupt) (w : World) :
  isCancelledRef w = true \/ i = CancelClicked ->
  isCancelledRef (snd (interrupt i w)) = true.
Proof.
  intros [H | ->]; [|apply (handleCancelStream_state w)].
  destruct i.
  - exact H.
  - unfold interrupt, modify. destruct (responseTimerRef w); exact H.
  - unfold interrupt, bind, gets, modify, updateConversationMessages,
      updateConversation.
    destruct (thinkingTimerRef w); exact H.
  - unfold interrupt, bind, gets, modify, updateConversationMessages,
      updateConversation.
    destruct (longToolUseTimer w); exact H.
  - apply (handleCancelStream_state w).
Qed.

Lemma await_cancelled (ints : list Interrupt) (w : World) :
  isCancelledRef w = true \/ In CancelClicked ints ->
  isCancelledRef (snd (await ints w)) = true.
Proof.
  revert w. induction ints as [|i ints IH]; intros w H.
  - destruct H as [H | []]. exact H.
  - rewrite await_cons. apply IH.
    destruct H as [H | [H | H]].
    + left. apply interrupt_cancelled. left. exact H.
    + left. apply interrupt_cancelled. right. exact H.
    + right. exact H.
Qed.

Lemma bind_run {A B : Type} (c : M A) (k : A -> M B) (w w1 : World) (a : A) :
  c w = (Normal a, w1) -> bind c k w = k a w1.
Proof. intro H. unfold bind. rewrite H. reflexivity. Qed.

Lemma await_eq (ints : list Interrupt) (w : World) :
  await ints w = (Normal tt, snd (await ints w)).
Proof.
  pose proof (await_run ints w) as H.
  destruct (await ints w) as [res w1]. simpl in H. subst res. reflexivity.
Qed.

Lemma turn_body_cancelled_while_planning (r : World) (env : Env) (cid : Id)
  (isFirst : bool) (convo : Convo.t) (modelToUse : ChatModel) (prompt : string)
  (images : option (list Image)) (file : option FileAttachment)
  (url : option string) (w : World) :
  In CancelClicked (duringPlan env) ->
  turn_body r env cid isFirst convo modelToUse prompt images file url w =
  (Returned,
   snd (await (duringPlan env)
          (set_events (EvPlanResponse prompt images file modelToUse :: events w) w))).
Proof.
  intro Hcancel. unfold turn_body.
  erewrite bind_run by reflexivity.
  erewrite bind_run by apply await_eq.
  unfold bind at 1, return_if_cancelled. unfold bind at 1, gets.
  rewrite await_cancelled by (right; exact Hcancel). reflexivity.
Qed.


Definition cancel_planning_env : Env :=
  Build_Env (Some plain_plan) [Elapse 400; CancelClicked] (inl "") []
    (inl "not found") [] [] [] None [] [([], text_chunk "Sure.")] [] None
    (fun e => e).


(** ** Pre- and postconditions

    [leads P c Q E]: run from a state that satisfies [P], [c] either
    completes normally with a value and a state that satisfy [Q], or leaves by
    [return] or by a throw in a state that satisfies [E]. *)

Definition leads {A : Type} (P : World -> Prop) (c : M A)
  (Q : A -> World -> Prop) (E : World -> Prop) : Prop :=
  forall w, P w ->
    match c w with
    | (Normal a, w') => Q a w'
    | (_, w') => E w'
    end.

Lemma leads_ret {A : Type} (P : World -> Prop) (a : A) (Q : A -> World -> Prop)
  (E : World -> Prop) :
  (forall w, P w -> Q a w) -> leads P (ret a) Q E.
Proof. intros H w Hw. apply H, Hw. Qed.

Lemma leads_bind {A B : Type} (P : World -> Prop) (c : M A) (k : A -> M B)
  (Q : A -> World -> Prop) (R : B -> World -> Prop) (E : World -> Prop) :
  leads P c Q E -> (forall a, leads (Q a) (k a) R E) -> leads P (bind c k) R E.
Proof.
  intros Hc Hk w Hw. unfold bind. specialize (Hc w Hw).
  destruct (c w) as [[a| |e] w']; [apply Hk, Hc|exact Hc..].
Qed.

Lemma leads_seq {A B : Type} (P P' : World -> Prop) (c : M A) (k : M B)
  (R : B -> World -> Prop) (E : World -> Prop) :
  leads P c (fun _ => P') E -> leads P' k R E -> leads P (bind c (fun _ => k)) R E.
Proof. intros Hc Hk. apply leads_bind with (Q := fun _ => P'); auto. Qed.

Lemma leads_weaken {A : Type} (P P' : World -> Prop) (c : M A)
  (Q Q' : A -> World -> Prop) (E E' : World -> Prop) :
  leads P' c Q' E' ->
  (forall w, P w -> P' w) -> (forall a w, Q' a w -> Q a w) ->
  (forall w, E' w -> E w) ->
  leads P c Q E.
Proof.
  intros Hc HP HQ HE w Hw. specialize (Hc w (HP w Hw)).
  destruct (c w) as [[a| |e] w']; auto.
Qed.

Lemma leads_return {A : Type} (P : World -> Prop) (Q : A -> World -> Prop)
  (E : World -> Prop) :
  (forall w, P w -> E w) -> leads P js_return Q E.
Proof. intros H w Hw. apply H, Hw. Qed.

Lemma leads_throw {A : Type} (P : World -> Prop) (e : string)
  (Q : A -> World -> Prop) (E : World -> Prop) :
  (forall w, P w -> E w) -> leads P (throw e) Q E.
Proof. intros H w Hw. apply H, Hw. Qed.

Lemma leads_when (P : World -> Prop) (b : bool) (c : M unit) (E : World -> Prop) :
  (b = true -> leads P c (fun _ => P) E) -> leads P (when b c) (fun _ => P) E.
Proof.
  intro Hc. destruct b; [exact (Hc eq_refl)|]. apply leads_ret. auto.
Qed.

Lemma leads_try_catch {A : Type} (P : World -> Prop) (body : M A)
  (handler : string -> M A) (Q : A -> World -> Prop) (E : World -> Prop) :
  leads P body Q E -> (forall e, leads E (handler e) Q E) ->
  leads P (try_catch body handler) Q E.
Proof.
  intros Hb Hh w Hw. unfold try_catch. specialize (Hb w Hw).
  destruct (body w) as [[a| |e] w']; [exact Hb|exact Hb|].
  apply Hh, Hb.
Qed.

(** the state [try ... finally] ends in, however it completes *)
Lemma leads_try_finally (P F G : World -> Prop) (body fin : M unit) (w : World) :
  leads P body (fun _ => F) F -> leads F fin (fun _ => G) G ->
  P w -> G (snd (try_finally body fin w)).
Proof.
  intros Hb Hf Hw. rewrite try_finally_state.
  specialize (Hb w Hw).
  assert (HF : F (snd (body w))) by (destruct (body w) as [[a| |e] w']; exact Hb).
  specialize (Hf _ HF).
  destruct (fin (snd (body w))) as [[a| |e] w']; exact Hf.
Qed.

(** ** No background writer after a cancellation *)

Definition is_background_request (ev : Event) : bool :=
  match ev with
  | EvGenerateConvoSummaries _ _ | EvUpdateMemory _ _ => true
  | _ => false
  end.

(** [c] never resets the cancel flag *)
Definition mono {A : Type} (c : M A) : Prop :=
  forall w, isCancelledRef w = true -> isCancelledRef (snd (c w)) = true.

Lemma mono_bind {A B : Type} (c : M A) (k : A -> M B) :
  mono c -> (forall a, mono (k a)) -> mono (bind c k).
Proof.
  intros Hc Hk w Hw. unfold bind. specialize (Hc w Hw).
  destruct (c w) as [[a| |e] w']; simpl in *; [|assumption..].
  apply Hk, Hc.
Qed.

Lemma mono_ret {A : Type} (a : A) : mono (ret a).
Proof. intros w H. exact H. Qed.

Lemma mono_return {A : Type} : mono (@js_return A).
Proof. intros w H. exact H. Qed.

Lemma mono_gets {A : Type} (f : World -> A) : mono (gets f).
Proof. intros w H. exact H. Qed.

Lemma mono_modify (f : World -> World) :
  (forall w, isCancelledRef (f w) = isCancelledRef w) -> mono (modify f).
Proof. intros Hf w H. unfold modify. simpl. rewrite Hf. exact H. Qed.

Lemma mono_updateConversation (cid : Id) (u : Convo.t -> Convo.t) :
  mono (updateConversation cid u).
Proof. intros w H. exact H. Qed.

Lemma mono_updateConversationMessages (cid : Id) (f : list Msg.t -> list Msg.t) :
  mono (updateConversationMessages cid f).
Proof. intros w H. exact H. Qed.

Lemma mono_when (b : bool) (c : M unit) : mono c -> mono (when b c).
Proof. intro H. destruct b; [exact H|apply mono_ret]. Qed.

Ltac mono_step :=
  first
    [ apply mono_ret | apply mono_return | apply mono_gets
    | apply mono_updateConversationMessages | apply mono_updateConversation
    | apply mono_modify; intro; reflexivity
    | intros ? ?; assumption
    | apply mono_when
    | apply mono_bind; [|intros] ].

Ltac mono_auto := repeat mono_step.

Lemma mono_await (ints : list Interrupt) : mono (await ints).
Proof. intros w H. apply await_cancelled. left. exact H. Qed.

Lemma mono_return_if_cancelled : mono return_if_cancelled.
Proof.
  unfold return_if_cancelled. apply mono_bind; [mono_auto|].
  intros []; mono_auto.
Qed.

Lemma mono_handleToolError (cid : Id) (msg : string) : mono (handleToolError cid msg).
Proof. unfold handleToolError, stopResponseTimer. mono_auto. Qed.

Lemma mono_url_phase (env : Env) (cid : Id) (p : string) (url : option string) :
  mono (url_phase env cid p url).
Proof.
  unfold url_phase, emit.
  destruct url as [u|]; [destruct (truthy u)|].
  - apply mono_bind; [mono_auto|]. intros _.
    apply mono_bind; [mono_auto|]. intros _.
    apply mono_bind; [apply mono_await|]. intros _.
    destruct (urlOutcome env).
    + apply mono_bind; [apply mono_return_if_cancelled|]. intros _. mono_auto.
    + apply mono_bind; [apply mono_handleToolError|]. intros _. mono_auto.
  - apply mono_bind; [apply mono_handleToolError|]. intros _. mono_auto.
  - apply mono_bind; [apply mono_handleToolError|]. intros _. mono_auto.
Qed.

Lemma mono_molecule_phase (env : Env) (cid : Id) (p : string) (plan : Plan.t) :
  mono (molecule_phase env cid p plan).
Proof.
  unfold molecule_phase, emit, stopResponseTimer.
  apply mono_bind; [mono_auto|]. intros _.
  apply mono_bind; [mono_auto|]. intros _.
  apply mono_bind; [apply mono_await|]. intros _.
  destruct (moleculeOutcome env).
  - mono_auto.
  - apply mono_bind; [apply mono_return_if_cancelled|]. intros _. mono_auto.
Qed.

Lemma mono_title_step (cid : Id) (isFirst titleExtracted : bool) (acc : string) :
  mono (title_step cid isFirst titleExtracted acc).
Proof.
  unfold title_step. destruct isFirst; [|mono_auto].
  apply mono_bind; [|intros; mono_auto].
  destruct titleExtracted; [mono_auto|].
  destruct (match_title acc); [mono_auto|].
  match goal with |- mono (if ?b then _ else _) => destruct b end; mono_auto.
Qed.

Lemma mono_chunk_step (cid : Id) (isFirst : bool) (chunk : Chunk)
  (acc : string) (titleExtracted : bool) (usage : option Usage) :
  mono (chunk_step cid isFirst chunk acc titleExtracted usage).
Proof.
  unfold chunk_step.
  apply mono_bind; [apply mono_title_step|]. intros [te' display].
  unfold randomUUID, now. mono_auto.
Qed.

Lemma mono_usage_phase (cid : Id) (usage : option Usage) (p : string)
  (t : option ToolInUse) (a b c : bool) :
  mono (usage_phase cid usage p t a b c).
Proof.
  unfold usage_phase. apply mono_bind; [mono_auto|]. intros cancelled.
  destruct usage; mono_auto.
Qed.

Section Cancelled.
Variable base : list Event.

(** no background request has been added; [b]: the cancel flag is known to be
    set *)
Definition unwritten (b : bool) (w : World) : Prop :=
  requests_ok (fun ev => is_background_request ev = false) base w /\
  (b = true -> isCancelledRef w = true).

Lemma leads_quiet_mono {A : Type} (b : bool) (c : M A) :
  quiet c -> mono c ->
  leads (unwritten b) c (fun _ => unwritten b) (unwritten false).
Proof.
  intros Hq Hm w [Hr Hb]. specialize (Hq w). specialize (Hm w).
  assert (H : unwritten b (snd (c w))).
  { split; [unfold requests_ok; rewrite Hq; exact Hr|]. intro E. apply Hm, Hb, E. }
  destruct (c w) as [[a| |e] w']; simpl in *;
    [exact H | split; [apply H|discriminate] | split; [apply H|discriminate]].
Qed.

Lemma leads_emit_other (b : bool) (ev : Event) :
  is_background_request ev = false ->
  leads (unwritten b) (emit ev) (fun _ => unwritten b) (unwritten false).
Proof.
  intros Hev w [Hr Hb]. unfold emit, modify. simpl. split; [|exact Hb].
  intros ev' [<- | Hin]; [right; exact Hev|exact (Hr ev' Hin)].
Qed.

Definition has_cancel (ints : list Interrupt) : bool :=
  existsb (fun i => match i with CancelClicked => true | _ => false end) ints.

Lemma has_cancel_In (ints : list Interrupt) :
  has_cancel ints = true <-> In CancelClicked ints.
Proof.
  unfold has_cancel. rewrite existsb_exists. split.
  - intros (i & Hin & Hi). destruct i; try discriminate. exact Hin.
  - intro H. exists CancelClicked. auto.
Qed.

Lemma leads_await (b : bool) (ints : list Interrupt) :
  leads (unwritten b) (await ints)
    (fun _ => unwritten (b || has_cancel ints)) (unwritten false).
Proof.
  intros w [Hr Hb]. rewrite await_eq. split.
  - unfold requests_ok. rewrite quiet_await. exact Hr.
  - intro E. apply await_cancelled. apply orb_true_iff in E as [E | E].
    + left. apply Hb, E.
    + right. apply has_cancel_In, E.
Qed.

Lemma leads_return_if_cancelled (b : bool) :
  leads (unwritten b) return_if_cancelled
    (fun _ w => unwritten b w /\ b = false) (unwritten false).
Proof.
  intros w [Hr Hb]. unfold return_if_cancelled, bind, gets.
  destruct (isCancelledRef w) eqn:E; simpl.
  - split; [exact Hr|discriminate].
  - assert (Hf : b = false).
    { destruct b; [|reflexivity]. specialize (Hb eq_refl). congruence. }
    subst b. split; [|reflexivity]. split; [exact Hr|]. intro H. discriminate H.
Qed.

Lemma unwritten_false (b : bool) (w : World) : unwritten b w -> unwritten false w.
Proof. intros [H _]. split; [exact H|discriminate]. Qed.

Lemma leads_stream_loop (env : Env) (cid : Id) (isFirst : bool)
  (stream : list (list Interrupt * Chunk)) :
  forall (b : bool) acc titleExtracted usage,
    leads (unwritten b)
      (stream_loop env cid isFirst stream acc titleExtracted usage)
      (fun _ =>
         unwritten (b || has_cancel (concat (map fst stream)) ||
                    has_cancel (duringEnd env)))
      (unwritten false).
Proof.
  induction stream as [|[ints chunk] rest IH]; intros b acc te usage; simpl.
  - eapply leads_bind; [apply leads_await|]. intros ?. cbv beta.
    destruct (streamError env).
    + apply leads_throw. apply unwritten_false.
    + apply leads_ret. intros w H. rewrite orb_false_r. exact H.
  - eapply leads_bind; [apply leads_await|]. intros ?. cbv beta.
    intros w [Hr Hb]. unfold bind at 1, gets.
    destruct (isCancelledRef w) eqn:E.
    + split; [exact Hr|]. intros _. exact E.
    + assert (Hb' : (b || has_cancel ints)%bool = false).
      { destruct (b || has_cancel ints)%bool; [|reflexivity].
        specialize (Hb eq_refl). congruence. }
      apply orb_false_iff in Hb' as [-> Hints].
      assert (Hpre : unwritten false w) by (split; [exact Hr|discriminate]).
      revert w Hpre E Hr Hb.
      assert (H : leads (unwritten false)
                    (' (finalModelResponse', titleExtracted', usage') <-
                       chunk_step cid isFirst chunk acc te usage ;;
                     stream_loop env cid isFirst rest finalModelResponse'
                       titleExtracted' usage')
                    (fun _ =>
                       unwritten (false ||
                                  has_cancel (ints ++ concat (map fst rest)) ||
                                  has_cancel (duringEnd env)))
                    (unwritten false)).
      { eapply leads_bind;
          [apply leads_quiet_mono; [apply quiet_chunk_step|apply mono_chunk_step]|].
        intros [[acc' te'] usage'].
        assert (Happ : has_cancel (ints ++ concat (map fst rest)) =
                       has_cancel (concat (map fst rest))).
        { unfold has_cancel. rewrite existsb_app. fold (has_cancel ints).
          rewrite Hints. reflexivity. }
        rewrite Happ. apply (IH false). }
      intros w Hpre _ _ _. exact (H w Hpre).
Qed.

Lemma leads_background_writers_cancelled (r : World) (cid : Id)
  (prompt response : string) :
  leads (unwritten true) (background_writers r cid prompt response)
    (fun _ => unwritten false) (unwritten false).
Proof.
  intros w [Hr Hb]. unfold background_writers, bind, gets.
  rewrite Hb by reflexivity.
  destruct (find_conversation (conversations r) cid);
    (split; [exact Hr|discriminate]).
Qed.

End Cancelled.

Section CancelledTurn.
Variable base : list Event.

(** [c] adds no background request and does not reset the cancel flag *)
Definition harmless {A : Type} (c : M A) : Prop :=
  forall b, leads (unwritten base b) c (fun _ => unwritten base b)
              (unwritten base false).

Lemma harmless_bind {A B : Type} (c : M A) (k : A -> M B) :
  harmless c -> (forall a, harmless (k a)) -> harmless (bind c k).
Proof.
  intros Hc Hk b. eapply leads_bind; [apply Hc|]. intro a. apply Hk.
Qed.

Lemma harmless_quiet {A : Type} (c : M A) : quiet c -> mono c -> harmless c.
Proof. intros Hq Hm b. apply leads_quiet_mono; assumption. Qed.

Lemma harmless_emit (ev : Event) :
  is_background_request ev = false -> harmless (emit ev).
Proof. intros H b. apply leads_emit_other, H. Qed.

Lemma harmless_await (ints : list Interrupt) : harmless (await ints).
Proof. apply harmless_quiet; [apply quiet_await|apply mono_await]. Qed.

Lemma harmless_return_if_cancelled : harmless return_if_cancelled.
Proof.
  apply harmless_quiet; [apply quiet_return_if_cancelled|apply mono_return_if_cancelled].
Qed.

Lemma harmless_update (cid : Id) (f : list Msg.t -> list Msg.t) :
  harmless (updateConversationMessages cid f).
Proof.
  apply harmless_quiet;
    [apply quiet_updateConversationMessages|apply mono_updateConversationMessages].
Qed.

Lemma harmless_return {A : Type} : harmless (@js_return A).
Proof. apply harmless_quiet; [apply quiet_return|apply mono_return]. Qed.

Lemma harmless_ret {A : Type} (a : A) : harmless (ret a).
Proof. apply harmless_quiet; [apply quiet_ret|apply mono_ret]. Qed.

Lemma harmless_handleToolError (cid : Id) (msg : string) :
  harmless (handleToolError cid msg).
Proof.
  apply harmless_quiet; [apply quiet_handleToolError|apply mono_handleToolError].
Qed.

Lemma harmless_url_phase (env : Env) (cid : Id) (p : string) (url : option string) :
  harmless (url_phase env cid p url).
Proof.
  unfold url_phase.
  destruct url as [u|]; [destruct (truthy u)|].
  - apply harmless_bind; [apply harmless_update|]. intros _.
    apply harmless_bind; [apply harmless_emit; reflexivity|]. intros _.
    apply harmless_bind; [apply harmless_await|]. intros _.
    destruct (urlOutcome env).
    + apply harmless_bind; [apply harmless_return_if_cancelled|]. intros _.
      apply harmless_ret.
    + apply harmless_bind; [apply harmless_handleToolError|]. intros _.
      apply harmless_return.
  - apply harmless_bind; [apply harmless_handleToolError|]. intros _.
    apply harmless_return.
  - apply harmless_bind; [apply harmless_handleToolError|]. intros _.
    apply harmless_return.
Qed.

Lemma harmless_molecule_phase (env : Env) (cid : Id) (p : string) (plan : Plan.t) :
  harmless (molecule_phase env cid p plan).
Proof.
  unfold molecule_phase.
  apply harmless_bind; [apply harmless_update|]. intros _.
  apply harmless_bind; [apply harmless_emit; reflexivity|]. intros _.
  apply harmless_bind; [apply harmless_await|]. intros _.
  destruct (moleculeOutcome env).
  - apply harmless_bind; [apply harmless_emit; reflexivity|]. intros _.
    apply harmless_bind; [apply harmless_update|]. intros _.
    apply harmless_quiet; [unfold stopResponseTimer; quiet_auto|
                           unfold stopResponseTimer; mono_auto].
  - apply harmless_bind; [apply harmless_return_if_cancelled|]. intros _.
    apply harmless_bind; [apply harmless_update|]. intros _.
    apply harmless_ret.
Qed.

Lemma leads_pure {A : Type} (P : World -> Prop) (phi : Prop) (c : M A)
  (Q : A -> World -> Prop) (E : World -> Prop) :
  (phi -> leads P c Q E) -> leads (fun w => P w /\ phi) c Q E.
Proof. intros H w [Hw Hphi]. exact (H Hphi w Hw). Qed.

Lemma leads_turn_body_cancelled (r : World) (env : Env) (cid : Id)
  (isFirst : bool) (convo : Convo.t) (modelToUse : ChatModel) (prompt : string)
  (images : option (list Image)) (file : option FileAttachment)
  (url : option string) :
  (has_cancel (duringPlan env) || has_cancel (duringOpen env) ||
   has_cancel (concat (map fst (chunks env))) || has_cancel (duringEnd env))%bool
  = true ->
  leads (unwritten base false)
    (turn_body r env cid isFirst convo modelToUse prompt images file url)
    (fun _ => unwritten base false) (unwritten base false).
Proof.
  intro Hcancel. unfold turn_body.
  eapply leads_seq; [apply leads_emit_other; reflexivity|].
  eapply leads_seq; [apply leads_await|].
  eapply leads_bind; [apply leads_return_if_cancelled|]. intros ?. cbv beta.
  apply leads_pure. simpl orb. intro Hplan. rewrite Hplan in *. simpl orb in Hcancel.
  destruct (toolOverrides _ _ _ _) as [[plan think] web].
  eapply leads_seq; [apply leads_quiet_mono; [quiet_auto|mono_auto]|].
  eapply leads_seq; [apply leads_quiet_mono; [quiet_auto|mono_auto]|].
  eapply leads_seq; [apply leads_quiet_mono; [quiet_auto|mono_auto]|].
  eapply leads_bind.
  { match goal with |- leads _ (if ?b then _ else _) _ _ => destruct b end;
      [apply harmless_url_phase|apply harmless_ret]. }
  intros p0. cbv beta.
  eapply leads_bind.
  { match goal with |- leads _ (if ?b then _ else _) _ _ => destruct b end.
    - apply harmless_bind; [apply harmless_molecule_phase|]. intros p.
      apply harmless_ret.
    - apply harmless_ret. }
  intros [[p web'] think']. cbv beta.
  eapply leads_seq; [apply harmless_update|].
  eapply leads_seq.
  { apply leads_when. intros _.
    apply harmless_bind; [apply harmless_quiet; [quiet_auto|mono_auto]|]. intros _.
    apply harmless_bind; [apply harmless_quiet; [quiet_auto|mono_auto]|]. intros _.
    apply harmless_bind; [apply harmless_quiet; [quiet_auto|mono_auto]|]. intros _.
    apply harmless_emit. reflexivity. }
  eapply leads_seq; [apply leads_quiet_mono; [quiet_auto|mono_auto]|].
  eapply leads_seq.
  { apply leads_when. intros _.
    apply harmless_bind; [apply harmless_emit; reflexivity|]. intros _.
    apply harmless_bind; [apply harmless_await|]. intros _.
    apply harmless_return_if_cancelled. }
  eapply leads_seq.
  { match goal with |- leads _ (if ?b then _ else _) _ _ => destruct b end;
      [apply leads_throw; auto|apply harmless_ret]. }
  eapply leads_seq.
  { match goal with |- leads _ (if ?b then _ else _) _ _ => destruct b end;
      apply leads_emit_other; reflexivity. }
  eapply leads_seq; [apply leads_await|]. simpl orb.
  eapply leads_seq.
  { destruct (streamOpenError env);
      [apply leads_throw; apply unwritten_false|apply harmless_ret]. }
  eapply leads_seq; [apply leads_quiet_mono; [quiet_auto|mono_auto]|].
  eapply leads_seq; [apply leads_quiet_mono; [quiet_auto|mono_auto]|].
  eapply leads_seq;
    [apply leads_quiet_mono; unfold clearThinkingIntervals; [quiet_auto|mono_auto]|].
  eapply leads_seq; [apply leads_quiet_mono; [quiet_auto|mono_auto]|].
  eapply leads_seq; [apply leads_quiet_mono; [quiet_auto|mono_auto]|].
  eapply leads_seq; [apply leads_quiet_mono; [quiet_auto|mono_auto]|].
  eapply leads_bind; [apply leads_stream_loop|].
  intros [response usage]. cbv beta. rewrite Hcancel.
  eapply leads_seq;
    [apply leads_quiet_mono; [apply quiet_usage_phase|apply mono_usage_phase]|].
  apply leads_background_writers_cancelled.
Qed.

Lemma leads_turn_cancelled (r : World) (env : Env) (cid : Id)
  (isFirst : bool) (convo : Convo.t) (modelToUse : ChatModel) (prompt : string)
  (images : option (list Image)) (file : option FileAttachment)
  (url : option string) (isRetry : bool) (w : World) :
  (has_cancel (duringPlan env) || has_cancel (duringOpen env) ||
   has_cancel (concat (map fst (chunks env))) || has_cancel (duringEnd env))%bool
  = true ->
  unwritten base false w ->
  unwritten base false
    (snd ((start_turn cid modelToUse prompt images file url isRetry ;;
           try_finally
             (try_catch
                (turn_body r env cid isFirst convo modelToUse prompt images file url)
                (turn_catch env cid))
             (turn_finally cid)) w)).
Proof.
  intros Hcancel Hw. unfold bind at 1.
  pose proof (start_turn_run cid modelToUse prompt images file url isRetry w) as Hs.
  pose proof (quiet_start_turn cid modelToUse prompt images file url isRetry w) as Hq.
  destruct (start_turn _ _ _ _ _ _ _ w) as [res w1]. simpl in Hs, Hq. subst res.
  assert (Hw1 : unwritten base false w1).
  { split; [|discriminate]. unfold requests_ok. rewrite Hq. apply Hw. }
  apply (leads_try_finally (unwritten base false) (unwritten base false)
           (unwritten base false)); [| |exact Hw1].
  - apply leads_try_catch; [apply leads_turn_body_cancelled, Hcancel|].
    intro e. unfold turn_catch, randomUUID, now.
    apply harmless_bind; [apply harmless_return_if_cancelled|]. intros _.
    apply harmless_bind; [apply harmless_emit; reflexivity|]. intros _.
    apply harmless_quiet; [quiet_auto|mono_auto].
  - intros w2 [Hr _].
    pose proof (quiet_turn_finally cid w2) as Hqf.
    pose proof (turn_finally_at_rest cid w2) as [Hn _].
    destruct (turn_finally cid w2) as [res w3]. simpl in *. subst res.
    split; [|discriminate]. unfold requests_ok. rewrite Hqf. exact Hr.
Qed.

End CancelledTurn.


Definition cancel_streaming_env : Env :=
  Build_Env (Some plain_plan) [] (inl "") [] (inl "not found") [] [] [] None []
    [([], text_chunk "Sure, "); ([Elapse 300; CancelClicked], text_chunk "here")]
    [] None (fun e => e).


(** ** No message is left planning *)

Definition not_planning (m : Msg.t) : Prop := Msg.flag (Msg.isPlanning m) = false.

(** the last message of the list, if any, is not planning *)
Definition last_not_planning (l : list Msg.t) : Prop :=
  match last_opt l with Some m => not_planning m | None => True end.

Lemma lnp_app (l : list Msg.t) (m : Msg.t) :
  not_planning m -> last_not_planning (l ++ [m]).
Proof. intro H. unfold last_not_planning. rewrite last_opt_app. exact H. Qed.

Lemma lnp_map_last_set (g : Msg.t -> Msg.t) (l : list Msg.t) :
  (forall m, not_planning (g m)) -> last_not_planning (map_last g l).
Proof.
  intro Hg. unfold last_not_planning. rewrite last_opt_map_last.
  destruct (last_opt l); simpl; [apply Hg|exact I].
Qed.

Lemma lnp_map_last_keep (g : Msg.t -> Msg.t) (l : list Msg.t) :
  (forall m, not_planning m -> not_planning (g m)) ->
  last_not_planning l -> last_not_planning (map_last g l).
Proof.
  intros Hg. unfold last_not_planning. rewrite last_opt_map_last.
  destruct (last_opt l); simpl; [apply Hg|auto].
Qed.

Lemma last_opt_map {A : Type} (g : A -> A) (l : list A) :
  last_opt (map g l) = option_map g (last_opt l).
Proof.
  induction l as [|a [|b l] IH]; [reflexivity..|].
  change (last_opt (a :: b :: l)) with (last_opt (b :: l)). rewrite <- IH.
  reflexivity.
Qed.

Lemma lnp_map_keep (g : Msg.t -> Msg.t) (l : list Msg.t) :
  (forall m, not_planning m -> not_planning (g m)) ->
  last_not_planning l -> last_not_planning (map g l).
Proof.
  intros Hg. unfold last_not_planning. rewrite last_opt_map.
  destruct (last_opt l); simpl; [apply Hg|auto].
Qed.

(** updaters after which the last message is not planning *)
Lemma lnp_cancel (newId : Id) (ts : Z) (l : list Msg.t) :
  last_not_planning (cancel_updater newId ts l).
Proof.
  unfold cancel_updater. rewrite last_opt_map.
  destruct (last_opt l) as [m|]; simpl; [|apply lnp_app; reflexivity].
  destruct (Msg.role m); [apply lnp_app; reflexivity|].
  unfold last_not_planning. rewrite last_opt_map_last, last_opt_map.
  destruct (last_opt l); reflexivity.
Qed.

Lemma lnp_tool_error (msg : string) (l : list Msg.t) :
  last_not_planning (tool_error_updater msg l).
Proof. apply lnp_map_last_set. reflexivity. Qed.

Lemma lnp_molecule_error (name : string) (l : list Msg.t) :
  last_not_planning (molecule_error_updater name l).
Proof. apply lnp_map_last_set. reflexivity. Qed.

Lemma lnp_clear_planning (th : list ThoughtStep) (l : list Msg.t) :
  last_not_planning (clear_planning_updater th l).
Proof.
  unfold clear_planning_updater.
  destruct (last_opt l) as [m|] eqn:E.
  - destruct (Msg.flag (Msg.isPlanning m) || Msg.has (Msg.toolInUse m))%bool eqn:F.
    + apply lnp_map_last_set. reflexivity.
    + unfold last_not_planning. rewrite E.
      apply orb_false_iff in F. apply F.
  - unfold last_not_planning. rewrite E. exact I.
Qed.

Lemma lnp_stream (d : string) (s : option (list GroundingChunk)) (newId : Id)
  (ts : Z) (l : list Msg.t) :
  last_not_planning (stream_updater d s newId ts l).
Proof.
  unfold stream_updater.
  destruct (last_opt l) as [m|]; [|apply lnp_app; reflexivity].
  destruct (Msg.role m); [apply lnp_app; reflexivity|].
  apply lnp_map_last_set. reflexivity.
Qed.

Lemma lnp_error (friendly : string) (newId : Id) (ts : Z) (l : list Msg.t) :
  last_not_planning (error_updater friendly newId ts l).
Proof.
  unfold error_updater.
  destruct (last_opt l) as [m|] eqn:E.
  - destruct (Msg.role m); [apply lnp_app; reflexivity|].
    apply lnp_map_last_set. reflexivity.
  - unfold last_not_planning. rewrite E. exact I.
Qed.

(** updaters that keep it so *)
Lemma lnp_thinking_tick (t : nat) (l : list Msg.t) :
  last_not_planning l -> last_not_planning (thinking_tick_updater t l).
Proof.
  intro H. unfold thinking_tick_updater.
  destruct (last_opt l) as [m|]; [|exact H].
  destruct (Msg.role m); [exact H|]. apply lnp_map_last_keep; auto.
Qed.

Lemma lnp_watchdog (l : list Msg.t) :
  last_not_planning l -> last_not_planning (watchdog_updater l).
Proof.
  intro H. unfold watchdog_updater.
  destruct (last_opt l) as [m|]; [|exact H].
  destruct (Msg.role m); [exact H|]. apply lnp_map_last_keep; auto.
Qed.

Lemma lnp_search_plan (sp : list ThoughtStep) (l : list Msg.t) :
  last_not_planning l -> last_not_planning (search_plan_updater sp l).
Proof.
  intro H. unfold search_plan_updater.
  destruct (last_opt l) as [m|]; [|exact H].
  destruct (Msg.role m); [exact H|]. apply lnp_map_last_keep; auto.
Qed.

Lemma lnp_usage (u : Usage) (p : string) (toolUsed : bool) (l : list Msg.t) :
  last_not_planning l -> last_not_planning (usage_updater u p toolUsed l).
Proof.
  intro H. unfold usage_updater.
  destruct (last_opt l) as [m|]; [|exact H].
  destruct (Msg.role m); [exact H|]. apply lnp_map_last_keep; auto.
Qed.

Lemma lnp_generation_time (t : Z) (l : list Msg.t) :
  last_not_planning l -> last_not_planning (generation_time_updater t l).
Proof.
  intro H. unfold generation_time_updater.
  destruct (last_opt l) as [m|]; [|exact H].
  destruct (Msg.role m); [exact H|].
  destruct (startsWith _ _); [exact H|]. apply lnp_map_last_keep; auto.
Qed.

Lemma lnp_image_done (l : list Msg.t) :
  last_not_planning l -> last_not_planning (map image_analysis_done l).
Proof.
  apply lnp_map_keep. intros m Hm. unfold image_analysis_done.
  destruct (_ && _)%bool; exact Hm.
Qed.

Lemma lnp_file_done (l : list Msg.t) :
  last_not_planning l -> last_not_planning (map file_analysis_done l).
Proof.
  apply lnp_map_keep. intros m Hm. unfold file_analysis_done.
  destruct (Msg.flag _); exact Hm.
Qed.

Lemma lnp_clear_analysis (l : list Msg.t) :
  last_not_planning l -> last_not_planning (map clear_analysis l).
Proof.
  apply lnp_map_keep. intros m Hm. unfold clear_analysis.
  destruct (Msg.flag _); exact Hm.
Qed.

Lemma lnp_mark (g : Msg.t -> Msg.t) (l : list Msg.t) :
  (forall m, not_planning m -> not_planning (g m)) ->
  last_not_planning l -> last_not_planning (mark_second_last g l).
Proof.
  intros Hg. unfold mark_second_last. apply lnp_map_keep.
  intros m Hm. destruct (second_last l); [|exact Hm].
  destruct (Nat.eqb _ _); [apply Hg, Hm|exact Hm].
Qed.

Create HintDb lnp_db.
#[local] Hint Resolve lnp_cancel lnp_tool_error lnp_molecule_error
  lnp_clear_planning lnp_stream lnp_error lnp_thinking_tick lnp_watchdog
  lnp_search_plan lnp_usage lnp_generation_time lnp_image_done lnp_file_done
  lnp_clear_analysis : lnp_db.

Section Planning.
Variable cid : Id.

(** in the conversation of the turn the last message is not planning *)
Definition cleared (w : World) : Prop :=
  forall c, In c (conversations w) -> Convo.id c = cid ->
    last_not_planning (Convo.messages c).

(** the invariant of the turn; [b]: the planning mark is known to be gone.
    Before that, it is gone once the turn has been cancelled. *)
Definition planning_inv (b : bool) (w : World) : Prop :=
  activeConversationId w = Some cid /\
  (b = true \/ isCancelledRef w = true -> cleared w).

Lemma planning_inv_weaken (b : bool) (w : World) :
  planning_inv true w -> planning_inv b w.
Proof. intros [Ha Hc]. split; [exact Ha|]. intros _. apply Hc. left. reflexivity. Qed.

(** [c] goes from [planning_inv b] to [planning_inv b'], and leaves by
    [return] or a throw only with the planning mark gone *)
Definition advances (b : bool) {A : Type} (c : M A) (b' : bool) : Prop :=
  leads (planning_inv b) c (fun _ => planning_inv b') (planning_inv true).

Definition steady {A : Type} (c : M A) : Prop := forall b, advances b c b.

(** [c] completes normally and touches neither the conversations, the active
    id nor the cancel flag *)
Definition framed {A : Type} (c : M A) : Prop :=
  forall w, (exists a, fst (c w) = Normal a) /\
            conversations (snd (c w)) = conversations w /\
            activeConversationId (snd (c w)) = activeConversationId w /\
            isCancelledRef (snd (c w)) = isCancelledRef w.

Lemma framed_ret {A : Type} (a : A) : framed (ret a).
Proof. intro w. split; [exists a; reflexivity|auto]. Qed.

Lemma framed_gets {A : Type} (f : World -> A) : framed (gets f).
Proof. intro w. split; [eexists; reflexivity|auto]. Qed.

Lemma framed_modify (f : World -> World) :
  (forall w, conversations (f w) = conversations w /\
             activeConversationId (f w) = activeConversationId w /\
             isCancelledRef (f w) = isCancelledRef w) ->
  framed (modify f).
Proof. intros H w. split; [exists tt; reflexivity|apply H]. Qed.

Lemma framed_bind {A B : Type} (c : M A) (k : A -> M B) :
  framed c -> (forall a, framed (k a)) -> framed (bind c k).
Proof.
  intros Hc Hk w. unfold bind. destruct (Hc w) as ([a Ha] & H1 & H2 & H3).
  destruct (c w) as [res w1]. simpl in *. subst res.
  destruct (Hk a w1) as (Hn & H4 & H5 & H6).
  split; [exact Hn|]. rewrite H4, H5, H6. auto.
Qed.

Lemma framed_when (b : bool) (c : M unit) : framed c -> framed (when b c).
Proof. intro H. destruct b; [exact H|apply framed_ret]. Qed.

Ltac framed_step :=
  first
    [ apply framed_ret | apply framed_gets
    | apply framed_modify; intro; repeat split; reflexivity
    | apply framed_when
    | apply framed_bind; [|intros] ].

Ltac framed_auto := repeat framed_step.

Lemma steady_framed {A : Type} (c : M A) : framed c -> steady c.
Proof.
  intros Hc b w [Ha Hcl]. destruct (Hc w) as ([a Hn] & H1 & H2 & H3).
  destruct (c w) as [res w1]. simpl in *. subst res.
  split; [congruence|]. rewrite H3. intros H c' Hin. rewrite H1 in Hin.
  exact (Hcl H c' Hin).
Qed.

Lemma step_bind {A B : Type} (b b1 b2 : bool) (c : M A) (k : A -> M B) :
  advances b c b1 -> (forall a, advances b1 (k a) b2) -> advances b (bind c k) b2.
Proof. intros Hc Hk. eapply leads_bind; [exact Hc|]. intro a. apply Hk. Qed.

Lemma steady_bind {A B : Type} (c : M A) (k : A -> M B) :
  steady c -> (forall a, steady (k a)) -> steady (bind c k).
Proof. intros Hc Hk b. apply step_bind with (b1 := b); [apply Hc|intro a; apply Hk]. Qed.

Lemma steady_when (b : bool) (c : M unit) : steady c -> steady (when b c).
Proof. intro H. destruct b; [exact H|apply steady_framed, framed_ret]. Qed.

Lemma step_weaken {A : Type} (b : bool) (c : M A) : advances b c true -> advances b c b.
Proof.
  intro H. eapply leads_weaken; [exact H|auto| |auto].
  intros ? w. apply planning_inv_weaken.
Qed.

Lemma step_return {A : Type} (b : bool) : advances true (@js_return A) b.
Proof. apply leads_return. auto. Qed.

Lemma step_throw {A : Type} (e : string) (b : bool) : advances true (@throw A e) b.
Proof. apply leads_throw. auto. Qed.

Lemma conversations_update (cid' : Id) (f : list Msg.t -> list Msg.t) (w : World) :
  conversations (snd (updateConversationMessages cid' f w)) =
  map (fun c => if Nat.eqb (Convo.id c) cid'
                then Convo.set_messages (f (Convo.messages c)) c else c)
    (conversations w).
Proof. reflexivity. Qed.

(** an updater that keeps the last message not planning *)
Lemma steady_update (cid' : Id) (f : list Msg.t -> list Msg.t) :
  (forall l, last_not_planning l -> last_not_planning (f l)) ->
  steady (updateConversationMessages cid' f).
Proof.
  intros Hf b w [Ha Hcl]. rewrite updateConversationMessages_run.
  split; [exact Ha|]. intros H c' Hin Hid.
  rewrite conversations_update in Hin.
  apply in_map_iff in Hin as (c & <- & Hin).
  specialize (Hcl H c Hin).
  destruct (Nat.eqb (Convo.id c) cid'); [apply Hf|]; apply Hcl; exact Hid.
Qed.

(** an updater of the turn's conversation that leaves it not planning *)
Lemma step_update_clears (b : bool) (f : list Msg.t -> list Msg.t) :
  (forall l, last_not_planning (f l)) ->
  advances b (updateConversationMessages cid f) true.
Proof.
  intros Hf w [Ha Hcl]. rewrite updateConversationMessages_run.
  split; [exact Ha|]. intros _ c' Hin Hid.
  rewrite conversations_update in Hin.
  apply in_map_iff in Hin as (c & <- & Hin).
  destruct (Nat.eqb (Convo.id c) cid) eqn:E; [apply Hf|].
  apply Nat.eqb_neq in E. contradiction.
Qed.

Lemma steady_update_meta (cid' : Id) (u : Convo.t -> Convo.t) :
  (forall c, Convo.id (u c) = Convo.id c /\ Convo.messages (u c) = Convo.messages c) ->
  steady (updateConversation cid' u).
Proof.
  intros Hu b w [Ha Hcl]. unfold updateConversation, modify. simpl.
  split; [exact Ha|]. intros H c' Hin Hid.
  apply in_map_iff in Hin as (c & <- & Hin).
  specialize (Hcl H c Hin).
  destruct (Nat.eqb (Convo.id c) cid').
  - destruct (Hu c) as [Hi Hm]. rewrite Hm. apply Hcl. rewrite <- Hi. exact Hid.
  - apply Hcl, Hid.
Qed.

Lemma step_handleCancelStream (b : bool) : advances b handleCancelStream true.
Proof.
  intros w [Ha Hcl].
  unfold handleCancelStream, clearThinkingIntervals, stopResponseTimer,
    updateConversationMessages, updateConversation, randomUUID, now, bind,
    modify, gets.
  cbn. rewrite Ha. cbn. split; [exact Ha|]. intros _ c' Hin Hid.
  apply in_map_iff in Hin as (c & <- & Hin).
  destruct (Nat.eqb (Convo.id c) cid) eqn:E; [apply lnp_cancel|].
  apply Nat.eqb_neq in E. contradiction.
Qed.

Lemma steady_interrupt (i : Interrupt) : steady (interrupt i).
Proof.
  destruct i; simpl.
  - apply steady_framed. framed_auto.
  - apply steady_framed. intro w. unfold modify. simpl.
    split; [eexists; reflexivity|]. destruct (responseTimerRef w); auto.
  - apply steady_bind; [apply steady_framed; framed_auto|]. intros [cid'|].
    + apply steady_bind; [apply steady_framed; framed_auto|]. intros _.
      apply steady_bind; [apply steady_framed; framed_auto|]. intros t.
      apply steady_update. apply lnp_thinking_tick.
    + apply steady_framed. framed_auto.
  - apply steady_bind; [apply steady_framed; framed_auto|]. intros [cid'|].
    + apply steady_bind; [apply steady_framed; framed_auto|]. intros _.
      apply steady_bind; [apply steady_framed; framed_auto|]. intros _.
      apply steady_update. apply lnp_watchdog.
    + apply steady_framed. framed_auto.
  - intro b. apply step_weaken, step_handleCancelStream.
Qed.

Lemma steady_await (ints : list Interrupt) : steady (await ints).
Proof.
  induction ints as [|i ints IH]; simpl; [apply steady_framed, framed_ret|].
  apply steady_bind; [apply steady_interrupt|]. intros _. exact IH.
Qed.

Lemma steady_return_if_cancelled : steady return_if_cancelled.
Proof.
  intros b w [Ha Hcl]. unfold return_if_cancelled, bind, gets.
  destruct (isCancelledRef w) eqn:E; simpl.
  - split; [exact Ha|]. intros _. apply Hcl. right. first [exact E|reflexivity].
  - split; [exact Ha|]. intros [H | H]; [|congruence]. apply Hcl. left. exact H.
Qed.

Lemma step_handleToolError (b : bool) (msg : string) :
  advances b (handleToolError cid msg) true.
Proof.
  unfold handleToolError, stopResponseTimer.
  apply step_bind with (b1 := b); [apply steady_framed; framed_auto|]. intros _.
  apply step_bind with (b1 := b); [apply steady_framed; framed_auto|]. intros _.
  apply step_bind with (b1 := true);
    [apply step_update_clears, lnp_tool_error|]. intros _.
  apply steady_bind; [apply steady_framed; framed_auto|]. intros _.
  apply steady_framed. framed_auto.
Qed.

Lemma framed_emit (ev : Event) : framed (emit ev).
Proof. unfold emit. framed_auto. Qed.

Lemma step_url_phase (b : bool) (env : Env) (p : string) (url : option string) :
  advances b (url_phase env cid p url) true.
Proof.
  unfold url_phase.
  assert (Hfail : advances b (handleToolError cid
                            "No valid URL was provided for the URL Reader tool." ;;
                          @js_return string) true).
  { apply step_bind with (b1 := true); [apply step_handleToolError|]. intros _.
    apply step_return. }
  destruct url as [u|]; [destruct (truthy u)|]; [|exact Hfail..].
  apply step_bind with (b1 := true).
  { apply step_update_clears. intro l. apply lnp_map_last_set. reflexivity. }
  intros _.
  apply step_bind with (b1 := true); [apply steady_framed, framed_emit|]. intros _.
  apply step_bind with (b1 := true); [apply steady_await|]. intros _.
  destruct (urlOutcome env); cbv beta iota.
  - apply step_bind with (b1 := true); [apply steady_return_if_cancelled|].
    intros _. apply steady_framed, framed_ret.
  - apply step_bind with (b1 := true); [apply step_handleToolError|]. intros _.
    apply step_return.
Qed.

Lemma step_molecule_phase (b : bool) (env : Env) (p : string) (plan : Plan.t) :
  advances b (molecule_phase env cid p plan) true.
Proof.
  unfold molecule_phase, stopResponseTimer.
  apply step_bind with (b1 := true).
  { apply step_update_clears. intro l. apply lnp_map_last_set. reflexivity. }
  intros _.
  apply step_bind with (b1 := true); [apply steady_framed, framed_emit|]. intros _.
  apply step_bind with (b1 := true); [apply steady_await|]. intros _.
  destruct (moleculeOutcome env); cbv beta iota.
  - apply step_bind with (b1 := true); [apply steady_framed, framed_emit|].
    intros _.
    apply step_bind with (b1 := true);
      [apply steady_update; intros l _; apply lnp_molecule_error|].
    intros _.
    apply step_bind with (b1 := true); [apply steady_framed; framed_auto|].
    intros _.
    apply step_bind with (b1 := true); [apply steady_framed; framed_auto|].
    intros _.
    apply step_return.
  - apply step_bind with (b1 := true); [apply steady_return_if_cancelled|].
    intros _.
    apply step_bind with (b1 := true).
    { apply steady_update. intro l. apply lnp_map_last_keep. auto. }
    intros _. apply steady_framed, framed_ret.
Qed.

Lemma steady_title_step (isFirst te : bool) (acc : string) :
  steady (title_step cid isFirst te acc).
Proof.
  unfold title_step. destruct isFirst; [|apply steady_framed, framed_ret].
  apply steady_bind; [|intros; apply steady_framed, framed_ret].
  destruct te; [apply steady_framed, framed_ret|].
  destruct (match_title acc).
  - apply steady_bind; [apply steady_update_meta; intro; split; reflexivity|].
    intros _. apply steady_framed, framed_ret.
  - match goal with |- steady (if ?b then _ else _) => destruct b end;
      [|apply steady_framed, framed_ret].
    apply steady_bind; [apply steady_update_meta; intro; split; reflexivity|].
    intros _. apply steady_framed, framed_ret.
Qed.

Lemma framed_randomUUID : framed randomUUID.
Proof. intro w. split; [eexists; reflexivity|auto]. Qed.

Lemma steady_chunk_step (isFirst : bool) (chunk : Chunk) (acc : string)
  (te : bool) (usage : option Usage) :
  steady (chunk_step cid isFirst chunk acc te usage).
Proof.
  unfold chunk_step, now.
  apply steady_bind; [apply steady_title_step|]. intros [te' display].
  apply steady_bind; [apply steady_framed, framed_randomUUID|]. intros newId.
  apply steady_bind; [apply steady_framed, framed_gets|]. intros ts.
  apply steady_bind; [apply steady_update; intros l _; apply lnp_stream|].
  intros _. apply steady_framed, framed_ret.
Qed.

Lemma step_stream_loop (env : Env) (isFirst : bool)
  (stream : list (list Interrupt * Chunk)) :
  forall acc te usage,
    advances true (stream_loop env cid isFirst stream acc te usage) true.
Proof.
  induction stream as [|[ints chunk] rest IH]; intros acc te usage; simpl.
  - apply step_bind with (b1 := true); [apply steady_await|]. intros _.
    destruct (streamError env); [apply step_throw|apply steady_framed, framed_ret].
  - apply step_bind with (b1 := true); [apply steady_await|]. intros _.
    apply step_bind with (b1 := true); [apply steady_framed, framed_gets|].
    intros [|]; [apply steady_framed, framed_ret|].
    apply step_bind with (b1 := true); [apply steady_chunk_step|].
    intros [[acc' te'] usage']. apply IH.
Qed.

Lemma steady_usage_phase (usage : option Usage) (p : string)
  (t : option ToolInUse) (a b c : bool) :
  steady (usage_phase cid usage p t a b c).
Proof.
  unfold usage_phase. apply steady_bind; [apply steady_framed, framed_gets|].
  intros cancelled. destruct usage; [|apply steady_framed, framed_ret].
  apply steady_when. apply steady_update. apply lnp_usage.
Qed.

Lemma framed_background_writers (r : World) (p response : string) :
  framed (background_writers r cid p response).
Proof.
  unfold background_writers, emit.
  apply framed_bind; [apply framed_gets|]. intros cancelled.
  destruct (find_conversation (conversations r) cid); [|apply framed_ret].
  destruct cancelled; framed_auto.
Qed.

Lemma step_turn_body (r : World) (env : Env) (isFirst : bool) (convo : Convo.t)
  (modelToUse : ChatModel) (p : string) (images : option (list Image))
  (file : option FileAttachment) (url : option string) :
  advances false (turn_body r env cid isFirst convo modelToUse p images file url) true.
Proof.
  unfold turn_body.
  apply step_bind with (b1 := false); [apply steady_framed, framed_emit|]. intros _.
  apply step_bind with (b1 := false); [apply steady_await|]. intros _.
  apply step_bind with (b1 := false); [apply steady_return_if_cancelled|]. intros _.
  destruct (toolOverrides _ _ _ _) as [[plan think] web].
  apply step_bind with (b1 := false).
  { apply steady_when, steady_update. intro l. apply lnp_mark. auto. }
  intros _.
  apply step_bind with (b1 := false).
  { apply steady_when, steady_update. intro l. apply lnp_mark. auto. }
  intros _.
  apply step_bind with (b1 := false); [apply steady_framed; framed_auto|]. intros _.
  apply step_bind with (b1 := false).
  { match goal with |- advances _ (if ?b then _ else _) _ => destruct b end;
      [apply step_weaken, step_url_phase|apply steady_framed, framed_ret]. }
  intros p0.
  apply step_bind with (b1 := false).
  { match goal with |- advances _ (if ?b then _ else _) _ => destruct b end.
    - apply steady_bind; [intro b; apply step_weaken, step_molecule_phase|].
      intros ?. apply steady_framed, framed_ret.
    - apply steady_framed, framed_ret. }
  intros [[p1 web'] think'].
  apply step_bind with (b1 := true);
    [apply step_update_clears, lnp_clear_planning|]. intros _.
  apply step_bind with (b1 := true).
  { apply steady_when, steady_framed. unfold emit. framed_auto. }
  intros _.
  apply step_bind with (b1 := true).
  { apply steady_when.
    apply steady_bind; [apply steady_framed; framed_auto|]. intros _.
    apply steady_when, steady_update, lnp_search_plan. }
  intros _.
  apply step_bind with (b1 := true).
  { apply steady_when.
    apply steady_bind; [apply steady_framed, framed_emit|]. intros _.
    apply steady_bind; [apply steady_await|]. intros _.
    apply steady_return_if_cancelled. }
  intros _.
  apply step_bind with (b1 := true).
  { match goal with |- advances _ (if ?b then _ else _) _ => destruct b end;
      [apply step_throw|apply steady_framed, framed_ret]. }
  intros _.
  apply step_bind with (b1 := true).
  { match goal with |- advances _ (if ?b then _ else _) _ => destruct b end;
      apply steady_framed, framed_emit. }
  intros _.
  apply step_bind with (b1 := true); [apply steady_await|]. intros _.
  apply step_bind with (b1 := true).
  { destruct (streamOpenError env);
      [apply step_throw|apply steady_framed, framed_ret]. }
  intros _.
  apply step_bind with (b1 := true); [apply steady_framed; framed_auto|]. intros _.
  apply step_bind with (b1 := true); [apply steady_framed; framed_auto|]. intros _.
  apply step_bind with (b1 := true).
  { apply steady_when, steady_framed. unfold clearThinkingIntervals. framed_auto. }
  intros _.
  apply step_bind with (b1 := true); [apply steady_framed; framed_auto|]. intros _.
  apply step_bind with (b1 := true);
    [apply steady_when, steady_update, lnp_image_done|]. intros _.
  apply step_bind with (b1 := true);
    [apply steady_when, steady_update, lnp_file_done|]. intros _.
  apply step_bind with (b1 := true); [apply step_stream_loop|].
  intros [response usage].
  apply step_bind with (b1 := true); [apply steady_usage_phase|]. intros _.
  apply steady_framed, framed_background_writers.
Qed.

Lemma step_turn_catch (env : Env) (e : string) : advances true (turn_catch env cid e) true.
Proof.
  unfold turn_catch, now.
  apply steady_bind; [apply steady_return_if_cancelled|]. intros _.
  apply steady_bind; [apply steady_framed, framed_emit|]. intros _.
  apply steady_bind; [apply steady_framed; framed_auto|]. intros _.
  apply steady_bind; [apply steady_framed, framed_randomUUID|]. intros newId.
  apply steady_bind; [apply steady_framed, framed_gets|]. intros ts.
  apply steady_update. intros l _. apply lnp_error.
Qed.

Lemma step_turn_finally : advances true (turn_finally cid) true.
Proof.
  unfold turn_finally, stopResponseTimer, clearThinkingIntervals, now.
  apply steady_bind; [apply steady_framed; framed_auto|]. intros _.
  apply steady_bind; [apply steady_framed, framed_gets|]. intros cancelled.
  apply steady_bind.
  { apply steady_when.
    apply steady_bind; [apply steady_framed, framed_gets|]. intros t.
    apply steady_bind; [apply steady_framed, framed_gets|]. intros start.
    apply steady_bind; [apply steady_update, lnp_clear_analysis|]. intros _.
    apply steady_update, lnp_generation_time. }
  intros _.
  apply steady_bind; [apply steady_framed; framed_auto|]. intros _.
  apply steady_bind; [apply steady_framed; framed_auto|]. intros _.
  apply steady_bind; [apply steady_framed; framed_auto|]. intros _.
  apply steady_bind; [apply steady_framed; framed_auto|]. intros _.
  apply steady_bind; [apply steady_framed; framed_auto|]. intros _.
  apply steady_bind; [apply steady_framed; framed_auto|]. intros _.
  intros b w [Ha Hcl]. unfold modify. simpl. split; [exact Ha|].
  intros [Hb | Hc]; [|discriminate Hc].
  intros c Hin. apply (Hcl (or_introl Hb) c Hin).
Qed.

End Planning.

Lemma clean_not_planning (m : Msg.t) : clean m -> not_planning m.
Proof.
  intros [H _]. unfold flagP in H. apply Bool.orb_false_elim in H. apply H.
Qed.

(** in a list in flight only the last message can be planning *)
Lemma in_flight_not_planning (l : list Msg.t) :
  in_flight l -> last_not_planning l -> Forall not_planning l.
Proof.
  intros (_ & settled & tail & -> & Hs & Ht) Hlast.
  assert (Hsettled : Forall not_planning settled).
  { eapply Forall_impl; [|exact Hs]. exact clean_not_planning. }
  apply Forall_app. split; [exact Hsettled|].
  unfold last_not_planning in Hlast.
  destruct Ht as [(m & -> & _ & _) | (a & m & -> & Ha & _ & _)].
  - rewrite last_opt_app in Hlast. constructor; [exact Hlast|constructor].
  - change [a; m] with ([a] ++ [m]) in Hlast.
    rewrite app_assoc, last_opt_app in Hlast.
    unfold flagP in Ha. apply Bool.orb_false_elim in Ha.
    constructor; [apply Ha|]. constructor; [exact Hlast|constructor].
Qed.

Lemma start_turn_not_cancelled (cid : Id) (modelToUse : ChatModel) (p : string)
  (images : option (list Image)) (file : option FileAttachment)
  (url : option string) (isRetry : bool) (w : World) :
  isCancelledRef (snd (start_turn cid modelToUse p images file url isRetry w)) = false.
Proof.
  unfold start_turn, randomUUID, now, updateConversationMessages,
    updateConversation, bind, modify, gets. cbn.
  destruct isRetry; reflexivity.
Qed.



(** ** The store between turns *)

(** what [settled_conversations] asks of one list of messages *)
Definition settled_messages (next : Id) (l : list Msg.t) : Prop :=
  Forall clean l /\ NoDup (map Msg.id l) /\ Forall (fun m => Msg.id m < next) l.

Lemma settled_updateConversation (cid : Id) (u : Convo.t -> Convo.t) (w : World) :
  (forall c, settled_messages (nextId w) (Convo.messages c) ->
             settled_messages (nextId w) (Convo.messages (u c))) ->
  settled_store w -> settled_store (snd (updateConversation cid u w)).
Proof.
  intros Hu (Hth & Hl & Hs). unfold updateConversation, modify. cbn.
  split; [exact Hth|]. split; [exact Hl|].
  intros c' Hc'. apply in_map_iff in Hc' as (c & <- & Hc).
  destruct (Nat.eqb (Convo.id c) cid); [apply Hu|]; exact (Hs c Hc).
Qed.

Lemma settled_messages_filter (next : Id) (p : Msg.t -> bool) (l : list Msg.t) :
  settled_messages next l -> settled_messages next (filter p l).
Proof.
  intros (Hc & Hnd & Hb). repeat split.
  - apply Forall_forall. intros m Hm. apply filter_In in Hm as [Hm _].
    rewrite Forall_forall in Hc. exact (Hc m Hm).
  - clear Hc Hb. induction l as [|a l IH]; [constructor|].
    simpl in *. inversion Hnd as [|? ? Hna Hnd']; subst.
    destruct (p a); [|exact (IH Hnd')].
    simpl. constructor; [|exact (IH Hnd')].
    intro Hin. apply Hna. apply in_map_iff in Hin as (m & Hid & Hm).
    apply filter_In in Hm as [Hm _]. apply in_map_iff. exists m. auto.
  - apply Forall_forall. intros m Hm. apply filter_In in Hm as [Hm _].
    rewrite Forall_forall in Hb. exact (Hb m Hm).
Qed.

Lemma settled_messages_map (next : Id) (g : Msg.t -> Msg.t) (l : list Msg.t) :
  (forall m, Msg.id (g m) = Msg.id m) -> (forall m, clean m -> clean (g m)) ->
  settled_messages next l -> settled_messages next (map g l).
Proof.
  intros Hid Hclean (Hc & Hnd & Hb). repeat split.
  - apply Forall_forall. intros m' Hm'. apply in_map_iff in Hm' as (m & <- & Hm).
    rewrite Forall_forall in Hc. exact (Hclean m (Hc m Hm)).
  - rewrite map_map. erewrite map_ext; [exact Hnd|]. exact Hid.
  - apply Forall_forall. intros m' Hm'. apply in_map_iff in Hm' as (m & <- & Hm).
    rewrite Forall_forall in Hb. rewrite Hid. exact (Hb m Hm).
Qed.

(** X21.  Editing the content of a message, deleting messages,
    renaming a conversation and pinning it leave a settled store settled: no
    timer armed, no message with a transient flag, the ids of a conversation's
    messages distinct and below the supply.  So a turn started after any of
    them starts from the state the turn invariants assume. *)
Theorem maintenance_keeps_settled (r w : World) (cid messageId : Id)
  (newContent newTitle : string) (messageIds : list Id) :
  settled_store w ->
  settled_store (snd (handleUpdateMessageContent r messageId newContent w)) /\
  settled_store (snd (handleDeleteMultipleMessages cid messageIds w)) /\
  settled_store (snd (handleRenameConversation cid newTitle w)) /\
  settled_store (snd (handlePinConversation cid w)).
Proof.
  intro Hw. split; [|split; [|split]].
  - unfold handleUpdateMessageContent.
    destruct (activeConversationId r) as [active|]; [|exact Hw].
    apply settled_updateConversation; [|exact Hw].
    intros c Hc. simpl. apply settled_messages_map; [| |exact Hc].
    + intro m. destruct (Nat.eqb (Msg.id m) messageId); reflexivity.
    + intros m Hm. destruct (Nat.eqb (Msg.id m) messageId); exact Hm.
  - apply settled_updateConversation; [|exact Hw].
    intros c Hc. simpl. apply settled_messages_filter, Hc.
  - apply settled_updateConversation; [|exact Hw]. intros c Hc. exact Hc.
  - apply settled_updateConversation; [|exact Hw]. intros c Hc. exact Hc.
Qed.

Lemma maintenance_keeps_settled_witness :
  settled_store (snd (handleUpdateMessageContent settled_chat 2 "hello!" settled_chat)) /\
  settled_store (snd (handleDeleteMultipleMessages 0 [1] settled_chat)) /\
  settled_store (snd (handleRenameConversation 0 "Greetings" settled_chat)) /\
  settled_store (snd (handlePinConversation 0 settled_chat)).
Proof.
  apply (maintenance_keeps_settled settled_chat settled_chat 0 2 "hello!"
           "Greetings" [1]).
  split; [reflexivity|]. split; [reflexivity|].
  intros c [<- | []]. simpl.
  split; [repeat constructor|]. split.
  - repeat constructor; simpl; intuition lia.
  - repeat constructor; simpl; lia.
Defined.

(** X22.  Confirming the deletion of a non-empty selection
    with a conversation active empties the selection and removes from the
    active conversation exactly the messages whose id is selected, keeping the
    others in their order; the messages of every other conversation stay as
    they were. *)
Theorem confirm_delete_messages (w : World) (cid : Id) (selected : list Id)
  (msgs : list Msg.t) :
  activeConversationId w = Some cid ->
  selected <> [] ->
  messages_of w cid = Some msgs ->
  let out := handleConfirmDeleteMessages w selected w in
  fst out = Normal [] /\
  (exists kept,
     messages_of (snd out) cid = Some kept /\
     (forall m, In m kept <-> In m msgs /\ ~ In (Msg.id m) selected) /\
     exists keep, kept = filter keep msgs) /\
  forall other, other <> cid -> messages_of (snd out) other = messages_of w other.
Proof.
  intros Ha Hne Hm out. unfold out, handleConfirmDeleteMessages. rewrite Ha.
  destruct selected as [|s rest]; [contradiction|].
  change (Nat.ltb 0 (length (s :: rest))) with true. cbv iota.
  unfold handleDeleteMultipleMessages.
  set (keep := fun msg : Msg.t => negb (includes_id (Msg.id msg) (s :: rest))).
  assert (Hrun : forall w0,
            (updateConversationMessages cid (filter keep) ;; ret (@nil Id)) w0 =
            (Normal [], snd (updateConversationMessages cid (filter keep) w0))).
  { intro w0. reflexivity. }
  rewrite Hrun. cbn [fst snd].
  split; [reflexivity|]. split.
  - exists (filter keep msgs). rewrite messages_of_update, Hm.
    split; [reflexivity|]. split; [|exists keep; reflexivity].
    intro m. rewrite filter_In. unfold keep.
    rewrite Bool.negb_true_iff, <- Bool.not_true_iff_false, includes_id_In.
    reflexivity.
  - intros other Hother. unfold messages_of, updateConversationMessages,
      updateConversation, modify. cbn.
    f_equal. unfold find_conversation.
    induction (conversations w) as [|c cs IH]; [reflexivity|].
    simpl. destruct (Nat.eqb (Convo.id c) cid) eqn:E.
    + apply Nat.eqb_eq in E. simpl.
      assert (Hc : Nat.eqb (Convo.id c) other = false)
        by (apply Nat.eqb_neq; congruence).
      rewrite Hc. exact IH.
    + destruct (Nat.eqb (Convo.id c) other); [reflexivity|exact IH].
Qed.

Lemma confirm_delete_messages_witness :
  let out := handleConfirmDeleteMessages settled_chat [1] settled_chat in
  fst out = Normal [] /\
  (exists kept,
     messages_of (snd out) 0 = Some kept /\
     (forall m, In m kept <->
                In m [newUserMessage 1 "hi" None None None gemini_2_5_flash 0;
                      new_model_message 2 "hello" 0] /\ ~ In (Msg.id m) [1]) /\
     exists keep, kept = filter keep
                           [newUserMessage 1 "hi" None None None gemini_2_5_flash 0;
                            new_model_message 2 "hello" 0]) /\
  forall other, other <> 0 -> messages_of (snd out) other = messages_of settled_chat other.
Proof.
  apply (confirm_delete_messages settled_chat 0 [1]
           [newUserMessage 1 "hi" None None None gemini_2_5_flash 0;
            new_model_message 2 "hello" 0]).
  - reflexivity.
  - discriminate.
  - reflexivity.
Defined.

(** ** Turns that run on

    [running]: the turn of conversation [cid] is under way and has not been
    cancelled.  [goes c Q]: from a running state [c] completes normally, in a
    running state, with a value that satisfies [Q]. *)

Lemma find_conversation_In (cs : list Convo.t) (cid : Id) (c : Convo.t) :
  find_conversation cs cid = Some c -> In c cs /\ Convo.id c = cid.
Proof.
  unfold find_conversation. intro H. apply find_some in H as [Hin E].
  split; [exact Hin|]. apply Nat.eqb_eq, E.
Qed.

Lemma await_not_cancelled (ints : list Interrupt) (w : World) :
  has_cancel ints = false ->
  isCancelledRef (snd (await ints w)) = isCancelledRef w.
Proof.
  revert w. induction ints as [|i ints IH]; intros w H; [reflexivity|].
  rewrite await_cons. simpl in H. apply orb_false_iff in H as [Hi H].
  rewrite (IH _ H). destruct i; try discriminate.
  - reflexivity.
  - unfold interrupt, modify. simpl. destruct (responseTimerRef w); reflexivity.
  - unfold interrupt, bind, gets, modify, updateConversationMessages,
      updateConversation.
    destruct (thinkingTimerRef w); reflexivity.
  - unfold interrupt, bind, gets, modify, updateConversationMessages,
      updateConversation.
    destruct (longToolUseTimer w); reflexivity.
Qed.

Section Running.
Variable cid : Id.
Variable trace0 : list (list Convo.t).

(** the newest snapshot of the trace is the store *)
Definition trace_head (w : World) : Prop :=
  exists older, trace w = conversations w :: older.

Definition running (w : World) : Prop :=
  turn_inv cid trace0 w /\ isCancelledRef w = false /\ trace_head w /\
  find_conversation (conversations w) cid <> None.

Definition goes {A : Type} (c : M A) (Q : A -> Prop) : Prop :=
  forall w, running w -> exists a w', c w = (Normal a, w') /\ running w' /\ Q a.

Lemma running_last (w : World) :
  running w ->
  exists pre m, messages_of w cid = Some (pre ++ [m]) /\ Msg.role m = model.
Proof.
  intros ((_ & _ & _ & Hs & _) & _ & _ & Hp). unfold messages_of.
  destruct (find_conversation (conversations w) cid) as [c|] eqn:E;
    [|contradiction].
  apply find_conversation_In in E as [Hin Hid].
  destruct (in_flight_last _ (proj1 (Hs c Hin) Hid)) as (pre & m & Hl & Hr).
  exists pre, m. simpl. rewrite Hl. auto.
Qed.

(** a change of the hook state beside the store *)
Lemma running_hook (w w' : World) :
  activeConversationId w' = activeConversationId w ->
  conversations w' = conversations w ->
  trace w' = trace w ->
  isCancelledRef w' = isCancelledRef w ->
  timer_ok cid (thinkingTimerRef w') ->
  timer_ok cid (longToolUseTimer w') ->
  running w -> running w'.
Proof.
  intros Ha Hc Ht Hf Hth Hl ((Ha0 & _ & _ & Hs & Hn) & Hf0 & Hh & Hp).
  split; [|split; [|split]].
  - unfold turn_inv. rewrite Ha, Hc, Ht. auto.
  - congruence.
  - unfold trace_head. rewrite Ht, Hc. exact Hh.
  - rewrite Hc. exact Hp.
Qed.

Lemma running_updateConversation (u : Convo.t -> Convo.t) (w : World) :
  (forall c, Convo.id (u c) = Convo.id c) ->
  (forall c, in_flight (Convo.messages c) -> in_flight (Convo.messages (u c))) ->
  running w -> running (snd (updateConversation cid u w)).
Proof.
  intros Hid Hu (Hinv & Hf & Hh & Hp). split; [|split; [|split]].
  - apply turn_inv_updateConversation; assumption.
  - exact Hf.
  - unfold updateConversation, modify, trace_head. cbn. eexists. reflexivity.
  - unfold updateConversation, modify. cbn.
    rewrite find_conversation_map by exact Hid.
    destruct (find_conversation (conversations w) cid); [discriminate|contradiction].
Qed.

Lemma goes_ret {A : Type} (a : A) (Q : A -> Prop) : Q a -> goes (ret a) Q.
Proof. intros HQ w Hw. exists a, w. auto. Qed.

Lemma goes_bind {A B : Type} (c : M A) (k : A -> M B) (Q : A -> Prop)
  (R : B -> Prop) :
  goes c Q -> (forall a, Q a -> goes (k a) R) -> goes (bind c k) R.
Proof.
  intros Hc Hk w Hw. destruct (Hc w Hw) as (a & w1 & E & Hw1 & Ha).
  destruct (Hk a Ha w1 Hw1) as (b & w2 & E2 & Hw2 & Hb).
  exists b, w2. unfold bind. rewrite E. auto.
Qed.

Lemma goes_seq {A B : Type} (c : M A) (k : M B) (R : B -> Prop) :
  goes c (fun _ => True) -> goes k R -> goes (bind c (fun _ => k)) R.
Proof. intros Hc Hk. apply goes_bind with (Q := fun _ => True); auto. Qed.

Lemma goes_weaken {A : Type} (c : M A) (Q Q' : A -> Prop) :
  goes c Q -> (forall a, Q a -> Q' a) -> goes c Q'.
Proof.
  intros Hc HQ w Hw. destruct (Hc w Hw) as (a & w1 & E & Hw1 & Ha).
  exists a, w1. auto.
Qed.

Lemma goes_gets {A : Type} (f : World -> A) : goes (gets f) (fun _ => True).
Proof. intros w Hw. exists (f w), w. auto. Qed.

Lemma goes_cancelled : goes (gets isCancelledRef) (fun b => b = false).
Proof. intros w Hw. exists (isCancelledRef w), w. split; [reflexivity|]. split; [exact Hw|apply Hw]. Qed.

Lemma goes_modify (f : World -> World) :
  (forall w, running w -> running (f w)) -> goes (modify f) (fun _ => True).
Proof. intros Hf w Hw. exists tt, (f w). auto. Qed.

Lemma goes_update (f : list Msg.t -> list Msg.t) :
  (forall l, in_flight l -> in_flight (f l)) ->
  goes (updateConversationMessages cid f) (fun _ => True).
Proof.
  intros Hf w Hw. eexists tt, _. split; [reflexivity|]. split; [|trivial].
  apply (running_updateConversation
           (fun c => Convo.set_messages (f (Convo.messages c)) c));
    [reflexivity | intros c Hc; apply Hf, Hc | exact Hw].
Qed.

Lemma goes_update_meta (u : Convo.t -> Convo.t) :
  (forall c, Convo.id (u c) = Convo.id c) ->
  (forall c, Convo.messages (u c) = Convo.messages c) ->
  goes (updateConversation cid u) (fun _ => True).
Proof.
  intros Hid Hm w Hw. eexists tt, _. split; [reflexivity|]. split; [|trivial].
  apply running_updateConversation; [exact Hid | | exact Hw].
  intros c Hc. rewrite Hm. exact Hc.
Qed.

Lemma goes_when (b : bool) (c : M unit) :
  (b = true -> goes c (fun _ => True)) -> goes (when b c) (fun _ => True).
Proof. intro H. destruct b; [exact (H eq_refl)|apply goes_ret; exact I]. Qed.

Lemma running_timers (w : World) :
  running w -> timer_ok cid (thinkingTimerRef w) /\ timer_ok cid (longToolUseTimer w).
Proof. intros ((_ & Hth & Hl & _) & _). auto. Qed.

End Running.

Ltac hook :=
  let w := fresh "w" in
  let Hw := fresh "Hw" in
  intros w Hw;
  apply (running_hook _ _ w); try reflexivity; try exact Hw;
  solve [ left; reflexivity | right; reflexivity
        | apply (running_timers _ _ w Hw) ].

Ltac in_flight_side :=
  intros ? ?;
  first
    [ apply in_flight_thinking_tick | apply in_flight_watchdog
    | apply in_flight_search_plan | apply in_flight_clear_planning
    | apply in_flight_stream | apply in_flight_usage
    | apply in_flight_generation_time | apply in_flight_error
    | apply in_flight_tool_error | apply in_flight_molecule_error
    | apply in_flight_image_done | apply in_flight_file_done
    | apply in_flight_clear_analysis | apply in_flight_cancel
    | apply in_flight_map_last; [setter_side..|]
    | apply in_flight_mark; [setter_side..|] ];
  assumption.

Ltac goes_step :=
  first
    [ apply goes_ret; exact I
    | apply goes_gets
    | apply goes_update; solve [in_flight_side]
    | apply goes_update_meta; reflexivity
    | apply goes_modify; hook
    | apply goes_when; intros _
    | apply goes_bind with (Q := fun _ => True); [|intros ? _] ].

Ltac goes_auto := repeat goes_step.

Section RunningSteps.
Variable cid : Id.
Variable trace0 : list (list Convo.t).
Lemma goes_emit (ev : Event) : goes cid trace0 (emit ev) (fun _ => True).
Proof. unfold emit. goes_auto. Qed.

Lemma goes_randomUUID : goes cid trace0 randomUUID (fun _ => True).
Proof.
  intros w Hw. eexists _, _. split; [reflexivity|]. split; [|trivial].
  destruct (running_timers cid trace0 w Hw) as [Ht Hl].
  revert Hw. apply (running_hook cid trace0); try reflexivity; assumption.
Qed.

Lemma goes_interrupt (i : Interrupt) :
  i <> CancelClicked -> goes cid trace0 (interrupt i) (fun _ => True).
Proof.
  intro Hi. destruct i; [| | | |contradiction]; simpl.
  - goes_auto.
  - apply goes_modify. intros w Hw. destruct (responseTimerRef w); [|exact Hw].
    destruct (running_timers cid trace0 w Hw) as [Ht Hl].
    revert Hw. apply (running_hook cid trace0); try reflexivity; assumption.
  - intros w Hw. unfold bind at 1, gets.
    destruct (proj1 (running_timers cid trace0 w Hw)) as [E | E]; rewrite E.
    + exists tt, w. auto.
    + revert w Hw E. assert (H : goes cid trace0
        (modify (fun w => set_thinkingTimeRef (S (thinkingTimeRef w)) w) ;;
         t <- gets thinkingTimeRef ;;
         updateConversationMessages cid (thinking_tick_updater t))
        (fun _ => True)) by goes_auto.
      intros w Hw _. exact (H w Hw).
  - intros w Hw. unfold bind at 1, gets.
    destruct (proj2 (running_timers cid trace0 w Hw)) as [E | E]; rewrite E.
    + exists tt, w. auto.
    + revert w Hw E. assert (H : goes cid trace0
        (modify (set_longToolUseTimer None) ;;
         modify (set_isLongToolUse true) ;;
         updateConversationMessages cid watchdog_updater)
        (fun _ => True)) by goes_auto.
      intros w Hw _. exact (H w Hw).
Qed.

Lemma goes_await (ints : list Interrupt) :
  has_cancel ints = false -> goes cid trace0 (await ints) (fun _ => True).
Proof.
  induction ints as [|i ints IH]; intro H; simpl; [apply goes_ret; exact I|].
  simpl in H. apply orb_false_iff in H as [Hi H].
  apply goes_seq; [|exact (IH H)].
  apply goes_interrupt. intros ->. discriminate.
Qed.

Lemma goes_return_if_cancelled : goes cid trace0 return_if_cancelled (fun _ => True).
Proof.
  unfold return_if_cancelled.
  apply goes_bind with (Q := fun b => b = false); [apply goes_cancelled|].
  intros b ->. apply goes_ret. exact I.
Qed.

Lemma goes_handleToolError (msg : string) :
  goes cid trace0 (handleToolError cid msg) (fun _ => True).
Proof. unfold handleToolError, stopResponseTimer. goes_auto. Qed.

(** what [title_step] hands on: the new [titleExtracted] *)
Definition next_extracted (isFirst titleExtracted : bool) (accumulated : string)
  : bool :=
  if isFirst then
    if titleExtracted then true
    else
      match match_title accumulated with
      | Some _ => includes_newline accumulated
      | None =>
          (Nat.ltb 50 (String.length accumulated) &&
           negb (startsWith accumulated "TITLE:"))%bool
      end
  else titleExtracted.

Lemma goes_title_step (isFirst te : bool) (acc : string) :
  goes cid trace0 (title_step cid isFirst te acc)
    (fun x => x = (next_extracted isFirst te acc,
                   if isFirst then strip_title_line acc else acc)).
Proof.
  unfold title_step, next_extracted.
  destruct isFirst; [|apply goes_ret; reflexivity].
  destruct te.
  { apply goes_bind with (Q := fun b => b = true); [apply goes_ret; reflexivity|].
    intros b ->. apply goes_ret. reflexivity. }
  destruct (match_title acc) as [g|].
  - apply goes_bind with (Q := fun b => b = includes_newline acc).
    + apply goes_seq; [goes_auto|apply goes_ret; reflexivity].
    + intros b ->. apply goes_ret. reflexivity.
  - match goal with |- context [if ?b then _ else _] => destruct b end.
    + apply goes_bind with (Q := fun b => b = true).
      * apply goes_seq; [goes_auto|apply goes_ret; reflexivity].
      * intros b ->. apply goes_ret. reflexivity.
    + apply goes_bind with (Q := fun b => b = false);
        [apply goes_ret; reflexivity|].
      intros b ->. apply goes_ret. reflexivity.
Qed.

Lemma goes_chunk_step (isFirst : bool) (chunk : Chunk) (acc : string) (te : bool)
  (usage : option Usage) :
  goes cid trace0 (chunk_step cid isFirst chunk acc te usage)
    (fun x => x = ((acc ++ chunk_text chunk)%string,
                   next_extracted isFirst te (acc ++ chunk_text chunk),
                   match usageMetadata chunk with
                   | Some u => Some u
                   | None => usage
                   end)).
Proof.
  unfold chunk_step, now. cbv zeta.
  eapply goes_bind; [apply goes_title_step|]. intros x ->. cbv beta iota.
  apply goes_bind with (Q := fun _ => True); [apply goes_randomUUID|].
  intros newId _.
  apply goes_bind with (Q := fun _ => True); [apply goes_gets|]. intros ts _.
  apply goes_seq; [goes_auto|]. apply goes_ret. reflexivity.
Qed.

(** a stream that is read without a cancellation is read whole *)
Lemma goes_stream_loop (env : Env) (isFirst : bool)
  (stream : list (list Interrupt * Chunk)) :
  has_cancel (concat (map fst stream) ++ duringEnd env) = false ->
  streamError env = None ->
  forall acc te usage,
    goes cid trace0 (stream_loop env cid isFirst stream acc te usage)
      (fun x => x = ((acc ++ stream_text stream)%string,
                     stream_usage stream usage)).
Proof.
  intros Hc He. induction stream as [|[ints chunk] rest IH];
    intros acc te usage; simpl.
  - apply goes_seq; [apply goes_await; exact Hc|].
    rewrite He. apply goes_ret. rewrite append_empty. reflexivity.
  - simpl in Hc. rewrite <- app_assoc in Hc. unfold has_cancel in Hc.
    rewrite existsb_app in Hc. apply orb_false_iff in Hc as [Hi Hc].
    apply goes_seq; [apply goes_await; exact Hi|].
    apply goes_bind with (Q := fun b => b = false); [apply goes_cancelled|].
    intros b ->.
    eapply goes_bind; [apply goes_chunk_step|]. intros x ->. cbv beta iota.
    eapply goes_weaken; [apply (IH Hc)|].
    intros x ->. rewrite append_assoc. reflexivity.
Qed.

End RunningSteps.

(** ** Turns that reach the stream

    A turn whose tools succeed, whose request is not empty and whose stream
    opens, and that is not cancelled on the way, reaches the stream loop in a
    running state: what holds of the loop and of the end of the [try] block
    from a running state holds of the whole [try] block. *)

Lemma has_cancel_app (a b : list Interrupt) :
  has_cancel (a ++ b) = (has_cancel a || has_cancel b)%bool.
Proof. unfold has_cancel. apply existsb_app. Qed.

Section NormalTurn.
Variable cid : Id.
Variable trace0 : list (list Convo.t).

Lemma leads_goes {A B : Type} (c : M A) (k : A -> M B) (Q : A -> Prop)
  (R : B -> World -> Prop) (E : World -> Prop) :
  goes cid trace0 c Q ->
  (forall a, Q a -> leads (running cid trace0) (k a) R E) ->
  leads (running cid trace0) (bind c k) R E.
Proof.
  intros Hc Hk w Hw. destruct (Hc w Hw) as (a & w1 & Ec & Hw1 & Ha).
  unfold bind. rewrite Ec. exact (Hk a Ha w1 Hw1).
Qed.

Lemma goes_url_phase (env : Env) (fullPrompt : string) (url : option string)
  (plan : Plan.t) (p0 : string) :
  Plan.isUrlReadRequest plan = true ->
  prompt_after_url env plan fullPrompt url = Some p0 ->
  has_cancel (duringUrl env) = false ->
  goes cid trace0 (url_phase env cid fullPrompt url) (fun p => p = p0).
Proof.
  intros Hu Hp Hc. unfold prompt_after_url in Hp. rewrite Hu in Hp.
  unfold url_phase, emit. destruct url as [u|]; [|discriminate].
  destruct (urlOutcome env) as [content|e]; [|discriminate].
  destruct (truthy u); [|discriminate]. injection Hp as <-.
  apply goes_seq; [goes_auto|].
  apply goes_seq; [goes_auto|].
  apply goes_seq; [apply goes_await; exact Hc|].
  apply goes_seq; [apply goes_return_if_cancelled|].
  apply goes_ret. reflexivity.
Qed.

Lemma goes_molecule_phase (env : Env) (fullPrompt : string) (plan : Plan.t)
  (d : MoleculeData) :
  moleculeOutcome env = inr d ->
  has_cancel (duringMolecule env) = false ->
  goes cid trace0 (molecule_phase env cid fullPrompt plan)
    (fun p => p = molecule_prompt (moleculeName_of plan fullPrompt)).
Proof.
  intros Ho Hc. unfold molecule_phase, emit.
  fold (moleculeName_of plan fullPrompt). rewrite Ho. cbv zeta.
  apply goes_seq; [goes_auto|].
  apply goes_seq; [goes_auto|].
  apply goes_seq; [apply goes_await; exact Hc|].
  apply goes_seq; [apply goes_return_if_cancelled|].
  apply goes_seq; [goes_auto|].
  apply goes_ret. reflexivity.
Qed.

Lemma goes_usage_phase (usage : option Usage) (p : string) (t : option ToolInUse)
  (a b c : bool) :
  goes cid trace0 (usage_phase cid usage p t a b c) (fun _ => True).
Proof.
  unfold usage_phase.
  apply goes_bind with (Q := fun _ => True); [apply goes_gets|]. intros cancelled _.
  destruct usage; goes_auto.
Qed.

Lemma goes_background_writers (r : World) (p response : string) :
  goes cid trace0 (background_writers r cid p response) (fun _ => True).
Proof.
  unfold background_writers, emit.
  apply goes_bind with (Q := fun _ => True); [apply goes_gets|]. intros cancelled _.
  destruct (find_conversation (conversations r) cid); [|goes_auto].
  destruct cancelled; goes_auto.
Qed.

Lemma leads_turn_body_normal (r : World) (env : Env) (isFirst : bool)
  (convo : Convo.t) (modelToUse : ChatModel) (fullPrompt : string)
  (images : option (list Image)) (file : option FileAttachment)
  (url : option string) (plan : Plan.t) (think web : bool) (p : string)
  (R : unit -> World -> Prop) (E : World -> Prop) :
  toolOverrides (selectedTool r) (planResponse (planOutcome env))
    (Plan.needsThinking (planResponse (planOutcome env)))
    (Plan.needsWebSearch (planResponse (planOutcome env))) = (plan, think, web) ->
  has_cancel (duringPlan env ++ duringUrl env ++ duringMolecule env ++
              duringFindCode env ++ duringOpen env) = false ->
  prompt_after_molecule env plan fullPrompt url = Some p ->
  userMessageParts images file p <> [] ->
  streamOpenError env = None ->
  leads (running cid trace0)
    (' (finalModelResponse, usage) <-
       stream_loop env cid isFirst (chunks env) "" false None ;;
     usage_phase cid usage fullPrompt
       (if Plan.isUrlReadRequest plan then Some url_tool else None)
       (isImageAnalysisRequest images) (Msg.has file) (web_at_call plan web) ;;
     background_writers r cid fullPrompt finalModelResponse) R E ->
  leads (running cid trace0)
    (turn_body r env cid isFirst convo modelToUse fullPrompt images file url) R E.
Proof.
  intros Hov Hc Hp Hparts Hopen Hrest.
  rewrite !has_cancel_app in Hc.
  apply orb_false_iff in Hc as [Hc1 Hc]. apply orb_false_iff in Hc as [Hc2 Hc].
  apply orb_false_iff in Hc as [Hc3 Hc]. apply orb_false_iff in Hc as [Hc4 Hc5].
  unfold turn_body, emit.
  apply leads_goes with (Q := fun _ => True); [goes_auto|]. intros _ _.
  apply leads_goes with (Q := fun _ => True); [apply goes_await; exact Hc1|].
  intros _ _.
  apply leads_goes with (Q := fun _ => True); [apply goes_return_if_cancelled|].
  intros _ _.
  rewrite Hov. fold (isImageAnalysisRequest images).
  apply leads_goes with (Q := fun _ => True); [goes_auto|]. intros _ _.
  apply leads_goes with (Q := fun _ => True); [goes_auto|]. intros _ _.
  apply leads_goes with (Q := fun _ => True); [goes_auto|]. intros _ _.
  set (plan' := if isImageAnalysisRequest images
                then Plan.set_thoughts [] plan else plan).
  assert (Hurl_eq : Plan.isUrlReadRequest plan' = Plan.isUrlReadRequest plan)
    by (unfold plan'; destruct (isImageAnalysisRequest images); reflexivity).
  assert (Hmol_eq : Plan.isMoleculeRequest plan' = Plan.isMoleculeRequest plan)
    by (unfold plan'; destruct (isImageAnalysisRequest images); reflexivity).
  assert (Hname : molecule_phase env cid fullPrompt plan' =
                  molecule_phase env cid fullPrompt plan)
    by (unfold plan'; destruct (isImageAnalysisRequest images); reflexivity).
  rewrite Hurl_eq, Hmol_eq, Hname.
  assert (Hp0 : exists p0, prompt_after_url env plan fullPrompt url = Some p0).
  { unfold prompt_after_molecule in Hp.
    destruct (Plan.isMoleculeRequest plan); [|eauto].
    destruct (prompt_after_url env plan fullPrompt url); [eauto|discriminate]. }
  destruct Hp0 as [p0 Hp0].
  apply leads_goes with (Q := fun x => x = p0).
  { destruct (Plan.isUrlReadRequest plan) eqn:Hu.
    - apply goes_url_phase with (plan := plan); assumption.
    - apply goes_ret. unfold prompt_after_url in Hp0. rewrite Hu in Hp0.
      congruence. }
  intros ? ->.
  apply leads_goes with
    (Q := fun x => x = (p, web_at_call plan web, thinking_at_call plan think images)).
  { unfold prompt_after_molecule, web_at_call, thinking_at_call in *.
    destruct (Plan.isMoleculeRequest plan) eqn:Hm.
    - rewrite Hp0 in Hp. destruct (moleculeOutcome env) as [e|d] eqn:Ho;
        [discriminate|]. injection Hp as <-.
      eapply goes_bind; [apply (goes_molecule_phase env fullPrompt plan d Ho Hc3)|].
      intros ? ->. apply goes_ret. reflexivity.
    - apply goes_ret. congruence. }
  intros ? ->. cbv beta iota.
  apply leads_goes with (Q := fun _ => True); [goes_auto|]. intros _ _.
  apply leads_goes with (Q := fun _ => True); [goes_auto|]. intros _ _.
  apply leads_goes with (Q := fun _ => True); [goes_auto|]. intros _ _.
  apply leads_goes with (Q := fun _ => True).
  { apply goes_when. intros _.
    apply goes_seq; [goes_auto|].
    apply goes_seq; [apply goes_await; exact Hc4|].
    apply goes_return_if_cancelled. }
  intros _ _.
  apply leads_goes with (Q := fun _ => True).
  { destruct (userMessageParts images file p) as [|x l]; [contradiction|].
    apply goes_ret. exact I. }
  intros _ _.
  apply leads_goes with (Q := fun _ => True).
  { destruct (web_at_call plan web); goes_auto. }
  intros _ _.
  apply leads_goes with (Q := fun _ => True); [apply goes_await; exact Hc5|].
  intros _ _.
  rewrite Hopen.
  apply leads_goes with (Q := fun _ => True); [goes_auto|]. intros _ _.
  apply leads_goes with (Q := fun _ => True); [goes_auto|]. intros _ _.
  apply leads_goes with (Q := fun _ => True); [goes_auto|]. intros _ _.
  apply leads_goes with (Q := fun _ => True).
  { apply goes_when. intros _. unfold clearThinkingIntervals. goes_auto. }
  intros _ _.
  apply leads_goes with (Q := fun _ => True); [goes_auto|]. intros _ _.
  apply leads_goes with (Q := fun _ => True); [goes_auto|]. intros _ _.
  apply leads_goes with (Q := fun _ => True); [goes_auto|]. intros _ _.
  exact Hrest.
Qed.

End NormalTurn.

(** ** From [send] to the [try] block *)

Lemma start_turn_trace_head (cid : Id) (modelToUse : ChatModel) (p : string)
  (images : option (list Image)) (file : option FileAttachment)
  (url : option string) (isRetry : bool) (w : World) :
  trace_head (snd (start_turn cid modelToUse p images file url isRetry w)).
Proof.
  unfold start_turn, randomUUID, now, updateConversationMessages,
    updateConversation, bind, modify, gets, trace_head.
  destruct isRetry; cbn; eexists; reflexivity.
Qed.

Lemma start_turn_present (cid : Id) (modelToUse : ChatModel) (p : string)
  (images : option (list Image)) (file : option FileAttachment)
  (url : option string) (isRetry : bool) (w : World) :
  find_conversation (conversations w) cid <> None ->
  find_conversation
    (conversations (snd (start_turn cid modelToUse p images file url isRetry w)))
    cid <> None.
Proof.
  intro H.
  unfold start_turn, randomUUID, now, updateConversationMessages,
    updateConversation, bind, modify, gets.
  destruct isRetry; cbn; rewrite find_conversation_map by reflexivity;
    destruct (find_conversation (conversations w) cid);
    first [discriminate|contradiction].
Qed.

(** a call that passes the guard and finds its conversation reaches what
    follows the two new messages in a running state *)
Lemma turn_start (w : World) (prompt : string)
  (images : option (list Image)) (file : option FileAttachment)
  (url : option string) (overrideModel : option ChatModel) (isRetry : bool)
  (cid : Id) (isFirst : bool) (convo : Convo.t) :
  settled_store w ->
  turn_conversation w w = Some (cid, isFirst, convo) ->
  exists trace0 w1,
    running cid trace0 w1 /\
    forall k : Id -> bool -> Convo.t -> M unit,
      snd ((' (c, i, cv) <- resolve_conversation w ;;
            start_turn c (modelToUse_of w overrideModel) prompt images file url
              isRetry ;;
            k c i cv) w) =
      snd (k cid isFirst convo w1).
Proof.
  intros (Hth & Hl & Hs) Hc.
  assert (Hrun : forall w0,
            activeConversationId w0 = Some cid ->
            thinkingTimerRef w0 = None -> longToolUseTimer w0 = None ->
            settled_conversations (nextId w0) (conversations w0) ->
            find_conversation (conversations w0) cid <> None ->
            exists trace0 w1,
              running cid trace0 w1 /\
              forall k : M unit,
                snd ((start_turn cid (modelToUse_of w overrideModel) prompt images
                        file url isRetry ;; k) w0) = snd (k w1)).
  { intros w0 Ha0 Hth0 Hl0 Hs0 Hp0.
    assert (Htr : exists new, trace w0 = new ++ trace w0 /\ Forall snapshot_ok new).
    { exists []. split; [reflexivity|constructor]. }
    destruct (start_turn_establishes cid (trace w0) (modelToUse_of w overrideModel)
                prompt images file url isRetry w0 Ha0 Hth0 Hl0 Hs0 Htr)
      as [Hn Hinv].
    pose proof (start_turn_not_cancelled cid (modelToUse_of w overrideModel) prompt
                  images file url isRetry w0) as Hnc.
    pose proof (start_turn_trace_head cid (modelToUse_of w overrideModel) prompt
                  images file url isRetry w0) as Hh.
    pose proof (start_turn_present cid (modelToUse_of w overrideModel) prompt
                  images file url isRetry w0 Hp0) as Hp.
    destruct (start_turn cid (modelToUse_of w overrideModel) prompt images file url
                isRetry w0) as [res w1] eqn:Est.
    simpl in Hn, Hinv, Hnc, Hh, Hp. subst res.
    exists (trace w0), w1. split.
    - split; [exact Hinv|]. split; [exact Hnc|]. split; [exact Hh|exact Hp].
    - intro k. unfold bind. rewrite Est. reflexivity. }
  unfold turn_conversation in Hc.
  destruct (activeConversationId w) as [active|] eqn:Ha.
  - destruct (find_conversation (conversations w) active) as [c|] eqn:Hf;
      [|discriminate].
    injection Hc as <- <- <-.
    destruct (Hrun w Ha Hth Hl Hs) as (trace0 & w1 & Hw1 & Hk).
    { rewrite Hf. discriminate. }
    exists trace0, w1. split; [exact Hw1|]. intro k.
    unfold resolve_conversation. rewrite Ha, Hf, bind_ret. cbn beta iota.
    apply Hk.
  - injection Hc as <- <- <-.
    pose proof (resolve_conversation_new w w Ha) as Hnew.
    destruct (Hrun (snd (resolve_conversation w w))) as (trace0 & w1 & Hw1 & Hk).
    + rewrite Hnew. reflexivity.
    + rewrite Hnew. exact Hth.
    + rewrite Hnew. exact Hl.
    + rewrite Hnew. cbn. intros c [<- | Hc].
      * cbn. repeat split; constructor.
      * destruct (Hs c Hc) as (Hc1 & Hc2 & Hc3). repeat split; try assumption.
        eapply Forall_impl; [|exact Hc3]. cbn. intros m Hm. lia.
    + rewrite Hnew. cbn. unfold find_conversation. cbn. rewrite Nat.eqb_refl.
      discriminate.
    + exists trace0, w1. split; [exact Hw1|]. intro k.
      unfold bind at 1. rewrite Hnew. cbn beta iota.
      rewrite Hnew in Hk. apply Hk.
Qed.

(** such a call is the [try] statement run from a running state *)
Lemma send_turn (w : World) (env : Env) (prompt : string)
  (images : option (list Image)) (file : option FileAttachment)
  (url : option string) (overrideModel : option ChatModel) (isRetry : bool)
  (cid : Id) (isFirst : bool) (convo : Convo.t) :
  settled_store w ->
  send_rejected w prompt images file url = false ->
  turn_conversation w w = Some (cid, isFirst, convo) ->
  exists trace0 w1,
    running cid trace0 w1 /\
    send env prompt images file url overrideModel isRetry w =
    snd (try_finally
           (try_catch
              (turn_body w env cid isFirst convo (modelToUse_of w overrideModel)
                 prompt images file url)
              (turn_catch env cid))
           (turn_finally cid) w1).
Proof.
  intros Hs Hg Hc.
  destruct (turn_start w prompt images file url overrideModel isRetry cid isFirst
              convo Hs Hc) as (trace0 & w1 & Hw1 & Hk).
  exists trace0, w1. split; [exact Hw1|].
  unfold send, handleSendMessage. rewrite Hg.
  exact (Hk (fun c i cv =>
               try_finally
                 (try_catch
                    (turn_body w env c i cv (modelToUse_of w overrideModel) prompt
                       images file url)
                    (turn_catch env c))
                 (turn_finally c))).
Qed.

(** ** The last message at the end of a turn *)

Section LastMessage.
Variable cid : Id.

(** the conversation ends with a model message that satisfies [P] *)
Definition last_is (P : Msg.t -> Prop) (w : World) : Prop :=
  exists pre m, messages_of w cid = Some (pre ++ [m]) /\ Msg.role m = model /\ P m.

Lemma turn_finally_messages (w : World) :
  isCancelledRef w = false ->
  messages_of (snd (turn_finally cid w)) cid =
  option_map (fun l => generation_time_updater (clock w - responseStartTimeRef w)
                         (map clear_analysis l))
    (messages_of w cid).
Proof.
  intro Hc.
  unfold turn_finally, stopResponseTimer, clearThinkingIntervals, now, bind,
    gets, when, modify.
  cbn. rewrite Hc. cbn.
  unfold messages_of, updateConversationMessages, updateConversation, modify.
  cbn. rewrite !find_conversation_map by reflexivity.
  destruct (find_conversation (conversations w) cid); reflexivity.
Qed.

Lemma turn_finally_title (w : World) :
  title_of (snd (turn_finally cid w)) cid = title_of w cid.
Proof.
  unfold turn_finally, stopResponseTimer, clearThinkingIntervals, now, bind,
    gets, when, modify.
  cbn. destruct (isCancelledRef w); cbn; [reflexivity|].
  unfold title_of, updateConversationMessages, updateConversation, modify.
  cbn. rewrite !find_conversation_map by reflexivity.
  destruct (find_conversation (conversations w) cid); reflexivity.
Qed.

Lemma turn_finally_last (P : Msg.t -> Prop) (w : World) :
  (forall m, P m -> P (clear_analysis m)) ->
  (forall m t, P m -> P (Msg.set_generationTime t m)) ->
  isCancelledRef w = false ->
  last_is P w -> last_is P (snd (turn_finally cid w)).
Proof.
  intros Hclear Hgen Hc (pre & m & Hm & Hr & HP).
  unfold last_is. rewrite (turn_finally_messages w Hc), Hm. cbn [option_map].
  rewrite map_app. cbn [map].
  assert (Hr' : Msg.role (clear_analysis m) = model).
  { unfold clear_analysis. destruct (Msg.flag (Msg.analysisCompleted m)); exact Hr. }
  unfold generation_time_updater. rewrite last_opt_app, Hr'.
  destruct (startsWith (Msg.content (clear_analysis m))
              "Sorry, I encountered an error:").
  - eexists _, _. split; [reflexivity|]. split; [exact Hr'|apply Hclear, HP].
  - rewrite map_last_app. eexists _, _. split; [reflexivity|].
    split; [exact Hr'|apply Hgen, Hclear, HP].
Qed.

End LastMessage.

(** ** C4: the token accountant over a whole turn *)

(** every callback of the script, in the order of the awaits *)
Definition script (env : Env) : list Interrupt :=
  duringPlan env ++ duringUrl env ++ duringMolecule env ++ duringFindCode env ++
  duringOpen env ++ concat (map fst (chunks env)) ++ duringEnd env.

(** the three token fields of the accountant *)
Definition tokens_shown (u : Usage) (fullPrompt : string) (toolUsed : bool)
  (m : Msg.t) : Prop :=
  let totalPromptTokens :=
    match promptTokenCount u with Some n => n | None => 0%Z end in
  let estimate := estimateTokens fullPrompt in
  Msg.inputTokens m = Some (if toolUsed then totalPromptTokens else estimate) /\
  Msg.outputTokens m = candidatesTokenCount u /\
  Msg.systemTokens m =
    (if (negb toolUsed && Z.ltb 0 (totalPromptTokens - estimate))%bool
     then Some (totalPromptTokens - estimate)%Z else None).

Lemma usage_phase_run (cid : Id) (usage : option Usage) (p : string)
  (t : option ToolInUse) (a b c : bool) (w : World) :
  usage_phase cid usage p t a b c w =
  (Normal tt, snd (usage_phase cid usage p t a b c w)).
Proof.
  unfold usage_phase, bind, gets, when.
  destruct usage; [destruct (negb (isCancelledRef w))|]; reflexivity.
Qed.

Lemma leads_tail_tokens (cid : Id) (trace0 : list (list Convo.t)) (r : World)
  (env : Env) (isFirst : bool) (fullPrompt : string) (t : option ToolInUse)
  (a b c : bool) (u : Usage) :
  has_cancel (concat (map fst (chunks env)) ++ duringEnd env) = false ->
  streamError env = None ->
  stream_usage (chunks env) None = Some u ->
  leads (running cid trace0)
    (' (finalModelResponse, usage) <-
       stream_loop env cid isFirst (chunks env) "" false None ;;
     usage_phase cid usage fullPrompt t a b c ;;
     background_writers r cid fullPrompt finalModelResponse)
    (fun _ w =>
       isCancelledRef w = false /\
       last_is cid (tokens_shown u fullPrompt (Msg.has t || a || b || c)) w)
    (fun _ => False).
Proof.
  intros Hc He Hu w Hw.
  destruct (goes_stream_loop cid trace0 env isFirst (chunks env) Hc He "" false
              None w Hw) as (x & w1 & E1 & Hw1 & ->).
  unfold bind at 1. rewrite E1. cbv beta iota. rewrite Hu.
  destruct (running_last cid trace0 w1 Hw1) as (pre & m & Hm & Hr).
  destruct (usage_phase_accounting w1 cid u fullPrompt t a b c pre m
              (proj1 (proj2 Hw1)) Hm Hr)
    as (m' & Hm' & _ & Hin & Hout & Hsys & _).
  destruct (goes_usage_phase cid trace0 (Some u) fullPrompt t a b c w1 Hw1)
    as ([] & w2 & E2 & Hw2 & _).
  rewrite E2 in Hm'. cbn [snd] in Hm'.
  unfold bind at 1. rewrite E2.
  destruct (running_last cid trace0 w2 Hw2) as (pre2 & m2 & Hm2 & Hr2).
  rewrite Hm2 in Hm'. injection Hm' as Hm'. apply app_inj_tail in Hm' as [-> ->].
  destruct (framed_background_writers cid r fullPrompt ("" ++ stream_text (chunks env))
              w2) as ([[] Hn] & Hconv & _ & Hflag).
  destruct (background_writers r cid fullPrompt ("" ++ stream_text (chunks env)) w2)
    as [res w3].
  cbn [fst snd] in Hn, Hconv, Hflag. subst res.
  split; [rewrite Hflag; apply Hw2|].
  exists pre, m'. unfold messages_of. rewrite Hconv.
  split; [exact Hm2|]. split; [exact Hr2|]. repeat split; assumption.
Qed.

(** C4.  In a turn that starts from a settled store and completes normally
    (not cancelled, the tools succeed, the request is not empty, the stream
    opens and ends without an error) with usage metadata on some chunk, the
    settled model message shows: as [inputTokens] the total prompt token
    count of the last usage metadata if a tool was used (the URL reader, an
    image or a file attached, web search) and the estimate
    [ceil(len(prompt)/4)] otherwise; as [outputTokens] its
    [candidatesTokenCount]; as [systemTokens] the total minus the estimate
    when no tool was used and the difference is positive, and nothing
    otherwise.  With no tool, a prompt of 400 characters and 300 prompt
    tokens: [inputTokens = 100] and [systemTokens = 200]. *)
Theorem C4_token_accounting (w : World) (env : Env) (prompt : string)
  (images : option (list Image)) (file : option FileAttachment)
  (url : option string) (overrideModel : option ChatModel) (isRetry : bool)
  (cid : Id) (isFirst : bool) (convo : Convo.t) (plan : Plan.t)
  (think web : bool) (p : string) (u : Usage) :
  settled_store w ->
  send_rejected w prompt images file url = false ->
  turn_conversation w w = Some (cid, isFirst, convo) ->
  toolOverrides (selectedTool w) (planResponse (planOutcome env))
    (Plan.needsThinking (planResponse (planOutcome env)))
    (Plan.needsWebSearch (planResponse (planOutcome env))) = (plan, think, web) ->
  has_cancel (script env) = false ->
  prompt_after_molecule env plan prompt url = Some p ->
  userMessageParts images file p <> [] ->
  streamOpenError env = None ->
  streamError env = None ->
  stream_usage (chunks env) None = Some u ->
  let w' := send env prompt images file url overrideModel isRetry w in
  let toolUsed := (Plan.isUrlReadRequest plan || isImageAnalysisRequest images ||
                   Msg.has file || web_at_call plan web)%bool in
  let totalPromptTokens :=
    match promptTokenCount u with Some n => n | None => 0%Z end in
  let estimate := estimateTokens prompt in
  exists pre m,
    messages_of w' cid = Some (pre ++ [m]) /\
    Msg.role m = model /\
    Msg.inputTokens m = Some (if toolUsed then totalPromptTokens else estimate) /\
    Msg.outputTokens m = candidatesTokenCount u /\
    Msg.systemTokens m =
      (if (negb toolUsed && Z.ltb 0 (totalPromptTokens - estimate))%bool
       then Some (totalPromptTokens - estimate)%Z else None) /\
    (4 * (estimate - 1) < Z.of_nat (String.length prompt) <= 4 * estimate)%Z /\
    (toolUsed = false -> String.length prompt = 400 ->
     promptTokenCount u = Some 300%Z ->
     Msg.inputTokens m = Some 100%Z /\ Msg.systemTokens m = Some 200%Z).
Proof.
  intros Hs Hg Hc Hov Hcancel Hp Hparts Hopen Herr Hu w' toolUsed total estimate.
  destruct (send_turn w env prompt images file url overrideModel isRetry cid
              isFirst convo Hs Hg Hc) as (trace0 & w1 & Hw1 & Esend).
  unfold script in Hcancel.
  assert (Hpre : has_cancel (duringPlan env ++ duringUrl env ++ duringMolecule env ++
                             duringFindCode env ++ duringOpen env) = false /\
                 has_cancel (concat (map fst (chunks env)) ++ duringEnd env) = false).
  { rewrite !has_cancel_app in *.
    repeat (apply orb_false_iff in Hcancel as [? Hcancel]).
    split; repeat (apply orb_false_iff; split); assumption. }
  destruct Hpre as [Hpre Hstream].
  pose proof (leads_turn_body_normal cid trace0 w env isFirst convo
                (modelToUse_of w overrideModel) prompt images file url plan think
                web p _ _ Hov Hpre Hp Hparts Hopen
                (leads_tail_tokens cid trace0 w env isFirst prompt
                   (if Plan.isUrlReadRequest plan then Some url_tool else None)
                   (isImageAnalysisRequest images) (Msg.has file)
                   (web_at_call plan web) u Hstream Herr Hu) w1 Hw1) as Hbody.
  assert (Hfinal : last_is cid
                     (tokens_shown u prompt
                        (Msg.has (if Plan.isUrlReadRequest plan
                                  then Some url_tool else None) ||
                         isImageAnalysisRequest images || Msg.has file ||
                         web_at_call plan web)) w').
  { unfold w'. rewrite Esend, try_finally_state. unfold try_catch.
    destruct (turn_body w env cid isFirst convo (modelToUse_of w overrideModel)
                prompt images file url w1) as [[[]| |e] w3]; [|contradiction..].
    cbn [snd]. destruct Hbody as [Hflag Hlast].
    apply turn_finally_last; [| |exact Hflag|exact Hlast].
    - intros m (H1 & H2 & H3). unfold clear_analysis.
      destruct (Msg.flag (Msg.analysisCompleted m)); repeat split; assumption.
    - intros m t (H1 & H2 & H3). repeat split; assumption. }
  destruct Hfinal as (pre & m & Hm & Hr & Hin & Hout & Hsys).
  assert (Htool : (Msg.has (if Plan.isUrlReadRequest plan
                            then Some url_tool else None) ||
                   isImageAnalysisRequest images || Msg.has file ||
                   web_at_call plan web)%bool = toolUsed).
  { unfold toolUsed. destruct (Plan.isUrlReadRequest plan); reflexivity. }
  rewrite Htool in Hin, Hsys. fold total estimate in Hin, Hsys.
  pose proof (estimateTokens_ceil prompt) as Hceil. cbv zeta in Hceil.
  fold estimate in Hceil.
  exists pre, m.
  split; [exact Hm|]. split; [exact Hr|]. split; [exact Hin|].
  split; [exact Hout|]. split; [exact Hsys|]. split; [exact Hceil|].
  intros Ht Hlen Hp3. rewrite Hin, Hsys, Ht. subst total. rewrite Hp3.
  rewrite Hlen in Hceil. assert (estimate = 100%Z) as -> by lia.
  split; reflexivity.
Qed.

Definition usage_chunk (text : string) (prompt candidates : Z) : Chunk :=
  Build_Chunk text (Some (Build_Usage (Some prompt) (Some candidates))) None.

Lemma settled_chat_settled : settled_store settled_chat.
Proof.
  split; [reflexivity|]. split; [reflexivity|].
  intros c [<- | []]. simpl.
  split; [repeat constructor|]. split.
  - repeat constructor; simpl; intuition lia.
  - repeat constructor; simpl; lia.
Defined.

Lemma C4_token_accounting_witness :
  exists pre m,
    messages_of
      (send (calm_env (Some plain_plan) (inl "")
               [text_chunk "Sure"; usage_chunk "." 300 7])
         (replicate 400 "a") None None None None false settled_chat) 0 =
      Some (pre ++ [m]) /\
    Msg.role m = model /\
    Msg.inputTokens m = Some 100%Z /\
    Msg.outputTokens m = Some 7%Z /\
    Msg.systemTokens m = Some 200%Z.
Proof.
  destruct (C4_token_accounting settled_chat
              (calm_env (Some plain_plan) (inl "")
                 [text_chunk "Sure"; usage_chunk "." 300 7])
              (replicate 400 "a") None None None None false
              0 false
              (Convo.mk 0 "Chat"
                 [newUserMessage 1 "hi" None None None gemini_2_5_flash 0;
                  new_model_message 2 "hello" 0] 0 None None (Some []))
              (planResponse (Some plain_plan)) false false (replicate 400 "a")
              (Build_Usage (Some 300%Z) (Some 7%Z))
              settled_chat_settled eq_refl eq_refl eq_refl eq_refl eq_refl)
    as (pre & m & Hm & Hr & _ & Hout & _ & _ & Hex);
    [vm_compute; discriminate | reflexivity | reflexivity | reflexivity |].
  exists pre, m. destruct (Hex eq_refl eq_refl eq_refl) as [Hin Hsys].
  repeat split; assumption.
Defined.

(** ** C8: the title of a first turn, over the whole stream *)

(** [titleExtracted] once the chunks of [stream] have been read *)
Fixpoint extracted_after (isFirst : bool) (stream : list (list Interrupt * Chunk))
  (accumulated : string) (titleExtracted : bool) : bool :=
  match stream with
  | [] => titleExtracted
  | (_, chunk) :: rest =>
      extracted_after isFirst rest (accumulated ++ chunk_text chunk)
        (next_extracted isFirst titleExtracted (accumulated ++ chunk_text chunk))
  end.

(** an update of the messages of any conversation leaves every title alone *)
Lemma title_of_update_any (w : World) (cid target : Id)
  (f : list Msg.t -> list Msg.t) :
  title_of (snd (updateConversationMessages target f w)) cid = title_of w cid.
Proof.
  unfold title_of, updateConversationMessages, updateConversation, modify,
    find_conversation.
  cbn. induction (conversations w) as [|c cs IH]; [reflexivity|].
  cbn. destruct (Nat.eqb (Convo.id c) target); cbn;
    destruct (Nat.eqb (Convo.id c) cid); first [reflexivity|exact IH].
Qed.

Section Title.
Variable cid : Id.
Variable t : string.

Definition titled (w : World) : Prop := title_of w cid = Some t.

Lemma keeps_titled_modify (f : World -> World) :
  (forall w, conversations (f w) = conversations w) ->
  keeps titled (modify f) (fun _ => True).
Proof.
  intros Hf. apply keeps_modify. intros w Hw.
  unfold titled, title_of in *. rewrite Hf. exact Hw.
Qed.

Lemma keeps_titled_update (target : Id) (f : list Msg.t -> list Msg.t) :
  keeps titled (updateConversationMessages target f) (fun _ => True).
Proof.
  intros w Hw. split; [|trivial]. unfold titled.
  rewrite title_of_update_any. exact Hw.
Qed.

Lemma keeps_titled_randomUUID : keeps titled randomUUID (fun _ => True).
Proof. intros w Hw. split; [exact Hw|trivial]. Qed.

Ltac title_step :=
  lazymatch goal with
  | |- keeps _ (bind _ _) _ =>
      apply keeps_bind with (Q := fun _ => True); [|intros ? _]
  | |- keeps _ (ret _) _ => apply keeps_ret; exact I
  | |- keeps _ js_return _ => apply keeps_return
  | |- keeps _ (throw _) _ => apply keeps_throw
  | |- keeps _ (gets _) _ => apply keeps_gets
  | |- keeps _ randomUUID _ => apply keeps_titled_randomUUID
  | |- keeps _ (updateConversationMessages _ _) _ => apply keeps_titled_update
  | |- keeps _ (modify _) _ => apply keeps_titled_modify; intro; reflexivity
  | |- keeps _ (when _ _) _ => apply keeps_when; intros _
  | |- keeps _ (let _ := _ in _) _ => cbv zeta
  | |- keeps _ (if ?b then _ else _) _ => destruct b
  | |- keeps _ (match ?x with _ => _ end) _ => destruct x
  end.

Ltac title_walk := repeat title_step.

Lemma keeps_titled_interrupt (i : Interrupt) :
  keeps titled (interrupt i) (fun _ => True).
Proof.
  destruct i; simpl.
  - title_walk.
  - apply keeps_titled_modify. intro w. destruct (responseTimerRef w); reflexivity.
  - title_walk.
  - title_walk.
  - unfold handleCancelStream, clearThinkingIntervals, stopResponseTimer, now.
    title_walk.
Qed.

Lemma keeps_titled_await (ints : list Interrupt) :
  keeps titled (await ints) (fun _ => True).
Proof.
  induction ints as [|i ints IH]; simpl; [apply keeps_ret; exact I|].
  apply keeps_seq; [apply keeps_titled_interrupt|exact IH].
Qed.

Lemma keeps_titled_chunk_step (chunk : Chunk) (acc : string)
  (usage : option Usage) :
  keeps titled (chunk_step cid true chunk acc true usage)
    (fun x => snd (fst x) = true).
Proof.
  intros w Hw. unfold chunk_step, title_step, bind, ret, randomUUID, now, gets.
  cbn. rewrite updateConversationMessages_run. cbn [fst snd]. split.
  - unfold titled. rewrite title_of_update_any. exact Hw.
  - intros a [= <-]. reflexivity.
Qed.

(** once the title has been extracted the loop leaves it alone *)
Lemma keeps_titled_stream_loop (env : Env)
  (stream : list (list Interrupt * Chunk)) :
  forall acc usage,
    keeps titled (stream_loop env cid true stream acc true usage) (fun _ => True).
Proof.
  induction stream as [|[ints chunk] rest IH]; intros acc usage; simpl.
  - apply keeps_seq; [apply keeps_titled_await|]. title_walk.
  - apply keeps_seq; [apply keeps_titled_await|].
    apply keeps_bind with (Q := fun _ => True); [apply keeps_gets|].
    intros [|] _; [title_walk|].
    eapply keeps_bind; [apply keeps_titled_chunk_step|].
    intros [[acc' te'] usage'] Hte. simpl in Hte. subst te'. apply IH.
Qed.

Lemma keeps_titled_tail (r : World) (p response : string) (usage : option Usage)
  (tool : option ToolInUse) (a b c : bool) :
  keeps titled
    (usage_phase cid usage p tool a b c ;; background_writers r cid p response)
    (fun _ => True).
Proof. unfold usage_phase, background_writers, emit. title_walk. Qed.

Lemma keeps_titled_catch (env : Env) (e : string) :
  keeps titled (turn_catch env cid e) (fun _ => True).
Proof.
  unfold turn_catch, return_if_cancelled, emit, now. title_walk.
Qed.

End Title.

Lemma leads_state {A : Type} (c : M A) (P : World -> Prop) (w : World) :
  P (snd (c w)) ->
  match c w with
  | (Normal _, w') => P w'
  | (_, w') => P w'
  end.
Proof. destruct (c w) as [[a| |e] w']; intro H; exact H. Qed.

Section FirstTurn.
Variable cid : Id.
Variable trace0 : list (list Convo.t).

Lemma keeps_tail_inv (r : World) (p response : string) (usage : option Usage)
  (tool : option ToolInUse) (a b c : bool) :
  keeps (turn_inv cid trace0)
    (usage_phase cid usage p tool a b c ;; background_writers r cid p response)
    (fun _ => True).
Proof.
  unfold usage_phase, background_writers, emit.
  apply keeps_seq.
  - apply keeps_bind with (Q := fun _ => True); [apply keeps_gets|].
    intros cancelled _. destruct usage; [|apply keeps_ret; exact I].
    apply keeps_when. intros _. apply keeps_update. intros l Hl.
    apply in_flight_usage, Hl.
  - apply keeps_bind with (Q := fun _ => True); [apply keeps_gets|].
    intros cancelled _.
    destruct (find_conversation (conversations r) cid); [|apply keeps_ret; exact I].
    destruct cancelled; [apply keeps_ret; exact I|].
    apply keeps_seq.
    + apply keeps_when. intros _. apply keeps_when. intros _.
      apply keeps_modify_other; reflexivity.
    + apply keeps_when. intros _. apply keeps_modify_other; reflexivity.
Qed.

(** the chunks of [pre] are read, one after the other, into the accumulated
    text, the flag and the usage metadata *)
Lemma stream_loop_prefix (env : Env) (isFirst : bool)
  (rest pre : list (list Interrupt * Chunk)) :
  has_cancel (concat (map fst pre)) = false ->
  forall acc te usage w,
    running cid trace0 w ->
    exists w1,
      running cid trace0 w1 /\
      stream_loop env cid isFirst (pre ++ rest) acc te usage w =
      stream_loop env cid isFirst rest (acc ++ stream_text pre)%string
        (extracted_after isFirst pre acc te) (stream_usage pre usage) w1.
Proof.
  induction pre as [|[ints chunk] pre IH]; intros Hc acc te usage w Hw.
  - exists w. simpl. rewrite append_empty. auto.
  - simpl in Hc. rewrite has_cancel_app in Hc. apply orb_false_iff in Hc as [Hi Hc].
    cbn [app stream_loop stream_text extracted_after stream_usage].
    destruct (goes_await cid trace0 ints Hi w Hw) as ([] & w1 & E1 & Hw1 & _).
    unfold bind at 1. rewrite E1. unfold bind at 1, gets.
    rewrite (proj1 (proj2 Hw1)).
    destruct (goes_chunk_step cid trace0 isFirst chunk acc te usage w1 Hw1)
      as (x & w2 & E2 & Hw2 & ->).
    unfold bind at 1. rewrite E2. cbv beta iota.
    destruct (IH Hc (acc ++ chunk_text chunk)%string
                (next_extracted isFirst te (acc ++ chunk_text chunk))
                match usageMetadata chunk with
                | Some u => Some u
                | None => usage
                end w2 Hw2) as (w3 & Hw3 & E3).
    exists w3. split; [exact Hw3|]. rewrite E3, append_assoc. reflexivity.
Qed.

End FirstTurn.


Definition trip_env : Env :=
  calm_env (Some plain_plan) (inl "")
    [text_chunk "TITLE: Trip"; text_chunk (" Planning" ++ nl ++ "Here");
     text_chunk " is..."].


(** ** C2: a turn that is cancelled

    [handleCancelStream] raises the cancel flag and rewrites the conversation;
    the handler notices the flag after its next [await].  What the turn
    settles on is what the click wrote as long as nothing writes afterwards.
    Three callbacks of the hook do write after a click: a second click, the
    20 s watchdog (which [handleCancelStream] leaves armed), and the [catch]
    branches of the URL reader and of the molecule lookup, which do not look
    at the flag. *)

(** callbacks that write nothing once the turn is cancelled *)
Definition still (ints : list Interrupt) : bool :=
  forallb (fun i => match i with
                    | CancelClicked | WatchdogFire => false
                    | _ => true
                    end) ints.

(** at most one click on "stop", and nothing that writes after it *)
Fixpoint calm (ints : list Interrupt) : bool :=
  match ints with
  | [] => true
  | CancelClicked :: rest => still rest
  | _ :: rest => calm rest
  end.

Lemma still_app (a b : list Interrupt) :
  still (a ++ b) = (still a && still b)%bool.
Proof. apply forallb_app. Qed.

Lemma still_calm (ints : list Interrupt) : still ints = true -> calm ints = true.
Proof.
  induction ints as [|i ints IH]; [reflexivity|].
  destruct i; simpl; intro H; try discriminate H; apply IH, H.
Qed.

Lemma still_no_cancel (ints : list Interrupt) :
  still ints = true -> has_cancel ints = false.
Proof.
  induction ints as [|i ints IH]; [reflexivity|].
  destruct i; simpl; intro H; try discriminate H; apply IH, H.
Qed.

Lemma calm_app (a b : list Interrupt) :
  calm (a ++ b) = true ->
  calm a = true /\ calm b = true /\ (has_cancel a = true -> still b = true).
Proof.
  induction a as [|i a IH]; intro H.
  - split; [reflexivity|]. split; [exact H|discriminate].
  - destruct i; try exact (IH H).
    cbn [calm app] in H. rewrite still_app in H.
    apply andb_true_iff in H as [Ha Hb].
    split; [exact Ha|]. split; [apply still_calm, Hb|intros _; exact Hb].
Qed.

(** a message without transient properties *)
Definition stripped (m : Msg.t) : Prop := strip_transient m = m.

Lemma stripped_set_content (c : string) (m : Msg.t) :
  stripped m -> stripped (Msg.set_content c m).
Proof.
  unfold stripped. intro H. rewrite <- H at 2. destruct m; reflexivity.
Qed.

Lemma Forall_map_last {A : Type} (P : A -> Prop) (f : A -> A) (l : list A) :
  (forall x, P x -> P (f x)) -> Forall P l -> Forall P (map_last f l).
Proof.
  intros Hf. induction l as [|x [|y t] IH]; intro H.
  - constructor.
  - inversion H. constructor; [apply Hf; assumption|constructor].
  - inversion H as [|? ? Hx Ht]. subst.
    change (map_last f (x :: y :: t)) with (x :: map_last f (y :: t)).
    constructor; [exact Hx|apply IH, Ht].
Qed.

Lemma cancel_updater_stripped (newId : Id) (ts : Z) (l : list Msg.t) :
  Forall stripped (cancel_updater newId ts l).
Proof.
  assert (Hc : Forall stripped (map strip_transient l)).
  { apply Forall_forall. intros x Hx. apply in_map_iff in Hx as (y & <- & _).
    unfold stripped. destruct y. vm_compute. reflexivity. }
  unfold cancel_updater. cbv zeta.
  destruct (last_opt (map strip_transient l)) as [lastMessage|];
    [destruct (Msg.role lastMessage)|];
    first [ apply Forall_map_last;
            [intros x Hx; apply stripped_set_content, Hx|exact Hc]
          | apply Forall_app; split; [exact Hc|repeat constructor] ].
Qed.

Lemma map_fixed {A : Type} (f : A -> A) (l : list A) :
  Forall (fun x => f x = x) l -> map f l = l.
Proof.
  induction 1 as [|x l Hx _ IH]; [reflexivity|]. simpl. rewrite Hx, IH. reflexivity.
Qed.

Lemma image_analysis_done_stripped (l : list Msg.t) :
  Forall stripped l -> map image_analysis_done l = l.
Proof.
  intro H. apply map_fixed. eapply Forall_impl; [|exact H].
  intros m Hm. unfold image_analysis_done.
  assert (E : Msg.isAnalyzingImage m = None) by (rewrite <- Hm; reflexivity).
  rewrite E. cbn. rewrite andb_false_r. reflexivity.
Qed.

Lemma file_analysis_done_stripped (l : list Msg.t) :
  Forall stripped l -> map file_analysis_done l = l.
Proof.
  intro H. apply map_fixed. eapply Forall_impl; [|exact H].
  intros m Hm. unfold file_analysis_done.
  assert (E : Msg.isAnalyzingFile m = None) by (rewrite <- Hm; reflexivity).
  rewrite E. reflexivity.
Qed.

Lemma turn_finally_cancelled (cid : Id) (w : World) :
  isCancelledRef w = true ->
  conversations (snd (turn_finally cid w)) = conversations w /\
  trace (snd (turn_finally cid w)) = trace w.
Proof.
  intro H.
  unfold turn_finally, stopResponseTimer, clearThinkingIntervals, now, when,
    bind, modify, gets.
  cbn. rewrite H. cbn. split; reflexivity.
Qed.

Section Stopping.
Variable cid : Id.
Variable trace0 : list (list Convo.t).

(** what a click on "stop" makes of the store *)
Definition cancel_store (newId : Id) (ts : Z) (cs : list Convo.t) : list Convo.t :=
  map (fun c => if Nat.eqb (Convo.id c) cid
                then Convo.set_messages
                       (cancel_updater newId ts (Convo.messages c)) c
                else c) cs.

(** the turn has been cancelled: the store is what the click made of the
    store [before] it, whose conversation ended with the in-flight model
    message, and every write since has written the same store again *)
Definition stopped (w : World) : Prop :=
  isCancelledRef w = true /\ activeConversationId w = Some cid /\
  thinkingTimerRef w = None /\
  exists n before newId ts,
    (exists older, trace w = repeat (conversations w) (S n) ++ before :: older) /\
    conversations w = cancel_store newId ts before /\
    exists pre m,
      option_map Convo.messages (find_conversation before cid) =
        Some (pre ++ [m]) /\
      Msg.role m = model.

Definition halted (w : World) : Prop := running cid trace0 w \/ stopped w.

(** [mode true]: the turn may have been cancelled *)
Definition mode (s : bool) (w : World) : Prop :=
  if s then halted w else running cid trace0 w.

Lemma cancel_store_find (newId : Id) (ts : Z) (cs : list Convo.t) :
  find_conversation (cancel_store newId ts cs) cid =
  option_map (fun c => Convo.set_messages
                         (cancel_updater newId ts (Convo.messages c)) c)
    (find_conversation cs cid).
Proof. unfold cancel_store. apply find_conversation_map. reflexivity. Qed.

Lemma stopped_hook (w w' : World) :
  activeConversationId w' = activeConversationId w ->
  conversations w' = conversations w ->
  trace w' = trace w \/ trace w' = conversations w :: trace w ->
  isCancelledRef w' = isCancelledRef w ->
  thinkingTimerRef w' = None \/ thinkingTimerRef w' = thinkingTimerRef w ->
  stopped w -> stopped w'.
Proof.
  intros Ha Hc Ht Hf Hth
    (Hf0 & Ha0 & Hth0 & n & before & newId & ts & (older & Htr) & Hcs & Hlast).
  split; [congruence|]. split; [congruence|].
  split; [destruct Hth; congruence|].
  destruct Ht as [Ht | Ht].
  - exists n, before, newId, ts. rewrite Hc, Ht.
    split; [exists older; exact Htr|]. split; assumption.
  - exists (S n), before, newId, ts. rewrite Hc, Ht, Htr.
    split; [exists older; reflexivity|]. split; assumption.
Qed.

Lemma cancel_stops (w : World) :
  running cid trace0 w -> stopped (snd (handleCancelStream w)).
Proof.
  intro Hw. destruct (running_last cid trace0 w Hw) as (pre & m & Hm & Hr).
  destruct Hw as ((Ha & _) & _ & (older & Hh) & _).
  unfold handleCancelStream, clearThinkingIntervals, stopResponseTimer,
    updateConversationMessages, updateConversation, randomUUID, now, bind,
    modify, gets.
  cbn. rewrite Ha. cbn.
  split; [reflexivity|]. split; [first [reflexivity|exact Ha]|].
  split; [reflexivity|].
  exists 0, (conversations w), (nextId w), (clock w).
  split; [exists older; rewrite Hh; reflexivity|]. split; [reflexivity|].
  exists pre, m. split; [exact Hm|exact Hr].
Qed.

Lemma stopped_update (f : list Msg.t -> list Msg.t) (w : World) :
  (forall l, Forall stripped l -> f l = l) ->
  stopped w -> stopped (snd (updateConversationMessages cid f w)).
Proof.
  intros Hfix Hw.
  assert (Hcs : conversations (snd (updateConversationMessages cid f w)) =
                conversations w).
  { destruct Hw as (_ & _ & _ & n & before & newId & ts & _ & Hcs & _).
    change (conversations (snd (updateConversationMessages cid f w))) with
      (map (fun c => if Nat.eqb (Convo.id c) cid
                     then Convo.set_messages (f (Convo.messages c)) c else c)
         (conversations w)).
    rewrite Hcs. unfold cancel_store. rewrite map_map. apply map_ext.
    intro c.
    pose proof (Hfix _ (cancel_updater_stripped newId ts (Convo.messages c)))
      as HX.
    generalize dependent (cancel_updater newId ts (Convo.messages c)).
    intros X HX. destruct c as [i t ms u s g sm]. cbn.
    destruct (Nat.eqb i cid) eqn:E; cbn; rewrite E; [|reflexivity].
    rewrite HX. reflexivity. }
  revert Hw. apply stopped_hook.
  - reflexivity.
  - exact Hcs.
  - right.
    change (trace (snd (updateConversationMessages cid f w))) with
      (conversations (snd (updateConversationMessages cid f w)) :: trace w).
    rewrite Hcs. reflexivity.
  - reflexivity.
  - right. reflexivity.
Qed.

End Stopping.

Ltac stopped_side :=
  let w := fresh "w" in
  let Hw := fresh "Hw" in
  intros w Hw;
  apply (stopped_hook _ w); try reflexivity; try exact Hw;
  first [left; reflexivity | right; reflexivity].

Section Stops.
Variable cid : Id.
Variable trace0 : list (list Convo.t).

Lemma stopped_interrupt (i : Interrupt) (w : World) :
  still [i] = true -> stopped cid w -> stopped cid (snd (interrupt i w)).
Proof.
  intros Hi Hw. destruct i; try discriminate Hi.
  - revert w Hw. simpl. unfold modify. cbn [snd]. stopped_side.
  - simpl. unfold modify. cbn [snd].
    destruct (responseTimerRef w); [|exact Hw].
    revert w Hw. stopped_side.
  - unfold interrupt, bind, gets.
    rewrite (proj1 (proj2 (proj2 Hw))). exact Hw.
Qed.

Lemma stopped_await (ints : list Interrupt) (w : World) :
  still ints = true -> stopped cid w -> stopped cid (snd (await ints w)).
Proof.
  revert w. induction ints as [|i ints IH]; intros w H Hw; [exact Hw|].
  rewrite await_cons. change (i :: ints) with ([i] ++ ints) in H.
  rewrite still_app in H. apply andb_true_iff in H as [Hi H].
  apply IH; [exact H|]. apply stopped_interrupt; assumption.
Qed.

Lemma running_await (ints : list Interrupt) (w : World) :
  has_cancel ints = false ->
  running cid trace0 w -> running cid trace0 (snd (await ints w)).
Proof.
  intros H Hw.
  destruct (goes_await cid trace0 ints H w Hw) as ([] & w' & E & Hw' & _).
  rewrite E. exact Hw'.
Qed.

Lemma halted_await_running (ints : list Interrupt) (w : World) :
  calm ints = true ->
  running cid trace0 w -> halted cid trace0 (snd (await ints w)).
Proof.
  revert w. induction ints as [|i ints IH]; intros w H Hw; [left; exact Hw|].
  rewrite await_cons.
  assert (Hgo : i <> CancelClicked -> calm ints = true ->
                halted cid trace0 (snd (await ints (snd (interrupt i w))))).
  { intros Hi Hc. apply IH; [exact Hc|].
    destruct (goes_interrupt cid trace0 i Hi w Hw) as ([] & w' & E & Hw' & _).
    rewrite E. exact Hw'. }
  destruct i; try (apply Hgo; [discriminate|exact H]).
  right. apply stopped_await; [exact H|]. apply (cancel_stops cid trace0), Hw.
Qed.

Lemma halted_await (ints : list Interrupt) (w : World) :
  still ints = true ->
  halted cid trace0 w -> halted cid trace0 (snd (await ints w)).
Proof.
  intros H [Hr | Hs].
  - left. apply running_await; [apply still_no_cancel, H|exact Hr].
  - right. apply stopped_await; assumption.
Qed.

(** [await] from a state that may be cancelled already ([s]) *)
Lemma halts_await (s : bool) (ints : list Interrupt) (E : World -> Prop) :
  (if s then still ints else calm ints) = true ->
  leads (mode cid trace0 s) (await ints) (fun _ => halted cid trace0) E.
Proof.
  intros H w Hw. rewrite await_eq.
  destruct s; [apply halted_await|apply halted_await_running]; assumption.
Qed.

Lemma halts_check :
  leads (halted cid trace0) return_if_cancelled
    (fun _ => running cid trace0) (halted cid trace0).
Proof.
  intros w [Hr | Hs]; unfold return_if_cancelled, bind, gets.
  - rewrite (proj1 (proj2 Hr)). exact Hr.
  - rewrite (proj1 Hs). right. exact Hs.
Qed.

Lemma halts_modify (s : bool) (f : World -> World) (E : World -> Prop) :
  (forall w, running cid trace0 w -> running cid trace0 (f w)) ->
  (forall w, stopped cid w -> stopped cid (f w)) ->
  leads (mode cid trace0 s) (modify f) (fun _ => mode cid trace0 s) E.
Proof.
  intros Hr Hs w Hw. unfold modify.
  destruct s; cbn [mode] in *; [destruct Hw; [left|right]|]; auto.
Qed.

Lemma halts_update (s : bool) (f : list Msg.t -> list Msg.t) (E : World -> Prop) :
  (forall l, in_flight l -> in_flight (f l)) ->
  (forall l, Forall stripped l -> f l = l) ->
  leads (mode cid trace0 s) (updateConversationMessages cid f)
    (fun _ => mode cid trace0 s) E.
Proof.
  intros Hin Hfix w Hw. rewrite updateConversationMessages_run.
  assert (Hr : running cid trace0 w ->
               running cid trace0 (snd (updateConversationMessages cid f w))).
  { apply (running_updateConversation cid trace0
             (fun c => Convo.set_messages (f (Convo.messages c)) c));
      [reflexivity|]. intros c Hc. apply Hin, Hc. }
  pose proof (stopped_update cid f w Hfix) as Hs.
  destruct s; cbn [mode] in *; [destruct Hw; [left|right]|]; auto.
Qed.

Lemma halts_url_phase (env : Env) (fullPrompt : string) (url : option string) :
  calm (duringUrl env) = true ->
  (forall e, urlOutcome env = inr e -> has_cancel (duringUrl env) = false) ->
  leads (running cid trace0) (url_phase env cid fullPrompt url)
    (fun _ => running cid trace0) (halted cid trace0).
Proof.
  intros Hcalm Hfail. unfold url_phase, emit.
  assert (Hexit : forall w, running cid trace0 w -> halted cid trace0 w)
    by (intros w Hw; left; exact Hw).
  destruct url as [u|]; [destruct (truthy u)|].
  - apply leads_goes with (Q := fun _ => True); [goes_auto|]. intros _ _.
    apply leads_goes with (Q := fun _ => True); [goes_auto|]. intros _ _.
    destruct (urlOutcome env) as [content|e] eqn:Ho.
    + apply leads_seq with (P' := halted cid trace0);
        [apply (halts_await false); exact Hcalm|].
      apply leads_seq with (P' := running cid trace0); [apply halts_check|].
      apply leads_ret. auto.
    + apply leads_goes with (Q := fun _ => True);
        [apply goes_await; exact (Hfail e eq_refl)|]. intros _ _.
      apply leads_goes with (Q := fun _ => True);
        [apply goes_handleToolError|]. intros _ _.
      apply leads_return. exact Hexit.
  - apply leads_goes with (Q := fun _ => True);
      [apply goes_handleToolError|]. intros _ _.
    apply leads_return. exact Hexit.
  - apply leads_goes with (Q := fun _ => True);
      [apply goes_handleToolError|]. intros _ _.
    apply leads_return. exact Hexit.
Qed.

Lemma halts_molecule_phase (env : Env) (fullPrompt : string) (plan : Plan.t) :
  calm (duringMolecule env) = true ->
  (forall e, moleculeOutcome env = inl e ->
             has_cancel (duringMolecule env) = false) ->
  leads (running cid trace0) (molecule_phase env cid fullPrompt plan)
    (fun _ => running cid trace0) (halted cid trace0).
Proof.
  intros Hcalm Hfail. unfold molecule_phase, emit, stopResponseTimer. cbv zeta.
  apply leads_goes with (Q := fun _ => True); [goes_auto|]. intros _ _.
  apply leads_goes with (Q := fun _ => True); [goes_auto|]. intros _ _.
  destruct (moleculeOutcome env) as [e|d] eqn:Ho.
  - apply leads_goes with (Q := fun _ => True);
      [apply goes_await; exact (Hfail e eq_refl)|]. intros _ _.
    apply leads_goes with (Q := fun _ => True); [goes_auto|]. intros _ _.
    apply leads_goes with (Q := fun _ => True); [goes_auto|]. intros _ _.
    apply leads_goes with (Q := fun _ => True); [goes_auto|]. intros _ _.
    apply leads_goes with (Q := fun _ => True); [goes_auto|]. intros _ _.
    apply leads_return. intros w Hw. left. exact Hw.
  - apply leads_seq with (P' := halted cid trace0);
      [apply (halts_await false); exact Hcalm|].
    apply leads_seq with (P' := running cid trace0); [apply halts_check|].
    apply leads_goes with (Q := fun _ => True); [goes_auto|]. intros _ _.
    apply leads_ret. auto.
Qed.

(** the stream loop, entered in a state that may be cancelled already *)
Lemma halts_stream_loop (env : Env) (isFirst : bool)
  (stream : list (list Interrupt * Chunk)) :
  forall (s : bool) acc te usage,
    (if s then still (concat (map fst stream) ++ duringEnd env)
     else calm (concat (map fst stream) ++ duringEnd env)) = true ->
    leads (mode cid trace0 s) (stream_loop env cid isFirst stream acc te usage)
      (fun _ => halted cid trace0) (halted cid trace0).
Proof.
  induction stream as [|[ints chunk] rest IH]; intros s acc te usage H; simpl.
  - apply leads_seq with (P' := halted cid trace0);
      [apply halts_await; exact H|].
    destruct (streamError env); [apply leads_throw|apply leads_ret]; auto.
  - simpl in H. rewrite <- app_assoc in H.
    set (tl := concat (map fst rest) ++ duringEnd env) in *.
    assert (Hparts : (if s then still ints else calm ints) = true /\
                     (if (s || has_cancel ints)%bool then still tl else calm tl)
                     = true).
    { destruct s; simpl.
      - rewrite still_app in H. apply andb_true_iff in H. exact H.
      - apply calm_app in H as (Hi & Ht & Hc). split; [exact Hi|].
        destruct (has_cancel ints); [apply Hc; reflexivity|exact Ht]. }
    destruct Hparts as [Hi Ht].
    apply leads_seq with (P' := halted cid trace0);
      [apply halts_await; exact Hi|].
    apply leads_bind with
      (Q := fun (b : bool) w =>
              if b then halted cid trace0 w else running cid trace0 w).
    { intros w [Hr | Hs]; unfold gets.
      - rewrite (proj1 (proj2 Hr)). exact Hr.
      - rewrite (proj1 Hs). right. exact Hs. }
    intros [|]; [apply leads_ret; auto|].
    eapply leads_goes; [apply goes_chunk_step|]. intros x ->. cbv beta iota.
    eapply leads_weaken; [apply (IH _ _ _ _ Ht)| |auto|auto].
    intros w Hw. destruct (s || has_cancel ints)%bool; [left|]; exact Hw.
Qed.

(** the end of the [try] block *)
Lemma halts_tail (r : World) (usage : option Usage) (fullPrompt response : string)
  (t : option ToolInUse) (a b c : bool) :
  leads (halted cid trace0)
    (usage_phase cid usage fullPrompt t a b c ;;
     background_writers r cid fullPrompt response)
    (fun _ => halted cid trace0) (halted cid trace0).
Proof.
  apply leads_seq with (P' := halted cid trace0).
  - intros w [Hr | Hs].
    + destruct (goes_usage_phase cid trace0 usage fullPrompt t a b c w Hr)
        as ([] & w' & E & Hw' & _).
      rewrite E. left. exact Hw'.
    + unfold usage_phase, bind, gets, when. rewrite (proj1 Hs).
      destruct usage; right; exact Hs.
  - intros w [Hr | Hs].
    + destruct (goes_background_writers cid trace0 r fullPrompt response w Hr)
        as ([] & w' & E & Hw' & _).
      rewrite E. left. exact Hw'.
    + unfold background_writers, bind, gets. rewrite (proj1 Hs).
      destruct (find_conversation (conversations r) cid); right; exact Hs.
Qed.

Lemma halts_turn_catch (env : Env) (e : string) :
  leads (halted cid trace0) (turn_catch env cid e)
    (fun _ => halted cid trace0) (halted cid trace0).
Proof.
  unfold turn_catch, emit, now.
  apply leads_seq with (P' := running cid trace0); [apply halts_check|].
  apply leads_goes with (Q := fun _ => True); [goes_auto|]. intros _ _.
  apply leads_goes with (Q := fun _ => True); [goes_auto|]. intros _ _.
  apply leads_goes with (Q := fun _ => True); [apply goes_randomUUID|].
  intros newId _.
  apply leads_goes with (Q := fun _ => True); [apply goes_gets|]. intros ts _.
  intros w Hw.
  destruct (goes_update cid trace0 (error_updater (friendlyMessage env e) newId ts)
              (fun l Hl => in_flight_error _ _ _ l Hl) w Hw)
    as ([] & w' & E & Hw' & _).
  rewrite E. left. exact Hw'.
Qed.

(** the [try] block ends cancelled, with what the click wrote, or running *)
Lemma halts_turn_body (r : World) (env : Env) (isFirst : bool) (convo : Convo.t)
  (modelToUse : ChatModel) (fullPrompt : string) (images : option (list Image))
  (file : option FileAttachment) (url : option string) :
  calm (script env) = true ->
  (forall e, urlOutcome env = inr e -> has_cancel (duringUrl env) = false) ->
  (forall e, moleculeOutcome env = inl e ->
             has_cancel (duringMolecule env) = false) ->
  leads (running cid trace0)
    (turn_body r env cid isFirst convo modelToUse fullPrompt images file url)
    (fun _ => halted cid trace0) (halted cid trace0).
Proof.
  intros Hcalm Hurl Hmol. unfold script in Hcalm.
  apply calm_app in Hcalm as (Hplan & Hcalm & _).
  apply calm_app in Hcalm as (Hu & Hcalm & _).
  apply calm_app in Hcalm as (Hm & Hcalm & _).
  apply calm_app in Hcalm as (Hfc & Hcalm & _).
  apply calm_app in Hcalm as (Hopen & Hstream & Hafter).
  assert (Hexit : forall w, running cid trace0 w -> halted cid trace0 w)
    by (intros w Hw; left; exact Hw).
  unfold turn_body, emit.
  apply leads_goes with (Q := fun _ => True); [goes_auto|]. intros _ _.
  apply leads_seq with (P' := halted cid trace0);
    [apply (halts_await false); exact Hplan|].
  apply leads_seq with (P' := running cid trace0); [apply halts_check|].
  destruct (toolOverrides (selectedTool r) (planResponse (planOutcome env))
              (Plan.needsThinking (planResponse (planOutcome env)))
              (Plan.needsWebSearch (planResponse (planOutcome env))))
    as [[plan think] web].
  fold (isImageAnalysisRequest images).
  apply leads_goes with (Q := fun _ => True); [goes_auto|]. intros _ _.
  apply leads_goes with (Q := fun _ => True); [goes_auto|]. intros _ _.
  apply leads_goes with (Q := fun _ => True); [goes_auto|]. intros _ _.
  apply leads_bind with (Q := fun _ => running cid trace0).
  { match goal with |- context [if ?b then url_phase _ _ _ _ else _] =>
      destruct b end;
      [apply halts_url_phase; assumption|apply leads_ret; auto]. }
  intro p0.
  apply leads_bind with (Q := fun _ => running cid trace0).
  { match goal with |- context [if ?b then bind (molecule_phase _ _ _ _) _ else _] =>
      destruct b end; [|apply leads_ret; auto].
    apply leads_bind with (Q := fun _ => running cid trace0);
      [apply halts_molecule_phase; assumption|].
    intro p1. apply leads_ret. auto. }
  intros [[p web'] think'].
  apply leads_goes with (Q := fun _ => True); [goes_auto|]. intros _ _.
  apply leads_goes with (Q := fun _ => True); [goes_auto|]. intros _ _.
  apply leads_goes with (Q := fun _ => True); [goes_auto|]. intros _ _.
  apply leads_seq with (P' := running cid trace0).
  { apply leads_when. intros _.
    apply leads_goes with (Q := fun _ => True); [goes_auto|]. intros _ _.
    apply leads_seq with (P' := halted cid trace0);
      [apply (halts_await false); exact Hfc|].
    apply halts_check. }
  apply leads_seq with (P' := running cid trace0).
  { destruct (Nat.eqb (length (userMessageParts images file p)) 0);
      [apply leads_throw; exact Hexit|apply leads_ret; auto]. }
  apply leads_goes with (Q := fun _ => True). { destruct web'; goes_auto. }
  intros _ _.
  set (s := has_cancel (duringOpen env)).
  assert (Hs : (if s then still (concat (map fst (chunks env)) ++ duringEnd env)
                else calm (concat (map fst (chunks env)) ++ duringEnd env))
               = true).
  { unfold s. destruct (has_cancel (duringOpen env));
      [apply Hafter; reflexivity|exact Hstream]. }
  assert (Hmode : forall w, mode cid trace0 s w -> halted cid trace0 w).
  { intros w Hw. destruct s; [exact Hw|left; exact Hw]. }
  apply leads_seq with (P' := mode cid trace0 s).
  { intros w Hw. rewrite await_eq. unfold s.
    destruct (has_cancel (duringOpen env)) eqn:Hc; cbn [mode].
    - apply halted_await_running; assumption.
    - apply running_await; assumption. }
  apply leads_seq with (P' := mode cid trace0 s).
  { destruct (streamOpenError env);
      [apply leads_throw; exact Hmode|apply leads_ret; auto]. }
  apply leads_seq with (P' := mode cid trace0 s);
    [apply halts_modify; [hook|stopped_side]|].
  apply leads_seq with (P' := mode cid trace0 s);
    [apply halts_modify; [hook|stopped_side]|].
  apply leads_seq with (P' := mode cid trace0 s).
  { apply leads_when. intros _. unfold clearThinkingIntervals.
    apply halts_modify; [hook|stopped_side]. }
  apply leads_seq with (P' := mode cid trace0 s).
  { apply leads_when. intros _. apply halts_modify; [hook|stopped_side]. }
  apply leads_seq with (P' := mode cid trace0 s).
  { apply leads_when. intros _. apply halts_update.
    - in_flight_side.
    - apply image_analysis_done_stripped. }
  apply leads_seq with (P' := mode cid trace0 s).
  { apply leads_when. intros _. apply halts_update.
    - in_flight_side.
    - apply file_analysis_done_stripped. }
  apply leads_bind with (Q := fun _ => halted cid trace0);
    [apply halts_stream_loop; exact Hs|].
  intros [response usage]. apply halts_tail.
Qed.

End Stops.

(** [handleSendMessage] up to the entry of its [finally] block: the
    statements of lines 154-595, the [try] and the [catch] block included *)
Definition before_finally (r : World) (env : Env) (prompt : string)
  (images : option (list Image)) (file : option FileAttachment)
  (url : option string) (overrideModel : option ChatModel) (isRetry : bool)
  : M unit :=
  let fullPrompt := prompt in
  if send_rejected r fullPrompt images file url then js_return
  else
    let modelToUse :=
      match overrideModel with Some m => m | None => selectedChatModel r end in
    ' (currentConversationId, isFirstTurnInConversation, conversationForThisTurn) <-
      resolve_conversation r ;;
    start_turn currentConversationId modelToUse fullPrompt images file url isRetry ;;
    try_catch
      (turn_body r env currentConversationId isFirstTurnInConversation
         conversationForThisTurn modelToUse fullPrompt images file url)
      (turn_catch env currentConversationId).

(** the turn ends cancelled: the [finally] block finds the cancel flag up *)
Definition ends_cancelled (env : Env) (prompt : string)
  (images : option (list Image)) (file : option FileAttachment)
  (url : option string) (overrideModel : option ChatModel) (isRetry : bool)
  (w : World) : bool :=
  isCancelledRef
    (snd (before_finally w env prompt images file url overrideModel isRetry w)).

(** C2 (as amended).  Take a turn that starts from a settled store and ends
    cancelled, in which "stop" is clicked once, the watchdog does not fire
    after the click, and the click does not fall into a URL fetch or a
    molecule lookup that then fails.  Let [before] be the store at the click
    and [T] the content of the in-flight model message, the last message [m]
    of the conversation in [before].  Then what the click wrote is the last
    thing written: every later snapshot of the trace is the final store.  In
    the final store the other messages of the conversation are those of
    [before] with their transient properties removed, and the last message
    [m'] is [m] with its transient properties removed and a new content:
    [trim T], a blank line and the stop notice if [T] is not blank (for
    "Hello": "Hello\n\n*Response generation stopped.*"), and exactly the stop
    notice if [T] is empty or white space only.  No message of the
    conversation carries a transient property, loading is off and the tickers
    are stopped. *)
Theorem C2_cancel_settles (w : World) (env : Env) (prompt : string)
  (images : option (list Image)) (file : option FileAttachment)
  (url : option string) (overrideModel : option ChatModel) (isRetry : bool)
  (cid : Id) (isFirst : bool) (convo : Convo.t) :
  settled_store w ->
  send_rejected w prompt images file url = false ->
  turn_conversation w w = Some (cid, isFirst, convo) ->
  calm (script env) = true ->
  (forall e, urlOutcome env = inr e -> has_cancel (duringUrl env) = false) ->
  (forall e, moleculeOutcome env = inl e ->
             has_cancel (duringMolecule env) = false) ->
  ends_cancelled env prompt images file url overrideModel isRetry w = true ->
  let w' := send env prompt images file url overrideModel isRetry w in
  exists n before older pre m m',
    trace w' = repeat (conversations w') (S n) ++ before :: older /\
    option_map Convo.messages (find_conversation before cid) = Some (pre ++ [m]) /\
    Msg.role m = model /\
    messages_of w' cid = Some (map strip_transient pre ++ [m']) /\
    m' = Msg.set_content (Msg.content m') (strip_transient m) /\
    (trim (Msg.content m) <> "" ->
     Msg.content m' = (trim (Msg.content m) ++ nl ++ nl ++ stop_notice)%string) /\
    (trim (Msg.content m) = "" -> Msg.content m' = stop_notice) /\
    (Msg.content m = "Hello" ->
     Msg.content m' = ("Hello" ++ nl ++ nl ++ "*Response generation stopped.*")%string) /\
    (Msg.content m = "" -> Msg.content m' = "*Response generation stopped.*") /\
    Forall no_transient (map strip_transient pre ++ [m']) /\
    isLoading w' = false /\ responseTimerRef w' = false /\
    thinkingTimerRef w' = None /\ isThinking w' = false.
Proof.
  intros Hs Hg Hc Hcalm Hurl Hmol Hcan w'.
  destruct (turn_start w prompt images file url overrideModel isRetry cid isFirst
              convo Hs Hc) as (trace0 & w1 & Hw1 & Hk).
  set (body := try_catch
                 (turn_body w env cid isFirst convo (modelToUse_of w overrideModel)
                    prompt images file url)
                 (turn_catch env cid)).
  assert (Hsend : send env prompt images file url overrideModel isRetry w =
                  snd (turn_finally cid (snd (body w1)))).
  { unfold send, handleSendMessage. rewrite Hg, <- try_finally_state.
    exact (Hk (fun c i cv =>
                 try_finally
                   (try_catch
                      (turn_body w env c i cv (modelToUse_of w overrideModel)
                         prompt images file url)
                      (turn_catch env c))
                   (turn_finally c))). }
  assert (Hflag : isCancelledRef (snd (body w1)) = true).
  { rewrite <- Hcan. unfold ends_cancelled, before_finally. rewrite Hg.
    f_equal. symmetry.
    exact (Hk (fun c i cv =>
                 try_catch
                   (turn_body w env c i cv (modelToUse_of w overrideModel)
                      prompt images file url)
                   (turn_catch env c))). }
  assert (Hhalt : halted cid trace0 (snd (body w1))).
  { pose proof (leads_try_catch _ _ _ _ _
                  (halts_turn_body cid trace0 w env isFirst convo
                     (modelToUse_of w overrideModel) prompt images file url
                     Hcalm Hurl Hmol)
                  (halts_turn_catch cid trace0 env) w1 Hw1) as H.
    fold body in H. destruct (body w1) as [[[]| |e] w2]; exact H. }
  destruct Hhalt as [Hr | Hst];
    [rewrite (proj1 (proj2 Hr)) in Hflag; discriminate Hflag|].
  destruct Hst as (_ & _ & _ & n & before & newId & ts & (older & Htr) & Hcs &
                   pre & m & Hm & Hr).
  destruct (turn_finally_cancelled cid (snd (body w1)) Hflag) as (Hconv & Htrace).
  destruct (turn_finally_at_rest cid (snd (body w1)))
    as (_ & Hload & Hresp & _ & Hth & Hthink & _).
  unfold w'. rewrite Hsend.
  exists n, before, older, pre, m.
  eexists. split; [rewrite Htrace, Hconv; exact Htr|].
  split; [exact Hm|]. split; [exact Hr|].
  split.
  { unfold messages_of. rewrite Hconv, Hcs, cancel_store_find.
    destruct (find_conversation before cid) as [c|]; [|discriminate Hm].
    cbn [option_map] in Hm |- *. injection Hm as Hm.
    cbn [Convo.messages Convo.set_messages]. rewrite Hm.
    rewrite (cancel_updater_model _ _ _ _ Hr). reflexivity. }
  cbn [Msg.content Msg.set_content].
  split. { destruct m; reflexivity. }
  split. { intro Hne. apply truthy_true in Hne. rewrite Hne. reflexivity. }
  split. { intro He. apply truthy_false in He. rewrite He. reflexivity. }
  split. { intro He. rewrite He. reflexivity. }
  split. { intro He. rewrite He. reflexivity. }
  split.
  { apply Forall_app. split.
    - apply Forall_forall. intros x Hx. apply in_map_iff in Hx as (y & <- & _).
      apply strip_transient_no_transient.
    - constructor; [|constructor]. repeat split. }
  split; [exact Hload|]. split; [exact Hresp|]. split; [exact Hth|exact Hthink].
Qed.

Lemma C2_cancel_settles_witness :
  exists pre m',
    messages_of
      (send (cancel_after "Hello" " world") "hey" None None None None false
         settled_chat) 0 = Some (pre ++ [m']) /\
    Msg.content m' =
      ("Hello" ++ nl ++ nl ++ "*Response generation stopped.*")%string /\
    Forall no_transient (pre ++ [m']).
Proof.
  destruct (C2_cancel_settles settled_chat (cancel_after "Hello" " world") "hey"
              None None None None false 0 false
              (Convo.mk 0 "Chat"
                 [newUserMessage 1 "hi" None None None gemini_2_5_flash 0;
                  new_model_message 2 "hello" 0] 0 None None (Some []))
              settled_chat_settled eq_refl eq_refl eq_refl)
    as (n & before & older & pre & m & m' & Htr & Hm & _ & Hm' & _ & _ & _ &
        Hhello & _ & Hall & _);
    [discriminate | reflexivity | reflexivity |].
  assert (Hbefore : option_map
                      (fun c => option_map Msg.content (last_opt (Convo.messages c)))
                      (find_conversation before 0) = Some (Some "Hello")).
  { destruct n as [|n]; vm_compute in Htr.
    - injection Htr as <- _. reflexivity.
    - injection Htr as Hx _. discriminate Hx. }
  assert (Hcontent : Msg.content m = "Hello").
  { destruct (find_conversation before 0) as [c|]; [|discriminate Hm].
    cbn [option_map] in Hm, Hbefore. injection Hm as Hm. rewrite Hm in Hbefore.
    rewrite last_opt_app in Hbefore. injection Hbefore as Hb. exact Hb. }
  exists (map strip_transient pre), m'.
  split; [exact Hm'|]. split; [exact (Hhello Hcontent)|exact Hall].
Defined.

(** The three writers that can follow a click.  A URL fetch that fails after
    the click puts the tool error over the stop notice; a watchdog that fires
    after the click marks the settled message as a long tool use again; a
    second click appends the stop notice a second time. *)
Example cancel_then_tool_failure :
  let env := Build_Env (Some plain_plan) [] (inr "fetch failed") [CancelClicked]
               (inl "not found") [] [] [] None [] [([], text_chunk "late")] []
               None (fun e => e) in
  let w' := send env "read it" None None (Some "https://example.org") None false
              (with_tool urlReader settled_chat) in
  ends_cancelled env "read it" None None (Some "https://example.org") None false
    (with_tool urlReader settled_chat) = true /\
  option_map (map Msg.content) (messages_of w' 0) =
    Some ["hi"; "hello"; "read it";
          "Sorry, I couldn't use that tool. Error: fetch failed"].
Proof. vm_compute. split; reflexivity. Qed.

Example cancel_then_watchdog :
  let env := Build_Env (Some plain_plan) [] (inl "") [] (inl "not found") [] []
               [] None [CancelClicked; WatchdogFire] [([], text_chunk "late")] []
               None (fun e => e) in
  let w' := send env "hey" None None None None false settled_chat in
  ends_cancelled env "hey" None None None None false settled_chat = true /\
  option_map (map Msg.content) (messages_of w' 0) =
    Some ["hi"; "hello"; "hey"; "*Response generation stopped.*"] /\
  option_map (map Msg.isLongToolUse) (messages_of w' 0) =
    Some [None; None; None; Some true].
Proof. vm_compute. repeat split. Qed.

Example cancel_twice :
  let env := Build_Env (Some plain_plan) [] (inl "") [] (inl "not found") [] []
               [] None []
               [([], text_chunk "Hello");
                ([CancelClicked; CancelClicked], text_chunk "late")] []
               None (fun e => e) in
  option_map (map Msg.content)
    (messages_of (send env "hey" None None None None false settled_chat) 0) =
    Some ["hi"; "hello"; "hey";
          "Hello" ++ nl ++ nl ++ "*Response generation stopped.*" ++ nl ++ nl ++
          "*Response generation stopped.*"]%string.
Proof. vm_compute. reflexivity. Qed.
